(** * Renomear-Comprovantes: extraction, validation and naming core

    A shallow embedding of the two scripts of the repository,
    [renomear_comprovantes_sanitized.py] and
    [renomear_comprovantes_v16_bradesco_pix.py], and the properties of
    their text normaliser, name validator, amount and beneficiary
    extractors, payer classifier, occurrence counter and file-name builder.

    Python strings are sequences of Unicode code points; they are modelled
    as lists of [N].  The facts of the Unicode character database and of
    [float()] that the scripts rely on are gathered in two interfaces
    ([UnicodeData] and [FloatParse]); general theorems hold for every
    implementation of these interfaces, and the concrete evaluations use the
    Latin-1 instance defined below. *)

From Stdlib Require Import NArith ZArith QArith List String Ascii Bool Lia Arith.
From Stdlib Require Import Btauto Sorted DecimalString DecimalNat FinFun.
From stdpp Require Import gmap.
Import ListNotations.

Local Open Scope nat_scope.
Local Open Scope list_scope.

(** ** Code points and Python string primitives *)

Abbreviation cp := N (only parsing).
Abbreviation str := (list N) (only parsing).

Definition ch (a : ascii) : cp := N_of_ascii a.

(** Decoding of the UTF-8 bytes of a source literal into code points. *)
Fixpoint utf8_decode (bs : list N) : str :=
  match bs with
  | [] => []
  | b0 :: r0 =>
    if (b0 <? 128)%N then b0 :: utf8_decode r0
    else if (b0 <? 224)%N then
      match r0 with
      | b1 :: r1 => ((b0 - 192) * 64 + (b1 - 128))%N :: utf8_decode r1
      | _ => []
      end
    else if (b0 <? 240)%N then
      match r0 with
      | b1 :: b2 :: r2 =>
        ((b0 - 224) * 4096 + (b1 - 128) * 64 + (b2 - 128))%N :: utf8_decode r2
      | _ => []
      end
    else
      match r0 with
      | b1 :: b2 :: b3 :: r3 =>
        ((b0 - 240) * 262144 + (b1 - 128) * 4096 + (b2 - 128) * 64 + (b3 - 128))%N
          :: utf8_decode r3
      | _ => []
      end
  end.

Fixpoint bytes_of_string (s : string) : list N :=
  match s with
  | EmptyString => []
  | String a s' => N_of_ascii a :: bytes_of_string s'
  end.

(** [u "..."] is the Python string written by the literal. *)
Definition u (s : string) : str := utf8_decode (bytes_of_string s).

Definition str_eqb (a b : str) : bool := bool_decide (a = b).

(** [s.startswith(p)] *)
Fixpoint startswith (p s : str) : bool :=
  match p, s with
  | [], _ => true
  | _ :: _, [] => false
  | a :: p', b :: s' => (a =? b)%N && startswith p' s'
  end.

(** [needle in hay] *)
Fixpoint contains (needle hay : str) : bool :=
  startswith needle hay ||
  match hay with
  | [] => false
  | _ :: hay' => contains needle hay'
  end.

(** [s.replace(old, new)] for a one-character [old]. *)
Definition replace1 (old : cp) (new : str) (s : str) : str :=
  flat_map (fun c => if (c =? old)%N then new else [c]) s.

(** [sep.join(parts)] *)
Fixpoint join (sep : str) (parts : list str) : str :=
  match parts with
  | [] => []
  | [p] => p
  | p :: ps => p ++ sep ++ join sep ps
  end.

(** [str(n)] for a non-negative integer. *)
Definition str_of_nat (n : nat) : str :=
  bytes_of_string (NilEmpty.string_of_uint (Nat.to_uint n)).

Fixpoint drop_while (p : cp -> bool) (s : str) : str :=
  match s with
  | [] => []
  | c :: s' => if p c then drop_while p s' else s
  end.

(** [s.strip(chars)] with the set of stripped characters given as a predicate. *)
Definition strip_by (p : cp -> bool) (s : str) : str :=
  rev (drop_while p (rev (drop_while p s))).

(** [s.split()] cuts at runs of characters satisfying [p] and drops empty pieces. *)
Fixpoint split_by_aux (p : cp -> bool) (acc : str) (s : str) : list str :=
  match s with
  | [] => match acc with [] => [] | _ => [rev acc] end
  | c :: s' =>
    if p c then
      match acc with
      | [] => split_by_aux p [] s'
      | _ => rev acc :: split_by_aux p [] s'
      end
    else split_by_aux p (c :: acc) s'
  end.

Definition split_by (p : cp -> bool) (s : str) : list str := split_by_aux p [] s.

(** ** The runtime interfaces

    [UnicodeData] lists what the scripts take from the Unicode character
    database through [str] methods, [re] and [unicodedata]. *)
Class UnicodeData := {
(** [str.isspace], the whitespace of [\s], [strip()] and [split()] *)
  is_space : cp -> bool;
(** the decimal digits of [\d] (general category Nd) *)
  is_digit : cp -> bool;
(** the word characters of [\w] (alphanumerics and the underscore) *)
  is_word : cp -> bool;
(** the code points that [re.IGNORECASE] identifies with a character,
    the character itself included *)
  case_variants : cp -> list cp;
(** [str.upper] and [str.lower] *)
  str_upper : str -> str;
  str_lower : str -> str;
(** [unicodedata.normalize("NFKC", _)] and [unicodedata.normalize("NFKD", _)] *)
  nfkc : str -> str;
  nfkd : str -> str;
(** [unicodedata.combining(c) != 0] *)
  combining : cp -> bool;
(** the line boundaries of [str.splitlines] other than CR LF pairs *)
  is_linebreak : cp -> bool
}.

(** [float(s)]: [None] stands for [ValueError].  Values are compared for
    equality (as dictionary keys) and tested for [> 0]. *)
Class FloatParse := {
  float_t : Type;
  float_eq_dec :: EqDecision float_t;
  float_of : str -> option float_t;
  float_pos : float_t -> bool
}.

(** ** Regular expressions

    The patterns of the scripts are kept as the source writes them and are
    read by [re_compile], a parser for the part of Python's [re] syntax
    that they use.  Matching is the backtracking search of [re]: the
    alternatives are tried in order, greedy repetitions take the longest
    run first and lazy ones the shortest. *)

Inductive citem :=
| CChar (c : cp)
| CRange (lo hi : cp)
| CDigit
| CSpace
| CNotSpace
| CWord.

Inductive regex :=
| Empty
| Never
| Lit (c : cp)
| AnyChar
| Cls (neg : bool) (items : list citem)
| Seq (r1 r2 : regex)
| Alt (r1 r2 : regex)
| Rep (lo : nat) (hi : option nat) (greedy : bool) (r : regex)
| Grp (i : nat) (r : regex)
| Bol
| Eol
| WordB
| NotAhead (r : regex).

(** [always_sets i r]: every match of [r] gives a text to group [i]. *)
Fixpoint always_sets (i : nat) (r : regex) : bool :=
  match r with
  | Grp j r' => (i =? j) || always_sets i r'
  | Seq r1 r2 => always_sets i r1 || always_sets i r2
  | Alt r1 r2 => always_sets i r1 && always_sets i r2
  | _ => false
  end.

Module Parse.

Definition is_ascii_digit (c : cp) : bool := ((48 <=? c) && (c <=? 57))%N.

Fixpoint number (acc : nat) (s : str) : nat * str :=
    match s with
    | c :: s' =>
      if is_ascii_digit c then number (10 * acc + N.to_nat (c - 48)) s' else (acc, s)
    | [] => (acc, s)
    end.

(** The character named by an escape, inside or outside a class. *)
Definition escaped (c : cp) : cp :=
    if (c =? ch "n")%N then 10%N
    else if (c =? ch "t")%N then 9%N
    else if (c =? ch "r")%N then 13%N
    else c.

Definition class_escape (c : cp) : citem :=
    if (c =? ch "d")%N then CDigit
    else if (c =? ch "s")%N then CSpace
    else if (c =? ch "S")%N then CNotSpace
    else if (c =? ch "w")%N then CWord
    else CChar (escaped c).

(** One member of a class, with the characters after it. *)
Definition class_atom (s : str) : option (citem * str) :=
    match s with
    | [] => None
    | c :: s' =>
      if (c =? ch "\")%N then
        match s' with
        | e :: s'' => Some (class_escape e, s'')
        | [] => None
        end
      else Some (CChar c, s')
    end.

Fixpoint class_items (fuel : nat) (s : str) : option (list citem * str) :=
    match fuel with
    | 0 => None
    | S fuel' =>
      match s with
      | [] => None
      | c :: s' =>
        if (c =? ch "]")%N then Some ([], s')
        else
          match class_atom s with
          | None => None
          | Some (a, s1) =>
            let range :=
              match a, s1 with
              | CChar lo, d :: s2 =>
                if (d =? ch "-")%N then
                  match s2 with
                  | e :: _ =>
                    if (e =? ch "]")%N then None
                    else
                      match class_atom s2 with
                      | Some (CChar hi, s3) => Some (CRange lo hi, s3)
                      | _ => None
                      end
                  | [] => None
                  end
                else None
              | _, _ => None
              end in
            let '(item, s4) := match range with Some x => x | None => (a, s1) end in
            match class_items fuel' s4 with
            | Some (items, s5) => Some (item :: items, s5)
            | None => None
            end
          end
      end
    end.

Definition class (s : str) : option (regex * str) :=
    let '(neg, s1) :=
      match s with
      | c :: s' => if (c =? ch "^")%N then (true, s') else (false, s)
      | [] => (false, s)
      end in
    match class_items (S (length s1)) s1 with
    | Some (items, s2) => Some (Cls neg items, s2)
    | None => None
    end.

(** The quantifier that follows an atom, if any. *)
Definition quantifier (a : regex) (s : str) : option (regex * str) :=
    let lazy (lo : nat) (hi : option nat) (s' : str) :=
      match s' with
      | q :: s'' => if (q =? ch "?")%N then (Rep lo hi false a, s'') else (Rep lo hi true a, s')
      | [] => (Rep lo hi true a, s')
      end in
    match s with
    | c :: s' =>
      if (c =? ch "*")%N then Some (lazy 0 None s')
      else if (c =? ch "+")%N then Some (lazy 1 None s')
      else if (c =? ch "?")%N then Some (lazy 0 (Some 1) s')
      else if (c =? ch "{")%N then
        let '(lo, s1) := number 0 s' in
        match s1 with
        | d :: s2 =>
          if (d =? ch "}")%N then Some (lazy lo (Some lo) s2)
          else if (d =? ch ",")%N then
            match s2 with
            | e :: s3 =>
              if (e =? ch "}")%N then Some (lazy lo None s3)
              else
                let '(hi, s4) := number 0 s2 in
                match s4 with
                | f :: s5 => if (f =? ch "}")%N then Some (lazy lo (Some hi) s5) else None
                | [] => None
                end
            | [] => None
            end
          else None
        | [] => None
        end
      else Some (a, s)
    | [] => Some (a, s)
    end.

Definition escape (c : cp) : regex :=
    if (c =? ch "d")%N then Cls false [CDigit]
    else if (c =? ch "s")%N then Cls false [CSpace]
    else if (c =? ch "S")%N then Cls false [CNotSpace]
    else if (c =? ch "w")%N then Cls false [CWord]
    else if (c =? ch "b")%N then WordB
    else Lit (escaped c).

Definition seq (a b : regex) : regex :=
    match b with
    | Empty => a
    | _ => Seq a b
    end.

Definition closes (s : str) : option str :=
    match s with
    | c :: s' => if (c =? ch ")")%N then Some s' else None
    | [] => None
    end.

(** [alt], [cat] and [atom] read an alternation, a sequence and one atom;
    the natural number counts the capturing groups opened so far. *)
Fixpoint alt (fuel : nat) (s : str) (g : nat) : option (regex * str * nat) :=
    match fuel with
    | 0 => None
    | S fuel' =>
      match cat fuel' s g with
      | None => None
      | Some (r1, s1, g1) =>
        match s1 with
        | c :: s2 =>
          if (c =? ch "|")%N then
            match alt fuel' s2 g1 with
            | Some (r2, s3, g2) => Some (Alt r1 r2, s3, g2)
            | None => None
            end
          else Some (r1, s1, g1)
        | [] => Some (r1, s1, g1)
        end
      end
    end
  with cat (fuel : nat) (s : str) (g : nat) : option (regex * str * nat) :=
    match fuel with
    | 0 => None
    | S fuel' =>
      match s with
      | [] => Some (Empty, s, g)
      | c :: _ =>
        if ((c =? ch "|") || (c =? ch ")"))%N then Some (Empty, s, g)
        else
          match atom fuel' s g with
          | None => None
          | Some (a, s1, g1) =>
            match quantifier a s1 with
            | None => None
            | Some (a', s2) =>
              match cat fuel' s2 g1 with
              | Some (r, s3, g2) => Some (seq a' r, s3, g2)
              | None => None
              end
            end
          end
      end
    end
  with atom (fuel : nat) (s : str) (g : nat) : option (regex * str * nat) :=
    match fuel with
    | 0 => None
    | S fuel' =>
      let inner (s' : str) (g' : nat) (wrap : regex -> regex) :=
        match alt fuel' s' g' with
        | Some (r, s1, g1) =>
          match closes s1 with
          | Some s2 => Some (wrap r, s2, g1)
          | None => None
          end
        | None => None
        end in
      match s with
      | [] => None
      | c :: s' =>
        if (c =? ch "(")%N then
          match s' with
          | q :: k :: s'' =>
            if (q =? ch "?")%N then
              if (k =? ch ":")%N then inner s'' g (fun r => r)
              else if (k =? ch "!")%N then inner s'' g NotAhead
              else if (k =? ch "P")%N then
                (* a named group (?P<name>...) is also a numbered group *)
                match drop_while (fun x => negb (x =? ch ">")%N) s'' with
                | _ :: s3 => inner s3 (S g) (Grp (S g))
                | [] => None
                end
              else None
            else inner s' (S g) (Grp (S g))
          | _ => inner s' (S g) (Grp (S g))
          end
        else if (c =? ch "[")%N then
          match class s' with
          | Some (r, s1) => Some (r, s1, g)
          | None => None
          end
        else if (c =? ch "\")%N then
          match s' with
          | e :: s'' => Some (escape e, s'', g)
          | [] => None
          end
        else if (c =? ch ".")%N then Some (AnyChar, s', g)
        else if (c =? ch "^")%N then Some (Bol, s', g)
        else if (c =? ch "$")%N then Some (Eol, s', g)
        else if ((c =? ch "*") || (c =? ch "+") || (c =? ch "?") || (c =? ch "{"))%N then None
        else Some (Lit c, s', g)
      end
    end.

End Parse.

(** [re.compile(pattern)]; a pattern outside the supported syntax would give
    the expression that matches nothing, and every pattern below is checked
    not to. *)
Definition re_parse (pattern : str) : option regex :=
  match Parse.alt (3 * length pattern + 3) pattern 0 with
  | Some (r, [], _) => Some r
  | _ => None
  end.

Definition re_compile (pattern : string) : regex :=
  match re_parse (u pattern) with
  | Some r => r
  | None => Never
  end.

(** [re.IGNORECASE] and [re.DOTALL]; the scripts use no other flag. *)
Record flags := { icase : bool; dotall : bool }.

Definition NOFLAGS := {| icase := false; dotall := false |}.
Definition IGNORECASE := {| icase := true; dotall := false |}.
Definition IGNORECASE_DOTALL := {| icase := true; dotall := true |}.

(** The state of a match attempt: the character before the cursor, the text
    from the cursor on, the cursor's offset and the groups captured so far. *)
Record mstate := {
  m_prev : option cp;
  m_rest : str;
  m_pos : nat;
  m_caps : list (nat * str)
}.

(** A match object: [m.start()], [m.end()] and the captured groups. *)
Record rmatch := {
  mt_start : nat;
  mt_end : nat;
  mt_caps : list (nat * str)
}.

Fixpoint assoc {A} (i : nat) (l : list (nat * A)) : option A :=
  match l with
  | [] => None
  | (j, x) :: l' => if i =? j then Some x else assoc i l'
  end.

(** [m.group(i)] for [i >= 1]; [None] is Python's [None], the value of a
    group that took no part in the match. *)
Definition group (m : rmatch) (i : nat) : option str := assoc i (mt_caps m).

Section Matching.
Context {U : UnicodeData}.

Definition item_matches (c : cp) (it : citem) : bool :=
    match it with
    | CChar x => (c =? x)%N
    | CRange lo hi => ((lo <=? c) && (c <=? hi))%N
    | CDigit => is_digit c
    | CSpace => is_space c
    | CNotSpace => negb (is_space c)
    | CWord => is_word c
    end.

Definition in_items (items : list citem) (c : cp) : bool :=
    existsb (item_matches c) items.

(** Membership of a character in a set of items under the flags. *)
Definition in_set (fl : flags) (items : list citem) (c : cp) : bool :=
    if icase fl then existsb (in_items items) (case_variants c)
    else in_items items c.

(** One step over the character [c]. *)
Definition step (s : mstate) (c : cp) (rest : str) : mstate :=
    {| m_prev := Some c; m_rest := rest; m_pos := S (m_pos s); m_caps := m_caps s |}.

Definition take (p : cp -> bool) (k : mstate -> option mstate) (s : mstate)
    : option mstate :=
    match m_rest s with
    | c :: rest => if p c then k (step s c rest) else None
    | [] => None
    end.

Definition word_before (s : mstate) : bool :=
    match m_prev s with Some c => is_word c | None => false end.

Definition word_after (s : mstate) : bool :=
    match m_rest s with c :: _ => is_word c | [] => false end.

Definition set_group (i : nat) (from to : mstate) : mstate :=
    {| m_prev := m_prev to; m_rest := m_rest to; m_pos := m_pos to;
       m_caps := (i, firstn (m_pos to - m_pos from) (m_rest from)) :: m_caps to |}.

(** The iterations of a repetition whose body is matched by [body]: [n]
    iterations are done, and an iteration that does not move the cursor is
    given up once the minimum is reached, as [re] does.  [fuel] bounds the
    iterations that remain. *)
Definition rep_loop (body : (mstate -> option mstate) -> mstate -> option mstate)
      (lo : nat) (hi : option nat) (greedy : bool) (k : mstate -> option mstate)
    : nat -> nat -> mstate -> option mstate :=
    fix loop (fuel n : nat) (s : mstate) {struct fuel} : option mstate :=
      let stop := if lo <=? n then k s else None in
      match fuel with
      | 0 => stop
      | S fuel' =>
        let more :=
          if match hi with Some h => n <? h | None => true end then
            body (fun s' =>
                    if (m_pos s <? m_pos s') || (n <? lo) then loop fuel' (S n) s'
                    else None) s
          else None in
        if greedy then
          match more with Some res => Some res | None => stop end
        else
          match stop with Some res => Some res | None => more end
      end.

(** [run fl r k s] matches [r] at the cursor of [s] and hands every way of
    doing so, in the order of preference of [re], to the continuation [k]
    until one is accepted. *)
Fixpoint run (fl : flags) (r : regex) (k : mstate -> option mstate) (s : mstate)
    : option mstate :=
    match r with
    | Empty => k s
    | Never => None
    | Lit c => take (in_set fl [CChar c]) k s
    | AnyChar => take (fun c => dotall fl || negb (c =? 10)%N) k s
    | Cls neg items => take (fun c => xorb neg (in_set fl items c)) k s
    | Seq r1 r2 => run fl r1 (run fl r2 k) s
    | Alt r1 r2 =>
      match run fl r1 k s with
      | Some res => Some res
      | None => run fl r2 k s
      end
    | Rep lo hi greedy r' =>
      rep_loop (run fl r') lo hi greedy k (lo + length (m_rest s)) 0 s
    | Grp i r' => run fl r' (fun s' => k (set_group i s s')) s
    | Bol => match m_prev s with None => k s | Some _ => None end
    | Eol =>
      match m_rest s with
      | [] => k s
      | [c] => if (c =? 10)%N then k s else None
      | _ => None
      end
    | WordB => if xorb (word_before s) (word_after s) then k s else None
    | NotAhead r' =>
      match run fl r' Some s with
      | Some _ => None
      | None => k s
      end
    end.

Definition to_match (start : nat) (s : mstate) : rmatch :=
    {| mt_start := start; mt_end := m_pos s; mt_caps := m_caps s |}.

(** A match attempt at the cursor. *)
Definition match_here (fl : flags) (r : regex) (prev : option cp) (rest : str) (pos : nat)
    : option rmatch :=
    option_map (to_match pos)
      (run fl r Some {| m_prev := prev; m_rest := rest; m_pos := pos; m_caps := [] |}).

(** The leftmost match at or after the cursor. *)
Fixpoint search_from (fl : flags) (r : regex) (prev : option cp) (rest : str) (pos : nat)
    : option rmatch :=
    match match_here fl r prev rest pos with
    | Some m => Some m
    | None =>
      match rest with
      | [] => None
      | c :: rest' => search_from fl r (Some c) rest' (S pos)
      end
    end.

(** [re.search(pattern, text, flags)] *)
Definition re_search (fl : flags) (r : regex) (text : str) : option rmatch :=
    search_from fl r None text 0.

(** [re.match(pattern, text, flags)] *)
Definition re_match (fl : flags) (r : regex) (text : str) : option rmatch :=
    match_here fl r None text 0.

(** The cursor moved [n] characters forward. *)
Fixpoint forward (n : nat) (prev : option cp) (rest : str) : option cp * str :=
    match n, rest with
    | S n', c :: rest' => forward n' (Some c) rest'
    | _, _ => (prev, rest)
    end.

(** [re.finditer]: the successive non-overlapping matches, left to right.
    After an empty match the scan resumes one character further. *)
Fixpoint finditer_from (fuel : nat) (fl : flags) (r : regex)
      (prev : option cp) (rest : str) (pos : nat) : list rmatch :=
    match fuel with
    | 0 => []
    | S fuel' =>
      match search_from fl r prev rest pos with
      | None => []
      | Some m =>
        let width := mt_end m - pos in
        let next := if mt_end m =? mt_start m then S width else width in
        let '(prev', rest') := forward next prev rest in
        m :: (if length rest <? next then []
              else finditer_from fuel' fl r prev' rest' (pos + next))
      end
    end.

Definition re_finditer (fl : flags) (r : regex) (text : str) : list rmatch :=
    finditer_from (S (length text)) fl r None text 0.

(** [m.group(0)] *)
Definition group0 (text : str) (m : rmatch) : str :=
    firstn (mt_end m - mt_start m) (skipn (mt_start m) text).

(** [re.findall] for a pattern without group: the texts of the matches. *)
Definition re_findall0 (fl : flags) (r : regex) (text : str) : list str :=
    map (group0 text) (re_finditer fl r text).

(** [re.findall] for a pattern with one group: the texts of the group,
    empty for a group that took no part. *)
Definition re_findall1 (fl : flags) (r : regex) (text : str) : list str :=
    map (fun m => match group m 1 with Some g => g | None => [] end)
        (re_finditer fl r text).

(** [re.sub(pattern, repl, text)] for a replacement without group references. *)
Fixpoint sub_from (fuel : nat) (fl : flags) (r : regex) (repl : str)
      (prev : option cp) (rest : str) (pos : nat) : str :=
    match fuel with
    | 0 => rest
    | S fuel' =>
      match search_from fl r prev rest pos with
      | None => rest
      | Some m =>
        let before := firstn (mt_start m - pos) rest in
        let width := mt_end m - pos in
        if mt_end m =? mt_start m then
          let '(prev', rest') := forward (S width) prev rest in
          before ++ repl ++ firstn 1 (skipn width rest) ++
          (if length rest <? S width then []
           else sub_from fuel' fl r repl prev' rest' (pos + S width))
        else
          let '(prev', rest') := forward width prev rest in
          before ++ repl ++ sub_from fuel' fl r repl prev' rest' (pos + width)
      end
    end.

Definition re_sub (fl : flags) (r : regex) (repl : str) (text : str) : str :=
    sub_from (S (length text)) fl r repl None text 0.

End Matching.

(** ** A concrete runtime: Latin-1 texts

    The instance below is exact for texts whose code points are below
    U+0100, the range of the receipts; it also knows the whitespace of all
    planes, the Latin ligatures and the few characters outside Latin-1 that
    are case variants of Latin-1 letters.  Other code points are taken to be
    caseless symbols that normalise to themselves. *)
Module Latin1.

  Local Open Scope N_scope.

Definition between (lo hi c : cp) : bool := ((lo <=? c) && (c <=? hi))%N.

Definition one_of (l : list cp) (c : cp) : bool := existsb (N.eqb c) l.

Definition space (c : cp) : bool :=
    between 9 13 c || between 28 32 c || one_of [133; 160; 5760; 8232; 8233; 8239; 8287; 12288] c
    || between 8192 8202 c.

Definition digit (c : cp) : bool := between 48 57 c.

Definition word (c : cp) : bool :=
    between 48 57 c || between 65 90 c || (c =? 95)%N || between 97 122 c
    || one_of [170; 178; 179; 181; 185; 186; 188; 189; 190] c
    || between 192 214 c || between 216 246 c || between 248 255 c.

(** Simple lower- and upper-case mappings. *)
Definition lower1 (c : cp) : cp :=
    if between 65 90 c || between 192 214 c || between 216 222 c then (c + 32)%N
    else if (c =? 376)%N then 255%N
    else if (c =? 8490)%N then 107%N
    else if (c =? 8491)%N then 229%N
    else if (c =? 7838)%N then 223%N
    else if (c =? 304)%N then 105%N
    else if (c =? 924)%N then 956%N
    else c.

Definition upper1 (c : cp) : cp :=
    if between 97 122 c || between 224 246 c || between 248 254 c then (c - 32)%N
    else if (c =? 255)%N then 376%N
    else if (c =? 181)%N then 924%N
    else if (c =? 956)%N then 924%N
    else if (c =? 383)%N then 83%N
    else if (c =? 305)%N then 73%N
    else c.

(** The pairs that [re] adds to the case mappings. *)
Definition equivalents (c : cp) : list cp :=
    if one_of [105; 305] c then [105; 305]%N
    else if one_of [115; 383] c then [115; 383]%N
    else if one_of [181; 956] c then [181; 956]%N
    else [].

Definition variants (c : cp) : list cp :=
    let l := lower1 c in
    c :: l :: upper1 l :: equivalents l ++ flat_map (fun e => [upper1 e]) (equivalents l).

Definition upper (s : str) : str :=
    flat_map (fun c =>
                if c =? 223 then [83; 83]
                else if c =? 64256 then [70; 70]
                else if c =? 64257 then [70; 73]
                else if c =? 64258 then [70; 76]
                else if c =? 64259 then [70; 70; 73]
                else if c =? 64260 then [70; 70; 76]
                else if between 64261 64262 c then [83; 84]
                else [upper1 c]) s.

Definition lower (s : str) : str := map lower1 s.

(** Compatibility mappings of single characters. *)
Definition compat (c : cp) : str :=
    if (c =? 160)%N then [32]
    else if (c =? 168)%N then [32; 776]
    else if (c =? 170)%N then [97]
    else if (c =? 175)%N then [32; 772]
    else if (c =? 178)%N then [50]
    else if (c =? 179)%N then [51]
    else if (c =? 180)%N then [32; 769]
    else if (c =? 181)%N then [956]
    else if (c =? 184)%N then [32; 807]
    else if (c =? 185)%N then [49]
    else if (c =? 186)%N then [111]
    else if (c =? 188)%N then [49; 8260; 52]
    else if (c =? 189)%N then [49; 8260; 50]
    else if (c =? 190)%N then [51; 8260; 52]
    else if (c =? 383)%N then [115]
    else if (c =? 64256)%N then [102; 102]
    else if (c =? 64257)%N then [102; 105]
    else if (c =? 64258)%N then [102; 108]
    else if (c =? 64259)%N then [102; 102; 105]
    else if (c =? 64260)%N then [102; 102; 108]
    else if (c =? 64261)%N then [115; 116]
    else if (c =? 64262)%N then [115; 116]
    else [c].

Definition NFKC (s : str) : str := flat_map compat s.

(** Canonical decompositions of the Latin-1 letters: base letter and mark. *)
Definition decomposition (c : cp) : str :=
    let mark (base : cp) (first : cp) (marks : list cp) : str :=
      [base; nth (N.to_nat (c - first)) marks 0] in
    if between 192 197 c then mark 65%N 192%N [768; 769; 770; 771; 776; 778]%N
    else if (c =? 199)%N then [67; 807]
    else if between 200 203 c then mark 69%N 200%N [768; 769; 770; 776]%N
    else if between 204 207 c then mark 73%N 204%N [768; 769; 770; 776]%N
    else if (c =? 209)%N then [78; 771]
    else if between 210 214 c then mark 79%N 210%N [768; 769; 770; 771; 776]%N
    else if between 217 220 c then mark 85%N 217%N [768; 769; 770; 776]%N
    else if (c =? 221)%N then [89; 769]
    else if between 224 229 c then mark 97%N 224%N [768; 769; 770; 771; 776; 778]%N
    else if (c =? 231)%N then [99; 807]
    else if between 232 235 c then mark 101%N 232%N [768; 769; 770; 776]%N
    else if between 236 239 c then mark 105%N 236%N [768; 769; 770; 776]%N
    else if (c =? 241)%N then [110; 771]
    else if between 242 246 c then mark 111%N 242%N [768; 769; 770; 771; 776]%N
    else if between 249 252 c then mark 117%N 249%N [768; 769; 770; 776]%N
    else if (c =? 253)%N then [121; 769]
    else if (c =? 255)%N then [121; 776]
    else if (c =? 376)%N then [89; 776]
    else compat c.

Definition NFKD (s : str) : str := flat_map decomposition s.

Definition mark (c : cp) : bool := between 768 879 c && negb (c =? 847)%N.

Definition linebreak (c : cp) : bool :=
    between 10 13 c || between 28 30 c || one_of [133; 8232; 8233] c.

#[export] Instance unicode : UnicodeData := {|
    is_space := space;
    is_digit := digit;
    is_word := word;
    case_variants := variants;
    str_upper := upper;
    str_lower := lower;
    nfkc := NFKC;
    nfkd := NFKD;
    combining := mark;
    is_linebreak := linebreak
  |}.

End Latin1.

(** ** A concrete [float()]: exact decimals

    A parsed number [m / 10^k] is kept as the pair [(m, k)] with no
    trailing zero in the fraction, so that equal numbers are equal pairs.
    It agrees with binary64 on equality and sign for the amounts of
    receipts (up to fifteen significant digits). *)
Module Decimal.

Fixpoint digits (acc : N) (s : str) : option N :=
    match s with
    | [] => Some acc
    | c :: s' =>
      if Parse.is_ascii_digit c then digits (10 * acc + (c - 48))%N s' else None
    end.

Fixpoint normalise (k : nat) (m : N) : N * nat :=
    match k with
    | 0 => (m, 0)
    | S k' => if (m mod 10 =? 0)%N then normalise k' (m / 10)%N else (m, k)
    end.

Fixpoint take_while (p : cp -> bool) (s : str) : str :=
    match s with
    | [] => []
    | c :: s' => if p c then c :: take_while p s' else []
    end.

(** Digits with at most one point and at least one digit. *)
Definition parse (s : str) : option (N * nat) :=
    let not_point (c : cp) := negb (c =? 46)%N in
    let whole := take_while not_point s in
    let frac := tl (drop_while not_point s) in
    match whole ++ frac with
    | [] => None
    | ds =>
      match digits 0 ds with
      | Some m => Some (normalise (length frac) m)
      | None => None
      end
    end.

Definition positive (x : N * nat) : bool := (0 <? fst x)%N.

(** The rational number denoted by a parsed value. *)
Definition value (x : N * nat) : Q := Z.of_N (fst x) # Pos.of_nat (10 ^ snd x).

#[export] Instance decimal_float : FloatParse := {|
    float_t := N * nat;
    float_of := parse;
    float_pos := positive
  |}.

End Decimal.

(** ** Exceptions

    The only operation of the extractors that can raise outside a [try] is
    a method call on the [None] that [m.group(i)] returns for a group that
    took no part in the match. *)
Inductive exn := AttributeError.

Inductive result (A : Type) :=
| Ok (a : A)
| Raise (e : exn).
Arguments Ok {A} a.
Arguments Raise {A} e.

Definition bind {A B} (x : result A) (f : A -> result B) : result B :=
  match x with
  | Ok a => f a
  | Raise e => Raise e
  end.

Notation "'let!' x ':=' e 'in' k" := (bind e (fun x => k))
  (at level 10, x name, e at level 200, k at level 200).

(** A loop that appends to a list: the bodies run in order and the first
    exception ends the loop. *)
Fixpoint for_each {A B} (f : A -> result (list B)) (l : list A) : result (list B) :=
  match l with
  | [] => Ok []
  | x :: l' => let! ys := f x in let! zs := for_each f l' in Ok (ys ++ zs)
  end.

(** [m.group(i)] used as a string. *)
Definition group_str (m : rmatch) (i : nat) : result str :=
  match group m i with
  | Some g => Ok g
  | None => Raise AttributeError
  end.

(** ** Dictionaries in insertion order

    [unicos] is a [dict]: iteration follows the order in which the keys
    were first inserted, and assigning to a present key keeps its place. *)
Section Dict.
Context {K V : Type} `{EqDecision K}.

Fixpoint dict_get (k : K) (d : list (K * V)) : option V :=
    match d with
    | [] => None
    | (k', v) :: d' => if decide (k = k') then Some v else dict_get k d'
    end.

Fixpoint dict_set (k : K) (v : V) (d : list (K * V)) : list (K * V) :=
    match d with
    | [] => [(k, v)]
    | (k', v') :: d' =>
      if decide (k = k') then (k', v) :: d' else (k', v') :: dict_set k v d'
    end.

Definition dict_values (d : list (K * V)) : list V := map snd d.
End Dict.

(** [min(xs, key=f)] and [max(xs, key=f)] return the first extreme element. *)
Fixpoint min_by {A} (f : A -> nat) (best : A) (l : list A) : A :=
  match l with
  | [] => best
  | x :: l' => min_by f (if f x <? f best then x else best) l'
  end.

Fixpoint max_by {A} (f : A -> nat) (best : A) (l : list A) : A :=
  match l with
  | [] => best
  | x :: l' => max_by f (if f best <? f x then x else best) l'
  end.

Definition py_min {A} (f : A -> nat) (l : list A) : option A :=
  match l with
  | [] => None
  | x :: l' => Some (min_by f x l')
  end.

Definition py_max {A} (f : A -> nat) (l : list A) : option A :=
  match l with
  | [] => None
  | x :: l' => Some (max_by f x l')
  end.

Definition VALOR_NAO_ENCONTRADO : str := u "VALOR_NAO_ENCONTRADO".
Definition FORNECEDOR_DESCONHECIDO : str := u "FORNECEDOR_DESCONHECIDO".
Definition OUTROS : str := u "OUTROS".

Definition MAX_NAME_LEN : nat := 60.
Definition BARCODE_TAIL_LEN : nat := 6.
Definition PIX_PREFIX : str := u "N".

(** ** The code shared by the two scripts *)
Section Shared.
Context {U : UnicodeData}.

Definition strip (s : str) : str := strip_by is_space s.
Definition split (s : str) : list str := split_by is_space s.

(** [limpar_texto] *)
Definition limpar_texto (texto : str) : str :=
    match texto with
    | [] => []
    | _ =>
      let texto := replace1 8232 (u " ") (replace1 64258 (u "fl") (replace1 64257 (u "fi") texto)) in
      nfkc texto
    end.

(** [extrair_texto_pdf]: [pages] are the texts that PyPDF2 returns for the
    pages of the file. *)
Definition extrair_texto_pdf (pages : list str) : str :=
    limpar_texto
      (flat_map (fun t => match t with [] => [] | _ => t ++ [10%N] end) pages).

(** [identificar_empresa], with the table [EMPRESAS] in its order. *)
Fixpoint identificar_empresa_em (EMPRESAS : list (str * list str)) (t : str) : str :=
    match EMPRESAS with
    | [] => OUTROS
    | (key, aliases) :: rest =>
      if existsb (fun a => contains (str_upper a) t) aliases then key
      else identificar_empresa_em rest t
    end.

(** [extrair_linha_digitavel] / [extrair_linha_digitavel_ou_codbarra] *)
Definition extrair_linha_digitavel (texto : str) : result str :=
    match texto with
    | [] => Ok []
    | _ =>
      let texto_limpo := re_sub NOFLAGS (re_compile "\s+") [] texto in
      match re_search NOFLAGS (re_compile "([0-9]{20,60})") texto_limpo with
      | Some m => group_str m 1
      | None => Ok []
      end
    end.

(** [seq[-BARCODE_TAIL_LEN:] if len(seq) >= BARCODE_TAIL_LEN else seq] *)
Definition tail_of (seq : str) : str :=
    if BARCODE_TAIL_LEN <=? length seq then skipn (length seq - BARCODE_TAIL_LEN) seq
    else seq.

End Shared.

(** The candidates of the two extractors. *)
Record valor_cand `{FloatParse} := {
  valor : str;
  tipo : str;
  prioridade : nat;
  float : float_t
}.

Record benef_cand := {
  nome : str;
  score : nat;
  metodo : str
}.

Section Decisao.
Context {U : UnicodeData} {F : FloatParse}.

(** The loop that fills [unicos] in [extrair_valor]. *)
Definition unicos_valor (valores_encontrados : list valor_cand)
    : list (float_t * valor_cand) :=
    fold_left
      (fun unicos v =>
         match dict_get (float v) unicos with
         | None => dict_set (float v) v unicos
         | Some o =>
           if prioridade v <? prioridade o then dict_set (float v) v unicos else unicos
         end)
      valores_encontrados [].

(** The end of [extrair_valor]: the value of the best candidate, or the
    sentinel for an empty list. *)
Definition melhor_valor (valores_encontrados : list valor_cand) : str :=
    match py_min prioridade (dict_values (unicos_valor valores_encontrados)) with
    | Some melhor => valor melhor
    | None => VALOR_NAO_ENCONTRADO
    end.

(** The text [val] of a capture in the loops of [extrair_valor]: stripped,
    and without its points when it has both a comma and a point. *)
Definition val_de (g : str) : str :=
    let val := strip g in
    if contains (u ",") val && contains (u ".") val then replace1 (ch ".") [] val
    else val.

(** The body of the loops over the matches in [extrair_valor]. *)
Definition valor_do_match (prio : nat) (tp : str) (m : rmatch) : result (list valor_cand) :=
    let! g := group_str m 1 in
    let val := val_de g in
    let val_conv := replace1 (ch ",") (u ".") val in
    match float_of val_conv with
    | Some valor_float =>
      if float_pos valor_float then
        Ok [ {| valor := replace1 (ch ".") (u ",") val; tipo := tp;
                prioridade := prio; float := valor_float |} ]
      else Ok []
    | None => Ok []
    end.

Definition valores_dos_padroes (patterns : list (regex * nat * str)) (texto : str)
    : result (list valor_cand) :=
    for_each
      (fun '(pattern, prio, tp) =>
         for_each (valor_do_match prio tp) (re_finditer IGNORECASE pattern texto))
      patterns.

(** The loop that fills [unicos] in [extrair_beneficiario]. *)
Definition unicos_benef (candidatos : list benef_cand) : list (str * benef_cand) :=
    fold_left
      (fun unicos c =>
         let nome_norm := strip (str_upper (nome c)) in
         match dict_get nome_norm unicos with
         | None => dict_set nome_norm c unicos
         | Some o =>
           if score o <? score c then dict_set nome_norm c unicos else unicos
         end)
      candidatos [].

(** The end of [extrair_beneficiario]. *)
Definition melhor_benef (candidatos : list benef_cand) : option benef_cand :=
    py_max score (dict_values (unicos_benef candidatos)).

Definition decisao_final (candidatos : list benef_cand) : str :=
    match melhor_benef candidatos with
    | Some melhor => nome melhor
    | None => FORNECEDOR_DESCONHECIDO
    end.

End Decisao.

(** A pattern given as code points, for the patterns that hold a quotation mark. *)
Definition re_compile_str (pattern : str) : regex :=
  match re_parse pattern with
  | Some r => r
  | None => Never
  end.

Definition is_some {A} (o : option A) : bool :=
  match o with Some _ => true | None => false end.

(** One page of a run: what [main] prints and logs for it. *)
Record pagina := {
  pg_empresa : str;
  pg_beneficiario : str;
  pg_valor : str;
  pg_cnt : nat;
  pg_nome_arquivo : str
}.

(** [contador[chave] += 1; cnt = contador[chave]] on a [defaultdict(int)]. *)
Definition proxima_ocorrencia (chave : str * str * str) (contador : gmap (str * str * str) nat)
  : nat * gmap (str * str * str) nat :=
  let cnt := S (default 0 (contador !! chave)) in
  (cnt, <[chave := cnt]> contador).

(** ** [renomear_comprovantes_sanitized.py] *)
Module Sanitized.
Section Script.
Context {U : UnicodeData} {F : FloatParse}.

Definition EMPRESAS : list (str * list str) :=
    [ (u "DIVISION_A", [u "COMPANY A NAME"; u "COMPANY A ALIAS"]);
      (u "DIVISION_B", [u "COMPANY B NAME"]);
      (u "DIVISION_C", [u "COMPANY C LEGAL NAME"; u "COMPANY C TRADING NAME"]) ].

Definition sanitize_filename (name : str) : str :=
    let name := strip name in
    let name := nfkd name in
    let name := List.filter (fun c => negb (combining c)) name in
    let name := re_sub NOFLAGS (re_compile_str (u "[\\/\:*?" ++ [34%N] ++ u "<>|]")) [] name in
    let name := re_sub NOFLAGS (re_compile "[^0-9A-Za-z_\-\s\(\)\[\]]") [] name in
    let name := join (u "_") (split name) in
    let name := if MAX_NAME_LEN <? length name then firstn MAX_NAME_LEN name else name in
    match name with
    | [] => FORNECEDOR_DESCONHECIDO
    | _ => name
    end.

Definition empresas_sistema : list str := [u "SYSTEM_BANK"; u "YOUR_COMPANY"].

Definition rejeitar : list str :=
    [ u "agencia"; u "conta"; u "cpf"; u "cnpj"; u "chave"; u "instituicao";
      u "banco"; u "dados"; u "transferencia"; u "pagamento"; u "valor";
      u "documento"; u "autenticacao"; u "controle"; u "debito"; u "origem" ].

Definition validar_nome (nome : str) (min_len : nat) : bool :=
    if match nome with [] => true | _ => false end || (length nome <? min_len) then false
    else if negb (is_some (re_search NOFLAGS (re_compile "[a-zA-Z]") nome)) then false
    else if is_some (re_match NOFLAGS (re_compile "^[\d\.\-\*\s]+$") nome) then false
    else
      let nome_upper := str_upper nome in
      if existsb (fun emp => contains emp nome_upper) empresas_sistema then false
      else
        let nome_lower := str_lower nome in
        if existsb (fun r => str_eqb nome_lower r || startswith (r ++ u " ") nome_lower)
                   rejeitar
        then false
        else
          let palavras := split nome in
          if (2 <=? length palavras)
             || (0 <? length (re_findall0 NOFLAGS (re_compile "[a-zA-Z]{5,}") nome))
          then true
          else false.

Definition identificar_empresa (texto : str) : str :=
    identificar_empresa_em EMPRESAS (str_upper texto).

Definition patterns : list (regex * nat * str) :=
    [ (re_compile "Valor\s+principal[:\s]*R?\$?\s*([\d\.,]+)", 1, u "principal");
      (re_compile "Valor\s+total\s+pago[:\s]*R?\$?\s*([\d\.,]+)", 1, u "total_pago");
      (re_compile "Valor\s+do\s+pagamento[:\s]*R?\$?\s*([\d\.,]+)", 2, u "pagamento");
      (re_compile "Valor\s+total[:\s]*R?\$?\s*([\d\.,]+)", 3, u "total");
      (re_compile "(?:^|\n)Valor[:\s]*R?\$?\s*([\d\.,]+)", 4, u "valor_linha");
      (re_compile "R\$\s*([\d\.,]+)", 5, u "rs_isolado") ].

(** The list [valores_encontrados] at the end of the loops. *)
Definition valores_encontrados (texto : str) : result (list valor_cand) :=
    valores_dos_padroes patterns texto.

Definition extrair_valor (texto : str) : result str :=
    match texto with
    | [] => Ok VALOR_NAO_ENCONTRADO
    | _ =>
      let! valores := valores_encontrados texto in
      Ok (melhor_valor valores)
    end.

(** A detector that collapses the whitespace of the capture and upper-cases it. *)
Definition detector_upper (fl : flags) (pattern : regex) (text : str)
      (min_len sc : nat) (met : str) : result (list benef_cand) :=
    match re_search fl pattern text with
    | Some m =>
      let! g := group_str m 1 in
      let nome := strip g in
      let nome := str_upper (re_sub NOFLAGS (re_compile "\s+") (u " ") nome) in
      if validar_nome nome min_len
      then Ok [ {| nome := nome; score := sc; metodo := met |} ]
      else Ok []
    | None => Ok []
    end.

(** A detector that keeps the capture as it is, stripped. *)
Definition detector_raw (fl : flags) (pattern : regex) (text : str)
      (min_len sc : nat) (met : str) : result (list benef_cand) :=
    match re_search fl pattern text with
    | Some m =>
      let! g := group_str m 1 in
      let benef := strip g in
      if validar_nome benef min_len
      then Ok [ {| nome := benef; score := sc; metodo := met |} ]
      else Ok []
    | None => Ok []
    end.

(** The list [candidatos] before the final decision. *)
Definition candidatos (texto : str) : result (list benef_cand) :=
    let texto_clean := re_sub NOFLAGS (re_compile "\s+") (u " ") texto in
    let! m_controle :=
      detector_upper IGNORECASE
        (re_compile "Controle\s+de\s+Pagamento\s+Benefici[aá]rio:\s*([A-ZÀ-ÚÇ][A-ZÀ-ÚÇ\s\.\-\(\)0-9]+?)(?:\s*CPF/CNPJ:|\s*Controle:|\s*$)")
        texto_clean 5 22 (u "BRADESCO-PIX-Controle") in
    let! m_pix :=
      detector_upper IGNORECASE_DOTALL
        (re_compile "(?:Dados de quem recebeu|Destinatário).*?Nome\s*:\s*([A-Z][A-Z\s\.\-]{5,100}?)(?:\s*CPF/CNPJ|\s*Instituição|$)")
        texto 8 15 (u "PIX-recebedor") in
    let! m_ted :=
      detector_upper IGNORECASE_DOTALL
        (re_compile "Crédito:\s*Nome:\s*([A-Z][A-Z\s\.\-]{5,100}?)(?:\s*CPF/CNPJ|\s*Agência|$)")
        texto_clean 5 19 (u "TED") in
    let! m_boleto :=
      detector_raw IGNORECASE
        (re_compile "Razão\s+Social\s+Beneficiário[:\s]+([A-Z][A-Z\s]+?)(?:\s*(?:CPF|CNPJ|Nome|\d{3}\.\d{3}))")
        texto_clean 8 10 (u "BOLETO-razao-social") in
    let! m_fav :=
      detector_raw IGNORECASE
        (re_compile "Favorecido[:\s]+([A-Z][A-Z\s]+?)(?:\s+Valor|\s+CNPJ|\s+CPF)")
        texto_clean 5 10 (u "Favorecido") in
    Ok (m_controle ++ m_pix ++ m_ted ++ m_boleto ++ m_fav).

Definition extrair_beneficiario (texto : str) : result str :=
    match texto with
    | [] => Ok FORNECEDOR_DESCONHECIDO
    | _ =>
      let! cs := candidatos texto in
      Ok (decisao_final cs)
    end.

Definition montar_nome (benef valor : str) (contador : nat) (snippet : str) : str :=
    let benef_safe := sanitize_filename benef in
    let valor_safe := match valor with [] => VALOR_NAO_ENCONTRADO | _ => valor end in
    let base :=
      match snippet with
      | [] => benef_safe ++ u " - " ++ valor_safe
      | _ => benef_safe ++ u " - " ++ snippet ++ u " - " ++ valor_safe
      end in
    if 1 <? contador
    then PIX_PREFIX ++ str_of_nat contador ++ u " - " ++ base ++ u ".pdf"
    else base ++ u ".pdf".

(** The snippet of a page in [main]. *)
Definition snippet_de (texto : str) : result str :=
    if is_some (re_search IGNORECASE (re_compile "LINHA\s+DIGIT|CODIGO\s+DE\s+BARRAS") texto)
    then
      let! seq := extrair_linha_digitavel texto in
      match seq with
      | [] => Ok []
      | _ => Ok (tail_of seq)
      end
    else Ok [].

(** The body of the loop of [main] for one part, whose pages PyPDF2 reads
    as [pages], with the counter of the run. *)
Definition processar_parte (pages : list str) (contador : gmap (str * str * str) nat)
    : result (pagina * gmap (str * str * str) nat) :=
    let texto := extrair_texto_pdf pages in
    let! beneficiario := extrair_beneficiario texto in
    let! valor := extrair_valor texto in
    let empresa := identificar_empresa texto in
    let '(cnt, contador) := proxima_ocorrencia (empresa, beneficiario, valor) contador in
    let! snippet := snippet_de texto in
    let nome_arquivo := montar_nome beneficiario valor cnt snippet in
    Ok ({| pg_empresa := empresa; pg_beneficiario := beneficiario; pg_valor := valor;
           pg_cnt := cnt; pg_nome_arquivo := nome_arquivo |}, contador).

(** The loop of [main] over the parts, from the counter of the run. *)
Fixpoint processar (partes : list (list str)) (contador : gmap (str * str * str) nat)
    : result (list pagina) :=
    match partes with
    | [] => Ok []
    | pages :: rest =>
      let! r := processar_parte pages contador in
      let! rs := processar rest (snd r) in
      Ok (fst r :: rs)
    end.

Definition main (partes : list (list str)) : result (list pagina) :=
    processar partes ∅.

End Script.
End Sanitized.

(** ** [renomear_comprovantes_v16_bradesco_pix.py] *)
Module V16.
Section Script.
Context {U : UnicodeData} {F : FloatParse}.

Definition EMPRESAS : list (str * list str) :=
    [ (u "LIFE_SCIENCE", [u "FARMAUSA LIFE SCIENCE"; u "LIFE SCIENCE"]);
      (u "URBANBOX", [u "URBANBOX"]);
      (u "PHARMACEUTICAL", [u "FARMAUSA PHARMACEUTICAL"; u "FARMAUSA PHARMACEUTICAL LTDA"]) ].

Definition sanitize_filename (name : str) : str :=
    let name := strip name in
    let name := nfkd name in
    let name := List.filter (fun c => negb (combining c)) name in
    let name := re_sub NOFLAGS (re_compile_str (u "[\\/\\:\*\?" ++ [34%N] ++ u "<>\|]")) [] name in
    let name := re_sub NOFLAGS (re_compile "[^0-9A-Za-z_\-\s\(\)\[\]]") [] name in
    let name := join (u "_") (split name) in
    let name := if MAX_NAME_LEN <? length name then firstn MAX_NAME_LEN name else name in
    match name with
    | [] => FORNECEDOR_DESCONHECIDO
    | _ => name
    end.

Definition empresas_sistema : list str :=
    [u "FARMAUSA"; u "URBANBOX"; u "PHARMACEUTICAL"; u "LIFE SCIENCE"; u "SICOOB"].

Definition rejeitar : list str :=
    [ u "agencia"; u "conta"; u "cpf"; u "cnpj"; u "chave"; u "instituicao";
      u "banco"; u "dados"; u "transferencia"; u "pagamento"; u "valor";
      u "documento"; u "autenticacao"; u "controle"; u "debito"; u "origem";
      u "destino"; u "corrente"; u "codigo"; u "barras"; u "linha"; u "digitavel" ].

(** The loop over [empresas_sistema]: [true] when it returns [False]. *)
Fixpoint rejeita_empresa (nome_upper : str) (emps : list str) : bool :=
    match emps with
    | [] => false
    | emp :: rest =>
      if contains emp nome_upper then
        if str_eqb emp (u "SICOOB") && (25 <? length nome_upper)
           && negb (contains (u "SISTEMA DE COOPERATIVAS") nome_upper)
        then rejeita_empresa nome_upper rest
        else true
      else rejeita_empresa nome_upper rest
    end.

(** [validar_nome] for a list [empresas_sistema]. *)
Definition validar_nome_com (empresas_sistema : list str) (nome : str) (min_len : nat)
    : bool :=
    if match nome with [] => true | _ => false end || (length nome <? min_len) then false
    else if negb (is_some (re_search NOFLAGS (re_compile "[a-zA-Z]") nome)) then false
    else if is_some (re_match NOFLAGS (re_compile "^[\d\.\-\*\s]+$") nome) then false
    else
      let nome_upper := str_upper nome in
      if rejeita_empresa nome_upper empresas_sistema then false
      else
        let nome_lower := str_lower nome in
        if existsb (fun r => str_eqb nome_lower r || startswith (r ++ u " ") nome_lower)
                   rejeitar
        then false
        else if negb (is_some (re_search NOFLAGS (re_compile "[a-zA-Z]") nome)) then false
        else
          let palavras := split nome in
          if (2 <=? length palavras)
             || (0 <? length (re_findall0 NOFLAGS (re_compile "[a-zA-Z]{5,}") nome))
          then true
          else false.

Definition validar_nome (nome : str) (min_len : nat) : bool :=
    validar_nome_com empresas_sistema nome min_len.

Definition identificar_empresa (texto : str) : str :=
    identificar_empresa_em EMPRESAS (str_upper texto).

(** The two Bradesco PIX searches that precede the loop over [patterns]. *)
Definition valor_bradesco (pattern : regex) (tp : str) (texto : str)
    : result (list valor_cand) :=
    match re_search IGNORECASE pattern texto with
    | Some m =>
      let! g := group_str m 1 in
      let val := strip g in
      let val_conv := replace1 (ch ",") (u ".") (replace1 (ch ".") [] val) in
      match float_of val_conv with
      | Some valor_float =>
        if float_pos valor_float then
          Ok [ {| valor := val; tipo := tp; prioridade := 0; float := valor_float |} ]
        else Ok []
      | None => Ok []
      end
    | None => Ok []
    end.

Definition patterns : list (regex * nat * str) :=
    [ (re_compile "Valor\s+principal[:\s]*R?\$?\s*([\d\.\,]+)", 1, u "principal");
      (re_compile "Valor\s+total\s+pago[:\s]*R?\$?\s*([\d\.\,]+)", 1, u "total_pago");
      (re_compile "Valor\s+do\s+pagamento[:\s]*R?\$?\s*([\d\.\,]+)", 2, u "pagamento");
      (re_compile "Valor\s+total[:\s]*R?\$?\s*([\d\.\,]+)", 3, u "total");
      (re_compile "Favorecido:.*?Valor[:\s]*R?\$?\s*([\d\.\,]+)", 2, u "favorecido_valor");
      (re_compile "(?:^|\n)Valor[:\s]*R?\$?\s*([\d\.\,]+)", 4, u "valor_linha");
      (re_compile "Valor:R\$\s*([\d\.\,]+)", 1, u "bradesco_pix_valor");
      (re_compile "R\$\s*([\d\.\,]+)(?!\s*(?:Juros|Multa|Desconto|Bonif))", 5, u "rs_isolado") ].

(** The list [valores_encontrados] at the end of the loops. *)
Definition valores_encontrados (texto : str) : result (list valor_cand) :=
    let! v0 :=
      valor_bradesco
        (re_compile "(?:\d{2}\.\d{3}\.\d{3}/\d{4}-\d{2}|\d{3}\.\d{3}\.\d{3}-\d{2})\s+(\d{1,3}(?:\.\d{3})*,\d{2})\s+R\$0,00")
        (u "bradesco_pix_apos_cnpj") texto in
    let! v0 :=
      match v0 with
      | [] =>
        valor_bradesco (re_compile "(\d{1,3}(?:\.\d{3})*,\d{2})\s+R\$0,00")
                       (u "bradesco_pix_antes_tarifa") texto
      | _ => Ok v0
      end in
    let! vs := valores_dos_padroes patterns texto in
    Ok (v0 ++ vs).

Definition extrair_valor (texto : str) : result str :=
    match texto with
    | [] => Ok VALOR_NAO_ENCONTRADO
    | _ =>
      let! valores := valores_encontrados texto in
      Ok (melhor_valor valores)
    end.

Definition um_candidato (ok : bool) (n : str) (sc : nat) (met : str) : list benef_cand :=
    if ok then [ {| nome := n; score := sc; metodo := met |} ] else [].

(** A detector that collapses the whitespace of the capture and upper-cases it. *)
Definition detector_upper (fl : flags) (pattern : regex) (text : str)
      (min_len sc : nat) (met : str) : result (list benef_cand) :=
    match re_search fl pattern text with
    | Some m =>
      let! g := group_str m 1 in
      let nome := strip g in
      let nome := str_upper (re_sub NOFLAGS (re_compile "\s+") (u " ") nome) in
      Ok (um_candidato (validar_nome nome min_len) nome sc met)
    | None => Ok []
    end.

(** A detector that keeps the capture as it is, stripped. *)
Definition detector_raw (fl : flags) (pattern : regex) (text : str)
      (min_len sc : nat) (met : str) : result (list benef_cand) :=
    match re_search fl pattern text with
    | Some m =>
      let! g := group_str m 1 in
      let benef := strip g in
      Ok (um_candidato (validar_nome benef min_len) benef sc met)
    | None => Ok []
    end.

Definition CNPJ : regex := re_compile "\d{2}\.\d{3}\.\d{3}/\d{4}-\d{2}".
Definition CPF : regex := re_compile "\d{3}\.\d{3}\.\d{3}-\d{2}".

(** Score 22: "Controle de Pagamento". *)
Definition det_bradesco_controle (texto_clean : str) : result (list benef_cand) :=
    match
      re_search IGNORECASE
        (re_compile "Controle\s+de\s+Pagamento\s+Benefici[aá]rio:\s*([A-ZÀ-ÚÇ][A-ZÀ-ÚÇ\s\.\-\(\)0-9]+?)(?:\s*CPF/CNPJ:|\s*Controle:|\s*$)")
        texto_clean
    with
    | Some m =>
      let! g := group_str m 1 in
      let nome := strip g in
      let nome := str_upper (re_sub NOFLAGS (re_compile "\s+") (u " ") nome) in
      let nome := strip (re_sub NOFLAGS CNPJ [] nome) in
      let nome := strip (re_sub NOFLAGS CPF [] nome) in
      Ok (um_candidato (validar_nome nome 5) nome 22 (u "BRADESCO-PIX-ControlePagamento-V16"))
    | None => Ok []
    end.

(** Score 15 or 14: the PIX receiver. *)
Definition det_pix (texto texto_clean : str) : result (list benef_cand) :=
    if contains (u "PIX") (str_upper texto) then
      let m_pix :=
        re_search IGNORECASE_DOTALL
          (re_compile "(?:Dados de quem recebeu|Destina\s*t[aá]rio\s*:).*?Nome\s*:\s*([A-Z][A-Z\s\.\-]{5,100}?)(?:\s*CPF/CNPJ|\s*Instituição|\s*Chave|\s*Agência|\s*Conta|$)")
          texto in
      let m_pix :=
        match m_pix with
        | Some m => Some m
        | None =>
          re_search IGNORECASE_DOTALL
            (re_compile "(?:CPF/CNPJ|CNPJ)?:?\s*([A-Z][A-Z\s\.\-]{5,100}?)\s*Nome:")
            texto_clean
        end in
      match m_pix with
      | Some m =>
        let! g := group_str m 1 in
        let raw_nome := strip g in
        let nome := strip (re_sub IGNORECASE (re_compile "[^A-Z\s\.]") (u " ") raw_nome) in
        let nome := str_upper (re_sub NOFLAGS (re_compile "\s+") (u " ") nome) in
        if contains (u "FARMAUSA") nome || contains (u "URBANBOX") nome then Ok []
        else
          let sc := if contains (u "Dados de quem recebeu") texto then 15 else 14 in
          Ok (um_candidato (validar_nome nome 8) nome sc
                (u "PIX-recebedor-V15-score" ++ str_of_nat sc))
      | None => Ok []
      end
    else Ok [].

(** The name corrections of the SICOOB detector, applied in order. *)
Definition mapeamentos : list (str * str) :=
    [ (u "DALL PHYT OLAB S A", u "DALL PHYTO LAB S.A.");
      (u "PREF SP DAMSP", u "PREFEITURA MUNICIPAL DE SAO PAULO");
      (u "PRO AN QUIM E DIAGNOSTICA LTDA", u "PRO AN QUIMICA E DIAGNOSTICA LTDA");
      (u "SUPRICORP SUPRIMENTOS LTDA", u "SUPRICORP SUPRIMENTOS LTDA");
      (u "SUPER EPI EQUIPAM E PROTECAO INDIVIDUAL", u "SUPER EPI EQUIPAMENTOS E PROTECAO INDIVIDUAL");
      (u "ANHANGUERA COM DE FERR LTDA", u "ANHANGUERA COM DE FERRO LTDA");
      (u "KALUNGA SA", u "KALUNGA S.A.");
      (u "XP INVESTIMENTOS", u "XP INVESTIMENTOS");
      (u "FARMAUSA LIFE SCIENCE", u "FARMAUSA LIFE SCIENCE") ].

Definition mapear (benef : str) : str :=
    fold_left
      (fun benef '(de, para) => if str_eqb (strip (str_upper benef)) de then para else benef)
      mapeamentos benef.

(** Score 10: SICOOB. *)
Definition det_sicoob (texto : str) : result (list benef_cand) :=
    if contains (u "SICOOB") (str_upper texto) then
      match
        re_search IGNORECASE_DOTALL
          (re_compile "(?:Nome/Raz[aã]o Social:|Conv[êe]nio:|Benefici[aá]rio:|Nome:)\s*([A-Z0-9\s\.\-]+?)(?:\s*Nome Fantasia|\s*CPF/CNPJ|\s*Pagador|\s*Cr[ée]dito:|\s*Autentica[çc][aã]o|$)")
          texto
      with
      | Some m =>
        let! g := group_str m 1 in
        let benef := strip g in
        if contains (u "SICOOB") (str_upper benef)
           && contains (u "SISTEMA DE COOPERATIVAS") (str_upper benef)
        then Ok []
        else
          let benef := mapear benef in
          Ok (um_candidato (validar_nome benef 5) benef 10 (u "SICOOB-beneficiario"))
      | None => Ok []
      end
    else Ok [].

(** Scores 10 and 9: taxes and fees. *)
Definition det_imposto (texto texto_clean : str) : result (list benef_cand) :=
    if is_some (re_search IGNORECASE (re_compile "IMPOSTO|TAXA") texto) then
      let! orgao :=
        detector_raw IGNORECASE
          (re_compile "Empresa[\\/\s]+[OÓ]rg[aã]o[:\s]+([A-Z][A-Z0-9\-\s]{5,50}?)(?:\s*\d{2}\.\d{3}|\s*Codigo|\s*CNPJ)")
          texto_clean 5 10 (u "IMPOSTO-regex") in
      let nomes_grerj :=
        re_findall1 IGNORECASE (re_compile "\b(RJ-[A-Z\s]+(?:ELETRONICA|DIGITAL)?)\b") texto_clean in
      Ok (orgao ++
          flat_map (fun nome => um_candidato (validar_nome nome 5) (strip nome) 9
                                  (u "IMPOSTO-padrao-RJ")) nomes_grerj)
    else Ok [].

(** Scores 10 and 9: the forward patterns of bank slips. *)
Definition det_boleto (texto texto_clean : str) : result (list benef_cand) :=
    if contains (u "Boleto") texto || contains (u "Beneficiário") texto
       || contains (u "Razão Social") texto
    then
      let! m_sicoob_boleto :=
        detector_upper IGNORECASE_DOTALL
          (re_compile "Benefici[aá]rio:\s*Nome/Raz[aã]o\s*Social:\s*([A-Z][A-Z\s\.\-]{5,100}?)(?:\s*CPF/CNPJ|\s*Instituição|\s*Chave|\s*Agência|\s*Conta|$)")
          texto_clean 5 10 (u "SICOOB-BOLETO-V19") in
      let! m_forward :=
        detector_raw IGNORECASE
          (re_compile "Raz[aã]o\s+Social\s+Benefici[aá]rio[:\s]+([A-Z][A-Z\s]+LTDA|[A-Z][A-Z\s]+S\.?A\.?|[A-Z][A-Z\s]{10,60}?)(?:\s*(?:013|037|CPF|CNPJ|Nome|Banco|\d{3}\.\d{3}))")
          texto_clean 8 10 (u "BOLETO-razao-social-forward") in
      let! m_final :=
        detector_raw IGNORECASE
          (re_compile "Benefici[aá]rio\s+Final[:\s]+([A-Z][A-Z\s]+?)(?:\s*(?:CPF|CNPJ|Razao|\d{3}\.\d{3}))")
          texto_clean 8 9 (u "BOLETO-final-forward") in
      Ok (m_sicoob_boleto ++ m_forward ++ m_final)
    else Ok [].

(** The list [candidatos] before the final decision, in the order of the
    detectors. *)
Definition candidatos (texto : str) : result (list benef_cand) :=
    let texto_clean := re_sub NOFLAGS (re_compile "\s+") (u " ") texto in
    let! c_controle := det_bradesco_controle texto_clean in
    let! c_apos_cnpj :=
      detector_upper IGNORECASE
        (re_compile "37\.124\.240/0001-08\s+([A-ZÀ-ÚÇ][A-ZÀ-ÚÇ\s\.\-\(\)]+?)(?:\s+\d{2}\.\d{3}\.\d{3}/\d{4}-\d{2}|\s+\d{3}\.\d{3}\.\d{3}-\d{2}|\s*$)")
        texto_clean 5 21 (u "BRADESCO-PIX-AposCNPJ-V16") in
    let! c_recebeu :=
      if contains (u "Bradesco") texto || contains (u "bradesco") (str_lower texto) then
        detector_upper IGNORECASE_DOTALL
          (re_compile "Dados\s+de\s+quem\s+recebeu.*?Nome:\s*([A-ZÀ-ÚÇ][A-ZÀ-ÚÇ\s\.\-\(\)]+?)(?:\s*CPF/CNPJ:|\s*Institui[çc][aã]o|\s*$)")
          texto_clean 5 20 (u "BRADESCO-PIX-DadosRecebeu-V16")
      else Ok [] in
    let! c_sicoob_ted :=
      detector_upper IGNORECASE_DOTALL
        (re_compile "Cr[ée]dito:\s*Nome:\s*([A-Z][A-Z\s\.\-]{5,100}?)(?:\s*CPF/CNPJ|\s*Instituição|\s*Chave|\s*Agência|\s*Conta|$)")
        texto_clean 5 19 (u "SICOOB-TED-V19") in
    let! c_pix := det_pix texto texto_clean in
    let! c_santander_pix :=
      detector_upper IGNORECASE_DOTALL
        (re_compile "Dados do recebedor Para\s*(?:[0-9\s]+)?\s*([A-Z][A-Z\s\-\(\).]{5,100}?)(?:\s*Chave|\s*CPF/CNPJ|\s*Agência|\s*Conta|$)")
        texto_clean 8 13 (u "SANTANDER-PIX-recebedor-V15") in
    let! c_boleto_rev :=
      detector_upper IGNORECASE
        (re_compile "([A-Z][A-Z\s\-\(\).]{5,100}?)\s+Raz[aã]o\s+Social\s+Benefici[aá]rio(?:\s+Final)?\s*:")
        texto_clean 8 12 (u "BOLETO-razao-social-reversa-V15") in
    let! c_sicoob := det_sicoob texto in
    let! c_santander :=
      if contains (u "Santander") texto && contains (u "Dados do Beneficiário Original") texto
      then
        detector_raw IGNORECASE_DOTALL
          (re_compile "Benefici[aá]rio Original.*?Raz[aã]o Social:\s*(?P<beneficiario>[A-Z][A-Z\s\-\(\)]+?)(?:\s*Nome Fantasia|\s*Dados do Pagador)")
          texto_clean 5 10 (u "SANTANDER-beneficiario-original")
      else Ok [] in
    let! c_imposto := det_imposto texto texto_clean in
    let! c_boleto := det_boleto texto texto_clean in
    let! c_favorecido :=
      detector_raw IGNORECASE
        (re_compile "Favorecido[:\s]+([A-Z][A-Z\s]+?)(?:\s+Valor|\s+CNPJ|\s+CPF)")
        texto_clean 5 10 (u "Santander-favorecido") in
    Ok (c_controle ++ c_apos_cnpj ++ c_recebeu ++ c_sicoob_ted ++ c_pix ++ c_santander_pix
        ++ c_boleto_rev ++ c_sicoob ++ c_santander ++ c_imposto ++ c_boleto ++ c_favorecido).

Definition extrair_beneficiario (texto : str) : result str :=
    match texto with
    | [] => Ok FORNECEDOR_DESCONHECIDO
    | _ =>
      let! cs := candidatos texto in
      Ok (decisao_final cs)
    end.

Definition montar_nome (benef valor : str) (contador : nat) (snippet : str) : str :=
    let benef_safe := sanitize_filename benef in
    let valor_safe := match valor with [] => VALOR_NAO_ENCONTRADO | _ => valor end in
    let base :=
      match snippet with
      | [] => benef_safe ++ u " - " ++ valor_safe
      | _ => benef_safe ++ u " - " ++ snippet ++ u " - " ++ valor_safe
      end in
    if 1 <? contador
    then PIX_PREFIX ++ str_of_nat contador ++ u " - " ++ base ++ u ".pdf"
    else base ++ u ".pdf".

(** [hay.find(needle)]; [None] is [-1]. *)
Fixpoint find (needle hay : str) : option nat :=
    if startswith needle hay then Some 0
    else
      match hay with
      | [] => None
      | _ :: hay' => option_map S (find needle hay')
      end.

(** [s.splitlines()] *)
Fixpoint splitlines_aux (acc : str) (s : str) : list str :=
    match s with
    | [] => match acc with [] => [] | _ => [rev acc] end
    | c :: s' =>
      if is_linebreak c then
        rev acc ::
        match s' with
        | d :: s'' => if (c =? 13)%N && (d =? 10)%N then splitlines_aux [] s''
                      else splitlines_aux [] s'
        | [] => splitlines_aux [] s'
        end
      else splitlines_aux (c :: acc) s'
    end.

Definition splitlines (s : str) : list str := splitlines_aux [] s.

Definition padroes : list (regex * nat) :=
    [ (re_compile "CONTROLE DE PAGAMENTO\s+BENEFICI[AÁ]RIO:\s*([A-Z0-9\.\-&\s\(\)\/ÇÃÕÉÊÍÓÚÀÂ]{5,120})", 105);
      (re_compile "Conta[:\s]*[^\n/]+/\s*([A-Z0-9\.\-&\s\(\)\/]{5,120})", 100);
      (re_compile "Cr[eé]dito[:\s\S]{0,300}?Nome[:\s]*([A-Z0-9\.\-&\s\(\)\/]{5,120})", 95);
      (re_compile "D[eé]bito[:\s\S]{0,300}?Nome[:\s]*([A-Z0-9\.\-&\s\(\)\/]{5,120})", 94);
      (re_compile "DADOS DE QUEM RECEBEU[\s\S]{0,200}?NOME[:\s]*([A-Z0-9\.\-&\s\(\)\/]{5,120})", 92);
      (re_compile "FAVORECIDO[:\s]*([A-Z0-9\.\-&\s\(\)\/]{5,120})", 90);
      (re_compile "RAZ[ÃA]O\s+SOCIAL\s+BENEFICIAR?IO(?:\s+FINAL)?[:\s]*([A-Z0-9\.\-&\s\(\)\/]{5,120})", 88);
      (re_compile "EMPRESA\s*(?:/|\\s)?\s*ÓRG[ÃA]O[:\s]*([A-Z0-9\.\-&\s\(\)\/]{5,120})", 85);
      (re_compile "\bPARA[:\s]*([A-Z0-9\.\-&\s\(\)\/]{5,120})", 80) ].

(** The candidate of one entry of [padroes]. *)
Definition candidato_do_padrao (texto_orig texto_upper : str) (pat : regex) (sc : nat)
    : result (list (str * nat)) :=
    match re_search IGNORECASE_DOTALL pat texto_upper with
    | Some m =>
      let! g := group_str m 1 in
      let nome := strip g in
      let nome := re_sub NOFLAGS (re_compile "[\t\n\r]+") (u " ") nome in
      let nome :=
        strip_by (fun c => (c =? ch " ")%N || (c =? ch "/")%N || (c =? ch "-")%N)
                 (re_sub NOFLAGS (re_compile "\s+") (u " ") nome) in
      let nome := strip (re_sub NOFLAGS CNPJ [] nome) in
      let nome := strip (re_sub NOFLAGS CPF [] nome) in
      let snippet_raw :=
        match find (str_upper nome) (str_upper texto_orig) with
        | Some idx => firstn (length nome) (skipn idx texto_orig)
        | None => []
        end in
      let candidato_texto := match snippet_raw with [] => nome | _ => snippet_raw end in
      if validar_nome candidato_texto 5 then Ok [(strip candidato_texto, sc)] else Ok []
    | None => Ok []
    end.

(** The fallback: the longest line without technical words that is a valid name. *)
Definition melhor_linha (texto_orig : str) : option str :=
    let lines := List.filter (fun ln => negb (match ln with [] => true | _ => false end))
                        (map strip (splitlines texto_orig)) in
    fold_left
      (fun best ln =>
         let ln_upper := str_upper ln in
         if (6 <=? length ln) && is_some (re_search NOFLAGS (re_compile "[A-ZÀ-Ú]") ln_upper) then
           if is_some (re_search NOFLAGS
                (re_compile "\b(AGENCIA|CONTA|CPF|CNPJ|CHAVE|BANC|VALOR|LOTE|NSU|LINHA|BARRAS|AUTENTICA)\b")
                ln_upper)
           then best
           else if validar_nome ln 5 then
             match best with
             | None => Some ln
             | Some b => if length b <? length ln then Some ln else best
             end
           else best
         else best)
      lines None.

(** [tratar_fornecedor_desconhecido]; the first element of the list sorted
    by decreasing score (the sort is stable) is the first candidate of
    highest score. *)
Definition tratar_fornecedor_desconhecido (texto : str) : result str :=
    match texto with
    | [] => Ok FORNECEDOR_DESCONHECIDO
    | _ =>
      let texto_orig := texto in
      let texto_upper := str_upper (re_sub NOFLAGS (re_compile "\s+") (u " ") texto) in
      let! candidatos :=
        for_each (fun '(pat, sc) => candidato_do_padrao texto_orig texto_upper pat sc) padroes in
      let candidatos :=
        match candidatos with
        | [] =>
          match melhor_linha texto_orig with
          | Some best => [(strip best, 50)]
          | None => []
          end
        | _ => candidatos
        end in
      match py_max snd candidatos with
      | Some melhor => Ok (strip (fst melhor))
      | None => Ok FORNECEDOR_DESCONHECIDO
      end
    end.

(** The snippet of a page in [main]. *)
Definition snippet_de (texto : str) : result str :=
    if is_some (re_search IGNORECASE
                  (re_compile "LINHA\s+DIGIT|CODIGO\s+DE\s+BARRAS|NOSSO\s+N") texto)
    then
      let! seq := extrair_linha_digitavel texto in
      match seq with
      | [] => Ok []
      | _ => Ok (tail_of seq)
      end
    else Ok [].

(** The body of the loop of [main] for one part, whose pages PyPDF2 reads
    as [pages], with the counter of the run. *)
Definition processar_parte (pages : list str) (contador : gmap (str * str * str) nat)
    : result (pagina * gmap (str * str * str) nat) :=
    let texto := extrair_texto_pdf pages in
    let! beneficiario := extrair_beneficiario texto in
    let! beneficiario :=
      if str_eqb beneficiario FORNECEDOR_DESCONHECIDO
      then tratar_fornecedor_desconhecido texto
      else Ok beneficiario in
    let! valor := extrair_valor texto in
    let empresa := identificar_empresa texto in
    let '(cnt, contador) := proxima_ocorrencia (empresa, beneficiario, valor) contador in
    let! snippet := snippet_de texto in
    let nome_arquivo := montar_nome beneficiario valor cnt snippet in
    Ok ({| pg_empresa := empresa; pg_beneficiario := beneficiario; pg_valor := valor;
           pg_cnt := cnt; pg_nome_arquivo := nome_arquivo |}, contador).

(** The loop of [main] over the parts, from the counter of the run. *)
Fixpoint processar (partes : list (list str)) (contador : gmap (str * str * str) nat)
    : result (list pagina) :=
    match partes with
    | [] => Ok []
    | pages :: rest =>
      let! r := processar_parte pages contador in
      let! rs := processar rest (snd r) in
      Ok (fst r :: rs)
    end.

Definition main (partes : list (list str)) : result (list pagina) :=
    processar partes ∅.

End Script.
End V16.

(** ** The vocabulary of the properties *)

(** Group [i] has a text in the state [s]. *)
Definition has_group (i : nat) (s : mstate) : Prop := assoc i (m_caps s) <> None.

(** [s'] keeps the groups of [s]. *)
Definition keeps (s s' : mstate) : Prop := forall i, has_group i s -> has_group i s'.

(** The computation returns a value: it raises nothing. *)
Definition never_raises {A} (r : result A) : Prop := exists a, r = Ok a.

(** The two extractors fill [unicos] with the same loop: a candidate enters
    under its key when the key is new or when it is strictly better than the
    candidate already there.  [w] measures a candidate, the smaller the
    better. *)
Section Unicos.
Context {A K : Type} `{EqDecision K}.
Variables (key : A -> K) (w : A -> Z) (better : A -> A -> bool).

Definition unicos_step (d : list (K * A)) (x : A) : list (K * A) :=
  match dict_get (key x) d with
  | None => dict_set (key x) x d
  | Some o => if better x o then dict_set (key x) x d else d
  end.

Definition unicos_by (l : list A) : list (K * A) := fold_left unicos_step l [].

(** The candidate [snd kv] is, among the candidates of [l] with the key
    [fst kv], the first one of least measure. *)
Definition entry_ok (l : list A) (kv : K * A) : Prop :=
  key (snd kv) = fst kv /\
  exists l1 l2, l = l1 ++ snd kv :: l2
    /\ (forall c, In c l1 -> key c = fst kv -> (w (snd kv) < w c)%Z)
    /\ (forall c, In c l2 -> key c = fst kv -> (w (snd kv) <= w c)%Z).

(** The keys [ks] are in the order of their first candidates in [l]. *)
Definition keys_in_order (l : list A) (ks : list K) : Prop :=
  forall ks1 k1 ks2 k2, ks = ks1 ++ k1 :: ks2 -> In k2 ks2 ->
    exists p q, l = p ++ q /\ (exists x, In x p /\ key x = k1)
                /\ (forall x, In x p -> key x <> k2).

Definition unicos_inv (l : list A) (d : list (K * A)) : Prop :=
  List.NoDup (map fst d)
  /\ List.Forall (entry_ok l) d
  /\ (forall c, In c l -> In (key c) (map fst d))
  /\ keys_in_order l (map fst d).

(** The scan of [min] and [max]: the element kept is replaced by a strictly
    better one. *)
Fixpoint pick_by (best : A) (l : list A) : A :=
  match l with
  | [] => best
  | x :: l' => pick_by (if better x best then x else best) l'
  end.

Definition py_pick (l : list A) : option A :=
  match l with
  | [] => None
  | x :: l' => Some (pick_by x l')
  end.

(** The candidate chosen from the dictionary of [l]. *)
Definition chosen (l : list A) : option A :=
  py_pick (dict_values (unicos_by l)).

(** What the choice is: a candidate of least measure; the first of that
    measure with its key; and, among the keys that reach this measure, the
    key whose first candidate comes first. *)
Definition is_choice (l : list A) (m : A) : Prop :=
  In m l
  /\ (forall c, In c l -> (w m <= w c)%Z)
  /\ (exists l1 l2, l = l1 ++ m :: l2
        /\ forall c, In c l1 -> key c = key m -> (w m < w c)%Z)
  /\ (forall c, In c l -> w c = w m ->
        key c = key m
        \/ exists p q, l = p ++ q /\ (exists x, In x p /\ key x = key m)
                       /\ (forall x, In x p -> key x <> key c)).

End Unicos.

Section Vocabulary.
Context {U : UnicodeData} {F : FloatParse}.

(** The normalised text [nome_norm] under which a candidate is grouped. *)
Definition grupo (c : benef_cand) : str := strip (str_upper (nome c)).

(** Each entry of [unicos] holds a candidate of the list that belongs to the
    entry's group and has the highest score of the group. *)
Definition grupos_ok (l : list benef_cand) (d : list (str * benef_cand)) : Prop :=
  List.NoDup (map fst d)
  /\ (forall c, In c l -> In (grupo c) (map fst d))
  /\ List.Forall (fun kv => grupo (snd kv) = fst kv /\ In (snd kv) l
                   /\ forall c, In c l -> grupo c = fst kv -> score c <= score (snd kv)) d.

(** [m] is the candidate that the decision returns: it has the highest
    score; it is the first candidate of that score in its group; and of the
    groups that reach this score, its group is the one that was opened first. *)
Definition vencedor (l : list benef_cand) (m : benef_cand) : Prop :=
  In m l
  /\ (forall c, In c l -> score c <= score m)
  /\ (exists l1 l2, l = l1 ++ m :: l2
        /\ forall c, In c l1 -> grupo c = grupo m -> score c < score m)
  /\ (forall c, In c l -> score c = score m ->
        grupo c = grupo m
        \/ exists p q, l = p ++ q /\ (exists x, In x p /\ grupo x = grupo m)
                       /\ (forall x, In x p -> grupo x <> grupo c)).

(** Each entry of [unicos] holds a candidate of the list with the entry's
    parsed value and the lowest priority number among them. *)
Definition valores_ok (l : list valor_cand) (d : list (float_t * valor_cand)) : Prop :=
  List.NoDup (map fst d)
  /\ (forall c, In c l -> In (float c) (map fst d))
  /\ List.Forall (fun kv => float (snd kv) = fst kv /\ In (snd kv) l
                   /\ forall c, In c l -> float c = fst kv ->
                                prioridade (snd kv) <= prioridade c) d.

(** [best] is the candidate whose value the extractor returns: no candidate
    has a lower priority number. *)
Definition mais_especifico (l : list valor_cand) (best : valor_cand) : Prop :=
  In best l /\ forall c, In c l -> prioridade best <= prioridade c.

(** The two facts of NFKC that [limpar_texto] relies on: it is idempotent,
    and it brings in none of the three characters that are replaced before
    it. *)
Definition nfkc_idempotent : Prop := forall s, nfkc (nfkc s) = nfkc s.

Definition nfkc_stable : Prop :=
  forall s c, ~ In 8232%N s -> In c (nfkc s) ->
    c <> 64257%N /\ c <> 64258%N /\ c <> 8232%N.

End Vocabulary.

(** The letters of [[a-zA-Z]]. *)
Definition ascii_letter (c : cp) : bool :=
  (((97 <=? c) && (c <=? 122)) || ((65 <=? c) && (c <=? 90)))%N.

(** The exception of the loop over [empresas_sistema] of the v16 script: a
    long name with SICOOB that is not the name of the bank. *)
Definition cooperativa (emp nome_upper : str) : bool :=
  str_eqb emp (u "SICOOB") && (25 <? length nome_upper)
  && negb (contains (u "SISTEMA DE COOPERATIVAS") nome_upper).

(** The text [s] is without the character [x]. *)
Definition without (x : cp) (s : str) : bool := forallb (fun c => negb (c =? x)%N) s.

(** The prefix of a repeated name. *)
Definition prefixo (contador : nat) : str :=
  if 1 <? contador then PIX_PREFIX ++ str_of_nat contador ++ u " - " else [].

(** The name without prefix and extension. *)
Definition base_de (benef_safe valor snippet : str) : str :=
  let valor_safe := match valor with [] => VALOR_NAO_ENCONTRADO | _ => valor end in
  match snippet with
  | [] => benef_safe ++ u " - " ++ valor_safe
  | _ => benef_safe ++ u " - " ++ snippet ++ u " - " ++ valor_safe
  end.

(** The occurrence key of a page. *)
Definition chave (p : pagina) : str * str * str :=
  (pg_empresa p, pg_beneficiario p, pg_valor p).

(** The pages of [hist] with the key [k]. *)
Definition ocorrencias (k : str * str * str) (hist : list pagina) : nat :=
  length (List.filter (fun q => bool_decide (chave q = k)) hist).

(** The counter holds the occurrences of the pages seen so far. *)
Definition conta (contador : gmap (str * str * str) nat) (hist : list pagina) : Prop :=
  forall k, default 0 (contador !! k) = ocorrencias k hist.

(** The receipt of the end-to-end example, followed by a payer alias. *)
Definition fragmento_beneficiario : str :=
  u "Controle de Pagamento Beneficiário: MARIO PASTORE CPF/CNPJ: 123.456.789-00".

Definition fragmento_valor : str := u "Valor principal: R$ 8.000,00".

Definition comprovante (alias : str) : str :=
  fragmento_beneficiario ++ u " " ++ fragmento_valor ++ u " " ++ alias.

(** What [main] reports for that receipt under the payer code [empresa]. *)
Definition esperado (empresa : str) : pagina :=
  {| pg_empresa := empresa;
     pg_beneficiario := u "MARIO PASTORE";
     pg_valor := u "8000,00";
     pg_cnt := 1;
     pg_nome_arquivo := u "MARIO_PASTORE - 8000,00.pdf" |}.

(** ** The vocabulary of the decision over the candidates of a text *)

Section Registro.
Context {U : UnicodeData}.

(** The hyphen has no case and is no whitespace: [re.IGNORECASE] identifies
    it with itself only, and upper-casing a text neither brings in a hyphen
    nor takes one away. *)
Definition hifen_sem_caixa : Prop :=
  (forall x, In (ch "-") (case_variants x) -> x = ch "-")
  /\ (forall v, In v (case_variants (ch "-")) -> v = ch "-")
  /\ (forall s, In (ch "-") (str_upper s) <-> In (ch "-") s)
  /\ is_space (ch "-") = false.

(** [m] is the first candidate of the highest score of [l], in the order in
    which the detectors registered their candidates. *)
Definition primeiro_do_topo (l : list benef_cand) (m : benef_cand) : Prop :=
  exists l1 l2, l = l1 ++ m :: l2
    /\ (forall c, In c l1 -> score c < score m)
    /\ (forall c, In c l2 -> score c <= score m).

(** No text comes back with the score of a candidate that came between: a
    candidate [d] never has the text of an earlier candidate [e] and the
    score of a candidate between them that beats [e]. *)
Definition sem_retorno (l : list benef_cand) : Prop :=
  forall l1 e l2 c l3 d l4, l = l1 ++ e :: l2 ++ c :: l3 ++ d :: l4 ->
    score e < score c -> score c = score d -> grupo e <> grupo d.

(** The place of the method [met] in a table of detectors. *)
Fixpoint lugar (met : str) (tab : list (str * nat)) : nat :=
  match tab with
  | [] => 0
  | (m, _) :: tab' => if str_eqb m met then 0 else S (lugar met tab')
  end.

(** [a] is registered before [b]: its detector comes first in the table, or
    both come from the detector [varios], the one that registers several
    candidates. *)
Definition antes (tab : list (str * nat)) (varios : str) (a b : benef_cand) : Prop :=
  lugar (metodo a) tab < lugar (metodo b) tab
  \/ (metodo a = varios /\ metodo b = varios).

(** The candidate [c] is the one of a detector of the table, with its score. *)
Definition entrada (tab : list (str * nat)) (c : benef_cand) : Prop :=
  nth_error tab (lugar (metodo c) tab) = Some (metodo c, score c).

(** The candidates of [r] are those of the detectors of the places [i] to
    [j] of the table, in the order of the table, and satisfy [boa]. *)
Definition bloco (tab : list (str * nat)) (varios : str) (boa : benef_cand -> Prop)
    (i j : nat) (r : list benef_cand) : Prop :=
  StronglySorted (antes tab varios) r
  /\ List.Forall (fun c => i <= lugar (metodo c) tab < j /\ entrada tab c /\ boa c) r.

(** What the texts of the candidates of the v16 script keep of the hyphen:
    a name of the RJ pattern has one, a name of the forward pattern of the
    bank slips or of the Favorecido pattern has none. *)
Definition hifens (c : benef_cand) : Prop :=
  (metodo c = u "IMPOSTO-padrao-RJ" -> In (ch "-") (grupo c))
  /\ (metodo c = u "BOLETO-razao-social-forward" \/ metodo c = u "Santander-favorecido" ->
      ~ In (ch "-") (grupo c)).

End Registro.

(** The detectors of the sanitized script, in the order of their
    registration, with their scores. *)
Definition detectores_sanitized : list (str * nat) :=
  [ (u "BRADESCO-PIX-Controle", 22);
    (u "PIX-recebedor", 15);
    (u "TED", 19);
    (u "BOLETO-razao-social", 10);
    (u "Favorecido", 10) ].

(** The detectors of the v16 script. *)
Definition detectores_v16 : list (str * nat) :=
  [ (u "BRADESCO-PIX-ControlePagamento-V16", 22);
    (u "BRADESCO-PIX-AposCNPJ-V16", 21);
    (u "BRADESCO-PIX-DadosRecebeu-V16", 20);
    (u "SICOOB-TED-V19", 19);
    (u "PIX-recebedor-V15-score15", 15);
    (u "PIX-recebedor-V15-score14", 14);
    (u "SANTANDER-PIX-recebedor-V15", 13);
    (u "BOLETO-razao-social-reversa-V15", 12);
    (u "SICOOB-beneficiario", 10);
    (u "SANTANDER-beneficiario-original", 10);
    (u "IMPOSTO-regex", 10);
    (u "IMPOSTO-padrao-RJ", 9);
    (u "SICOOB-BOLETO-V19", 10);
    (u "BOLETO-razao-social-forward", 10);
    (u "BOLETO-final-forward", 9);
    (u "Santander-favorecido", 10) ].

(** The triples of places [i <= j <= k] of a table in which the score of
    [i] is below the score of [j], which is the score of [k]; a place is
    taken twice only by the detector [varios]. *)
Definition retornos (tab : list (str * nat)) (varios : str) : list (nat * nat) :=
  let n := length tab in
  let pts i := match nth_error tab i with Some (_, sc) => sc | None => 0 end in
  let rep i := match nth_error tab i with Some (m, _) => str_eqb m varios | None => false end in
  let seguido i j := (i <? j) || ((i =? j) && rep i) in
  flat_map (fun i =>
    flat_map (fun j =>
      flat_map (fun k =>
        if seguido i j && seguido j k && (pts i <? pts j) && (pts j =? pts k)
        then [(i, k)] else [])
        (seq 0 n))
      (seq 0 n))
    (seq 0 n).

(** The texts that an expression can consume. *)
Section Formas.
Context {U : UnicodeData}.
Variable fl : flags.

(** A concatenation of texts that satisfy [Q]. *)
Inductive estrela (Q : str -> Prop) : str -> Prop :=
| estrela_nil : estrela Q []
| estrela_app a b : Q a -> estrela Q b -> estrela Q (a ++ b).

(** [forma r w]: the text [w] has the shape of what a match of [r]
    consumes (the counts of the repetitions and the tests that consume
    nothing are left out). *)
Fixpoint forma (r : regex) (w : str) : Prop :=
  match r with
  | Empty | Bol | Eol | WordB | NotAhead _ => w = []
  | Never => False
  | Lit c => exists x, w = [x] /\ in_set fl [CChar c] x = true
  | AnyChar => exists x, w = [x]
  | Cls neg items => exists x, w = [x] /\ xorb neg (in_set fl items x) = true
  | Seq r1 r2 => exists a b, w = a ++ b /\ forma r1 a /\ forma r2 b
  | Alt r1 r2 => forma r1 w \/ forma r2 w
  | Rep _ _ _ r' => estrela (forma r') w
  | Grp _ r' => forma r' w
  end.

(** The cursor went from [s] to [s'] over a text that satisfies [Q]. *)
Definition andou (Q : str -> Prop) (s s' : mstate) : Prop :=
  exists consumed, m_rest s = consumed ++ m_rest s'
                   /\ m_pos s' = m_pos s + length consumed
                   /\ Q consumed.

(** The text of group [i], if it has one, satisfies [Q]. *)
Definition grupo_em (Q : str -> Prop) (i : nat) (s : mstate) : Prop :=
  forall g, assoc i (m_caps s) = Some g -> Q g.

(** Every text of the shape of a group [i] of [r] satisfies [Q]. *)
Fixpoint grupos_forma (Q : str -> Prop) (i : nat) (r : regex) : Prop :=
  match r with
  | Grp j r' => (j = i -> forall w, forma r' w -> Q w) /\ grupos_forma Q i r'
  | Seq r1 r2 | Alt r1 r2 => grupos_forma Q i r1 /\ grupos_forma Q i r2
  | Rep _ _ _ r' => grupos_forma Q i r'
  | _ => True
  end.

End Formas.

(** ** The vocabulary of the further properties *)

(** The characters that [sanitize_filename] lets through: the ASCII letters
    and digits and the six signs of "_-()[]". *)
Definition safe_char (c : cp) : bool :=
  ascii_letter c || Parse.is_ascii_digit c || existsb (N.eqb c) (u "_-()[]").

(** The set of the second substitution of [sanitize_filename]. *)
Definition permitidos : list citem :=
  [CRange 48 57; CRange 65 90; CRange 97 122; CChar 95; CChar 45; CSpace;
   CChar 40; CChar 41; CChar 91; CChar 93].

(** The sets of the first substitution in the two scripts. *)
Definition proibidos_sanitized : list citem :=
  [CChar 92; CChar 47; CChar 58; CChar 42; CChar 63; CChar 34; CChar 60; CChar 62; CChar 124].

Definition proibidos_v16 : list citem :=
  [CChar 92; CChar 47; CChar 92; CChar 58; CChar 42; CChar 63; CChar 34; CChar 60; CChar 62;
   CChar 124].

(** The fixed parts of a name: safe characters, spaces, commas and points. *)
Definition fixed_char (c : cp) : bool := safe_char c || existsb (N.eqb c) (u " ,.").

(** What [sanitize_filename] relies on to leave a sanitized name as it is:
    the safe characters are neither whitespace nor combining marks, and NFKD
    does not change a text made of them. *)
Definition safe_plain `{UnicodeData} : Prop :=
  (forall c, safe_char c = true -> is_space c = false /\ combining c = false)
  /\ (forall s, forallb safe_char s = true -> nfkd s = s).

(** What an expression consumes and what its groups capture. *)
Section Capturas.
Context {U : UnicodeData}.
Variables (fl : flags) (P : cp -> Prop).

(** Every character that a match of [r] consumes satisfies [P]. *)
Fixpoint within (r : regex) : Prop :=
  match r with
  | Lit c => forall x, in_set fl [CChar c] x = true -> P x
  | AnyChar => forall x, (dotall fl || negb (x =? 10)%N) = true -> P x
  | Cls neg items => forall x, xorb neg (in_set fl items x) = true -> P x
  | Seq r1 r2 | Alt r1 r2 => within r1 /\ within r2
  | Rep _ _ _ r' | Grp _ r' => within r'
  | _ => True
  end.

(** Every group [i] of [r] consumes only characters that satisfy [P]. *)
Fixpoint captures_within (i : nat) (r : regex) : Prop :=
  match r with
  | Grp j r' => (j = i -> within r') /\ captures_within i r'
  | Seq r1 r2 | Alt r1 r2 => captures_within i r1 /\ captures_within i r2
  | Rep _ _ _ r' => captures_within i r'
  | _ => True
  end.

(** The cursor went from [s] to [s'] over characters that satisfy [P]. *)
Definition moved (s s' : mstate) : Prop :=
  exists consumed, m_rest s = consumed ++ m_rest s'
                   /\ m_pos s' = m_pos s + length consumed
                   /\ List.Forall P consumed.

(** The text of group [i], if it has one, is made of characters that satisfy [P]. *)
Definition caps_ok (i : nat) (s : mstate) : Prop :=
  forall g, assoc i (m_caps s) = Some g -> List.Forall P g.

End Capturas.

Section Montantes.
Context {U : UnicodeData}.

(** The characters of a captured amount: the digits of [\d], the point and
    the comma. *)
Definition amount_char (c : cp) : bool := is_digit c || (c =? ch ".")%N || (c =? ch ",")%N.

(** The characters of an amount as the loop over the patterns stores it. *)
Definition display_char (c : cp) : bool := is_digit c || (c =? ch ",")%N.

(** Digits, points and commas have no case: a character that
    [re.IGNORECASE] identifies with one of them is one of them. *)
Definition amounts_caseless : Prop :=
  forall x v, In v (case_variants x) -> amount_char v = true -> amount_char x = true.

(** The characters of a file name: the safe characters of the beneficiary,
    the digits of the amount, and the space, the comma and the point. *)
Definition nome_char (c : cp) : bool :=
  safe_char c || is_digit c || existsb (N.eqb c) (u " ,.").

(** The reading of a display text: without its points, and with a point
    for its comma. *)
Definition leitura (v : str) : str := replace1 (ch ",") (u ".") (replace1 (ch ".") [] v).

End Montantes.

Section Validados.
Context {U : UnicodeData}.

(** The text [b] was accepted by the validator, as it is or before its
    surrounding whitespace was stripped. *)
Definition validado (validar_nome : str -> nat -> bool) (b : str) : Prop :=
  exists n, validar_nome n 5 = true /\ (b = n \/ b = strip n).

(** At most one candidate, with the score [sc]. *)
Definition um_de (sc : nat) (r : list benef_cand) : Prop :=
  r = [] \/ exists c, r = [c] /\ score c = sc.

(** The aliases are written in upper case: [upper] leaves them as they are. *)
Definition aliases_upper (EMPRESAS : list (str * list str)) : Prop :=
  List.Forall (fun a => str_upper a = a) (flat_map snd EMPRESAS).

End Validados.

(** The step of the scan of the fallback: a line that passes the tests is
    kept when there is none yet or when it is longer than the one kept. *)
Definition manter (ok : str -> bool) (best : option str) (ln : str) : option str :=
  if ok ln then
    match best with
    | None => Some ln
    | Some b => if length b <? length ln then Some ln else best
    end
  else best.

Section Desconhecido.
Context {U : UnicodeData}.

(** The list [candidatos] of [tratar_fornecedor_desconhecido] after the loop
    over [padroes]. *)
Definition candidatos_dos_padroes (texto : str) : result (list (str * nat)) :=
  let texto_upper := str_upper (re_sub NOFLAGS (re_compile "\s+") (u " ") texto) in
  for_each (fun '(pat, sc) => V16.candidato_do_padrao texto texto_upper pat sc) V16.padroes.

(** The stripped, non-empty lines that the fallback of
    [tratar_fornecedor_desconhecido] goes through. *)
Definition linhas (texto : str) : list str :=
  List.filter (fun ln => negb (match ln with [] => true | _ => false end))
              (map strip (V16.splitlines texto)).

(** The tests that a line passes to be kept by the fallback. *)
Definition linha_valida (ln : str) : bool :=
  let ln_upper := str_upper ln in
  (6 <=? length ln)
  && is_some (re_search NOFLAGS (re_compile "[A-ZÀ-Ú]") ln_upper)
  && negb (is_some (re_search NOFLAGS
             (re_compile "\b(AGENCIA|CONTA|CPF|CNPJ|CHAVE|BANC|VALOR|LOTE|NSU|LINHA|BARRAS|AUTENTICA)\b")
             ln_upper))
  && V16.validar_nome ln 5.

End Desconhecido.

(** The page that [main] reports for a part without text. *)
Definition pagina_vazia (cnt : nat) : pagina :=
  {| pg_empresa := OUTROS;
     pg_beneficiario := FORNECEDOR_DESCONHECIDO;
     pg_valor := VALOR_NAO_ENCONTRADO;
     pg_cnt := cnt;
     pg_nome_arquivo :=
       prefixo cnt ++ u "FORNECEDOR_DESCONHECIDO - VALOR_NAO_ENCONTRADO.pdf" |}.

(** Its occurrence key. *)
Definition chave_vazia : str * str * str :=
  (OUTROS, FORNECEDOR_DESCONHECIDO, VALOR_NAO_ENCONTRADO).

(** ** The destination of a copy

    The end of the body of the loop of [main], the same in the two scripts:
    the folder of the payer is created, and the part is copied under the
    name of the page or, if that path exists, under the first free name
    with a numeric suffix.  The files are the set of the paths that exist;
    paths are POSIX paths. *)

Definition PASTA_SAIDA : str := u "saida".

(** [os.path.join(a, b)] *)
Definition path_join (a b : str) : str :=
  if startswith (u "/") b then b
  else
    match a with
    | [] => b
    | _ => if (List.last a 0 =? ch "/")%N then a ++ b else a ++ u "/" ++ b
    end.

(** [p.rfind(c)]; [None] is [-1]. *)
Fixpoint rfind (c : cp) (p : str) : option nat :=
  match p with
  | [] => None
  | d :: p' =>
    match rfind c p' with
    | Some i => Some (S i)
    | None => if (d =? c)%N then Some 0 else None
    end
  end.

(** [os.path.splitext(p)]: the extension starts at the last point of the
    last component, unless only points come before it in the component. *)
Definition splitext (p : str) : str * str :=
  match rfind (ch ".") p with
  | None => (p, [])
  | Some dotIndex =>
    let filenameIndex := match rfind (ch "/") p with Some sepIndex => S sepIndex | None => 0 end in
    if (filenameIndex <=? dotIndex)
       && existsb (fun c => negb (c =? ch ".")%N)
                  (firstn (dotIndex - filenameIndex) (skipn filenameIndex p))
    then (firstn dotIndex p, skipn dotIndex p)
    else (p, [])
  end.

(** The name with the suffix [sufixo]. *)
Definition com_sufixo (pasta_empresa base_no_ext : str) (sufixo : nat) : str :=
  path_join pasta_empresa (base_no_ext ++ u "_" ++ str_of_nat sufixo ++ u ".pdf").

(** [while os.path.exists(dest): dest = ...; sufixo += 1], for at most
    [fuel] tests. *)
Fixpoint livre (fuel : nat) (existe : str -> bool) (pasta_empresa base_no_ext dest : str)
    (sufixo : nat) : str :=
  match fuel with
  | 0 => dest
  | S fuel' =>
    if existe dest
    then livre fuel' existe pasta_empresa base_no_ext
               (com_sufixo pasta_empresa base_no_ext sufixo) (S sufixo)
    else dest
  end.

(** [safe_makedirs(path)]; [main] has created [PASTA_SAIDA] before it
    creates the folder of a payer, so that [os.makedirs] adds one path. *)
Definition safe_makedirs (path : str) (fs : gset str) : gset str := {[path]} ∪ fs.

(** The destination of the copy of a page among the files [fs]; two tests
    more than there are files are enough for the loop to end. *)
Definition destino (fs : gset str) (p : pagina) : str :=
  let pasta_empresa := path_join PASTA_SAIDA (pg_empresa p) in
  let dest := path_join pasta_empresa (pg_nome_arquivo p) in
  let base_no_ext := fst (splitext (pg_nome_arquivo p)) in
  livre (2 + size fs) (fun d => bool_decide (d ∈ fs)) pasta_empresa base_no_ext dest 1.

(** The folders and copies of the pages of a run, in order:
    [safe_makedirs(pasta_empresa)] and [shutil.copy2(part_path, dest)]. *)
Fixpoint copiar (fs : gset str) (pgs : list pagina) : list str * gset str :=
  match pgs with
  | [] => ([], fs)
  | p :: rest =>
    let fs := safe_makedirs (path_join PASTA_SAIDA (pg_empresa p)) fs in
    let dest := destino fs p in
    let '(dests, fs') := copiar ({[dest]} ∪ fs) rest in
    (dest :: dests, fs')
  end.

(** * Properties *)

Arguments re_compile : simpl never.
Arguments re_compile_str : simpl never.

Lemma str_eqb_eq (a b : str) : str_eqb a b = true <-> a = b.
Proof. unfold str_eqb. apply bool_decide_eq_true. Qed.

Lemma str_eqb_refl (a : str) : str_eqb a a = true.
Proof. now apply str_eqb_eq. Qed.

(** ** The matcher gives a text to the groups it passes through *)
Section Groups.
Context {U : UnicodeData}.

Lemma keeps_refl s : keeps s s.
  Proof. intros i Hi. exact Hi. Qed.

Lemma keeps_trans s1 s2 s3 : keeps s1 s2 -> keeps s2 s3 -> keeps s1 s3.
  Proof. intros H12 H23 i Hi. apply H23, H12, Hi. Qed.

Lemma keeps_step s c rest : keeps s (step s c rest).
  Proof. intros i Hi. exact Hi. Qed.

Lemma keeps_set_group i s0 s s' : keeps s s' -> keeps s (set_group i s0 s').
  Proof.
    intros Hk j Hj. unfold has_group, set_group. simpl.
    destruct (j =? i); [discriminate | apply Hk, Hj].
  Qed.

Lemma has_set_group i s0 s' : has_group i (set_group i s0 s').
  Proof. unfold has_group, set_group. simpl. rewrite Nat.eqb_refl. discriminate. Qed.

Lemma take_inv p k s res :
    take p k s = Some res -> exists s', k s' = Some res /\ keeps s s'.
  Proof.
    unfold take. destruct (m_rest s) as [|c rest]; [discriminate|].
    destruct (p c); [|discriminate].
    intros Hk. exists (step s c rest). split; [exact Hk | apply keeps_step].
  Qed.

(** What a successful repetition hands to its continuation, given the same
    fact for its body. *)
Lemma rep_loop_inv body lo hi greedy k :
    (forall k' s res, body k' s = Some res -> exists s', k' s' = Some res /\ keeps s s') ->
    forall fuel n s res,
      rep_loop body lo hi greedy k fuel n s = Some res ->
      exists s', k s' = Some res /\ keeps s s'.
  Proof.
    intros Hbody. induction fuel as [|fuel IH]; intros n s res Hrun; simpl in Hrun.
    - destruct (lo <=? n); [|discriminate].
      exists s. split; [exact Hrun | apply keeps_refl].
    - assert (Hstop : forall x, (if lo <=? n then k s else None) = Some x ->
                      exists s', k s' = Some x /\ keeps s s').
      { destruct (lo <=? n); [|discriminate].
        intros x Hk. exists s. split; [exact Hk | apply keeps_refl]. }
      assert (Hmore : forall b : bool,
                 (if b then
                    body (fun s' => if (m_pos s <? m_pos s') || (n <? lo)
                                    then rep_loop body lo hi greedy k fuel (S n) s'
                                    else None) s
                  else None) = Some res ->
                 exists s', k s' = Some res /\ keeps s s').
      { intros [|] Hb; [|discriminate].
        apply Hbody in Hb. destruct Hb as (s1 & Hs1 & Hk1).
        destruct ((m_pos s <? m_pos s1) || (n <? lo)); [|discriminate].
        apply IH in Hs1. destruct Hs1 as (s2 & Hs2 & Hk2).
        exists s2. split; [exact Hs2 | eapply keeps_trans; eassumption]. }
      destruct greedy.
      + match type of Hrun with
        | match ?m with _ => _ end = _ => destruct m as [r1|] eqn:Em
        end.
        * inversion Hrun; subst r1. eapply Hmore. exact Em.
        * apply Hstop. exact Hrun.
      + match type of Hrun with
        | match ?m with _ => _ end = _ => destruct m as [r1|] eqn:Em
        end.
        * inversion Hrun; subst r1. apply Hstop. reflexivity.
        * eapply Hmore. exact Hrun.
  Qed.

(** A successful run reaches its continuation in a state that keeps the
    groups captured before and holds the groups that the expression
    always sets. *)
Lemma run_inv fl r :
    forall k s res,
      run fl r k s = Some res ->
      exists s', k s' = Some res /\ keeps s s'
                 /\ forall i, always_sets i r = true -> has_group i s'.
  Proof.
    induction r as [| |c| |neg items|r1 IH1 r2 IH2|r1 IH1 r2 IH2|lo hi greedy r IH
                    |j r IH| | | |r IH];
      intros k s res Hrun; simpl in Hrun.
    - exists s. repeat split; [exact Hrun | apply keeps_refl | discriminate].
    - discriminate.
    - apply take_inv in Hrun. destruct Hrun as (s' & Hk & Hs).
      exists s'. repeat split; [exact Hk | exact Hs | discriminate].
    - apply take_inv in Hrun. destruct Hrun as (s' & Hk & Hs).
      exists s'. repeat split; [exact Hk | exact Hs | discriminate].
    - apply take_inv in Hrun. destruct Hrun as (s' & Hk & Hs).
      exists s'. repeat split; [exact Hk | exact Hs | discriminate].
    - apply IH1 in Hrun. destruct Hrun as (s1 & Hrun2 & Hk1 & Hg1).
      apply IH2 in Hrun2. destruct Hrun2 as (s2 & Hk & Hk2 & Hg2).
      exists s2. repeat split; [exact Hk | eapply keeps_trans; eassumption |].
      intros i Hi. simpl in Hi. apply orb_true_iff in Hi. destruct Hi as [Hi|Hi].
      + apply Hk2, Hg1, Hi.
      + apply Hg2, Hi.
    - destruct (run fl r1 k s) as [res1|] eqn:E1.
      + inversion Hrun; subst res1.
        apply IH1 in E1. destruct E1 as (s' & Hk & Hs & Hg).
        exists s'. repeat split; [exact Hk | exact Hs |].
        intros i Hi. simpl in Hi. apply andb_true_iff in Hi. apply Hg, Hi.
      + apply IH2 in Hrun. destruct Hrun as (s' & Hk & Hs & Hg).
        exists s'. repeat split; [exact Hk | exact Hs |].
        intros i Hi. simpl in Hi. apply andb_true_iff in Hi. apply Hg, Hi.
    - eapply rep_loop_inv in Hrun.
      + destruct Hrun as (s' & Hk & Hs).
        exists s'. repeat split; [exact Hk | exact Hs | discriminate].
      + intros k' s0 res0 Hb. apply IH in Hb. destruct Hb as (s' & Hk & Hs & _).
        exists s'. split; assumption.
    - apply IH in Hrun. destruct Hrun as (s1 & Hk & Hs & Hg).
      exists (set_group j s s1). repeat split.
      + exact Hk.
      + apply keeps_set_group, Hs.
      + intros i Hi. simpl in Hi. apply orb_true_iff in Hi. destruct Hi as [Hi|Hi].
        * apply Nat.eqb_eq in Hi. subst i. apply has_set_group.
        * apply keeps_set_group with (s := s1); [apply keeps_refl | apply Hg, Hi].
    - destruct (m_prev s); [discriminate|].
      exists s. repeat split; [exact Hrun | apply keeps_refl | discriminate].
    - exists s. repeat split; [| apply keeps_refl | discriminate].
      destruct (m_rest s) as [|c [|d rest]]; [exact Hrun | | discriminate].
      destruct (c =? 10)%N; [exact Hrun | discriminate].
    - destruct (xorb (word_before s) (word_after s)); [|discriminate].
      exists s. repeat split; [exact Hrun | apply keeps_refl | discriminate].
    - destruct (run fl r Some s); [discriminate|].
      exists s. repeat split; [exact Hrun | apply keeps_refl | discriminate].
  Qed.

Lemma match_here_group fl r i prev rest pos m :
    always_sets i r = true ->
    match_here fl r prev rest pos = Some m ->
    exists g, group m i = Some g.
  Proof.
    intros Hi Hm. unfold match_here in Hm.
    destruct (run fl r Some _) as [res|] eqn:Erun; [|discriminate].
    simpl in Hm. inversion Hm; subst m.
    apply run_inv in Erun. destruct Erun as (s' & Hs' & _ & Hg).
    inversion Hs'; subst s'. specialize (Hg i Hi).
    unfold group, to_match. simpl. unfold has_group in Hg.
    destruct (assoc i (m_caps res)) as [g|]; [exists g; reflexivity | contradiction].
  Qed.

Lemma search_from_group fl r i rest :
    always_sets i r = true ->
    forall prev pos m,
      search_from fl r prev rest pos = Some m -> exists g, group m i = Some g.
  Proof.
    intros Hi. induction rest as [|c rest IH]; intros prev pos m Hs; simpl in Hs.
    - destruct (match_here fl r prev [] pos) as [m'|] eqn:E; [|discriminate].
      inversion Hs; subst m'. eapply match_here_group; eassumption.
    - destruct (match_here fl r prev (c :: rest) pos) as [m'|] eqn:E.
      + inversion Hs; subst m'. eapply match_here_group; eassumption.
      + eapply IH. exact Hs.
  Qed.

(** [m.group(i)] is a string for every match of an expression that always
    sets group [i]. *)
Lemma re_search_group fl r i text m :
    always_sets i r = true ->
    re_search fl r text = Some m -> exists g, group m i = Some g.
  Proof. intros Hi Hs. eapply search_from_group; eassumption. Qed.

Lemma finditer_from_group fl r i :
    always_sets i r = true ->
    forall fuel prev rest pos m,
      In m (finditer_from fuel fl r prev rest pos) -> exists g, group m i = Some g.
  Proof.
    intros Hi. induction fuel as [|fuel IH]; intros prev rest pos m Hin; simpl in Hin.
    - contradiction.
    - destruct (search_from fl r prev rest pos) as [m0|] eqn:E; [|contradiction].
      destruct (forward _ prev rest) as [prev' rest'].
      destruct Hin as [Heq|Hin].
      + subst m0. eapply search_from_group; eassumption.
      + destruct (length rest <? _); [contradiction|].
        eapply IH. exact Hin.
  Qed.

Lemma re_finditer_group fl r i text m :
    always_sets i r = true ->
    In m (re_finditer fl r text) -> exists g, group m i = Some g.
  Proof. intros Hi Hin. eapply finditer_from_group; eassumption. Qed.

End Groups.

(** ** No exception escapes *)

Lemma never_raises_ok {A} (a : A) : never_raises (Ok a).
Proof. exists a. reflexivity. Qed.

Lemma never_raises_bind {A B} (x : result A) (f : A -> result B) :
  never_raises x -> (forall a, never_raises (f a)) -> never_raises (bind x f).
Proof. intros [a ->] Hf. simpl. apply Hf. Qed.

Lemma never_raises_if {A} (b : bool) (x y : result A) :
  never_raises x -> never_raises y -> never_raises (if b then x else y).
Proof. destruct b; auto. Qed.

Lemma for_each_never_raises {A B} (f : A -> result (list B)) (l : list A) :
  (forall x, In x l -> never_raises (f x)) -> never_raises (for_each f l).
Proof.
  induction l as [|x l IH]; intros Hf; simpl.
  - apply never_raises_ok.
  - apply never_raises_bind; [apply Hf; now left|].
    intros ys. apply never_raises_bind; [apply IH; intros y Hy; apply Hf; now right|].
    intros zs. apply never_raises_ok.
Qed.

(** The elements that a loop appends come from its bodies. *)
Lemma for_each_In {A B} (f : A -> result (list B)) (l : list A) (r : list B) (y : B) :
  for_each f l = Ok r -> In y r ->
  exists x ys, In x l /\ f x = Ok ys /\ In y ys.
Proof.
  revert r. induction l as [|x l IH]; intros r Hr Hy; simpl in Hr.
  - inversion Hr; subst r. contradiction.
  - destruct (f x) as [ys|e] eqn:Ex; simpl in Hr; [|discriminate].
    destruct (for_each f l) as [zs|e] eqn:El; simpl in Hr; [|discriminate].
    inversion Hr; subst r. apply in_app_or in Hy. destruct Hy as [Hy|Hy].
    + exists x, ys. repeat split; [now left | exact Ex | exact Hy].
    + destruct (IH zs eq_refl Hy) as (x' & ys' & Hx' & Hf' & Hy').
      exists x', ys'. repeat split; [now right | exact Hf' | exact Hy'].
Qed.

Lemma group_str_ok (m : rmatch) (i : nat) :
  (exists g, group m i = Some g) -> never_raises (group_str m i).
Proof. intros [g Hg]. unfold group_str. rewrite Hg. apply never_raises_ok. Qed.

Section NeverRaises.
Context {U : UnicodeData} {F : FloatParse}.

(** A search followed by uses of group [i] of the match. *)
Lemma after_search {A} fl r text i (f : rmatch -> result A) (none : result A) :
    always_sets i r = true ->
    (forall m g, group m i = Some g -> never_raises (f m)) ->
    never_raises none ->
    never_raises (match re_search fl r text with Some m => f m | None => none end).
  Proof.
    intros Hi Hf Hn. destruct (re_search fl r text) as [m|] eqn:E; [|exact Hn].
    destruct (re_search_group fl r i text m Hi E) as [g Hg]. eapply Hf, Hg.
  Qed.

Lemma valor_do_match_ok prio tp m :
    (exists g, group m 1 = Some g) -> never_raises (valor_do_match prio tp m).
  Proof.
    intros [g Hg]. unfold valor_do_match, group_str. rewrite Hg. simpl.
    destruct (float_of _) as [x|]; [destruct (float_pos x)|]; apply never_raises_ok.
  Qed.

Lemma valores_dos_padroes_ok patterns texto :
    Forall (fun p => always_sets 1 (fst (fst p)) = true) patterns ->
    never_raises (valores_dos_padroes patterns texto).
  Proof.
    intros Hall. unfold valores_dos_padroes. apply for_each_never_raises.
    intros [[pattern prio] tp] Hin.
    rewrite List.Forall_forall in Hall. specialize (Hall _ Hin). simpl in Hall.
    apply for_each_never_raises. intros m Hm.
    apply valor_do_match_ok. eapply re_finditer_group; eassumption.
  Qed.

Lemma extrair_linha_digitavel_ok texto : never_raises (extrair_linha_digitavel texto).
  Proof.
    unfold extrair_linha_digitavel. destruct texto as [|c texto]; [apply never_raises_ok|].
    apply after_search with (i := 1).
    - vm_compute. reflexivity.
    - intros m g Hg. apply group_str_ok. eauto.
    - apply never_raises_ok.
  Qed.

End NeverRaises.

(** [pattern_sets] closes the side condition on a pattern of the scripts. *)
Ltac pattern_sets := vm_compute; reflexivity.

(** [total] proves that an extractor built from searches, uses of group 1
    and tests returns. *)
Ltac total :=
  repeat first
    [ apply never_raises_ok
    | apply never_raises_bind; [|intros ?]
    | apply never_raises_if
    | apply after_search with (i := 1); [pattern_sets | intros ? ? ? | ]
    | apply group_str_ok; eauto
    | match goal with
      | |- never_raises (match ?x with [] => _ | _ :: _ => _ end) => destruct x
      | |- never_raises (match ?x with Some _ => _ | None => _ end) => destruct x
      end ].

Section SanitizedTotal.
Context {U : UnicodeData} {F : FloatParse}.
Import Sanitized.

Lemma sanitized_valores_encontrados_ok texto : never_raises (valores_encontrados texto).
  Proof.
    apply valores_dos_padroes_ok. unfold patterns.
    repeat (constructor; [pattern_sets|]). constructor.
  Qed.

Lemma sanitized_extrair_valor_ok texto : never_raises (extrair_valor texto).
  Proof.
    unfold extrair_valor. destruct texto; [apply never_raises_ok|].
    apply never_raises_bind; [apply sanitized_valores_encontrados_ok | intros; apply never_raises_ok].
  Qed.

Lemma sanitized_detector_upper_ok fl pattern text min_len sc met :
    always_sets 1 pattern = true ->
    never_raises (detector_upper fl pattern text min_len sc met).
  Proof.
    intros Hp. unfold detector_upper. apply after_search with (i := 1); [exact Hp| |total].
    intros m g Hg. unfold group_str. rewrite Hg. cbv beta iota delta [bind]. total.
  Qed.

Lemma sanitized_detector_raw_ok fl pattern text min_len sc met :
    always_sets 1 pattern = true ->
    never_raises (detector_raw fl pattern text min_len sc met).
  Proof.
    intros Hp. unfold detector_raw. apply after_search with (i := 1); [exact Hp| |total].
    intros m g Hg. unfold group_str. rewrite Hg. cbv beta iota delta [bind]. total.
  Qed.

Lemma sanitized_candidatos_ok texto : never_raises (candidatos texto).
  Proof.
    unfold candidatos.
    repeat (apply never_raises_bind;
            [first [apply sanitized_detector_upper_ok | apply sanitized_detector_raw_ok]; pattern_sets
            | intros ?]).
    apply never_raises_ok.
  Qed.

Lemma sanitized_extrair_beneficiario_ok texto : never_raises (extrair_beneficiario texto).
  Proof.
    unfold extrair_beneficiario. destruct texto; [apply never_raises_ok|].
    apply never_raises_bind; [apply sanitized_candidatos_ok | intros; apply never_raises_ok].
  Qed.

End SanitizedTotal.

Section V16Total.
Context {U : UnicodeData} {F : FloatParse}.
Import V16.

Lemma v16_valor_bradesco_ok pattern tp texto :
    always_sets 1 pattern = true -> never_raises (valor_bradesco pattern tp texto).
  Proof.
    intros Hp. unfold valor_bradesco. apply after_search with (i := 1); [exact Hp| |total].
    intros m g Hg. unfold group_str. rewrite Hg. cbv beta iota delta [bind].
    destruct (float_of _) as [x|]; [destruct (float_pos x)|]; apply never_raises_ok.
  Qed.

Lemma v16_valores_encontrados_ok texto : never_raises (valores_encontrados texto).
  Proof.
    unfold valores_encontrados.
    apply never_raises_bind; [apply v16_valor_bradesco_ok; pattern_sets | intros v0].
    apply never_raises_bind.
    { destruct v0; [apply v16_valor_bradesco_ok; pattern_sets | apply never_raises_ok]. }
    intros v1. apply never_raises_bind; [|intros; apply never_raises_ok].
    apply valores_dos_padroes_ok. unfold patterns.
    repeat (constructor; [pattern_sets|]). constructor.
  Qed.

Lemma v16_extrair_valor_ok texto : never_raises (extrair_valor texto).
  Proof.
    unfold extrair_valor. destruct texto; [apply never_raises_ok|].
    apply never_raises_bind; [apply v16_valores_encontrados_ok | intros; apply never_raises_ok].
  Qed.

Lemma v16_detector_upper_ok fl pattern text min_len sc met :
    always_sets 1 pattern = true ->
    never_raises (detector_upper fl pattern text min_len sc met).
  Proof.
    intros Hp. unfold detector_upper. apply after_search with (i := 1); [exact Hp| |total].
    intros m g Hg. unfold group_str. rewrite Hg. cbv beta iota delta [bind]. total.
  Qed.

Lemma v16_detector_raw_ok fl pattern text min_len sc met :
    always_sets 1 pattern = true ->
    never_raises (detector_raw fl pattern text min_len sc met).
  Proof.
    intros Hp. unfold detector_raw. apply after_search with (i := 1); [exact Hp| |total].
    intros m g Hg. unfold group_str. rewrite Hg. cbv beta iota delta [bind]. total.
  Qed.

Lemma v16_det_bradesco_controle_ok texto_clean :
    never_raises (det_bradesco_controle texto_clean).
  Proof.
    unfold det_bradesco_controle. apply after_search with (i := 1); [pattern_sets| |total].
    intros m g Hg. unfold group_str. rewrite Hg. cbv beta iota delta [bind]. total.
  Qed.

Lemma v16_det_pix_ok texto texto_clean : never_raises (det_pix texto texto_clean).
  Proof.
    unfold det_pix. destruct (contains _ _); [|apply never_raises_ok].
    assert (Huse : forall m, (exists g, group m 1 = Some g) ->
              never_raises
                (let! g := group_str m 1 in
                 let raw_nome := strip g in
                 let nome := strip (re_sub IGNORECASE (re_compile "[^A-Z\s\.]") (u " ") raw_nome) in
                 let nome := str_upper (re_sub NOFLAGS (re_compile "\s+") (u " ") nome) in
                 if contains (u "FARMAUSA") nome || contains (u "URBANBOX") nome then Ok []
                 else
                   let sc := if contains (u "Dados de quem recebeu") texto then 15 else 14 in
                   Ok (um_candidato (validar_nome nome 8) nome sc
                         (u "PIX-recebedor-V15-score" ++ str_of_nat sc)))).
    { intros m [g Hg]. unfold group_str. rewrite Hg. cbv beta iota delta [bind]. total. }
    destruct (re_search IGNORECASE_DOTALL _ texto) as [m|] eqn:E1.
    - apply Huse. eapply re_search_group; [|exact E1]. pattern_sets.
    - destruct (re_search IGNORECASE_DOTALL _ texto_clean) as [m|] eqn:E2.
      + apply Huse. eapply re_search_group; [|exact E2]. pattern_sets.
      + apply never_raises_ok.
  Qed.

Lemma v16_det_sicoob_ok texto : never_raises (det_sicoob texto).
  Proof.
    unfold det_sicoob. destruct (contains _ _); [|apply never_raises_ok].
    apply after_search with (i := 1); [pattern_sets| |total].
    intros m g Hg. unfold group_str. rewrite Hg. cbv beta iota delta [bind]. total.
  Qed.

Lemma v16_det_imposto_ok texto texto_clean : never_raises (det_imposto texto texto_clean).
  Proof.
    unfold det_imposto. destruct (is_some _); [|apply never_raises_ok].
    apply never_raises_bind; [apply v16_detector_raw_ok; pattern_sets|].
    intros orgao. apply never_raises_ok.
  Qed.

Lemma v16_det_boleto_ok texto texto_clean : never_raises (det_boleto texto texto_clean).
  Proof.
    unfold det_boleto. destruct (_ || _); [|apply never_raises_ok].
    repeat (apply never_raises_bind;
            [first [apply v16_detector_upper_ok | apply v16_detector_raw_ok]; pattern_sets
            | intros ?]).
    apply never_raises_ok.
  Qed.

Lemma v16_candidatos_ok texto : never_raises (candidatos texto).
  Proof.
    unfold candidatos.
    repeat (apply never_raises_bind;
            [first [ apply v16_det_bradesco_controle_ok | apply v16_det_pix_ok | apply v16_det_sicoob_ok
                   | apply v16_det_imposto_ok | apply v16_det_boleto_ok
                   | apply v16_detector_upper_ok; pattern_sets
                   | apply v16_detector_raw_ok; pattern_sets
                   | apply never_raises_if;
                     [first [apply v16_detector_upper_ok | apply v16_detector_raw_ok]; pattern_sets
                     | apply never_raises_ok] ]
            | intros ?]).
    apply never_raises_ok.
  Qed.

Lemma v16_extrair_beneficiario_ok texto : never_raises (extrair_beneficiario texto).
  Proof.
    unfold extrair_beneficiario. destruct texto; [apply never_raises_ok|].
    apply never_raises_bind; [apply v16_candidatos_ok | intros; apply never_raises_ok].
  Qed.

Lemma v16_candidato_do_padrao_ok texto_orig texto_upper pat sc :
    always_sets 1 pat = true ->
    never_raises (candidato_do_padrao texto_orig texto_upper pat sc).
  Proof.
    intros Hp. unfold candidato_do_padrao.
    apply after_search with (i := 1); [exact Hp| |total].
    intros m g Hg. unfold group_str. rewrite Hg. cbv beta iota delta [bind]. total.
  Qed.

Lemma v16_tratar_fornecedor_desconhecido_ok texto :
    never_raises (tratar_fornecedor_desconhecido texto).
  Proof.
    unfold tratar_fornecedor_desconhecido. destruct texto; [apply never_raises_ok|].
    apply never_raises_bind.
    - apply for_each_never_raises. intros [pat sc] Hin.
      apply v16_candidato_do_padrao_ok.
      assert (Hall : Forall (fun p => always_sets 1 (fst p) = true) padroes).
      { unfold padroes. repeat (constructor; [pattern_sets|]). constructor. }
      rewrite List.Forall_forall in Hall. apply (Hall _ Hin).
    - intros cs. destruct (py_max _ _); apply never_raises_ok.
  Qed.

Lemma v16_snippet_de_ok texto : never_raises (snippet_de texto).
  Proof.
    unfold snippet_de. destruct (is_some _); [|apply never_raises_ok].
    apply never_raises_bind; [apply extrair_linha_digitavel_ok|].
    intros seq. destruct seq; apply never_raises_ok.
  Qed.

Lemma v16_processar_parte_ok pages contador : never_raises (processar_parte pages contador).
  Proof.
    unfold processar_parte.
    apply never_raises_bind; [apply v16_extrair_beneficiario_ok | intros b0].
    apply never_raises_bind.
    { destruct (str_eqb _ _); [apply v16_tratar_fornecedor_desconhecido_ok | apply never_raises_ok]. }
    intros b. apply never_raises_bind; [apply v16_extrair_valor_ok | intros v].
    destruct (proxima_ocorrencia _ _) as [cnt c'].
    apply never_raises_bind; [apply v16_snippet_de_ok | intros sn]. apply never_raises_ok.
  Qed.

Lemma v16_main_ok partes : never_raises (main partes).
  Proof.
    unfold main. generalize (∅ : gmap (str * str * str) nat).
    induction partes as [|pages rest IH]; intros c; simpl; [apply never_raises_ok|].
    apply never_raises_bind; [apply v16_processar_parte_ok | intros r].
    apply never_raises_bind; [apply IH | intros rs]. apply never_raises_ok.
  Qed.

End V16Total.

(** ** The dictionary of unique candidates

    The two extractors fill [unicos] with the same loop: a candidate enters
    under its key when the key is new or when it is strictly better than the
    candidate already there.  [w] measures a candidate, the smaller the
    better. *)
Section UnicosBy.
Context {A K : Type} `{EqDecision K}.
Variables (key : A -> K) (w : A -> Z) (better : A -> A -> bool).
Hypothesis better_spec : forall x o, better x o = true <-> (w x < w o)%Z.

Lemma dict_get_None (k : K) (d : list (K * A)) :
  dict_get k d = None <-> ~ In k (map fst d).
Proof.
  induction d as [|[k' v] d IH]; simpl.
  - split; [intros _ []|reflexivity].
  - destruct (decide (k = k')) as [->|Hne].
    + split; [discriminate | intros Hn; exfalso; apply Hn; now left].
    + rewrite IH. split.
      * intros Hn [Heq|Hin]; [congruence | contradiction].
      * intros Hn Hin. apply Hn. now right.
Qed.

Lemma dict_get_Some (k : K) (d : list (K * A)) (o : A) :
  dict_get k d = Some o ->
  exists d1 d2, d = d1 ++ (k, o) :: d2 /\ ~ In k (map fst d1).
Proof.
  induction d as [|[k' v] d IH]; simpl; [discriminate|].
  destruct (decide (k = k')) as [->|Hne].
  - intros Heq. inversion Heq; subst v. exists [], d. split; [reflexivity | intros []].
  - intros Hg. destruct (IH Hg) as (d1 & d2 & -> & Hn).
    exists ((k', v) :: d1), d2. split; [reflexivity|].
    simpl. intros [Heq|Hin]; [congruence | contradiction].
Qed.

Lemma dict_set_new (k : K) (v : A) (d : list (K * A)) :
  ~ In k (map fst d) -> dict_set k v d = d ++ [(k, v)].
Proof.
  induction d as [|[k' v'] d IH]; simpl; intros Hn; [reflexivity|].
  destruct (decide (k = k')) as [->|Hne].
  - exfalso. apply Hn. now left.
  - rewrite IH; [reflexivity | intros Hin; apply Hn; now right].
Qed.

Lemma dict_set_old (k : K) (v o : A) (d1 d2 : list (K * A)) :
  ~ In k (map fst d1) -> dict_set k v (d1 ++ (k, o) :: d2) = d1 ++ (k, v) :: d2.
Proof.
  induction d1 as [|[k' v'] d1 IH]; simpl; intros Hn.
  - destruct (decide (k = k)); [reflexivity | congruence].
  - destruct (decide (k = k')) as [->|Hne].
    + exfalso. apply Hn. now left.
    + rewrite IH; [reflexivity | intros Hin; apply Hn; now right].
Qed.

Lemma entry_ok_least (l : list A) (kv : K * A) :
  entry_ok key w l kv -> forall c, In c l -> key c = fst kv -> (w (snd kv) <= w c)%Z.
Proof.
  intros (_ & l1 & l2 & -> & H1 & H2) c Hc Hk.
  apply in_app_or in Hc. destruct Hc as [Hc|[Hc|Hc]].
  - specialize (H1 c Hc Hk). lia.
  - subst c. lia.
  - apply H2; assumption.
Qed.

Lemma entry_ok_In (l : list A) (kv : K * A) : entry_ok key w l kv -> In (snd kv) l.
Proof. intros (_ & l1 & l2 & -> & _). apply in_or_app. right. now left. Qed.

(** A candidate of another key, or one that is no better, leaves an entry as it is. *)
Lemma entry_ok_snoc (l : list A) (kv : K * A) (x : A) :
  entry_ok key w l kv -> (key x = fst kv -> (w (snd kv) <= w x)%Z) -> entry_ok key w (l ++ [x]) kv.
Proof.
  intros (Hk & l1 & l2 & -> & H1 & H2) Hx. split; [exact Hk|].
  exists l1, (l2 ++ [x]). split; [now rewrite <- app_assoc|]. split; [exact H1|].
  intros c Hc Hkc. apply in_app_or in Hc. destruct Hc as [Hc|[Hc|[]]].
  - apply H2; assumption.
  - subst c. apply Hx, Hkc.
Qed.

Lemma keys_in_order_snoc (l : list A) (ks : list K) (x : A) :
  keys_in_order key l ks -> keys_in_order key (l ++ [x]) ks.
Proof.
  intros Ho ks1 k1 ks2 k2 Heq Hin.
  destruct (Ho ks1 k1 ks2 k2 Heq Hin) as (p & q & -> & Hp1 & Hp2).
  exists p, (q ++ [x]). split; [now rewrite <- app_assoc|]. split; assumption.
Qed.

Lemma unicos_inv_step (l : list A) (d : list (K * A)) (x : A) :
  unicos_inv key w l d -> unicos_inv key w (l ++ [x]) (unicos_step key better d x).
Proof.
  intros (Hnd & Hent & Hcov & Hord). unfold unicos_step.
  destruct (dict_get (key x) d) as [o|] eqn:Eg.
  - (* the key is present *)
    destruct (dict_get_Some _ _ _ Eg) as (d1 & d2 & -> & Hn1).
    assert (Hother : forall kv, In kv (d1 ++ d2) -> fst kv <> key x).
    { intros kv Hkv Heq. rewrite map_app in Hnd. simpl in Hnd.
      apply List.NoDup_remove_2 in Hnd. apply Hnd. rewrite <- map_app.
      rewrite <- Heq. apply in_map. exact Hkv. }
    assert (Ho : entry_ok key w l (key x, o)).
    { rewrite List.Forall_forall in Hent. apply Hent. apply in_or_app. right. now left. }
    assert (Hrest : List.Forall (entry_ok key w (l ++ [x])) (d1 ++ d2)).
    { rewrite List.Forall_forall. intros kv Hkv. apply entry_ok_snoc.
      - rewrite List.Forall_forall in Hent. apply Hent.
        apply in_app_or in Hkv. apply in_or_app.
        destruct Hkv as [Hkv|Hkv]; [now left | right; now right].
      - intros Heq. exfalso. apply (Hother kv Hkv). now symmetry. }
    assert (Hcov' : forall c, In c (l ++ [x]) -> In (key c) (map fst (d1 ++ (key x, o) :: d2))).
    { intros c Hc. apply in_app_or in Hc. destruct Hc as [Hc|[Hc|[]]].
      - apply Hcov, Hc.
      - subst c. rewrite map_app. apply in_or_app. right. now left. }
    destruct (better x o) eqn:Eb.
    + rewrite dict_set_old by exact Hn1.
      assert (Hkeys : map fst (d1 ++ (key x, x) :: d2) = map fst (d1 ++ (key x, o) :: d2)).
      { rewrite !map_app. reflexivity. }
      rewrite better_spec in Eb.
      split; [rewrite Hkeys; exact Hnd|]. split; [|split].
      * apply List.Forall_app in Hrest. destruct Hrest as [Hr1 Hr2].
        apply List.Forall_app. split; [exact Hr1|]. constructor; [|exact Hr2].
        split; [reflexivity|]. exists l, []. split; [reflexivity|]. split.
        -- intros c Hc Hkc. simpl in *.
           pose proof (entry_ok_least _ _ Ho c Hc Hkc) as Hle. simpl in Hle. lia.
        -- intros c [].
      * rewrite Hkeys. exact Hcov'.
      * rewrite Hkeys. apply keys_in_order_snoc, Hord.
    + assert (Hnb : ~ (w x < w o)%Z).
      { intros Hlt. apply better_spec in Hlt. congruence. }
      split; [exact Hnd|]. split; [|split].
      * apply List.Forall_app in Hrest. destruct Hrest as [Hr1 Hr2].
        apply List.Forall_app. split; [exact Hr1|]. constructor; [|exact Hr2].
        apply entry_ok_snoc; [exact Ho|]. simpl. intros _. lia.
      * exact Hcov'.
      * apply keys_in_order_snoc, Hord.
  - (* the key is new *)
    apply dict_get_None in Eg. rewrite dict_set_new by exact Eg.
    assert (Hfresh : forall c, In c l -> key c <> key x).
    { intros c Hc Heq. apply Eg. rewrite <- Heq. apply Hcov, Hc. }
    split; [|split; [|split]].
    + rewrite map_app. simpl. apply List.NoDup_app.
      * exact Hnd.
      * constructor; [intros []|constructor].
      * intros k Hk [Heq|[]]. subst k. contradiction.
    + apply List.Forall_app. split.
      * rewrite List.Forall_forall in Hent. rewrite List.Forall_forall.
        intros kv Hkv. apply entry_ok_snoc; [apply Hent, Hkv|].
        intros Heq. exfalso. apply Eg. rewrite Heq. apply in_map. exact Hkv.
      * constructor; [|constructor]. split; [reflexivity|].
        exists l, []. split; [reflexivity|]. split.
        -- intros c Hc Hkc. exfalso. apply (Hfresh c Hc). exact Hkc.
        -- intros c [].
    + intros c Hc. rewrite map_app. apply in_or_app.
      apply in_app_or in Hc. destruct Hc as [Hc|[Hc|[]]].
      * left. apply Hcov, Hc.
      * right. subst c. now left.
    + rewrite map_app. simpl. intros ks1 k1 ks2 k2 Heq Hin.
      destruct ks2 as [|k2' ks2] using rev_ind; [destruct Hin|]. clear IHks2.
      assert (Hsplit : map fst d = ks1 ++ k1 :: ks2 /\ k2' = key x).
      { change (ks1 ++ k1 :: ks2 ++ [k2']) with (ks1 ++ (k1 :: ks2) ++ [k2']) in Heq.
        rewrite app_assoc in Heq. apply app_inj_tail in Heq.
        destruct Heq as [Heq1 Heq2]. split; [exact Heq1 | now symmetry]. }
      destruct Hsplit as [Hd ->].
      apply in_app_or in Hin. destruct Hin as [Hin|[Hin|[]]].
      * destruct (Hord ks1 k1 ks2 k2 Hd Hin) as (p & q & -> & Hp1 & Hp2).
        exists p, (q ++ [x]). split; [now rewrite <- app_assoc|]. split; assumption.
      * subst k2. exists l, [x]. split; [reflexivity|]. split; [|exact Hfresh].
        assert (Hk1 : In k1 (map fst d)).
        { rewrite Hd. apply in_or_app. right. now left. }
        apply in_map_iff in Hk1. destruct Hk1 as (kv & Hfst & Hkv).
        rewrite List.Forall_forall in Hent. specialize (Hent kv Hkv).
        exists (snd kv). split; [apply entry_ok_In, Hent|].
        destruct Hent as [Hk _]. congruence.
Qed.

Lemma unicos_inv_fold (l0 l : list A) (d : list (K * A)) :
  unicos_inv key w l0 d -> unicos_inv key w (l0 ++ l) (fold_left (unicos_step key better) l d).
Proof.
  revert l0 d. induction l as [|x l IH]; intros l0 d Hinv; simpl.
  - rewrite app_nil_r. exact Hinv.
  - change (l0 ++ x :: l) with (l0 ++ [x] ++ l). rewrite app_assoc.
    apply IH, unicos_inv_step, Hinv.
Qed.

Lemma unicos_by_inv (l : list A) : unicos_inv key w l (unicos_by key better l).
Proof.
  apply (unicos_inv_fold [] l []). repeat split.
  - constructor.
  - constructor.
  - intros c [].
  - intros ks1 k1 ks2 k2 Heq. destruct ks1; discriminate.
Qed.

Lemma unicos_by_nonempty (l : list A) : l <> [] -> unicos_by key better l <> [].
Proof.
  intros Hl Hd. destruct l as [|x l]; [congruence|].
  destruct (unicos_by_inv (x :: l)) as (_ & _ & Hcov & _).
  specialize (Hcov x (or_introl eq_refl)). rewrite Hd in Hcov. destruct Hcov.
Qed.

End UnicosBy.

(** ** The choice of the best candidate *)
Section PickBy.
Context {A K : Type} `{EqDecision K}.
Variables (key : A -> K) (w : A -> Z) (better : A -> A -> bool).
Hypothesis better_spec : forall x o, better x o = true <-> (w x < w o)%Z.

Lemma pick_by_spec (best : A) (l : list A) :
  exists l1 l2, best :: l = l1 ++ pick_by better best l :: l2
    /\ (forall c, In c l1 -> (w (pick_by better best l) < w c)%Z)
    /\ (forall c, In c l2 -> (w (pick_by better best l) <= w c)%Z).
Proof.
  revert best. induction l as [|x l IH]; intros best; simpl.
  - exists [], []. repeat split; intros c [].
  - destruct (better x best) eqn:Eb.
    + apply better_spec in Eb.
      destruct (IH x) as (l1 & l2 & Heq & H1 & H2).
      exists (best :: l1), l2. split; [simpl; now rewrite <- Heq|]. split; [|exact H2].
      assert (Hx : (w (pick_by better x l) <= w x)%Z).
      { destruct l1 as [|y l1]; simpl in Heq; injection Heq as Hhd Htl.
        - rewrite <- Hhd. lia.
        - subst y. specialize (H1 x (or_introl eq_refl)). lia. }
      intros c [Hc|Hc]; [subst c; lia | apply H1, Hc].
    + assert (Hnb : (w best <= w x)%Z).
      { destruct (Z.lt_ge_cases (w x) (w best)) as [Hlt|Hge]; [|exact Hge].
        apply better_spec in Hlt. congruence. }
      destruct (IH best) as (l1 & l2 & Heq & H1 & H2).
      destruct l1 as [|y l1]; simpl in Heq; injection Heq as Hhd Htl.
      * exists [], (x :: l). split; [simpl; now rewrite <- Hhd|]. split; [intros c []|].
        intros c [Hc|Hc]; [subst c; rewrite <- Hhd; exact Hnb|].
        apply H2. rewrite <- Htl. exact Hc.
      * subst y. exists (best :: x :: l1), l2.
        split; [simpl; now rewrite <- Htl|]. split; [|exact H2].
        intros c [Hc|[Hc|Hc]].
        -- apply H1. now left.
        -- subst c. specialize (H1 best (or_introl eq_refl)). lia.
        -- apply H1. now right.
Qed.

Lemma chosen_spec (l : list A) :
  match chosen key better l with
  | Some m => is_choice key w l m
  | None => l = []
  end.
Proof.
  unfold chosen.
  destruct (unicos_by_inv key w better better_spec l) as (Hnd & Hent & Hcov & Hord).
  remember (unicos_by key better l) as d eqn:Ed.
  destruct (dict_values d) as [|v0 vs] eqn:Ev; simpl.
  - destruct l as [|x l]; [reflexivity|].
    specialize (Hcov x (or_introl eq_refl)).
    destruct d; [destruct Hcov | discriminate].
  - destruct (pick_by_spec v0 vs) as (L1 & L2 & Heq & H1 & H2).
    set (m := pick_by better v0 vs) in *.
    rewrite <- Ev in Heq. unfold dict_values in Heq.
    apply List.map_eq_app in Heq. destruct Heq as (d1 & d2' & Hd & Hd1 & Hd2).
    apply List.map_eq_cons in Hd2. destruct Hd2 as ([k m'] & d2 & -> & Hm & Hd2).
    simpl in Hm. subst m'.
    rewrite List.Forall_forall in Hent.
    assert (Hme : entry_ok key w l (k, m)).
    { apply Hent. rewrite Hd. apply in_or_app. right. now left. }
    assert (Hkm : key m = k) by apply Hme.
    assert (Hleast : forall c, In c l -> (w m <= w c)%Z).
    { intros c Hc. specialize (Hcov c Hc). apply in_map_iff in Hcov.
      destruct Hcov as ([k' v] & Hk' & Hkv). simpl in Hk'. subst k'.
      pose proof (entry_ok_least key w l _ (Hent _ Hkv) c Hc eq_refl) as Hvc. simpl in Hvc.
      assert (Hmv : (w m <= w v)%Z).
      { rewrite Hd in Hkv. apply in_app_or in Hkv. destruct Hkv as [Hkv|[Hkv|Hkv]].
        - assert (Hlt : (w m < w v)%Z); [|lia].
          apply H1. rewrite <- Hd1. apply (in_map snd) in Hkv. exact Hkv.
        - inversion Hkv; subst. lia.
        - apply H2. rewrite <- Hd2. apply (in_map snd) in Hkv. exact Hkv. }
      lia. }
    split; [apply (entry_ok_In key w l (k, m)), Hme|]. split; [exact Hleast|]. split.
    + destruct Hme as (_ & l1 & l2 & Hl & Hb & _). simpl in *.
      exists l1, l2. split; [exact Hl|]. intros c Hc Hk. apply Hb; [exact Hc | congruence].
    + intros c Hc Hw.
      pose proof (Hcov c Hc) as Hkc. apply in_map_iff in Hkc.
      destruct Hkc as ([k' v] & Hk' & Hkv). simpl in Hk'. subst k'.
      pose proof (entry_ok_least key w l _ (Hent _ Hkv) c Hc eq_refl) as Hvc. simpl in Hvc.
      rewrite Hd in Hkv. apply in_app_or in Hkv. destruct Hkv as [Hkv|[Hkv|Hkv]].
      * exfalso. assert (Hlt : (w m < w v)%Z); [|lia].
        apply H1. rewrite <- Hd1. apply (in_map snd) in Hkv. exact Hkv.
      * left. inversion Hkv; subst. congruence.
      * right. rewrite Hkm.
        apply (Hord (map fst d1) k (map fst d2) (key c)).
        -- rewrite Hd, map_app. reflexivity.
        -- apply (in_map fst) in Hkv. exact Hkv.
Qed.

End PickBy.

Lemma min_by_pick {A} (f : A -> nat) (best : A) (l : list A) :
  min_by f best l = pick_by (fun x o => f x <? f o) best l.
Proof. revert best. induction l as [|x l IH]; intros best; simpl; [reflexivity | apply IH]. Qed.

Lemma max_by_pick {A} (f : A -> nat) (best : A) (l : list A) :
  max_by f best l = pick_by (fun x o => f o <? f x) best l.
Proof. revert best. induction l as [|x l IH]; intros best; simpl; [reflexivity | apply IH]. Qed.

Lemma py_min_pick {A} (f : A -> nat) (l : list A) :
  py_min f l = py_pick (fun x o => f x <? f o) l.
Proof. destruct l; simpl; [reflexivity | now rewrite min_by_pick]. Qed.

Lemma py_max_pick {A} (f : A -> nat) (l : list A) :
  py_max f l = py_pick (fun x o => f o <? f x) l.
Proof. destruct l; simpl; [reflexivity | now rewrite max_by_pick]. Qed.

Section Selection.
Context {U : UnicodeData} {F : FloatParse}.

Let w_benef (c : benef_cand) : Z := (- Z.of_nat (score c))%Z.
Let better_benef (c o : benef_cand) : bool := score o <? score c.

Lemma better_benef_spec x o : better_benef x o = true <-> (w_benef x < w_benef o)%Z.
Proof. unfold better_benef, w_benef. rewrite Nat.ltb_lt. lia. Qed.

Lemma melhor_benef_chosen (l : list benef_cand) :
  melhor_benef l = chosen grupo better_benef l.
Proof. unfold melhor_benef, chosen. rewrite py_max_pick. reflexivity. Qed.

Lemma unicos_benef_ok (l : list benef_cand) : grupos_ok l (unicos_benef l).
Proof.
  destruct (unicos_by_inv grupo w_benef better_benef better_benef_spec l)
    as (Hnd & Hent & Hcov & _).
  change (unicos_by grupo better_benef l) with (unicos_benef l) in *.
  split; [exact Hnd|]. split; [exact Hcov|].
  rewrite List.Forall_forall in Hent. rewrite List.Forall_forall. intros kv Hkv.
  specialize (Hent kv Hkv). split; [apply Hent|]. split.
  - apply (entry_ok_In grupo w_benef l kv Hent).
  - intros c Hc Hk.
    pose proof (entry_ok_least grupo w_benef l kv Hent c Hc Hk) as Hle.
    unfold w_benef in Hle. lia.
Qed.

Lemma melhor_benef_spec (l : list benef_cand) :
  match melhor_benef l with
  | Some m => vencedor l m
  | None => l = []
  end.
Proof.
  rewrite melhor_benef_chosen.
  pose proof (chosen_spec grupo w_benef better_benef better_benef_spec l) as Hc.
  destruct (chosen grupo better_benef l) as [m|]; [|exact Hc].
  destruct Hc as (Hin & Hleast & (l1 & l2 & Hl & Hfirst) & Hties).
  split; [exact Hin|]. split; [|split].
  - intros c Hc. specialize (Hleast c Hc). unfold w_benef in Hleast. lia.
  - exists l1, l2. split; [exact Hl|]. intros c Hc Hk.
    specialize (Hfirst c Hc Hk). unfold w_benef in Hfirst. lia.
  - intros c Hc Hs. apply Hties; [exact Hc|]. unfold w_benef. now rewrite Hs.
Qed.

Let w_valor (c : valor_cand) : Z := Z.of_nat (prioridade c).
Let better_valor (c o : valor_cand) : bool := prioridade c <? prioridade o.

Lemma better_valor_spec x o : better_valor x o = true <-> (w_valor x < w_valor o)%Z.
Proof. unfold better_valor, w_valor. rewrite Nat.ltb_lt. lia. Qed.

Lemma unicos_valor_ok (l : list valor_cand) : valores_ok l (unicos_valor l).
Proof.
  destruct (unicos_by_inv float w_valor better_valor better_valor_spec l)
    as (Hnd & Hent & Hcov & _).
  change (unicos_by float better_valor l) with (unicos_valor l) in *.
  split; [exact Hnd|]. split; [exact Hcov|].
  rewrite List.Forall_forall in Hent. rewrite List.Forall_forall. intros kv Hkv.
  specialize (Hent kv Hkv). split; [apply Hent|]. split.
  - apply (entry_ok_In float w_valor l kv Hent).
  - intros c Hc Hk.
    pose proof (entry_ok_least float w_valor l kv Hent c Hc Hk) as Hle.
    unfold w_valor in Hle. lia.
Qed.

Lemma melhor_valor_spec (l : list valor_cand) :
  match l with
  | [] => melhor_valor l = VALOR_NAO_ENCONTRADO
  | _ => exists best, mais_especifico l best /\ melhor_valor l = valor best
  end.
Proof.
  unfold melhor_valor. rewrite py_min_pick.
  pose proof (chosen_spec float w_valor better_valor better_valor_spec l) as Hc.
  unfold chosen in Hc.
  change (unicos_by float better_valor l) with (unicos_valor l) in Hc.
  fold better_valor.
  destruct (py_pick better_valor (dict_values (unicos_valor l))) as [m|].
  - destruct Hc as (Hin & Hleast & _).
    destruct l as [|x l]; [destruct Hin|].
    exists m. split; [|reflexivity]. split; [exact Hin|].
    intros c Hc. specialize (Hleast c Hc). unfold w_valor in Hleast. lia.
  - subst l. reflexivity.
Qed.

Lemma decisao_final_spec (l : list benef_cand) :
  match l with
  | [] => decisao_final l = FORNECEDOR_DESCONHECIDO
  | _ => exists m, vencedor l m /\ decisao_final l = nome m
  end.
Proof.
  unfold decisao_final. pose proof (melhor_benef_spec l) as Hm.
  destruct (melhor_benef l) as [m|].
  - destruct l as [|x l]; [destruct Hm as [[] _]|].
    exists m. split; [exact Hm | reflexivity].
  - subst l. reflexivity.
Qed.

(** When no text comes back with the score of a candidate that came
    between, the decision is the first candidate of the highest score. *)
Lemma melhor_benef_sem_retorno (l : list benef_cand) :
  sem_retorno l -> melhor_benef l = py_max score l.
Proof.
  intros Hsem. pose proof (melhor_benef_spec l) as Hm.
  destruct (melhor_benef l) as [m|]; [|subst l; reflexivity].
  destruct Hm as (Hin & Hmax & (l1 & l2 & Hl & Hfirst) & Hties).
  destruct l as [|c0 l0]; [destruct Hin|].
  rewrite py_max_pick. simpl.
  destruct (pick_by_spec w_benef better_benef better_benef_spec c0 l0)
    as (L1 & L2 & HL & HL1 & HL2).
  fold better_benef. set (f := pick_by better_benef c0 l0) in *.
  assert (Hf1 : forall c, In c L1 -> score c < score f).
  { intros c Hc. specialize (HL1 c Hc). unfold w_benef in HL1. lia. }
  assert (Hfm : score f = score m).
  { assert (In f (c0 :: l0)) as Hfin by (rewrite HL; apply in_or_app; right; now left).
    pose proof (Hmax f Hfin) as H1.
    assert (score m <= score f); [|lia].
    rewrite HL in Hin. apply in_app_or in Hin. destruct Hin as [Hi|[Hi|Hi]].
    - specialize (Hf1 m Hi). lia.
    - subst m. lia.
    - specialize (HL2 m Hi). unfold w_benef in HL2. lia. }
  f_equal. rewrite Hl in HL.
  apply List.app_eq_app in HL. destruct HL as (t & [[Hl1 Ht]|[HL1' Ht]]).
  - (* [f] is not after [m] *)
    destruct t as [|y t]; simpl in Ht.
    + injection Ht as Hhd _. now symmetry.
    + injection Ht as Hhd Htl. subst y.
      assert (In f l1) as Hfl by (rewrite Hl1; apply in_or_app; right; now left).
      exfalso.
      assert (Hfin : In f (c0 :: l0)).
      { rewrite Hl. apply in_or_app. now left. }
      destruct (Hties f Hfin Hfm) as [Hg|(p & q & Hpq & (x & Hx & Hgx) & Hp)].
      * specialize (Hfirst f Hfl Hg). lia.
      * (* the group of [m] was opened before [f] *)
        assert (Hxl : exists a b, L1 = a ++ x :: b).
        { rewrite Hl, Hl1, <- List.app_assoc in Hpq. simpl in Hpq.
          apply List.app_eq_app in Hpq. destruct Hpq as (t2 & [[HL1p Hq]|[Hpp Hq]]).
          - apply in_split in Hx. destruct Hx as (a & b & ->).
            exists a, (b ++ t2). rewrite HL1p, <- List.app_assoc. reflexivity.
          - destruct t2 as [|z t2]; simpl in Hq.
            + rewrite List.app_nil_r in Hpp. subst p. apply in_split in Hx. exact Hx.
            + injection Hq as Hz _. subst z. exfalso.
              apply (Hp f); [|reflexivity]. rewrite Hpp. apply in_or_app. right. now left. }
        destruct Hxl as (a & b & HL1ab).
        assert (Hlt : score x < score f).
        { apply Hf1. rewrite HL1ab. apply in_or_app. right. now left. }
        apply (Hsem a x b f t m l2); [|exact Hlt|exact Hfm|exact Hgx].
        rewrite Hl, Hl1, HL1ab. rewrite <- !List.app_assoc. simpl.
        rewrite <- ?List.app_assoc. reflexivity.
  - (* [m] is before [f] *)
    destruct t as [|y t]; simpl in Ht.
    + injection Ht as Hhd _. exact Hhd.
    + injection Ht as Hhd Htl. subst y. exfalso.
      assert (In m L1) as HmL by (rewrite HL1'; apply in_or_app; right; now left).
      specialize (Hf1 m HmL). lia.
Qed.

(** What [max] returns for a list: its first element of the highest score. *)
Lemma py_max_primeiro (l : list benef_cand) :
  match py_max score l with
  | Some m => primeiro_do_topo l m
  | None => l = []
  end.
Proof.
  destruct l as [|c0 l0]; [reflexivity|].
  rewrite py_max_pick. simpl.
  destruct (pick_by_spec w_benef better_benef better_benef_spec c0 l0)
    as (L1 & L2 & HL & HL1 & HL2).
  fold better_benef. exists L1, L2. split; [exact HL|]. split.
  - intros c Hc. specialize (HL1 c Hc). unfold w_benef in HL1. lia.
  - intros c Hc. specialize (HL2 c Hc). unfold w_benef in HL2. lia.
Qed.

End Selection.

(** ** The name validator *)

Lemma re_letters : re_compile "[a-zA-Z]" = Cls false [CRange 97 122; CRange 65 90].
Proof. reflexivity. Qed.

Section Validator.
Context {U : UnicodeData}.

Lemma in_items_letters c : in_items [CRange 97 122; CRange 65 90] c = ascii_letter c.
Proof. unfold in_items, ascii_letter. simpl. now rewrite orb_false_r. Qed.

(** The search for a set of characters fails on a text that has none of them. *)
Lemma search_class_none items (p : cp -> bool) :
  (forall c, in_items items c = p c) ->
  forall rest : str,
    forallb (fun c => negb (p c)) rest = true ->
    forall prev pos, search_from NOFLAGS (Cls false items) prev rest pos = None.
Proof.
  intros Hp. induction rest as [|c rest IH]; intros Hall prev pos; simpl.
  - reflexivity.
  - simpl in Hall. apply andb_true_iff in Hall. destruct Hall as [Hc Hall].
    unfold match_here. simpl. unfold take. simpl. unfold in_set. simpl.
    apply negb_true_iff in Hc. rewrite Hp, Hc. simpl. apply IH, Hall.
Qed.

Lemma no_letter_search (nome : str) :
  forallb (fun c => negb (ascii_letter c)) nome = true ->
  re_search NOFLAGS (re_compile "[a-zA-Z]") nome = None.
Proof.
  intros Hall. rewrite re_letters.
  apply (search_class_none _ ascii_letter in_items_letters nome Hall).
Qed.

End Validator.

(** [reject] steps over the tests of [validar_nome] that come before the
    one that decides. *)
Ltac reject :=
  repeat match goal with
         | |- (if ?c then false else _) = false => destruct c eqn:?; [reflexivity|]
         end.

Section SanitizedValidator.
Context {U : UnicodeData}.
Import Sanitized.

Lemma sanitized_rejects_short nome min_len :
  length nome < min_len -> validar_nome nome min_len = false.
Proof.
  intros Hlt. unfold validar_nome. apply Nat.ltb_lt in Hlt. rewrite Hlt.
  now rewrite orb_true_r.
Qed.

Lemma sanitized_rejects_no_letter nome min_len :
  forallb (fun c => negb (ascii_letter c)) nome = true -> validar_nome nome min_len = false.
Proof.
  intros Hall. unfold validar_nome. rewrite (no_letter_search nome Hall). simpl.
  destruct (_ || _); reflexivity.
Qed.

Lemma sanitized_rejects_in_house nome min_len emp :
  In emp empresas_sistema -> contains emp (str_upper nome) = true ->
  validar_nome nome min_len = false.
Proof.
  intros Hin Hc. unfold validar_nome.
  assert (He : existsb (fun emp => contains emp (str_upper nome)) empresas_sistema = true).
  { apply existsb_exists. exists emp. split; assumption. }
  cbv zeta. rewrite He. reject. reflexivity.
Qed.

Lemma sanitized_rejects_jargon nome min_len r :
  In r rejeitar ->
  str_lower nome = r \/ startswith (r ++ u " ") (str_lower nome) = true ->
  validar_nome nome min_len = false.
Proof.
  intros Hin Hr. unfold validar_nome.
  assert (He : existsb (fun r => str_eqb (str_lower nome) r
                                 || startswith (r ++ u " ") (str_lower nome)) rejeitar = true).
  { apply existsb_exists. exists r. split; [exact Hin|].
    destruct Hr as [Hr|Hr]; [rewrite Hr, str_eqb_refl; reflexivity|].
    rewrite Hr. apply orb_true_r. }
  cbv zeta. rewrite He. reject. reflexivity.
Qed.

End SanitizedValidator.

Section V16Validator.
Context {U : UnicodeData}.
Import V16.

Lemma v16_rejeita_empresa_In nome_upper emps emp :
  In emp emps -> contains emp nome_upper = true -> cooperativa emp nome_upper = false ->
  rejeita_empresa nome_upper emps = true.
Proof.
  intros Hin Hc Hx. induction emps as [|e emps IH]; [destruct Hin|].
  simpl. fold (cooperativa e nome_upper).
  destruct Hin as [->|Hin].
  - rewrite Hc, Hx. reflexivity.
  - destruct (contains e nome_upper); [|apply IH, Hin].
    destruct (cooperativa e nome_upper); [apply IH, Hin | reflexivity].
Qed.

Lemma v16_rejects_short emps nome min_len :
  length nome < min_len -> validar_nome_com emps nome min_len = false.
Proof.
  intros Hlt. unfold validar_nome_com. apply Nat.ltb_lt in Hlt. rewrite Hlt.
  now rewrite orb_true_r.
Qed.

Lemma v16_rejects_no_letter emps nome min_len :
  forallb (fun c => negb (ascii_letter c)) nome = true ->
  validar_nome_com emps nome min_len = false.
Proof.
  intros Hall. unfold validar_nome_com. rewrite (no_letter_search nome Hall). simpl.
  destruct (_ || _); reflexivity.
Qed.

Lemma v16_rejects_in_house emps nome min_len emp :
  In emp emps -> contains emp (str_upper nome) = true ->
  cooperativa emp (str_upper nome) = false ->
  validar_nome_com emps nome min_len = false.
Proof.
  intros Hin Hc Hx. unfold validar_nome_com. cbv zeta.
  rewrite (v16_rejeita_empresa_In _ _ _ Hin Hc Hx). reject. reflexivity.
Qed.

Lemma v16_rejects_jargon emps nome min_len r :
  In r rejeitar ->
  str_lower nome = r \/ startswith (r ++ u " ") (str_lower nome) = true ->
  validar_nome_com emps nome min_len = false.
Proof.
  intros Hin Hr. unfold validar_nome_com.
  assert (He : existsb (fun r => str_eqb (str_lower nome) r
                                 || startswith (r ++ u " ") (str_lower nome)) rejeitar = true).
  { apply existsb_exists. exists r. split; [exact Hin|].
    destruct Hr as [Hr|Hr]; [rewrite Hr, str_eqb_refl; reflexivity|].
    rewrite Hr. apply orb_true_r. }
  cbv zeta. rewrite He. reject. reflexivity.
Qed.

(** Under the exception the entry SICOOB has no effect on the loop. *)
Lemma v16_rejeita_empresa_cooperativa nome_upper :
  25 < length nome_upper ->
  contains (u "SISTEMA DE COOPERATIVAS") nome_upper = false ->
  rejeita_empresa nome_upper empresas_sistema
  = rejeita_empresa nome_upper
      [u "FARMAUSA"; u "URBANBOX"; u "PHARMACEUTICAL"; u "LIFE SCIENCE"].
Proof.
  intros Hlen Hsis. unfold empresas_sistema.
  assert (Hcoop : cooperativa (u "SICOOB") nome_upper = true).
  { unfold cooperativa. rewrite str_eqb_refl, Hsis.
    apply Nat.ltb_lt in Hlen. rewrite Hlen. reflexivity. }
  assert (Hlast : rejeita_empresa nome_upper [u "SICOOB"] = false).
  { change (rejeita_empresa nome_upper [u "SICOOB"])
      with (if contains (u "SICOOB") nome_upper
            then if cooperativa (u "SICOOB") nome_upper then false else true
            else false).
    rewrite Hcoop. destruct (contains (u "SICOOB") nome_upper); reflexivity. }
  assert (Happ : forall l1 l2,
            rejeita_empresa nome_upper (l1 ++ l2)
            = rejeita_empresa nome_upper l1 || rejeita_empresa nome_upper l2).
  { induction l1 as [|e l1 IH]; intros l2; [reflexivity|]. simpl.
    destruct (contains e nome_upper); [|apply IH].
    destruct (_ && _); [apply IH | reflexivity]. }
  change [u "FARMAUSA"; u "URBANBOX"; u "PHARMACEUTICAL"; u "LIFE SCIENCE"; u "SICOOB"]
    with ([u "FARMAUSA"; u "URBANBOX"; u "PHARMACEUTICAL"; u "LIFE SCIENCE"] ++ [u "SICOOB"]).
  rewrite Happ, Hlast. apply orb_false_r.
Qed.

End V16Validator.

(** ** The text normaliser *)

Lemma replace1_id (old : cp) (new s : str) : ~ In old s -> replace1 old new s = s.
Proof.
  unfold replace1. induction s as [|c s IH]; intros Hn; simpl; [reflexivity|].
  destruct (N.eqb_spec c old) as [->|Hne].
  - exfalso. apply Hn. now left.
  - simpl. f_equal. apply IH. intros Hin. apply Hn. now right.
Qed.

Lemma replace1_In (old : cp) (new s : str) (c : cp) :
  In c (replace1 old new s) -> In c new \/ (In c s /\ c <> old).
Proof.
  unfold replace1. induction s as [|d s IH]; simpl; [intros []|].
  intros Hin. apply in_app_or in Hin. destruct Hin as [Hin|Hin].
  - destruct (N.eqb_spec d old) as [->|Hne]; [now left|].
    destruct Hin as [->|[]]. right. split; [now left | exact Hne].
  - destruct (IH Hin) as [Hnew|[Hs Hne]]; [now left|]. right. split; [now right | exact Hne].
Qed.

Lemma without_In (x : cp) (s : str) : without x s = true <-> ~ In x s.
Proof.
  unfold without. induction s as [|c s IH]; simpl.
  - split; [intros _ [] | reflexivity].
  - rewrite andb_true_iff, IH, negb_true_iff, N.eqb_neq. split.
    + intros [Hne Hn] [Heq|Hin]; [congruence | contradiction].
    + intros Hn. split; [intros Heq; apply Hn; now left | intros Hin; apply Hn; now right].
Qed.

Lemma replace1_without (old : cp) (new s : str) :
  without old new = true -> without old (replace1 old new s) = true.
Proof.
  rewrite !without_In. intros Hnew Hin.
  apply replace1_In in Hin. destruct Hin as [Hin|[_ Hne]]; [contradiction | congruence].
Qed.

Section Normaliser.
Context {U : UnicodeData}.

Lemma limpar_texto_twice (s : str) :
  nfkc_idempotent -> nfkc_stable -> limpar_texto (limpar_texto s) = limpar_texto s.
Proof.
  intros Hidem Hstable. destruct s as [|c0 s0]; [reflexivity|].
  set (t0 := replace1 8232 (u " ") (replace1 64258 (u "fl") (replace1 64257 (u "fi") (c0 :: s0)))).
  assert (Hfirst : limpar_texto (c0 :: s0) = nfkc t0) by reflexivity.
  rewrite Hfirst.
  assert (Ht0 : ~ In 8232%N t0).
  { apply without_In. apply replace1_without. reflexivity. }
  assert (Hnone : forall c, In c (nfkc t0) -> c <> 64257%N /\ c <> 64258%N /\ c <> 8232%N).
  { intros c Hc. apply (Hstable t0 c Ht0 Hc). }
  assert (Hsecond : limpar_texto (nfkc t0)
                    = match nfkc t0 with
                      | [] => []
                      | _ => nfkc (replace1 8232 (u " ")
                               (replace1 64258 (u "fl") (replace1 64257 (u "fi") (nfkc t0))))
                      end).
  { unfold limpar_texto. destruct (nfkc t0); reflexivity. }
  rewrite Hsecond.
  rewrite (replace1_id 64257 _ (nfkc t0)) by (intros Hin; apply Hnone in Hin; tauto).
  rewrite (replace1_id 64258 _ (nfkc t0)) by (intros Hin; apply Hnone in Hin; tauto).
  rewrite (replace1_id 8232 _ (nfkc t0)) by (intros Hin; apply Hnone in Hin; tauto).
  destruct (nfkc t0) eqn:Et; [reflexivity|]. rewrite <- Et. apply Hidem.
Qed.

End Normaliser.

(** The Latin-1 runtime has the two facts. *)
Lemma compat_fixed (c : cp) : flat_map Latin1.compat (Latin1.compat c) = Latin1.compat c.
Proof.
  unfold Latin1.compat at 2 3.
  repeat match goal with
         | |- context [(c =? ?n)%N] => destruct (N.eqb_spec c n) as [->|?]; [reflexivity|]
         end.
  cbn [flat_map]. rewrite List.app_nil_r. unfold Latin1.compat.
  repeat match goal with
         | E : c <> _ |- _ => rewrite (proj2 (N.eqb_neq _ _) E); clear E
         end.
  reflexivity.
Qed.

Lemma latin1_nfkc_idempotent : @nfkc_idempotent Latin1.unicode.
Proof.
  intros s. simpl. unfold Latin1.NFKC.
  induction s as [|c s IH]; simpl; [reflexivity|].
  rewrite flat_map_app, IH, compat_fixed. reflexivity.
Qed.

Lemma compat_stable (c d : cp) :
  c <> 8232%N -> In d (Latin1.compat c) ->
  d <> 64257%N /\ d <> 64258%N /\ d <> 8232%N.
Proof.
  intros Hc. unfold Latin1.compat.
  repeat match goal with
         | |- context [(c =? ?n)%N] =>
           destruct (N.eqb_spec c n);
           [ intros Hin; simpl in Hin;
             repeat (destruct Hin as [<-|Hin]; [repeat split; discriminate|]); destruct Hin
           | ]
         end.
  intros [<-|[]]. repeat split; assumption.
Qed.

Lemma latin1_nfkc_stable : @nfkc_stable Latin1.unicode.
Proof.
  intros s d Hs Hd. simpl in Hd. unfold Latin1.NFKC in Hd.
  apply in_flat_map in Hd. destruct Hd as (c & Hc & Hd).
  apply (compat_stable c d); [|exact Hd]. intros ->. contradiction.
Qed.

(** ** File names and the occurrence counter *)

(** The last two steps of [sanitize_filename]. *)
Lemma truncated_bounds (n : str) :
  let name := if MAX_NAME_LEN <? length n then firstn MAX_NAME_LEN n else n in
  1 <= length (match name with [] => FORNECEDOR_DESCONHECIDO | _ => name end)
    <= MAX_NAME_LEN.
Proof.
  cbv zeta. destruct (MAX_NAME_LEN <? length n) eqn:E.
  - apply Nat.ltb_lt in E. pose proof (length_firstn MAX_NAME_LEN n) as Hlen.
    destruct (firstn MAX_NAME_LEN n) as [|c r] eqn:Ef.
    + vm_compute. split; lia.
    + rewrite Hlen. unfold MAX_NAME_LEN in *. lia.
  - apply Nat.ltb_ge in E. destruct n as [|c r].
    + vm_compute. split; lia.
    + simpl in *. lia.
Qed.

Lemma ocorrencias_snoc k hist p :
  ocorrencias k (hist ++ [p]) = ocorrencias k hist + (if bool_decide (chave p = k) then 1 else 0).
Proof.
  unfold ocorrencias. rewrite List.filter_app, List.length_app. simpl.
  destruct (bool_decide (chave p = k)); reflexivity.
Qed.

Lemma conta_empty : conta ∅ [].
Proof. intros k. rewrite lookup_empty. reflexivity. Qed.

Lemma conta_step contador hist p :
  conta contador hist ->
  pg_cnt p = S (default 0 (contador !! chave p)) ->
  conta (<[chave p := pg_cnt p]> contador) (hist ++ [p]).
Proof.
  intros Hc Hp k. rewrite ocorrencias_snoc.
  destruct (decide (chave p = k)) as [<-|Hne].
  - rewrite lookup_insert_eq. simpl. rewrite Hp, Hc.
    rewrite bool_decide_eq_true_2 by reflexivity. lia.
  - rewrite lookup_insert_ne by exact Hne.
    rewrite bool_decide_eq_false_2 by exact Hne. rewrite Hc. lia.
Qed.

Section SanitizedNaming.
Context {U : UnicodeData} {F : FloatParse}.
Import Sanitized.

Lemma sanitized_sanitize_filename_length name :
  1 <= length (sanitize_filename name) <= MAX_NAME_LEN.
Proof.
  unfold sanitize_filename. cbv zeta.
  match goal with |- context [join ?a ?b] => generalize (join a b) end.
  intros n. apply truncated_bounds.
Qed.

Lemma sanitized_montar_nome_shape benef valor contador snippet :
  montar_nome benef valor contador snippet
  = prefixo contador ++ base_de (sanitize_filename benef) valor snippet ++ u ".pdf".
Proof.
  unfold montar_nome, prefixo, base_de. cbv zeta.
  destruct (1 <? contador); [|reflexivity].
  rewrite <- !List.app_assoc. reflexivity.
Qed.

Lemma sanitized_processar_parte_inv pages contador p contador' :
  processar_parte pages contador = Ok (p, contador') ->
  pg_cnt p = S (default 0 (contador !! chave p))
  /\ contador' = <[chave p := pg_cnt p]> contador
  /\ exists snippet,
       pg_nome_arquivo p = montar_nome (pg_beneficiario p) (pg_valor p) (pg_cnt p) snippet.
Proof.
  unfold processar_parte. cbv zeta.
  destruct (extrair_beneficiario _) as [b|e]; [|discriminate].
  cbv beta iota delta [bind].
  destruct (extrair_valor _) as [v|e]; [|discriminate].
  cbv beta iota delta [bind proxima_ocorrencia].
  destruct (snippet_de _) as [sn|e]; [|discriminate].
  intros Heq. inversion Heq; subst. unfold chave. simpl.
  split; [reflexivity|]. split; [reflexivity|]. exists sn. reflexivity.
Qed.

Lemma sanitized_snippet_de_ok texto : never_raises (snippet_de texto).
Proof.
  unfold snippet_de. destruct (is_some _); [|apply never_raises_ok].
  apply never_raises_bind; [apply extrair_linha_digitavel_ok|].
  intros seq. destruct seq; apply never_raises_ok.
Qed.

Lemma sanitized_processar_parte_ok pages contador : never_raises (processar_parte pages contador).
Proof.
  unfold processar_parte.
  apply never_raises_bind; [apply sanitized_extrair_beneficiario_ok | intros b].
  apply never_raises_bind; [apply sanitized_extrair_valor_ok | intros v].
  destruct (proxima_ocorrencia _ _) as [cnt c'].
  apply never_raises_bind; [apply sanitized_snippet_de_ok | intros sn]. apply never_raises_ok.
Qed.

(** The pages of a run carry the number of their occurrence. *)
Lemma sanitized_processar_numbers partes :
  forall contador hist, conta contador hist ->
  exists pgs, processar partes contador = Ok pgs
    /\ length pgs = length partes
    /\ forall i p, nth_error pgs i = Some p ->
         pg_cnt p = S (ocorrencias (chave p) (hist ++ firstn i pgs))
         /\ exists snippet,
              pg_nome_arquivo p
              = montar_nome (pg_beneficiario p) (pg_valor p) (pg_cnt p) snippet.
Proof.
  induction partes as [|pages rest IH]; intros contador hist Hc.
  - exists []. split; [reflexivity|]. split; [reflexivity|].
    intros i p Hi. destruct i; discriminate.
  - destruct (sanitized_processar_parte_ok pages contador) as [[p c'] Hp].
    destruct (sanitized_processar_parte_inv _ _ _ _ Hp) as (Hcnt & Hc' & Hnome).
    assert (Hc2 : conta c' (hist ++ [p])).
    { rewrite Hc'. apply conta_step; assumption. }
    destruct (IH c' (hist ++ [p]) Hc2) as (rs & Hrs & Hlen & Hall).
    exists (p :: rs). split; [|split].
    + simpl. rewrite Hp. cbv beta iota delta [bind]. simpl. rewrite Hrs. reflexivity.
    + simpl. now rewrite Hlen.
    + intros i q Hi. destruct i as [|i]; simpl in Hi.
      * inversion Hi; subst q. simpl. rewrite List.app_nil_r.
        split; [rewrite Hcnt, Hc; reflexivity | exact Hnome].
      * destruct (Hall i q Hi) as [Hq Hn]. split; [|exact Hn].
        rewrite Hq. simpl. rewrite <- List.app_assoc. reflexivity.
Qed.

End SanitizedNaming.

Section V16Naming.
Context {U : UnicodeData} {F : FloatParse}.
Import V16.

Lemma v16_sanitize_filename_length name :
  1 <= length (sanitize_filename name) <= MAX_NAME_LEN.
Proof.
  unfold sanitize_filename. cbv zeta.
  match goal with |- context [join ?a ?b] => generalize (join a b) end.
  intros n. apply truncated_bounds.
Qed.

Lemma v16_montar_nome_shape benef valor contador snippet :
  montar_nome benef valor contador snippet
  = prefixo contador ++ base_de (sanitize_filename benef) valor snippet ++ u ".pdf".
Proof.
  unfold montar_nome, prefixo, base_de. cbv zeta.
  destruct (1 <? contador); [|reflexivity].
  rewrite <- !List.app_assoc. reflexivity.
Qed.

Lemma v16_processar_parte_inv pages contador p contador' :
  processar_parte pages contador = Ok (p, contador') ->
  pg_cnt p = S (default 0 (contador !! chave p))
  /\ contador' = <[chave p := pg_cnt p]> contador
  /\ exists snippet,
       pg_nome_arquivo p = montar_nome (pg_beneficiario p) (pg_valor p) (pg_cnt p) snippet.
Proof.
  unfold processar_parte. cbv zeta.
  destruct (extrair_beneficiario _) as [b0|e]; [|discriminate].
  cbv beta iota delta [bind].
  match goal with
  | |- context [if ?c then tratar_fornecedor_desconhecido ?t else Ok ?x] =>
    destruct (if c then tratar_fornecedor_desconhecido t else Ok x) as [b|e]; [|discriminate]
  end.
  destruct (extrair_valor _) as [v|e]; [|discriminate].
  cbv beta iota delta [bind proxima_ocorrencia].
  destruct (snippet_de _) as [sn|e]; [|discriminate].
  intros Heq. inversion Heq; subst. unfold chave. simpl.
  split; [reflexivity|]. split; [reflexivity|]. exists sn. reflexivity.
Qed.

(** The pages of a run carry the number of their occurrence. *)
Lemma v16_processar_numbers partes :
  forall contador hist, conta contador hist ->
  exists pgs, processar partes contador = Ok pgs
    /\ length pgs = length partes
    /\ forall i p, nth_error pgs i = Some p ->
         pg_cnt p = S (ocorrencias (chave p) (hist ++ firstn i pgs))
         /\ exists snippet,
              pg_nome_arquivo p
              = montar_nome (pg_beneficiario p) (pg_valor p) (pg_cnt p) snippet.
Proof.
  induction partes as [|pages rest IH]; intros contador hist Hc.
  - exists []. split; [reflexivity|]. split; [reflexivity|].
    intros i p Hi. destruct i; discriminate.
  - destruct (v16_processar_parte_ok pages contador) as [[p c'] Hp].
    destruct (v16_processar_parte_inv _ _ _ _ Hp) as (Hcnt & Hc' & Hnome).
    assert (Hc2 : conta c' (hist ++ [p])).
    { rewrite Hc'. apply conta_step; assumption. }
    destruct (IH c' (hist ++ [p]) Hc2) as (rs & Hrs & Hlen & Hall).
    exists (p :: rs). split; [|split].
    + simpl. rewrite Hp. cbv beta iota delta [bind]. simpl. rewrite Hrs. reflexivity.
    + simpl. now rewrite Hlen.
    + intros i q Hi. destruct i as [|i]; simpl in Hi.
      * inversion Hi; subst q. simpl. rewrite List.app_nil_r.
        split; [rewrite Hcnt, Hc; reflexivity | exact Hnome].
      * destruct (Hall i q Hi) as [Hq Hn]. split; [|exact Hn].
        rewrite Hq. simpl. rewrite <- List.app_assoc. reflexivity.
Qed.

End V16Naming.

(** ** The display form of the amounts *)
Section Display.
Context {U : UnicodeData} {F : FloatParse}.

(** A candidate of the loops over [patterns] has no point in its text. *)
Lemma valor_do_match_display prio tp m r c :
  valor_do_match prio tp m = Ok r -> In c r ->
  without (ch ".") (valor c) = true /\ prioridade c = prio.
Proof.
  unfold valor_do_match. destruct (group_str m 1) as [g|e]; [|discriminate].
  cbv beta iota delta [bind]. cbv zeta.
  destruct (float_of _) as [x|]; [destruct (float_pos x)|];
    intros Hr Hc; inversion Hr; subst r.
  - destruct Hc as [<-|[]]. simpl. split; [|reflexivity].
    apply replace1_without. reflexivity.
  - destruct Hc.
  - destruct Hc.
Qed.

Lemma valores_dos_padroes_display patterns texto l c :
  valores_dos_padroes patterns texto = Ok l -> In c l ->
  without (ch ".") (valor c) = true
  /\ exists pattern tp, In (pattern, prioridade c, tp) patterns.
Proof.
  unfold valores_dos_padroes. intros Hl Hc.
  destruct (for_each_In _ _ _ _ Hl Hc) as ([[pattern prio] tp] & ys & Hp & Hys & Hcy).
  destruct (for_each_In _ _ _ _ Hys Hcy) as (m & zs & _ & Hzs & Hcz).
  destruct (valor_do_match_display _ _ _ _ _ Hzs Hcz) as [Hw Hprio].
  split; [exact Hw|]. exists pattern, tp. rewrite Hprio. exact Hp.
Qed.

Lemma valor_bradesco_prioridade pattern tp texto r c :
  V16.valor_bradesco pattern tp texto = Ok r -> In c r -> prioridade c = 0.
Proof.
  unfold V16.valor_bradesco. destruct (re_search _ _ _) as [m|].
  - destruct (group_str m 1) as [g|e]; [|discriminate].
    cbv beta iota delta [bind]. cbv zeta.
    destruct (float_of _) as [x|]; [destruct (float_pos x)|];
      intros Hr Hc; inversion Hr; subst r.
    + destruct Hc as [<-|[]]. reflexivity.
    + destruct Hc.
    + destruct Hc.
  - intros Hr Hc. inversion Hr; subst r. destruct Hc.
Qed.

Lemma melhor_valor_In (l : list valor_cand) :
  melhor_valor l = VALOR_NAO_ENCONTRADO \/ exists c, In c l /\ melhor_valor l = valor c.
Proof.
  pose proof (melhor_valor_spec l) as Hs. destruct l as [|x l]; [now left|].
  destruct Hs as (best & [Hin _] & Heq). right. exists best. split; assumption.
Qed.

(** An extractor returns the sentinel on the empty text and the decision
    over its candidates otherwise. *)
Lemma sanitized_extrair_valor_de texto :
  match texto with
  | [] => Sanitized.extrair_valor texto = Ok VALOR_NAO_ENCONTRADO
  | _ => exists l, Sanitized.valores_encontrados texto = Ok l
                   /\ Sanitized.extrair_valor texto = Ok (melhor_valor l)
  end.
Proof.
  destruct texto as [|c texto]; [reflexivity|].
  destruct (sanitized_valores_encontrados_ok (c :: texto)) as [l Hl].
  exists l. split; [exact Hl|]. unfold Sanitized.extrair_valor. rewrite Hl. reflexivity.
Qed.

Lemma v16_extrair_valor_de texto :
  match texto with
  | [] => V16.extrair_valor texto = Ok VALOR_NAO_ENCONTRADO
  | _ => exists l, V16.valores_encontrados texto = Ok l
                   /\ V16.extrair_valor texto = Ok (melhor_valor l)
  end.
Proof.
  destruct texto as [|c texto]; [reflexivity|].
  destruct (v16_valores_encontrados_ok (c :: texto)) as [l Hl].
  exists l. split; [exact Hl|]. unfold V16.extrair_valor. rewrite Hl. reflexivity.
Qed.

Lemma sanitized_extrair_beneficiario_de texto :
  match texto with
  | [] => Sanitized.extrair_beneficiario texto = Ok FORNECEDOR_DESCONHECIDO
  | _ => exists l, Sanitized.candidatos texto = Ok l
                   /\ Sanitized.extrair_beneficiario texto = Ok (decisao_final l)
  end.
Proof.
  destruct texto as [|c texto]; [reflexivity|].
  destruct (sanitized_candidatos_ok (c :: texto)) as [l Hl].
  exists l. split; [exact Hl|]. unfold Sanitized.extrair_beneficiario. rewrite Hl. reflexivity.
Qed.

Lemma v16_extrair_beneficiario_de texto :
  match texto with
  | [] => V16.extrair_beneficiario texto = Ok FORNECEDOR_DESCONHECIDO
  | _ => exists l, V16.candidatos texto = Ok l
                   /\ V16.extrair_beneficiario texto = Ok (decisao_final l)
  end.
Proof.
  destruct texto as [|c texto]; [reflexivity|].
  destruct (v16_candidatos_ok (c :: texto)) as [l Hl].
  exists l. split; [exact Hl|]. unfold V16.extrair_beneficiario. rewrite Hl. reflexivity.
Qed.

End Display.

(** * The claims

    The concrete evaluations below run the scripts on the Latin-1 runtime
    with exact decimals. *)

#[local] Existing Instance Latin1.unicode.
#[local] Existing Instance Decimal.decimal_float.

(** C1, as stated, fails: the receipt made of the two fragments and the
    alias URBANBOX contains both fragments and a configured alias, and the
    pipeline of the v16 script returns the amount "8000,00" and the file
    name "MARIO_PASTORE - 8000,00.pdf", not "8.000,00" and
    "MARIO_PASTORE - 8.000,00.pdf". *)
Lemma C1_counterexample :
  let texto := comprovante (u "URBANBOX") in
  contains fragmento_beneficiario texto = true
  /\ contains fragmento_valor texto = true
  /\ contains (u "URBANBOX") texto = true
  /\ exists p, V16.main [[texto]] = Ok [p]
       /\ pg_valor p <> u "8.000,00"
       /\ pg_nome_arquivo p <> u "MARIO_PASTORE - 8.000,00.pdf".
Proof.
  cbv zeta. split; [vm_compute; reflexivity|].
  split; [vm_compute; reflexivity|]. split; [vm_compute; reflexivity|].
  exists (esperado (u "URBANBOX")). split; [vm_compute; reflexivity|].
  split; vm_compute; discriminate.
Qed.

(** C1, amended: for the receipt made of the fragment "Controle de Pagamento
    Beneficiário: MARIO PASTORE CPF/CNPJ: 123.456.789-00", the fragment
    "Valor principal: R$ 8.000,00" and any configured payer alias, the
    pipeline of either script returns the beneficiary "MARIO PASTORE", the
    amount "8000,00" (the thousands separator is dropped), the payer code
    that owns the alias, the occurrence number 1 and the file name
    "MARIO_PASTORE - 8000,00.pdf". *)
Theorem C1_pipeline :
  Forall (fun e => Forall (fun alias => V16.main [[comprovante alias]] = Ok [esperado (fst e)])
                          (snd e))
         V16.EMPRESAS
  /\ Forall (fun e => Forall (fun alias =>
                                Sanitized.main [[comprovante alias]] = Ok [esperado (fst e)])
                             (snd e))
            Sanitized.EMPRESAS.
Proof.
  split; repeat constructor; vm_compute; reflexivity.
Qed.

(** C2, as stated, fails: in the text "Valor principal: R$ 1.234,56" the
    amount appears as "1.234,56", and both scripts return "1234,56". *)
Lemma C2_counterexample :
  let texto := u "Valor principal: R$ 1.234,56" in
  contains (u "1.234,56") texto = true
  /\ V16.extrair_valor texto = Ok (u "1234,56")
  /\ Sanitized.extrair_valor texto = Ok (u "1234,56")
  /\ u "1234,56" <> u "1.234,56".
Proof.
  cbv zeta. split; [vm_compute; reflexivity|].
  split; [vm_compute; reflexivity|]. split; [vm_compute; reflexivity|].
  vm_compute. discriminate.
Qed.

(** C2, amended: the amount is returned in decimal-comma form without
    thousands separators.  The sanitized script never returns a text with a
    point; in the v16 script every candidate of the loop over the patterns
    is free of points, and only the priority-0 Bradesco candidates keep the
    capture as it appeared.  The match "1.234,56" parses to 1234.56 and is
    returned as "1234,56"; a priority-0 capture "1.234,56" is returned as
    "1.234,56". *)
Theorem C2_display :
  (forall (U : UnicodeData) (F : FloatParse) (texto : str),
     (exists s, Sanitized.extrair_valor texto = Ok s /\ without (ch ".") s = true)
     /\ (exists l, V16.valores_encontrados texto = Ok l
           /\ Forall (fun c => prioridade c = 0 \/ without (ch ".") (valor c) = true) l))
  /\ (exists c rest,
        V16.valores_encontrados (u "Valor principal: R$ 1.234,56") = Ok (c :: rest)
        /\ (Decimal.value (float c) == 123456 # 100)%Q
        /\ valor c = u "1234,56"
        /\ V16.extrair_valor (u "Valor principal: R$ 1.234,56") = Ok (valor c)
        /\ Sanitized.extrair_valor (u "Valor principal: R$ 1.234,56") = Ok (valor c))
  /\ V16.extrair_valor (u "12.345.678/0001-99 1.234,56 R$0,00") = Ok (u "1.234,56").
Proof.
  split; [|split].
  - intros U F texto. split.
    + pose proof (sanitized_extrair_valor_de texto) as Hde.
      destruct texto as [|c0 texto].
      * exists VALOR_NAO_ENCONTRADO. split; [exact Hde | reflexivity].
      * destruct Hde as (l & Hl & He). exists (melhor_valor l). split; [exact He|].
        destruct (melhor_valor_In l) as [->|(c & Hc & ->)]; [reflexivity|].
        apply (valores_dos_padroes_display _ _ _ _ Hl Hc).
    + destruct (v16_valores_encontrados_ok texto) as [l Hl].
      exists l. split; [exact Hl|]. apply List.Forall_forall. intros c Hc.
      unfold V16.valores_encontrados in Hl.
      match type of Hl with
      | bind ?x _ = _ => destruct x as [v0|e] eqn:E0; [|discriminate]
      end.
      cbv beta iota delta [bind] in Hl.
      match type of Hl with
      | context [match v0 with [] => ?a | _ :: _ => ?b end] =>
        destruct (match v0 with [] => a | _ :: _ => b end) as [v1|e] eqn:E1; [|discriminate]
      end.
      destruct (valores_dos_padroes V16.patterns texto) as [vs|e] eqn:E2; [|discriminate].
      inversion Hl; subst l. apply in_app_or in Hc. destruct Hc as [Hc|Hc].
      * left. destruct v0 as [|x v0].
        -- apply (valor_bradesco_prioridade _ _ _ _ _ E1 Hc).
        -- inversion E1; subst v1. apply (valor_bradesco_prioridade _ _ _ _ _ E0 Hc).
      * right. apply (valores_dos_padroes_display _ _ _ _ E2 Hc).
  - eexists. eexists. split; [vm_compute; reflexivity|].
    repeat split; vm_compute; reflexivity.
  - vm_compute. reflexivity.
Qed.

(** C3: the amount extractor keeps, for each parsed numeric value, a
    candidate of the lowest priority number among the candidates with that
    value, and returns the display text of a candidate whose priority
    number no candidate undercuts; the text with "Valor principal: R$
    100,00" (priority 1) and "R$ 999,00" (priority 5) yields "100,00". *)
Theorem C3_selection :
  (forall (U : UnicodeData) (F : FloatParse) (texto : str),
     exists l1 l2,
       V16.valores_encontrados texto = Ok l1
       /\ Sanitized.valores_encontrados texto = Ok l2
       /\ valores_ok l1 (unicos_valor l1)
       /\ valores_ok l2 (unicos_valor l2)
       /\ match texto, l1 with
          | _ :: _, _ :: _ =>
            exists best, mais_especifico l1 best /\ V16.extrair_valor texto = Ok (valor best)
          | _, _ => V16.extrair_valor texto = Ok VALOR_NAO_ENCONTRADO
          end
       /\ match texto, l2 with
          | _ :: _, _ :: _ =>
            exists best, mais_especifico l2 best
                         /\ Sanitized.extrair_valor texto = Ok (valor best)
          | _, _ => Sanitized.extrair_valor texto = Ok VALOR_NAO_ENCONTRADO
          end)
  /\ V16.extrair_valor (u "Valor principal: R$ 100,00 R$ 999,00") = Ok (u "100,00")
  /\ Sanitized.extrair_valor (u "Valor principal: R$ 100,00 R$ 999,00") = Ok (u "100,00")
  /\ (exists a b c,
        V16.valores_encontrados (u "Valor principal: R$ 100,00 R$ 999,00") = Ok [a; b; c]
        /\ (valor a, prioridade a) = (u "100,00", 1)
        /\ (valor b, prioridade b) = (u "100,00", 5)
        /\ (valor c, prioridade c) = (u "999,00", 5)).
Proof.
  split; [|split; [|split]].
  - intros U F texto.
    destruct (v16_valores_encontrados_ok texto) as [l1 Hl1].
    destruct (sanitized_valores_encontrados_ok texto) as [l2 Hl2].
    exists l1, l2. split; [exact Hl1|]. split; [exact Hl2|].
    split; [apply unicos_valor_ok|]. split; [apply unicos_valor_ok|]. split.
    + destruct texto as [|c0 texto]; [reflexivity|].
      unfold V16.extrair_valor. rewrite Hl1. cbv beta iota delta [bind].
      pose proof (melhor_valor_spec l1) as Hs. destruct l1 as [|x l1].
      * now rewrite Hs.
      * destruct Hs as (best & Hb & Hv). exists best. split; [exact Hb | now rewrite Hv].
    + destruct texto as [|c0 texto]; [reflexivity|].
      unfold Sanitized.extrair_valor. rewrite Hl2. cbv beta iota delta [bind].
      pose proof (melhor_valor_spec l2) as Hs. destruct l2 as [|x l2].
      * now rewrite Hs.
      * destruct Hs as (best & Hb & Hv). exists best. split; [exact Hb | now rewrite Hv].
  - vm_compute. reflexivity.
  - vm_compute. reflexivity.
  - do 3 eexists. split; [vm_compute; reflexivity|].
    split; [|split]; vm_compute; reflexivity.
Qed.

(** C5, as stated, fails: "COOPERATIVA DE CREDITO SICOOB CENTRAL" contains
    the configured in-house text SICOOB, and the validator of the v16 script
    accepts it. *)
Lemma C5_counterexample :
  let nome := u "COOPERATIVA DE CREDITO SICOOB CENTRAL" in
  In (u "SICOOB") V16.empresas_sistema
  /\ contains (u "SICOOB") (str_upper nome) = true
  /\ V16.validar_nome nome 5 = true.
Proof.
  cbv zeta. split; [|split]; [|vm_compute; reflexivity|vm_compute; reflexivity].
  unfold V16.empresas_sistema. simpl. tauto.
Qed.

(** C5, amended: both validators reject a text shorter than [min_len], a
    text without an ASCII letter (so every text of digits and punctuation),
    a text whose lower-case form is a jargon word or starts with one
    followed by a space, and a text whose upper-case form contains an
    in-house name; the v16 validator makes one exception to the last rule,
    for SICOOB in a text of more than 25 characters without "SISTEMA DE
    COOPERATIVAS".  Both accept "MARIO PASTORE" at [min_len] 5. *)
Theorem C5_validar_nome :
  (forall (U : UnicodeData) (nome : str) (min_len : nat),
     (length nome < min_len ->
        V16.validar_nome nome min_len = false /\ Sanitized.validar_nome nome min_len = false)
     /\ (forallb (fun c => negb (ascii_letter c)) nome = true ->
           V16.validar_nome nome min_len = false
           /\ Sanitized.validar_nome nome min_len = false)
     /\ (forall r, In r V16.rejeitar ->
           str_lower nome = r \/ startswith (r ++ u " ") (str_lower nome) = true ->
           V16.validar_nome nome min_len = false)
     /\ (forall r, In r Sanitized.rejeitar ->
           str_lower nome = r \/ startswith (r ++ u " ") (str_lower nome) = true ->
           Sanitized.validar_nome nome min_len = false)
     /\ (forall emp, In emp Sanitized.empresas_sistema ->
           contains emp (str_upper nome) = true ->
           Sanitized.validar_nome nome min_len = false)
     /\ (forall emp, In emp V16.empresas_sistema ->
           contains emp (str_upper nome) = true ->
           cooperativa emp (str_upper nome) = false ->
           V16.validar_nome nome min_len = false))
  /\ V16.validar_nome (u "MARIO PASTORE") 5 = true
  /\ Sanitized.validar_nome (u "MARIO PASTORE") 5 = true.
Proof.
  split; [|split; vm_compute; reflexivity].
  intros U nome min_len. repeat split.
  - now apply v16_rejects_short.
  - now apply sanitized_rejects_short.
  - now apply v16_rejects_no_letter.
  - now apply sanitized_rejects_no_letter.
  - intros r Hr Hj. eapply v16_rejects_jargon; eassumption.
  - intros r Hr Hj. eapply sanitized_rejects_jargon; eassumption.
  - intros emp He Hc. eapply sanitized_rejects_in_house; eassumption.
  - intros emp He Hc Hx. eapply v16_rejects_in_house; eassumption.
Qed.

(** C5 at concrete texts: "12.345-6" and "abc" at [min_len] 5, "conta
    corrente" and "YOUR_COMPANY LTDA" are rejected. *)
Lemma C5_witness :
  (V16.validar_nome (u "abc") 5 = false /\ Sanitized.validar_nome (u "abc") 5 = false)
  /\ (V16.validar_nome (u "12.345-6") 5 = false /\ Sanitized.validar_nome (u "12.345-6") 5 = false)
  /\ V16.validar_nome (u "Conta Corrente") 5 = false
  /\ Sanitized.validar_nome (u "Conta Corrente") 5 = false
  /\ Sanitized.validar_nome (u "Your_Company Ltda") 5 = false
  /\ V16.validar_nome (u "Farmausa Ltda") 5 = false.
Proof.
  destruct C5_validar_nome as [Hall _].
  destruct (Hall Latin1.unicode (u "abc") 5) as (Hshort & _).
  destruct (Hall Latin1.unicode (u "12.345-6") 5) as (_ & Hletter & _).
  destruct (Hall Latin1.unicode (u "Conta Corrente") 5) as (_ & _ & Hj16 & Hjs & _).
  destruct (Hall Latin1.unicode (u "Your_Company Ltda") 5) as (_ & _ & _ & _ & Hes & _).
  destruct (Hall Latin1.unicode (u "Farmausa Ltda") 5) as (_ & _ & _ & _ & _ & He16).
  split; [|split; [|split; [|split; [|split]]]].
  - apply Hshort. vm_compute. lia.
  - apply Hletter. vm_compute. reflexivity.
  - apply (Hj16 (u "conta")).
    + vm_compute. tauto.
    + right. vm_compute. reflexivity.
  - apply (Hjs (u "conta")).
    + vm_compute. tauto.
    + right. vm_compute. reflexivity.
  - apply (Hes (u "YOUR_COMPANY")).
    + vm_compute. tauto.
    + vm_compute. reflexivity.
  - apply (He16 (u "FARMAUSA")).
    + vm_compute. tauto.
    + vm_compute. reflexivity.
    + vm_compute. reflexivity.
Defined.

(** C6: in a run of either script the page at position [i] carries the
    number 1 plus the number of earlier pages with the same key (payer code,
    beneficiary, amount), so the first occurrence of a key is numbered 1 and
    each later one is numbered one more than the one before; its file name
    is the name without prefix, preceded by "N", the number and " - "
    exactly when the number is greater than 1.  Three identical receipts
    are numbered 1, 2, 3, and only the second and the third carry the
    prefix. *)
Theorem C6_ocorrencias :
  (forall (U : UnicodeData) (F : FloatParse) (partes : list (list str)),
     (exists pgs, V16.main partes = Ok pgs
        /\ length pgs = length partes
        /\ forall i p, nth_error pgs i = Some p ->
             pg_cnt p = S (ocorrencias (chave p) (firstn i pgs))
             /\ exists snippet,
                  pg_nome_arquivo p
                  = prefixo (pg_cnt p)
                    ++ base_de (V16.sanitize_filename (pg_beneficiario p)) (pg_valor p) snippet
                    ++ u ".pdf")
     /\ (exists pgs, Sanitized.main partes = Ok pgs
           /\ length pgs = length partes
           /\ forall i p, nth_error pgs i = Some p ->
                pg_cnt p = S (ocorrencias (chave p) (firstn i pgs))
                /\ exists snippet,
                     pg_nome_arquivo p
                     = prefixo (pg_cnt p)
                       ++ base_de (Sanitized.sanitize_filename (pg_beneficiario p))
                                  (pg_valor p) snippet
                       ++ u ".pdf"))
  /\ (forall n, (n <= 1 -> prefixo n = [])
                /\ (1 < n -> prefixo n = PIX_PREFIX ++ str_of_nat n ++ u " - "))
  /\ (let t := comprovante (u "URBANBOX") in
      exists a b c, V16.main [[t]; [t]; [t]] = Ok [a; b; c]
        /\ chave a = chave b /\ chave b = chave c
        /\ (pg_cnt a, pg_cnt b, pg_cnt c) = (1, 2, 3)
        /\ pg_nome_arquivo a = u "MARIO_PASTORE - 8000,00.pdf"
        /\ pg_nome_arquivo b = u "N2 - MARIO_PASTORE - 8000,00.pdf"
        /\ pg_nome_arquivo c = u "N3 - MARIO_PASTORE - 8000,00.pdf").
Proof.
  split; [|split].
  - intros U F partes. split.
    + destruct (v16_processar_numbers partes ∅ [] conta_empty)
        as (pgs & Hp & Hlen & Hall).
      exists pgs. split; [exact Hp|]. split; [exact Hlen|].
      intros i p Hi. destruct (Hall i p Hi) as [Hc [sn Hn]]. split; [exact Hc|].
      exists sn. rewrite Hn. apply v16_montar_nome_shape.
    + destruct (sanitized_processar_numbers partes ∅ [] conta_empty)
        as (pgs & Hp & Hlen & Hall).
      exists pgs. split; [exact Hp|]. split; [exact Hlen|].
      intros i p Hi. destruct (Hall i p Hi) as [Hc [sn Hn]]. split; [exact Hc|].
      exists sn. rewrite Hn. apply sanitized_montar_nome_shape.
  - intros n. unfold prefixo. split; intros Hn.
    + apply Nat.ltb_ge in Hn. now rewrite Hn.
    + apply Nat.ltb_lt in Hn. now rewrite Hn.
  - cbv zeta. do 3 eexists. split; [vm_compute; reflexivity|].
    repeat split; vm_compute; reflexivity.
Qed.

(** C7: for every runtime whose NFKC normalisation is idempotent and brings
    in none of the three characters that [limpar_texto] replaces,
    [limpar_texto] is idempotent and maps the empty text to the empty text.
    [limpar_texto] is a total function: it returns a text for every text. *)
Theorem C7_limpar_texto :
  forall (U : UnicodeData),
    nfkc_idempotent -> nfkc_stable ->
    (forall s : str, limpar_texto (limpar_texto s) = limpar_texto s)
    /\ limpar_texto [] = [].
Proof.
  intros U Hidem Hstable. split; [|reflexivity].
  intros s. apply limpar_texto_twice; assumption.
Qed.

(** C7 on the Latin-1 runtime, at a text with the two ligatures and the
    line separator. *)
Lemma C7_witness :
  let s := u "oﬁcina ﬂor" ++ [8232%N] ++ u "fim" in
  limpar_texto s = u "oficina flor fim"
  /\ limpar_texto (limpar_texto s) = limpar_texto s.
Proof.
  cbv zeta. split; [vm_compute; reflexivity|].
  apply (C7_limpar_texto Latin1.unicode latin1_nfkc_idempotent latin1_nfkc_stable).
Defined.



(** C9: in the v16 validator a text whose upper-case form is longer than 25
    characters and does not contain "SISTEMA DE COOPERATIVAS" is judged as
    if SICOOB were not in the list of in-house names, so it is accepted when
    the other rules accept it; "COOPERATIVA DE CREDITO SICOOB CENTRAL" is
    accepted.  A text with SICOOB that is not longer than 25 characters or
    contains "SISTEMA DE COOPERATIVAS" is rejected, and so is every text with
    one of the other four in-house names. *)
Theorem C9_sicoob :
  (forall (U : UnicodeData) (nome : str) (min_len : nat),
     (25 < length (str_upper nome) ->
      contains (u "SISTEMA DE COOPERATIVAS") (str_upper nome) = false ->
      V16.validar_nome nome min_len
      = V16.validar_nome_com
          [u "FARMAUSA"; u "URBANBOX"; u "PHARMACEUTICAL"; u "LIFE SCIENCE"] nome min_len)
     /\ (contains (u "SICOOB") (str_upper nome) = true ->
         length (str_upper nome) <= 25
         \/ contains (u "SISTEMA DE COOPERATIVAS") (str_upper nome) = true ->
         V16.validar_nome nome min_len = false)
     /\ (forall emp,
           In emp [u "FARMAUSA"; u "URBANBOX"; u "PHARMACEUTICAL"; u "LIFE SCIENCE"] ->
           contains emp (str_upper nome) = true ->
           V16.validar_nome nome min_len = false))
  /\ V16.empresas_sistema
     = [u "FARMAUSA"; u "URBANBOX"; u "PHARMACEUTICAL"; u "LIFE SCIENCE"; u "SICOOB"]
  /\ V16.validar_nome (u "COOPERATIVA DE CREDITO SICOOB CENTRAL") 5 = true
  /\ V16.validar_nome (u "BANCO SICOOB") 5 = false
  /\ V16.validar_nome (u "SICOOB SISTEMA DE COOPERATIVAS DE CREDITO") 5 = false.
Proof.
  split; [|split; [reflexivity|repeat split; vm_compute; reflexivity]].
  intros U nome min_len. split; [|split].
  - intros Hlen Hsis. unfold V16.validar_nome, V16.validar_nome_com. cbv zeta.
    rewrite (v16_rejeita_empresa_cooperativa _ Hlen Hsis). reflexivity.
  - intros Hc Hx. apply v16_rejects_in_house with (emp := u "SICOOB").
    + unfold V16.empresas_sistema. simpl. tauto.
    + exact Hc.
    + unfold cooperativa. destruct Hx as [Hx|Hx].
      * apply Nat.ltb_ge in Hx. rewrite Hx. now rewrite andb_false_r.
      * rewrite Hx. now rewrite andb_false_r.
  - intros emp He Hc. apply v16_rejects_in_house with (emp := emp).
    + unfold V16.empresas_sistema. simpl in He. simpl. tauto.
    + exact Hc.
    + unfold cooperativa.
      assert (Hne : str_eqb emp (u "SICOOB") = false).
      { simpl in He. destruct He as [<-|[<-|[<-|[<-|[]]]]]; vm_compute; reflexivity. }
      rewrite Hne. reflexivity.
Qed.

(** C9 at concrete texts on the Latin-1 runtime. *)
Lemma C9_witness :
  V16.validar_nome (u "Cooperativa de Credito Sicoob Central") 5
  = V16.validar_nome_com
      [u "FARMAUSA"; u "URBANBOX"; u "PHARMACEUTICAL"; u "LIFE SCIENCE"]
      (u "Cooperativa de Credito Sicoob Central") 5
  /\ V16.validar_nome (u "Banco Sicoob S.A.") 5 = false
  /\ V16.validar_nome (u "Urbanbox Self Storage") 5 = false.
Proof.
  destruct C9_sicoob as [Hall _].
  destruct (Hall Latin1.unicode (u "Cooperativa de Credito Sicoob Central") 5) as (Hcoop & _).
  destruct (Hall Latin1.unicode (u "Banco Sicoob S.A.") 5) as (_ & Hbank & _).
  destruct (Hall Latin1.unicode (u "Urbanbox Self Storage") 5) as (_ & _ & Hother).
  split; [|split].
  - apply Hcoop; [vm_compute; lia | vm_compute; reflexivity].
  - apply Hbank; [vm_compute; reflexivity | left; vm_compute; lia].
  - apply (Hother (u "URBANBOX")); [vm_compute; tauto | vm_compute; reflexivity].
Defined.

(** C10: in both scripts the sanitized beneficiary is never empty and never
    longer than 60 characters; the file name that [montar_nome] returns is
    the optional prefix, the sanitized beneficiary, " - ", the optional
    snippet, the amount and ".pdf", joined without any truncation, so that a
    beneficiary of 60 letters with the amount "8.000,00" gives a file name of
    75 characters. *)
Theorem C10_length :
  (forall (U : UnicodeData) (name : str),
     1 <= length (V16.sanitize_filename name) <= MAX_NAME_LEN
     /\ 1 <= length (Sanitized.sanitize_filename name) <= MAX_NAME_LEN)
  /\ (forall (U : UnicodeData) (benef valor : str) (contador : nat) (snippet : str),
        V16.montar_nome benef valor contador snippet
        = prefixo contador ++ base_de (V16.sanitize_filename benef) valor snippet ++ u ".pdf"
        /\ Sanitized.montar_nome benef valor contador snippet
           = prefixo contador ++ base_de (Sanitized.sanitize_filename benef) valor snippet
             ++ u ".pdf"
        /\ length (V16.sanitize_filename benef) + 7
           <= length (V16.montar_nome benef valor contador snippet)
        /\ length (Sanitized.sanitize_filename benef) + 7
           <= length (Sanitized.montar_nome benef valor contador snippet))
  /\ MAX_NAME_LEN = 60
  /\ length (V16.montar_nome (repeat (ch "A") 60) (u "8.000,00") 1 []) = 75
  /\ length (Sanitized.montar_nome (repeat (ch "A") 60) (u "8.000,00") 1 []) = 75
  /\ length (V16.sanitize_filename (repeat (ch "A") 70)) = 60.
Proof.
  split; [|split; [|repeat split; vm_compute; reflexivity]].
  - intros U name. split.
    + apply v16_sanitize_filename_length.
    + apply sanitized_sanitize_filename_length.
  - intros U benef valor contador snippet.
    assert (Hlen : forall b : str,
              length b + 7 <= length (prefixo contador ++ base_de b valor snippet ++ u ".pdf")).
    { intros b. rewrite !List.length_app. unfold base_de. cbv zeta.
      destruct snippet; rewrite !List.length_app;
        change (length (u " - ")) with 3; change (length (u ".pdf")) with 4; lia. }
    split; [apply v16_montar_nome_shape|].
    split; [apply sanitized_montar_nome_shape|]. split.
    + rewrite v16_montar_nome_shape. apply Hlen.
    + rewrite sanitized_montar_nome_shape. apply Hlen.
Qed.

(** * Further properties

    What else the code shows: the characters of the names,
    the barcodes and the amounts, the validation of the beneficiaries, the
    order of the detectors, the payer, the parts without text and the
    destinations of the copies. *)

(** ** Substitution of single characters *)

Lemma firstn_length_app {A} (l1 l2 : list A) : firstn (length l1) (l1 ++ l2) = l1.
Proof. induction l1 as [|x l1 IH]; simpl; [reflexivity | now rewrite IH]. Qed.

Lemma skipn_length_app {A} (l1 l2 : list A) : skipn (length l1) (l1 ++ l2) = l2.
Proof. induction l1 as [|x l1 IH]; simpl; [reflexivity | exact IH]. Qed.

Lemma forward_rest (n : nat) : forall prev rest, snd (forward n prev rest) = skipn n rest.
Proof.
  induction n as [|n IH]; intros prev rest; [reflexivity|].
  destruct rest as [|c rest]; [reflexivity|]. simpl. apply IH.
Qed.

Section ClassSub.
Context {U : UnicodeData}.
Variables (fl : flags) (neg : bool) (items : list citem).

Let q (c : cp) : bool := xorb neg (in_set fl items c).

(** The search for one character of a set finds the first one. *)
Lemma search_from_class (rest : str) :
  forall prev pos,
    match search_from fl (Cls neg items) prev rest pos with
    | Some m =>
      exists l1 c l2,
        rest = l1 ++ c :: l2 /\ forallb (fun x => negb (q x)) l1 = true /\ q c = true
        /\ m = {| mt_start := pos + length l1; mt_end := S (pos + length l1); mt_caps := [] |}
    | None => forallb (fun x => negb (q x)) rest = true
    end.
Proof.
  induction rest as [|c rest IH]; intros prev pos; [reflexivity|].
  simpl. unfold match_here. simpl. unfold take. simpl. fold (q c).
  destruct (q c) eqn:Eq; simpl.
  - exists [], c, rest. repeat split; [exact Eq|]. unfold to_match. simpl.
    now rewrite Nat.add_0_r.
  - specialize (IH (Some c) (S pos)).
    destruct (search_from fl (Cls neg items) (Some c) rest (S pos)) as [m|]; [|exact IH].
    destruct IH as (l1 & d & l2 & Hr & Hl1 & Hd & Hm).
    exists (c :: l1), d, l2. repeat split.
    + now rewrite Hr.
    + simpl. now rewrite Eq.
    + exact Hd.
    + rewrite Hm. simpl. f_equal; lia.
Qed.

Lemma flat_map_none (repl : str) (l : str) :
  forallb (fun x => negb (q x)) l = true ->
  flat_map (fun c => if q c then repl else [c]) l = l.
Proof.
  induction l as [|c l IH]; simpl; [reflexivity|].
  intros H. apply andb_true_iff in H. destruct H as [Hc Hl].
  apply negb_true_iff in Hc. rewrite Hc. simpl. now rewrite IH.
Qed.

(** [re.sub] with a set of characters replaces each of its characters. *)
Lemma sub_from_class (repl : str) (fuel : nat) :
  forall rest prev pos, length rest < fuel ->
    sub_from fuel fl (Cls neg items) repl prev rest pos
    = flat_map (fun c => if q c then repl else [c]) rest.
Proof.
  induction fuel as [|fuel IH]; intros rest prev pos Hlen; [lia|].
  cbn [sub_from]. pose proof (search_from_class rest prev pos) as Hs.
  destruct (search_from fl (Cls neg items) prev rest pos) as [m|].
  - destruct Hs as (l1 & c & l2 & Hr & Hl1 & Hc & Hm). subst m. cbn [mt_start mt_end].
    replace (S (pos + length l1) =? pos + length l1) with false
      by (symmetry; apply Nat.eqb_neq; lia).
    replace (pos + length l1 - pos) with (length l1) by lia.
    replace (S (pos + length l1) - pos) with (S (length l1)) by lia.
    pose proof (forward_rest (S (length l1)) prev rest) as Hf.
    destruct (forward (S (length l1)) prev rest) as [prev' rest'] eqn:Ef.
    simpl in Hf. subst rest'.
    rewrite Hr, firstn_length_app.
    replace (skipn (S (length l1)) (l1 ++ c :: l2)) with l2.
    2:{ change (c :: l2) with ([c] ++ l2). rewrite List.app_assoc.
        assert (Hl : S (length l1) = length (l1 ++ [c])).
        { rewrite List.length_app. simpl. lia. }
        rewrite Hl. now rewrite skipn_length_app. }
    rewrite IH.
    2:{ rewrite Hr, List.length_app in Hlen. simpl in Hlen. lia. }
    rewrite flat_map_app. cbn [flat_map]. rewrite Hc.
    now rewrite (flat_map_none repl l1 Hl1).
  - now rewrite (flat_map_none repl rest Hs).
Qed.

Lemma re_sub_class (repl text : str) :
  re_sub fl (Cls neg items) repl text = flat_map (fun c => if q c then repl else [c]) text.
Proof. unfold re_sub. apply sub_from_class. lia. Qed.

(** Deleting the characters of a set keeps the others, in order. *)
Lemma re_sub_class_delete (text : str) :
  re_sub fl (Cls neg items) [] text = List.filter (fun c => negb (q c)) text.
Proof.
  rewrite re_sub_class. induction text as [|c text IH]; simpl; [reflexivity|].
  destruct (q c); simpl; now rewrite IH.
Qed.

End ClassSub.

(** ** Splitting and joining *)

Lemma split_by_aux_pieces (p : cp -> bool) (s : str) :
  forall acc piece,
    List.Forall (fun c => p c = false) acc ->
    In piece (split_by_aux p acc s) ->
    piece <> [] /\ List.Forall (fun c => p c = false /\ (In c acc \/ In c s)) piece.
Proof.
  induction s as [|c s IH]; intros acc piece Hacc Hin; simpl in Hin.
  - destruct acc as [|a acc]; [destruct Hin|]. destruct Hin as [<-|[]]. split.
    + intros H. apply (f_equal (@length _)) in H. rewrite List.length_rev in H. discriminate.
    + apply List.Forall_forall. intros x Hx. apply List.in_rev in Hx.
      rewrite List.Forall_forall in Hacc. split; [now apply Hacc | now left].
  - destruct (p c) eqn:Ec.
    + assert (Hrest : In piece (split_by_aux p [] s) ->
                      piece <> [] /\ List.Forall (fun x => p x = false /\ (In x acc \/ In x (c :: s))) piece).
      { intros H. destruct (IH [] piece (List.Forall_nil _) H) as [Hne Hall]. split; [exact Hne|].
        apply List.Forall_forall. intros x Hx. rewrite List.Forall_forall in Hall.
        destruct (Hall x Hx) as [Hp [[]|Hs]]. split; [exact Hp|]. right. now right. }
      destruct acc as [|a acc]; [now apply Hrest|].
      destruct Hin as [<-|Hin]; [|now apply Hrest]. split.
      * intros H. apply (f_equal (@length _)) in H. rewrite List.length_rev in H. discriminate.
      * apply List.Forall_forall. intros x Hx. apply List.in_rev in Hx.
        rewrite List.Forall_forall in Hacc. split; [now apply Hacc | now left].
    + assert (Hacc' : List.Forall (fun x => p x = false) (c :: acc)) by (constructor; assumption).
      destruct (IH (c :: acc) piece Hacc' Hin) as [Hne Hall]. split; [exact Hne|].
      apply List.Forall_forall. intros x Hx. rewrite List.Forall_forall in Hall.
      destruct (Hall x Hx) as [Hp [[<-|Ha]|Hs]].
      * split; [exact Hp|]. right. now left.
      * split; [exact Hp|]. now left.
      * split; [exact Hp|]. right. now right.
Qed.

Lemma join_In (sep : str) (parts : list str) (c : cp) :
  In c (join sep parts) -> In c sep \/ exists p, In p parts /\ In c p.
Proof.
  induction parts as [|p parts IH]; simpl; [intros []|].
  destruct parts as [|p' parts].
  - intros Hc. right. exists p. split; [now left | exact Hc].
  - intros Hc. apply in_app_or in Hc. destruct Hc as [Hc|Hc].
    + right. exists p. split; [now left | exact Hc].
    + apply in_app_or in Hc. destruct Hc as [Hc|Hc]; [now left|].
      destruct (IH Hc) as [Hs|(p0 & Hp0 & Hc0)]; [now left|].
      right. exists p0. split; [now right | exact Hc0].
Qed.

(** ** The characters of a sanitized name *)

Lemma re_permitidos : re_compile "[^0-9A-Za-z_\-\s\(\)\[\]]" = Cls true permitidos.
Proof. reflexivity. Qed.

Section SafeNames.
Context {U : UnicodeData}.

Lemma in_items_permitidos (c : cp) : in_items permitidos c = safe_char c || is_space c.
Proof.
  unfold in_items, permitidos, safe_char, ascii_letter, Parse.is_ascii_digit.
  change (u "_-()[]") with [95; 45; 40; 41; 91; 93]%N.
  cbn [existsb item_matches]. btauto.
Qed.

(** After the second substitution only safe characters and whitespace are left. *)
Lemma second_pass_chars (name : str) (c : cp) :
  In c (re_sub NOFLAGS (re_compile "[^0-9A-Za-z_\-\s\(\)\[\]]") [] name) ->
  In c name /\ (safe_char c || is_space c) = true.
Proof.
  rewrite re_permitidos, re_sub_class_delete. intros Hin.
  apply List.filter_In in Hin. destruct Hin as [Hin Hc]. split; [exact Hin|].
  unfold in_set in Hc. cbn [icase NOFLAGS] in Hc.
  rewrite <- in_items_permitidos. destruct (in_items permitidos c); [reflexivity | discriminate].
Qed.

(** The last three steps of [sanitize_filename]: joining the words with
    underscores, cutting at [MAX_NAME_LEN] and the default name. *)
Lemma last_steps_safe (name : str) :
  (forall c, In c name -> (safe_char c || is_space c) = true) ->
  let name := join (u "_") (split name) in
  let name := if MAX_NAME_LEN <? length name then firstn MAX_NAME_LEN name else name in
  forallb safe_char (match name with [] => FORNECEDOR_DESCONHECIDO | _ => name end) = true.
Proof.
  intros Hname. cbv zeta.
  assert (Hjoin : forall c, In c (join (u "_") (split name)) -> safe_char c = true).
  { intros c Hc. apply join_In in Hc. destruct Hc as [Hc|(p & Hp & Hc)].
    - destruct Hc as [<-|[]]. reflexivity.
    - unfold split, split_by in Hp.
      destruct (split_by_aux_pieces is_space name [] p (List.Forall_nil _) Hp) as [_ Hall].
      rewrite List.Forall_forall in Hall. destruct (Hall c Hc) as [Hsp [[]|Hin]].
      specialize (Hname c Hin). rewrite Hsp, orb_false_r in Hname. exact Hname. }
  set (j := join (u "_") (split name)) in *.
  assert (Hcut : forall c, In c (if MAX_NAME_LEN <? length j then firstn MAX_NAME_LEN j else j) ->
                           safe_char c = true).
  { intros c Hc. apply Hjoin. destruct (MAX_NAME_LEN <? length j); [|exact Hc].
    rewrite <- (List.firstn_skipn MAX_NAME_LEN j). apply in_or_app. now left. }
  destruct (if MAX_NAME_LEN <? length j then firstn MAX_NAME_LEN j else j) as [|c0 r0].
  - reflexivity.
  - apply forallb_forall. exact Hcut.
Qed.

Lemma sanitized_sanitize_filename_safe (name : str) :
  forallb safe_char (Sanitized.sanitize_filename name) = true.
Proof.
  unfold Sanitized.sanitize_filename. cbv zeta. apply last_steps_safe.
  intros c Hc. apply second_pass_chars in Hc. apply Hc.
Qed.

Lemma v16_sanitize_filename_safe (name : str) :
  forallb safe_char (V16.sanitize_filename name) = true.
Proof.
  unfold V16.sanitize_filename. cbv zeta. apply last_steps_safe.
  intros c Hc. apply second_pass_chars in Hc. apply Hc.
Qed.

Lemma re_proibidos_sanitized :
  re_compile_str (u "[\\/\:*?" ++ [34%N] ++ u "<>|]") = Cls false proibidos_sanitized.
Proof. reflexivity. Qed.

Lemma re_proibidos_v16 :
  re_compile_str (u "[\\/\\:\*\?" ++ [34%N] ++ u "<>\|]") = Cls false proibidos_v16.
Proof. reflexivity. Qed.

Lemma in_items_proibidos (c : cp) :
  in_items proibidos_v16 c = in_items proibidos_sanitized c.
Proof.
  unfold in_items, proibidos_v16, proibidos_sanitized. cbn [existsb item_matches]. btauto.
Qed.

(** The two scripts write the first set differently and delete the same
    characters. *)
Lemma sanitize_filename_same (name : str) :
  V16.sanitize_filename name = Sanitized.sanitize_filename name.
Proof.
  unfold V16.sanitize_filename, Sanitized.sanitize_filename. cbv zeta.
  rewrite re_proibidos_v16, re_proibidos_sanitized, !re_sub_class_delete.
  unfold in_set. cbn [icase NOFLAGS].
  rewrite (List.filter_ext _ _ (fun c => f_equal (fun b => negb (xorb false b)) (in_items_proibidos c))).
  reflexivity.
Qed.

End SafeNames.

Lemma drop_while_none (p : cp -> bool) (s : str) :
  (forall c, In c s -> p c = false) -> drop_while p s = s.
Proof.
  destruct s as [|c s]; [reflexivity|]. intros H. simpl.
  now rewrite (H c (or_introl eq_refl)).
Qed.

Lemma strip_by_none (p : cp -> bool) (s : str) :
  (forall c, In c s -> p c = false) -> strip_by p s = s.
Proof.
  intros H. unfold strip_by. rewrite (drop_while_none p s H).
  rewrite drop_while_none; [apply List.rev_involutive|].
  intros c Hc. apply H. now apply List.in_rev.
Qed.

Lemma filter_all {A} (f : A -> bool) (l : list A) :
  (forall x, In x l -> f x = true) -> List.filter f l = l.
Proof.
  induction l as [|x l IH]; intros H; simpl; [reflexivity|].
  rewrite (H x (or_introl eq_refl)). f_equal. apply IH. intros y Hy. apply H. now right.
Qed.

Lemma split_by_aux_word (p : cp -> bool) (s : str) :
  forall acc, (forall c, In c s -> p c = false) ->
    split_by_aux p acc s = match rev acc ++ s with [] => [] | w => [w] end.
Proof.
  induction s as [|c s IH]; intros acc H; simpl.
  - rewrite List.app_nil_r. destruct acc as [|a acc]; [reflexivity|].
    destruct (rev (a :: acc)) as [|x r] eqn:E; [|reflexivity].
    apply (f_equal (@length _)) in E. rewrite List.length_rev in E. discriminate.
  - rewrite (H c (or_introl eq_refl)). rewrite IH by (intros x Hx; apply H; now right).
    simpl. now rewrite <- List.app_assoc.
Qed.

(** A safe character is below the letter z. *)
Lemma safe_char_bound (c : cp) : safe_char c = true -> (c < 123)%N.
Proof.
  unfold safe_char, ascii_letter, Parse.is_ascii_digit.
  change (u "_-()[]") with [95; 45; 40; 41; 91; 93]%N. cbn [existsb].
  rewrite !orb_true_iff, !andb_true_iff, !N.leb_le, !N.eqb_eq. lia.
Qed.

(** A fact of the safe characters that holds of each code point below 123
    holds of all of them. *)
Lemma safe_char_all (f : cp -> bool) :
  forallb (fun n => implb (safe_char (N.of_nat n)) (f (N.of_nat n))) (seq 0 123) = true ->
  forall c, safe_char c = true -> f c = true.
Proof.
  intros Hall c Hc. rewrite forallb_forall in Hall.
  pose proof (safe_char_bound c Hc) as Hb.
  specialize (Hall (N.to_nat c)). rewrite N2Nat.id, Hc in Hall. apply Hall.
  apply in_seq. lia.
Qed.

Section Idempotent.
Context {U : UnicodeData}.
Hypothesis Hplain : safe_plain.

Lemma safe_not_proibido (c : cp) :
  safe_char c = true -> in_items proibidos_sanitized c = false.
Proof.
  intros Hc. unfold in_items, proibidos_sanitized. cbn [existsb item_matches].
  repeat match goal with
         | |- context [(c =? ?n)%N] =>
           destruct (N.eqb_spec c n) as [->|_]; [vm_compute in Hc; discriminate|]
         end.
  reflexivity.
Qed.

(** A non-empty text of at most [MAX_NAME_LEN] safe characters is left as
    it is. *)
Lemma sanitize_filename_fixed (y : str) :
  forallb safe_char y = true -> 1 <= length y <= MAX_NAME_LEN ->
  Sanitized.sanitize_filename y = y.
Proof.
  intros Hsafe Hlen. destruct Hplain as [Hchar Hnfkd].
  rewrite forallb_forall in Hsafe.
  unfold Sanitized.sanitize_filename. cbv zeta.
  unfold strip. rewrite strip_by_none by (intros c Hc; apply Hchar, Hsafe, Hc).
  rewrite Hnfkd by (apply forallb_forall; exact Hsafe).
  rewrite filter_all by (intros c Hc; apply negb_true_iff, Hchar, Hsafe, Hc).
  rewrite re_proibidos_sanitized, re_permitidos, !re_sub_class_delete.
  unfold in_set. cbn [icase NOFLAGS].
  rewrite (filter_all (fun c => negb (xorb false (in_items proibidos_sanitized c))) y).
  2:{ intros c Hc. rewrite (safe_not_proibido c (Hsafe c Hc)). reflexivity. }
  rewrite filter_all.
  2:{ intros c Hc. rewrite in_items_permitidos, (Hsafe c Hc). reflexivity. }
  unfold split, split_by. rewrite split_by_aux_word by (intros c Hc; apply Hchar, Hsafe, Hc).
  cbn [rev app].
  destruct y as [|c y]; [simpl in Hlen; lia|]. cbn [join].
  destruct (MAX_NAME_LEN <? length (c :: y)) eqn:E; [|reflexivity].
  apply Nat.ltb_lt in E. lia.
Qed.

Lemma sanitize_filename_twice (name : str) :
  Sanitized.sanitize_filename (Sanitized.sanitize_filename name)
  = Sanitized.sanitize_filename name.
Proof.
  apply sanitize_filename_fixed.
  - apply sanitized_sanitize_filename_safe.
  - apply sanitized_sanitize_filename_length.
Qed.

End Idempotent.

Lemma latin1_safe_plain : @safe_plain Latin1.unicode.
Proof.
  split.
  - intros c Hc. split.
    + apply negb_true_iff. revert c Hc.
      apply (safe_char_all (fun c => negb (Latin1.space c))). vm_compute. reflexivity.
    + apply negb_true_iff. revert c Hc.
      apply (safe_char_all (fun c => negb (Latin1.mark c))). vm_compute. reflexivity.
  - intros s Hs. simpl. unfold Latin1.NFKD.
    induction s as [|c s IH]; [reflexivity|].
    simpl in Hs. apply andb_true_iff in Hs. destruct Hs as [Hc Hs].
    cbn [flat_map]. rewrite (IH Hs).
    assert (Hd : bool_decide (Latin1.decomposition c = [c]) = true).
    { revert c Hc. apply (safe_char_all (fun c => bool_decide (Latin1.decomposition c = [c]))).
      vm_compute. reflexivity. }
    apply bool_decide_eq_true in Hd. now rewrite Hd.
Qed.

(** ** The texts that the groups capture *)
Section Captures.
Context {U : UnicodeData}.

Lemma take_step p k s res :
  take p k s = Some res ->
  exists c rest, m_rest s = c :: rest /\ p c = true /\ k (step s c rest) = Some res.
Proof.
  unfold take. destruct (m_rest s) as [|c rest]; [discriminate|].
  destruct (p c) eqn:Ep; [|discriminate].
  intros Hk. exists c, rest. repeat split; assumption.
Qed.

(** What a successful repetition hands to its continuation, for a relation
    between the states that the body of the repetition establishes. *)
Lemma rep_loop_rel (R : mstate -> mstate -> Prop) body lo hi greedy k :
  (forall s, R s s) ->
  (forall s1 s2 s3, R s1 s2 -> R s2 s3 -> R s1 s3) ->
  (forall k' s res, body k' s = Some res -> exists s', k' s' = Some res /\ R s s') ->
  forall fuel n s res,
    rep_loop body lo hi greedy k fuel n s = Some res ->
    exists s', k s' = Some res /\ R s s'.
Proof.
  intros Hrefl Htrans Hbody.
  induction fuel as [|fuel IH]; intros n s res Hrun; simpl in Hrun.
  - destruct (lo <=? n); [|discriminate]. exists s. split; [exact Hrun | apply Hrefl].
  - assert (Hstop : forall x, (if lo <=? n then k s else None) = Some x ->
                    exists s', k s' = Some x /\ R s s').
    { destruct (lo <=? n); [|discriminate].
      intros x Hk. exists s. split; [exact Hk | apply Hrefl]. }
    assert (Hmore : forall b : bool,
               (if b then
                  body (fun s' => if (m_pos s <? m_pos s') || (n <? lo)
                                  then rep_loop body lo hi greedy k fuel (S n) s'
                                  else None) s
                else None) = Some res ->
               exists s', k s' = Some res /\ R s s').
    { intros [|] Hb; [|discriminate].
      apply Hbody in Hb. destruct Hb as (s1 & Hs1 & Hk1).
      destruct ((m_pos s <? m_pos s1) || (n <? lo)); [|discriminate].
      apply IH in Hs1. destruct Hs1 as (s2 & Hs2 & Hk2).
      exists s2. split; [exact Hs2 | eapply Htrans; eassumption]. }
    destruct greedy.
    + match type of Hrun with
      | match ?m with _ => _ end = _ => destruct m as [r1|] eqn:Em
      end.
      * inversion Hrun; subst r1. eapply Hmore. exact Em.
      * apply Hstop. exact Hrun.
    + match type of Hrun with
      | match ?m with _ => _ end = _ => destruct m as [r1|] eqn:Em
      end.
      * inversion Hrun; subst r1. apply Hstop. reflexivity.
      * eapply Hmore. exact Hrun.
Qed.

Variables (fl : flags) (P : cp -> Prop) (i : nat).

Lemma moved_refl s : moved P s s.
Proof. exists []. simpl. repeat split; [lia | constructor]. Qed.

Lemma moved_trans s1 s2 s3 : moved P s1 s2 -> moved P s2 s3 -> moved P s1 s3.
Proof.
  intros (c1 & Hr1 & Hp1 & Hc1) (c2 & Hr2 & Hp2 & Hc2). exists (c1 ++ c2).
  repeat split.
  - rewrite Hr1, Hr2. now rewrite List.app_assoc.
  - rewrite Hp2, Hp1, List.length_app. lia.
  - apply List.Forall_app. split; assumption.
Qed.

Lemma moved_step s c rest : m_rest s = c :: rest -> P c -> moved P s (step s c rest).
Proof. intros Hr Hc. exists [c]. simpl. repeat split; [exact Hr | lia | now constructor]. Qed.

(** A successful run reaches its continuation in a state where group [i]
    holds characters that satisfy [P], when it did before and the groups [i]
    of the expression consume only such characters. *)
Lemma run_captures (r : regex) :
  captures_within fl P i r ->
  forall k s res,
    run fl r k s = Some res ->
    exists s', k s' = Some res
               /\ (caps_ok P i s -> caps_ok P i s')
               /\ (within fl P r -> moved P s s').
Proof.
  induction r as [| |c| |neg items|r1 IH1 r2 IH2|r1 IH1 r2 IH2|lo hi greedy r IH
                  |j r IH| | | |r IH];
    intros Hcap k s res Hrun; simpl in Hrun.
  - exists s. repeat split; [exact Hrun | tauto | intros _; apply moved_refl].
  - discriminate.
  - apply take_step in Hrun. destruct Hrun as (x & rest & Hr & Hx & Hk).
    exists (step s x rest). repeat split; [exact Hk | tauto |].
    intros Hw. apply moved_step; [exact Hr | apply Hw, Hx].
  - apply take_step in Hrun. destruct Hrun as (x & rest & Hr & Hx & Hk).
    exists (step s x rest). repeat split; [exact Hk | tauto |].
    intros Hw. apply moved_step; [exact Hr | apply Hw, Hx].
  - apply take_step in Hrun. destruct Hrun as (x & rest & Hr & Hx & Hk).
    exists (step s x rest). repeat split; [exact Hk | tauto |].
    intros Hw. apply moved_step; [exact Hr | apply Hw, Hx].
  - destruct Hcap as [Hcap1 Hcap2].
    apply (IH1 Hcap1) in Hrun. destruct Hrun as (s1 & Hrun2 & Hc1 & Hm1).
    apply (IH2 Hcap2) in Hrun2. destruct Hrun2 as (s2 & Hk & Hc2 & Hm2).
    exists s2. repeat split; [exact Hk | tauto |].
    intros [Hw1 Hw2]. eapply moved_trans; [apply Hm1, Hw1 | apply Hm2, Hw2].
  - destruct Hcap as [Hcap1 Hcap2].
    destruct (run fl r1 k s) as [res1|] eqn:E1.
    + inversion Hrun; subst res1.
      apply (IH1 Hcap1) in E1. destruct E1 as (s' & Hk & Hc & Hm).
      exists s'. repeat split; [exact Hk | exact Hc | intros [Hw _]; apply Hm, Hw].
    + apply (IH2 Hcap2) in Hrun. destruct Hrun as (s' & Hk & Hc & Hm).
      exists s'. repeat split; [exact Hk | exact Hc | intros [_ Hw]; apply Hm, Hw].
  - simpl in Hcap.
    apply (rep_loop_rel
             (fun s s' => (caps_ok P i s -> caps_ok P i s') /\ (within fl P r -> moved P s s')))
      in Hrun.
    + destruct Hrun as (s' & Hk & Hc & Hm). exists s'. repeat split; assumption.
    + intros s0. split; [tauto | intros _; apply moved_refl].
    + intros s1 s2 s3 [Hc1 Hm1] [Hc2 Hm2]. split; [tauto|].
      intros Hw. eapply moved_trans; [apply Hm1, Hw | apply Hm2, Hw].
    + intros k' s0 res0 Hb. apply (IH Hcap) in Hb. destruct Hb as (s' & Hk & Hc & Hm).
      exists s'. repeat split; assumption.
  - destruct Hcap as [Hji Hcap].
    apply (IH Hcap) in Hrun. destruct Hrun as (s1 & Hk & Hc & Hm).
    exists (set_group j s s1). repeat split; [exact Hk | |].
    + intros Hs g. unfold set_group. cbn [m_caps assoc].
      destruct (i =? j) eqn:Eij.
      * apply Nat.eqb_eq in Eij. intros Hg. inversion Hg; subst g.
        destruct (Hm (Hji (eq_sym Eij))) as (consumed & Hr & Hp & Hall).
        rewrite Hp, Hr. replace (m_pos s + length consumed - m_pos s) with (length consumed) by lia.
        now rewrite firstn_length_app.
      * apply Hc, Hs.
    + intros Hw. destruct (Hm Hw) as (consumed & Hr & Hp & Hall).
      exists consumed. repeat split; assumption.
  - destruct (m_prev s); [discriminate|].
    exists s. repeat split; [exact Hrun | tauto | intros _; apply moved_refl].
  - exists s. repeat split; [| tauto | intros _; apply moved_refl].
    destruct (m_rest s) as [|c [|d rest]]; [exact Hrun | | discriminate].
    destruct (c =? 10)%N; [exact Hrun | discriminate].
  - destruct (xorb (word_before s) (word_after s)); [|discriminate].
    exists s. repeat split; [exact Hrun | tauto | intros _; apply moved_refl].
  - destruct (run fl r Some s); [discriminate|].
    exists s. repeat split; [exact Hrun | tauto | intros _; apply moved_refl].
Qed.

Lemma match_here_captures r prev rest pos m g :
  captures_within fl P i r ->
  match_here fl r prev rest pos = Some m -> group m i = Some g -> List.Forall P g.
Proof.
  intros Hcap Hm Hg. unfold match_here in Hm.
  destruct (run fl r Some _) as [res|] eqn:Erun; [|discriminate].
  simpl in Hm. inversion Hm; subst m.
  apply (run_captures r Hcap) in Erun. destruct Erun as (s' & Hs' & Hc & _).
  inversion Hs'; subst s'. apply Hc; [|exact Hg].
  intros g0 Hg0. discriminate.
Qed.

Lemma search_from_captures r rest :
  captures_within fl P i r ->
  forall prev pos m g,
    search_from fl r prev rest pos = Some m -> group m i = Some g -> List.Forall P g.
Proof.
  intros Hcap. induction rest as [|c rest IH]; intros prev pos m g Hs Hg; simpl in Hs.
  - destruct (match_here fl r prev [] pos) as [m'|] eqn:E; [|discriminate].
    inversion Hs; subst m'. eapply match_here_captures; eassumption.
  - destruct (match_here fl r prev (c :: rest) pos) as [m'|] eqn:E.
    + inversion Hs; subst m'. eapply match_here_captures; eassumption.
    + eapply IH; eassumption.
Qed.

(** The text of group [i] of the match that [re.search] returns. *)
Lemma re_search_captures r text m g :
  captures_within fl P i r ->
  re_search fl r text = Some m -> group m i = Some g -> List.Forall P g.
Proof. intros Hcap Hs Hg. eapply search_from_captures; eassumption. Qed.

Lemma finditer_from_captures r :
  captures_within fl P i r ->
  forall fuel prev rest pos m g,
    In m (finditer_from fuel fl r prev rest pos) -> group m i = Some g -> List.Forall P g.
Proof.
  intros Hcap. induction fuel as [|fuel IH]; intros prev rest pos m g Hin Hg; simpl in Hin.
  - contradiction.
  - destruct (search_from fl r prev rest pos) as [m0|] eqn:E; [|contradiction].
    destruct (forward _ prev rest) as [prev' rest'].
    destruct Hin as [Heq|Hin].
    + subst m0. eapply search_from_captures; eassumption.
    + destruct (length rest <? _); [contradiction|].
      eapply IH; eassumption.
Qed.

(** The text of group [i] of the matches that [re.finditer] returns. *)
Lemma re_finditer_captures r text m g :
  captures_within fl P i r ->
  In m (re_finditer fl r text) -> group m i = Some g -> List.Forall P g.
Proof. intros Hcap Hin Hg. eapply finditer_from_captures; eassumption. Qed.

End Captures.

(** ** The digits of a bar code *)
Section Counted.
Context {U : UnicodeData}.

(** A repetition of single characters consumes between [lo] and [hi] of them. *)
Lemma rep_take_count (p : cp -> bool) lo hi greedy k :
  forall fuel n s res,
    (forall h, hi = Some h -> n <= h) ->
    rep_loop (take p) lo hi greedy k fuel n s = Some res ->
    exists s' consumed,
      k s' = Some res /\ m_caps s' = m_caps s
      /\ m_rest s = consumed ++ m_rest s' /\ m_pos s' = m_pos s + length consumed
      /\ lo <= n + length consumed
      /\ (forall h, hi = Some h -> n + length consumed <= h).
Proof.
  induction fuel as [|fuel IH]; intros n s res Hn Hrun; simpl in Hrun.
  - destruct (lo <=? n) eqn:El; [|discriminate]. apply Nat.leb_le in El.
    exists s, []. simpl. repeat split; [exact Hrun | lia | lia |].
    intros h Hh. specialize (Hn h Hh). lia.
  - assert (Hstop : forall x, (if lo <=? n then k s else None) = Some x ->
              exists s' consumed,
                k s' = Some x /\ m_caps s' = m_caps s
                /\ m_rest s = consumed ++ m_rest s' /\ m_pos s' = m_pos s + length consumed
                /\ lo <= n + length consumed
                /\ (forall h, hi = Some h -> n + length consumed <= h)).
    { destruct (lo <=? n) eqn:El; [|discriminate]. apply Nat.leb_le in El.
      intros x Hk. exists s, []. simpl. repeat split; [exact Hk | lia | lia |].
      intros h Hh. specialize (Hn h Hh). lia. }
    assert (Hmore : (if match hi with Some h => n <? h | None => true end then
                       take p (fun s' => if (m_pos s <? m_pos s') || (n <? lo)
                                         then rep_loop (take p) lo hi greedy k fuel (S n) s'
                                         else None) s
                     else None) = Some res ->
              exists s' consumed,
                k s' = Some res /\ m_caps s' = m_caps s
                /\ m_rest s = consumed ++ m_rest s' /\ m_pos s' = m_pos s + length consumed
                /\ lo <= n + length consumed
                /\ (forall h, hi = Some h -> n + length consumed <= h)).
    { destruct (match hi with Some h => n <? h | None => true end) eqn:Ehi; [|discriminate].
      intros Hb. apply take_step in Hb. destruct Hb as (c & rest & Hr & _ & Hk).
      destruct ((m_pos s <? m_pos (step s c rest)) || (n <? lo)); [|discriminate].
      apply IH in Hk.
      2:{ intros h Hh. subst hi. apply Nat.ltb_lt in Ehi. lia. }
      destruct Hk as (s' & consumed & Hk & Hcaps & Hrest & Hpos & Hlo & Hhi).
      exists s', (c :: consumed). simpl in *. repeat split.
      - exact Hk.
      - exact Hcaps.
      - now rewrite Hr, Hrest.
      - lia.
      - lia.
      - intros h Hh. specialize (Hhi h Hh). lia. }
    destruct greedy.
    + match type of Hrun with
      | match ?m with _ => _ end = _ => destruct m as [r1|] eqn:Em
      end.
      * inversion Hrun; subst r1. apply Hmore. reflexivity.
      * apply Hstop. exact Hrun.
    + match type of Hrun with
      | match ?m with _ => _ end = _ => destruct m as [r1|] eqn:Em
      end.
      * inversion Hrun; subst r1. apply Hstop. reflexivity.
      * apply Hmore. exact Hrun.
Qed.

Variables (fl : flags) (i lo : nat) (hi : option nat) (greedy neg : bool) (items : list citem).

Lemma match_here_counted prev rest pos m :
  match_here fl (Grp i (Rep lo hi greedy (Cls neg items))) prev rest pos = Some m ->
  exists g, group m i = Some g /\ lo <= length g /\ (forall h, hi = Some h -> length g <= h).
Proof.
  unfold match_here. intros Hm.
  destruct (run fl _ Some _) as [res|] eqn:Erun; [|discriminate].
  simpl in Hm. inversion Hm; subst m. cbn [run] in Erun.
  change (run fl (Cls neg items)) with (take (fun c => xorb neg (in_set fl items c))) in Erun.
  apply rep_take_count in Erun; [|intros h _; lia].
  destruct Erun as (s' & consumed & Hk & _ & Hrest & Hpos & Hlo & Hhi).
  inversion Hk; subst res. cbn [m_rest m_pos] in *.
  exists consumed. unfold group, to_match, set_group. cbn [mt_caps m_caps assoc m_pos m_rest].
  rewrite Nat.eqb_refl, Hpos, Hrest.
  replace (pos + length consumed - pos) with (length consumed) by lia.
  rewrite firstn_length_app. repeat split; [lia | exact Hhi].
Qed.

Lemma search_from_counted rest :
  forall prev pos m,
    search_from fl (Grp i (Rep lo hi greedy (Cls neg items))) prev rest pos = Some m ->
    exists g, group m i = Some g /\ lo <= length g /\ (forall h, hi = Some h -> length g <= h).
Proof.
  induction rest as [|c rest IH]; intros prev pos m Hs; simpl in Hs.
  - destruct (match_here fl _ prev [] pos) as [m'|] eqn:E; [|discriminate].
    inversion Hs; subst m'. eapply match_here_counted; eassumption.
  - destruct (match_here fl _ prev (c :: rest) pos) as [m'|] eqn:E.
    + inversion Hs; subst m'. eapply match_here_counted; eassumption.
    + eapply IH. exact Hs.
Qed.

End Counted.

Lemma re_digitos :
  re_compile "([0-9]{20,60})" = Grp 1 (Rep 20 (Some 60) true (Cls false [CRange 48 57])).
Proof. reflexivity. Qed.

Section Barcode.
Context {U : UnicodeData}.

(** [extrair_linha_digitavel] returns the empty text or a run of 20 to 60
    ASCII digits. *)
Lemma extrair_linha_digitavel_digits (texto seq : str) :
  extrair_linha_digitavel texto = Ok seq ->
  seq = [] \/ (20 <= length seq <= 60 /\ forallb Parse.is_ascii_digit seq = true).
Proof.
  unfold extrair_linha_digitavel. destruct texto as [|c0 texto].
  { intros H. inversion H. now left. }
  cbv zeta. rewrite re_digitos.
  destruct (re_search NOFLAGS _ _) as [m|] eqn:Es.
  2:{ intros H. inversion H. now left. }
  pose proof Es as Ec. unfold re_search in Ec.
  apply search_from_counted in Ec. destruct Ec as (g & Hg & Hlo & Hhi).
  unfold group_str. rewrite Hg. intros H. inversion H; subst seq. right.
  split; [split; [exact Hlo | apply Hhi; reflexivity]|].
  apply forallb_forall. apply List.Forall_forall.
  eapply (re_search_captures NOFLAGS (fun x => Parse.is_ascii_digit x = true) 1);
    [|exact Es|exact Hg].
  simpl. split; [|exact I]. intros _ x Hx. unfold in_set in Hx. simpl in Hx.
  now rewrite orb_false_r in Hx.
Qed.

(** The last [BARCODE_TAIL_LEN] characters of a run that is long enough. *)
Lemma tail_of_digits (seq : str) :
  BARCODE_TAIL_LEN <= length seq -> forallb Parse.is_ascii_digit seq = true ->
  length (tail_of seq) = BARCODE_TAIL_LEN /\ forallb Parse.is_ascii_digit (tail_of seq) = true
  /\ exists before, seq = before ++ tail_of seq.
Proof.
  intros Hlen Hd. unfold tail_of. apply Nat.leb_le in Hlen. rewrite Hlen.
  apply Nat.leb_le in Hlen. split; [rewrite List.length_skipn; lia|]. split.
  - apply forallb_forall. intros x Hx. rewrite forallb_forall in Hd. apply Hd.
    rewrite <- (List.firstn_skipn (length seq - BARCODE_TAIL_LEN) seq).
    apply in_or_app. now right.
  - exists (firstn (length seq - BARCODE_TAIL_LEN) seq). now rewrite List.firstn_skipn.
Qed.

Lemma snippet_digits (seq : result str) (sn : str) :
  (forall s, seq = Ok s -> s = [] \/ (20 <= length s <= 60 /\ forallb Parse.is_ascii_digit s = true)) ->
  (let! s := seq in match s with [] => Ok [] | _ => Ok (tail_of s) end) = Ok sn ->
  sn = [] \/ (length sn = BARCODE_TAIL_LEN /\ forallb Parse.is_ascii_digit sn = true).
Proof.
  intros Hseq. destruct seq as [s|e]; [|discriminate]. cbv beta iota delta [bind].
  destruct (Hseq s eq_refl) as [->|[Hlen Hd]].
  - intros H. inversion H. now left.
  - destruct s as [|c s]; [simpl in Hlen; lia|].
    intros H. inversion H; subst sn. right.
    destruct (tail_of_digits (c :: s)) as (Hl & Hdd & _); [unfold BARCODE_TAIL_LEN; lia | exact Hd|].
    split; assumption.
Qed.

Lemma sanitized_snippet_de_digits (texto sn : str) :
  Sanitized.snippet_de texto = Ok sn ->
  sn = [] \/ (length sn = BARCODE_TAIL_LEN /\ forallb Parse.is_ascii_digit sn = true).
Proof.
  unfold Sanitized.snippet_de. destruct (is_some _).
  - apply snippet_digits. intros s. apply extrair_linha_digitavel_digits.
  - intros H. inversion H. now left.
Qed.

Lemma v16_snippet_de_digits (texto sn : str) :
  V16.snippet_de texto = Ok sn ->
  sn = [] \/ (length sn = BARCODE_TAIL_LEN /\ forallb Parse.is_ascii_digit sn = true).
Proof.
  unfold V16.snippet_de. destruct (is_some _).
  - apply snippet_digits. intros s. apply extrair_linha_digitavel_digits.
  - intros H. inversion H. now left.
Qed.

End Barcode.

(** ** The characters of an amount *)

Lemma drop_while_In (p : cp -> bool) (s : str) (c : cp) : In c (drop_while p s) -> In c s.
Proof.
  induction s as [|d s IH]; simpl; [tauto|].
  destruct (p d); [intros H; right; now apply IH | tauto].
Qed.

Lemma strip_by_In (p : cp -> bool) (s : str) (c : cp) : In c (strip_by p s) -> In c s.
Proof.
  unfold strip_by. intros H. apply List.in_rev in H. apply drop_while_In in H.
  apply List.in_rev in H. now apply drop_while_In in H.
Qed.

Section Amounts.
Context {U : UnicodeData} {F : FloatParse}.
Hypothesis Hcase : amounts_caseless.

(** Under [re.IGNORECASE] a set of amount characters matches only amount
    characters. *)
Lemma in_set_amount (items : list citem) (x : cp) :
  (forall v, in_items items v = true -> amount_char v = true) ->
  in_set IGNORECASE items x = true -> amount_char x = true.
Proof.
  intros Hitems Hx. unfold in_set in Hx. cbn [icase IGNORECASE] in Hx.
  apply existsb_exists in Hx. destruct Hx as (v & Hv & Hin).
  apply (Hcase x v Hv). apply Hitems, Hin.
Qed.

Lemma amount_digit v : in_items [CDigit] v = true -> amount_char v = true.
Proof.
  unfold in_items, amount_char. cbn [existsb item_matches]. intros H.
  rewrite orb_false_r in H. now rewrite H.
Qed.

Lemma amount_point v : in_items [CChar 46] v = true -> amount_char v = true.
Proof.
  unfold in_items, amount_char. cbn [existsb item_matches]. intros H.
  rewrite orb_false_r in H. change (ch ".") with 46%N. rewrite H.
  now rewrite orb_true_r.
Qed.

Lemma amount_comma v : in_items [CChar 44] v = true -> amount_char v = true.
Proof.
  unfold in_items, amount_char. cbn [existsb item_matches]. intros H.
  rewrite orb_false_r in H. change (ch ",") with 44%N. rewrite H. apply orb_true_r.
Qed.

Lemma amount_class v :
  in_items [CDigit; CChar 46; CChar 44] v = true -> amount_char v = true.
Proof.
  unfold in_items, amount_char. cbn [existsb item_matches]. intros H.
  rewrite orb_false_r in H. rewrite <- orb_assoc. exact H.
Qed.

(** The display text of a candidate of the loop over the patterns. *)
Lemma valor_do_match_chars prio tp m g r c :
  group m 1 = Some g -> List.Forall (fun x => amount_char x = true) g ->
  valor_do_match prio tp m = Ok r -> In c r ->
  forallb display_char (valor c) = true.
Proof.
  intros Hg Hall. unfold valor_do_match, group_str. rewrite Hg.
  cbv beta iota delta [bind]. cbv zeta.
  destruct (float_of _) as [x|]; [destruct (float_pos x)|];
    intros Hr Hc; inversion Hr; subst r; try destruct Hc as [<-|[]]; try destruct Hc.
  cbn [valor]. apply forallb_forall. intros y Hy.
  apply replace1_In in Hy. destruct Hy as [Hy|[Hy Hne]].
  - destruct Hy as [<-|[]]. unfold display_char. apply orb_true_r.
  - assert (Hyg : In y g).
    { unfold val_de in Hy. destruct (_ && _).
      - apply replace1_In in Hy. destruct Hy as [[]|[Hy _]]. eapply strip_by_In, Hy.
      - eapply strip_by_In, Hy. }
    rewrite List.Forall_forall in Hall. specialize (Hall y Hyg).
    unfold amount_char in Hall. unfold display_char.
    assert (Hp : (y =? ch ".")%N = false) by (apply N.eqb_neq; exact Hne).
    rewrite Hp, orb_false_r in Hall. exact Hall.
Qed.

Lemma valores_dos_padroes_chars patterns texto l c :
  List.Forall (fun p => captures_within IGNORECASE (fun x => amount_char x = true) 1 (fst (fst p)))
              patterns ->
  valores_dos_padroes patterns texto = Ok l -> In c l ->
  forallb display_char (valor c) = true.
Proof.
  unfold valores_dos_padroes. intros Hpat Hl Hc.
  destruct (for_each_In _ _ _ _ Hl Hc) as ([[pattern prio] tp] & ys & Hp & Hys & Hcy).
  destruct (for_each_In _ _ _ _ Hys Hcy) as (m & zs & Hm & Hzs & Hcz).
  rewrite List.Forall_forall in Hpat. specialize (Hpat _ Hp). cbn [fst] in Hpat.
  assert (Hg : exists g, group m 1 = Some g).
  { unfold valor_do_match, group_str in Hzs. destruct (group m 1) as [g|]; [eauto | discriminate]. }
  destruct Hg as [g Hg].
  eapply valor_do_match_chars; [exact Hg | | exact Hzs | exact Hcz].
  eapply re_finditer_captures; eassumption.
Qed.

(** [parsed p] puts the expression that a pattern denotes in its place. *)
Ltac parsed :=
  match goal with
  | |- context [re_compile ?p] =>
    let r := eval vm_compute in (re_compile p) in change (re_compile p) with r
  end.

Ltac amount_groups :=
  parsed; cbn [captures_within within];
  repeat match goal with
         | |- _ /\ _ => split
         | |- True => exact I
         | |- _ = _ -> _ => intros _
         | |- forall x, xorb false (in_set IGNORECASE _ x) = true -> _ =>
           let x := fresh "x" in let Hx := fresh "Hx" in
           intros x Hx; cbn [xorb] in Hx; revert Hx; apply in_set_amount;
           first [exact amount_class | exact amount_digit]
         | |- forall x, in_set IGNORECASE [CChar 46] x = true -> _ =>
           intros ?; apply in_set_amount; exact amount_point
         | |- forall x, in_set IGNORECASE [CChar 44] x = true -> _ =>
           intros ?; apply in_set_amount; exact amount_comma
         end.

Lemma sanitized_patterns_amount :
  List.Forall (fun p => captures_within IGNORECASE (fun x => amount_char x = true) 1 (fst (fst p)))
              Sanitized.patterns.
Proof.
  unfold Sanitized.patterns. repeat (constructor; [cbn [fst]; amount_groups|]). constructor.
Qed.

Lemma v16_patterns_amount :
  List.Forall (fun p => captures_within IGNORECASE (fun x => amount_char x = true) 1 (fst (fst p)))
              V16.patterns.
Proof.
  unfold V16.patterns. repeat (constructor; [cbn [fst]; amount_groups|]). constructor.
Qed.

Lemma display_amount (s : str) : forallb display_char s = true -> forallb amount_char s = true.
Proof.
  intros H. apply forallb_forall. intros x Hx. rewrite forallb_forall in H.
  specialize (H x Hx). unfold display_char in H. unfold amount_char.
  apply orb_true_iff in H. destruct H as [->| ->]; [reflexivity | apply orb_true_r].
Qed.

Lemma valor_bradesco_chars pattern tp texto r c :
  captures_within IGNORECASE (fun x => amount_char x = true) 1 pattern ->
  V16.valor_bradesco pattern tp texto = Ok r -> In c r ->
  forallb amount_char (valor c) = true.
Proof.
  intros Hcap. unfold V16.valor_bradesco. destruct (re_search _ _ _) as [m|] eqn:Es.
  - destruct (group_str m 1) as [g|e] eqn:Eg; [|discriminate].
    cbv beta iota delta [bind]. cbv zeta.
    destruct (float_of _) as [x|]; [destruct (float_pos x)|];
      intros Hr Hc; inversion Hr; subst r; try destruct Hc as [<-|[]]; try destruct Hc.
    cbn [valor]. apply forallb_forall. intros y Hy. apply strip_by_In in Hy.
    unfold group_str in Eg. destruct (group m 1) as [g'|] eqn:Eg'; [|discriminate].
    inversion Eg; subst g'.
    pose proof (re_search_captures IGNORECASE _ 1 pattern texto m g Hcap Es Eg') as Hall.
    rewrite List.Forall_forall in Hall. apply Hall, Hy.
  - intros Hr Hc. inversion Hr; subst r. destruct Hc.
Qed.

(** The amount that the sanitized script returns is the default text or a
    text of digits and commas. *)
Lemma sanitized_extrair_valor_chars (texto v : str) :
  Sanitized.extrair_valor texto = Ok v ->
  v = VALOR_NAO_ENCONTRADO \/ forallb display_char v = true.
Proof.
  intros Hv. pose proof (sanitized_extrair_valor_de texto) as Hde.
  destruct texto as [|c0 texto].
  - rewrite Hde in Hv. inversion Hv. now left.
  - destruct Hde as (l & Hl & He). rewrite He in Hv. inversion Hv; subst v.
    destruct (melhor_valor_In l) as [->|(c & Hc & ->)]; [now left|]. right.
    eapply valores_dos_padroes_chars; [apply sanitized_patterns_amount | exact Hl | exact Hc].
Qed.

(** The amount that the v16 script returns is the default text or a text of
    digits, commas and points. *)
Lemma v16_extrair_valor_chars (texto v : str) :
  V16.extrair_valor texto = Ok v ->
  v = VALOR_NAO_ENCONTRADO \/ forallb amount_char v = true.
Proof.
  intros Hv. pose proof (v16_extrair_valor_de texto) as Hde.
  destruct texto as [|c0 texto].
  - rewrite Hde in Hv. inversion Hv. now left.
  - destruct Hde as (l & Hl & He). rewrite He in Hv. inversion Hv; subst v.
    destruct (melhor_valor_In l) as [->|(c & Hc & ->)]; [now left|]. right.
    unfold V16.valores_encontrados in Hl.
    match type of Hl with
    | bind ?x _ = _ => destruct x as [v0|e] eqn:E0; [|discriminate]
    end.
    cbv beta iota delta [bind] in Hl.
    match type of Hl with
    | context [match v0 with [] => ?a | _ :: _ => ?b end] =>
      destruct (match v0 with [] => a | _ :: _ => b end) as [v1|e] eqn:E1; [|discriminate]
    end.
    destruct (valores_dos_padroes V16.patterns (c0 :: texto)) as [vs|e] eqn:E2; [|discriminate].
    inversion Hl; subst l. apply in_app_or in Hc. destruct Hc as [Hc|Hc].
    + destruct v0 as [|x v0].
      * eapply valor_bradesco_chars; [|exact E1|exact Hc]. amount_groups.
      * inversion E1; subst v1. eapply valor_bradesco_chars; [|exact E0|exact Hc].
        amount_groups.
    + apply display_amount.
      eapply valores_dos_padroes_chars; [apply v16_patterns_amount | exact E2 | exact Hc].
Qed.

End Amounts.

(** ** The characters of a file name *)

Lemma string_of_uint_digits (d : Decimal.uint) :
  forallb Parse.is_ascii_digit (bytes_of_string (NilEmpty.string_of_uint d)) = true.
Proof. induction d; simpl; try rewrite IHd; reflexivity. Qed.

Lemma str_of_nat_digits (n : nat) : forallb Parse.is_ascii_digit (str_of_nat n) = true.
Proof. apply string_of_uint_digits. Qed.

Lemma digit_safe (c : cp) : Parse.is_ascii_digit c = true -> safe_char c = true.
Proof. intros H. unfold safe_char. rewrite H. now rewrite orb_true_r. Qed.

Section FileNames.
Context {U : UnicodeData} {F : FloatParse}.

Lemma fixed_nome (s : str) : forallb fixed_char s = true -> forallb nome_char s = true.
Proof.
  intros H. apply forallb_forall. intros c Hc. rewrite forallb_forall in H.
  specialize (H c Hc). unfold fixed_char in H. unfold nome_char.
  apply orb_true_iff in H. destruct H as [-> | ->]; [reflexivity | apply orb_true_r].
Qed.

Lemma safe_nome (s : str) : forallb safe_char s = true -> forallb nome_char s = true.
Proof.
  intros H. apply fixed_nome. apply forallb_forall. intros c Hc. rewrite forallb_forall in H.
  unfold fixed_char. now rewrite (H c Hc).
Qed.

Lemma digits_nome (s : str) :
  forallb Parse.is_ascii_digit s = true -> forallb nome_char s = true.
Proof.
  intros H. apply safe_nome. apply forallb_forall. intros c Hc. rewrite forallb_forall in H.
  apply digit_safe, H, Hc.
Qed.

Lemma amount_nome (s : str) : forallb amount_char s = true -> forallb nome_char s = true.
Proof.
  intros H. apply forallb_forall. intros c Hc. rewrite forallb_forall in H.
  specialize (H c Hc). unfold amount_char in H. unfold nome_char.
  change (u " ,.") with [32; 44; 46]%N. cbn [existsb].
  change (ch ".") with 46%N in H. change (ch ",") with 44%N in H.
  destruct (is_digit c); [now rewrite orb_true_r|].
  destruct (c =? 46)%N; [now rewrite !orb_true_r|].
  destruct (c =? 44)%N; [now rewrite !orb_true_r | discriminate].
Qed.

Lemma prefixo_nome (n : nat) : forallb nome_char (prefixo n) = true.
Proof.
  unfold prefixo. destruct (1 <? n); [|reflexivity].
  rewrite !forallb_app. rewrite (digits_nome _ (str_of_nat_digits n)).
  rewrite (fixed_nome PIX_PREFIX) by reflexivity.
  rewrite (fixed_nome (u " - ")) by reflexivity. reflexivity.
Qed.

(** A name built from a safe beneficiary, an amount and a snippet of digits. *)
Lemma nome_arquivo_chars (benef_safe valor snippet : str) (contador : nat) :
  forallb safe_char benef_safe = true ->
  valor = VALOR_NAO_ENCONTRADO \/ forallb amount_char valor = true ->
  forallb Parse.is_ascii_digit snippet = true ->
  forallb nome_char (prefixo contador ++ base_de benef_safe valor snippet ++ u ".pdf") = true.
Proof.
  intros Hb Hv Hs.
  assert (Hvs : forallb nome_char
                  (match valor with [] => VALOR_NAO_ENCONTRADO | _ => valor end) = true).
  { destruct Hv as [->|Hv]; [apply fixed_nome; reflexivity|].
    destruct valor; [apply fixed_nome; reflexivity | apply amount_nome, Hv]. }
  rewrite !forallb_app, prefixo_nome. rewrite (fixed_nome (u ".pdf")) by reflexivity.
  rewrite andb_true_r. unfold base_de. cbv zeta.
  destruct snippet as [|c snippet].
  - rewrite !forallb_app, (safe_nome _ Hb), Hvs.
    rewrite (fixed_nome (u " - ")) by reflexivity. reflexivity.
  - rewrite !forallb_app, (safe_nome _ Hb), Hvs, (digits_nome _ Hs).
    rewrite (fixed_nome (u " - ")) by reflexivity. reflexivity.
Qed.

Hypothesis Hcase : amounts_caseless.

Lemma sanitized_processar_parte_chars pages contador p contador' :
  Sanitized.processar_parte pages contador = Ok (p, contador') ->
  forallb nome_char (pg_nome_arquivo p) = true.
Proof.
  unfold Sanitized.processar_parte. cbv zeta.
  destruct (Sanitized.extrair_beneficiario _) as [b|e]; [|discriminate].
  cbv beta iota delta [bind].
  destruct (Sanitized.extrair_valor _) as [v|e] eqn:Ev; [|discriminate].
  cbv beta iota delta [bind proxima_ocorrencia].
  destruct (Sanitized.snippet_de _) as [sn|e] eqn:Es; [|discriminate].
  intros Heq. inversion Heq; subst. cbn [pg_nome_arquivo].
  rewrite sanitized_montar_nome_shape. apply nome_arquivo_chars.
  - apply sanitized_sanitize_filename_safe.
  - destruct (sanitized_extrair_valor_chars Hcase _ _ Ev) as [Hv|Hv]; [now left|].
    right. apply display_amount, Hv.
  - destruct (sanitized_snippet_de_digits _ _ Es) as [->|[_ Hd]]; [reflexivity | exact Hd].
Qed.

Lemma v16_processar_parte_chars pages contador p contador' :
  V16.processar_parte pages contador = Ok (p, contador') ->
  forallb nome_char (pg_nome_arquivo p) = true.
Proof.
  unfold V16.processar_parte. cbv zeta.
  destruct (V16.extrair_beneficiario _) as [b0|e]; [|discriminate].
  cbv beta iota delta [bind].
  match goal with
  | |- context [if ?c then V16.tratar_fornecedor_desconhecido ?t else Ok ?x] =>
    destruct (if c then V16.tratar_fornecedor_desconhecido t else Ok x) as [b|e]; [|discriminate]
  end.
  destruct (V16.extrair_valor _) as [v|e] eqn:Ev; [|discriminate].
  cbv beta iota delta [bind proxima_ocorrencia].
  destruct (V16.snippet_de _) as [sn|e] eqn:Es; [|discriminate].
  intros Heq. inversion Heq; subst. cbn [pg_nome_arquivo].
  rewrite v16_montar_nome_shape. apply nome_arquivo_chars.
  - apply v16_sanitize_filename_safe.
  - apply (v16_extrair_valor_chars Hcase _ _ Ev).
  - destruct (v16_snippet_de_digits _ _ Es) as [->|[_ Hd]]; [reflexivity | exact Hd].
Qed.

Lemma sanitized_processar_chars partes :
  forall contador pgs,
    Sanitized.processar partes contador = Ok pgs ->
    List.Forall (fun p => forallb nome_char (pg_nome_arquivo p) = true) pgs.
Proof.
  induction partes as [|pages rest IH]; intros contador pgs Hp; simpl in Hp.
  - inversion Hp. constructor.
  - destruct (Sanitized.processar_parte pages contador) as [[p c']|e] eqn:E1; [|discriminate].
    cbv beta iota delta [bind] in Hp. cbn [fst snd] in Hp.
    destruct (Sanitized.processar rest c') as [rs|e] eqn:E2; [|discriminate].
    inversion Hp; subst pgs. constructor.
    + eapply sanitized_processar_parte_chars, E1.
    + eapply IH, E2.
Qed.

Lemma v16_processar_chars partes :
  forall contador pgs,
    V16.processar partes contador = Ok pgs ->
    List.Forall (fun p => forallb nome_char (pg_nome_arquivo p) = true) pgs.
Proof.
  induction partes as [|pages rest IH]; intros contador pgs Hp; simpl in Hp.
  - inversion Hp. constructor.
  - destruct (V16.processar_parte pages contador) as [[p c']|e] eqn:E1; [|discriminate].
    cbv beta iota delta [bind] in Hp. cbn [fst snd] in Hp.
    destruct (V16.processar rest c') as [rs|e] eqn:E2; [|discriminate].
    inversion Hp; subst pgs. constructor.
    + eapply v16_processar_parte_chars, E1.
    + eapply IH, E2.
Qed.

(** A character that is no digit and none of the characters of a name. *)
Lemma nome_char_absent (c : cp) (s : str) :
  fixed_char c = false -> is_digit c = false -> forallb nome_char s = true -> ~ In c s.
Proof.
  intros Hf Hd Hs Hin. rewrite forallb_forall in Hs. specialize (Hs c Hin).
  unfold nome_char in Hs. unfold fixed_char in Hf.
  apply orb_false_iff in Hf. destruct Hf as [Hf1 Hf2].
  rewrite Hf1, Hd, Hf2 in Hs. discriminate.
Qed.

End FileNames.

(** The Latin-1 runtime gives no case to digits, points and commas. *)
Lemma lower1_small (x : cp) : (Latin1.lower1 x < 58)%N -> Latin1.lower1 x = x.
Proof.
  unfold Latin1.lower1, Latin1.between.
  destruct (_ || _) eqn:E1.
  - rewrite !orb_true_iff, !andb_true_iff, !N.leb_le in E1. lia.
  - repeat match goal with
           | |- context [(x =? ?n)%N] => destruct (N.eqb_spec x n) as [->|_]; [lia|]
           end.
    reflexivity.
Qed.

Lemma upper1_small (x : cp) : (Latin1.upper1 x < 58)%N -> Latin1.upper1 x = x.
Proof.
  unfold Latin1.upper1, Latin1.between.
  destruct (_ || _) eqn:E1.
  - rewrite !orb_true_iff, !andb_true_iff, !N.leb_le in E1. lia.
  - repeat match goal with
           | |- context [(x =? ?n)%N] => destruct (N.eqb_spec x n) as [->|_]; [lia|]
           end.
    reflexivity.
Qed.

Lemma latin1_amount_small (v : cp) : @amount_char Latin1.unicode v = true -> (v < 58)%N.
Proof.
  unfold amount_char. simpl. unfold Latin1.digit, Latin1.between.
  change (ch ".") with 46%N. change (ch ",") with 44%N.
  rewrite !orb_true_iff, !andb_true_iff, !N.leb_le, !N.eqb_eq. lia.
Qed.

Lemma latin1_amounts_caseless : @amounts_caseless Latin1.unicode.
Proof.
  intros x v Hv Ha. pose proof (latin1_amount_small v Ha) as Hs.
  simpl in Hv. unfold Latin1.variants in Hv. cbv zeta in Hv.
  destruct Hv as [<-|[<-|[<-|Hv]]].
  - exact Ha.
  - pose proof (lower1_small x Hs) as El. now rewrite El in Ha.
  - pose proof (upper1_small _ Hs) as Eu. rewrite Eu in Ha, Hs.
    pose proof (lower1_small x Hs) as El. now rewrite El in Ha.
  - exfalso. unfold Latin1.equivalents in Hv.
    repeat match type of Hv with
           | context [if ?b then _ else _] => destruct b
           end;
      simpl in Hv; repeat (destruct Hv as [<-|Hv]; [vm_compute in Hs; discriminate|]);
      destruct Hv.
Qed.

(** ** Every beneficiary was validated *)

Lemma drop_while_twice (p : cp -> bool) (s : str) :
  drop_while p (drop_while p s) = drop_while p s.
Proof.
  induction s as [|c s IH]; [reflexivity|]. simpl.
  destruct (p c) eqn:E; [exact IH|]. simpl. now rewrite E.
Qed.

Lemma drop_while_suffix (p : cp -> bool) (s : str) :
  exists pre, s = pre ++ drop_while p s.
Proof.
  induction s as [|c s [pre IH]]; [now exists []|]. simpl.
  destruct (p c); [|now exists []]. exists (c :: pre). simpl. now rewrite <- IH.
Qed.

Lemma drop_while_head (p : cp -> bool) (s w : str) :
  drop_while p s = s -> (exists post, s = w ++ post) -> drop_while p w = w.
Proof.
  intros Hs [post ->]. destruct w as [|c w]; [reflexivity|].
  simpl in *. destruct (p c); [|reflexivity].
  exfalso. destruct (drop_while_suffix p (w ++ post)) as [pre Hpre].
  rewrite Hs in Hpre. apply (f_equal (@length _)) in Hpre.
  rewrite (List.length_app pre) in Hpre. simpl in Hpre. lia.
Qed.

(** [strip] is idempotent. *)
Lemma strip_by_twice (p : cp -> bool) (s : str) :
  strip_by p (strip_by p s) = strip_by p s.
Proof.
  unfold strip_by. set (t := drop_while p s). set (w := rev (drop_while p (rev t))).
  assert (Hw : drop_while p w = w).
  { apply (drop_while_head p t); [apply drop_while_twice|].
    destruct (drop_while_suffix p (rev t)) as [pre Hpre].
    exists (rev pre). unfold w.
    rewrite <- List.rev_app_distr, <- Hpre. now rewrite List.rev_involutive. }
  rewrite Hw. unfold w. rewrite List.rev_involutive, drop_while_twice. reflexivity.
Qed.

(** [steps] takes a chain of detectors apart: each one returned a list. *)
Ltac steps H :=
  cbv beta iota delta [bind] in H;
  repeat match type of H with
         | match ?x with Ok _ => _ | Raise _ => _ end = Ok _ =>
           let r := fresh "r" in let E := fresh "E" in
           destruct x as [r|?] eqn:E; [|discriminate H];
           cbv beta iota in H
         end.

Section Validated.
Context {U : UnicodeData} {F : FloatParse}.

Lemma sanitized_validar_nome_mono nome n m :
  Sanitized.validar_nome nome n = true -> m <= n -> Sanitized.validar_nome nome m = true.
Proof.
  unfold Sanitized.validar_nome. intros H Hm.
  destruct (_ || (length nome <? n)) eqn:E1; [discriminate|].
  apply orb_false_iff in E1. destruct E1 as [E1a E1b]. rewrite E1a. cbn [orb].
  apply Nat.ltb_ge in E1b.
  replace (length nome <? m) with false by (symmetry; apply Nat.ltb_ge; lia).
  exact H.
Qed.

Lemma v16_validar_nome_mono nome n m :
  V16.validar_nome nome n = true -> m <= n -> V16.validar_nome nome m = true.
Proof.
  unfold V16.validar_nome, V16.validar_nome_com. intros H Hm.
  destruct (_ || (length nome <? n)) eqn:E1; [discriminate|].
  apply orb_false_iff in E1. destruct E1 as [E1a E1b]. rewrite E1a. cbn [orb].
  apply Nat.ltb_ge in E1b.
  replace (length nome <? m) with false by (symmetry; apply Nat.ltb_ge; lia).
  exact H.
Qed.

(** An accepted name has at least [min_len] characters and none of the
    in-house names. *)
Lemma sanitized_validar_nome_true nome min_len :
  Sanitized.validar_nome nome min_len = true ->
  min_len <= length nome
  /\ forall emp, In emp Sanitized.empresas_sistema -> contains emp (str_upper nome) = false.
Proof.
  intros H. split.
  - destruct (Nat.le_gt_cases min_len (length nome)) as [Hle|Hgt]; [exact Hle|].
    rewrite (sanitized_rejects_short nome min_len Hgt) in H. discriminate.
  - intros emp He. destruct (contains emp (str_upper nome)) eqn:Ec; [|reflexivity].
    rewrite (sanitized_rejects_in_house nome min_len emp He Ec) in H. discriminate.
Qed.

(** *** The sanitized script *)

Lemma sanitized_detector_upper_valid fl pattern text min_len sc met r :
  5 <= min_len ->
  Sanitized.detector_upper fl pattern text min_len sc met = Ok r ->
  List.Forall (fun c => Sanitized.validar_nome (nome c) 5 = true) r.
Proof.
  intros Hmin. unfold Sanitized.detector_upper.
  destruct (re_search fl pattern text) as [m|]; [|intros H; inversion H; constructor].
  destruct (group_str m 1) as [g|e]; [|discriminate].
  cbv beta iota delta [bind]. cbv zeta.
  destruct (Sanitized.validar_nome _ min_len) eqn:Ev; intros H; inversion H; constructor;
    [|constructor].
  cbn [nome]. eapply sanitized_validar_nome_mono; eassumption.
Qed.

Lemma sanitized_detector_raw_valid fl pattern text min_len sc met r :
  5 <= min_len ->
  Sanitized.detector_raw fl pattern text min_len sc met = Ok r ->
  List.Forall (fun c => Sanitized.validar_nome (nome c) 5 = true) r.
Proof.
  intros Hmin. unfold Sanitized.detector_raw.
  destruct (re_search fl pattern text) as [m|]; [|intros H; inversion H; constructor].
  destruct (group_str m 1) as [g|e]; [|discriminate].
  cbv beta iota delta [bind]. cbv zeta.
  destruct (Sanitized.validar_nome _ min_len) eqn:Ev; intros H; inversion H; constructor;
    [|constructor].
  cbn [nome]. eapply sanitized_validar_nome_mono; eassumption.
Qed.

Lemma sanitized_candidatos_valid texto l :
  Sanitized.candidatos texto = Ok l ->
  List.Forall (fun c => Sanitized.validar_nome (nome c) 5 = true) l.
Proof.
  unfold Sanitized.candidatos. cbv zeta. intros H. steps H.
  injection H as <-.
  repeat (apply List.Forall_app; split);
    first [ eapply sanitized_detector_upper_valid; [|eassumption]; lia
          | eapply sanitized_detector_raw_valid; [|eassumption]; lia ].
Qed.

Lemma sanitized_extrair_beneficiario_valid texto b :
  Sanitized.extrair_beneficiario texto = Ok b ->
  b = FORNECEDOR_DESCONHECIDO \/ Sanitized.validar_nome b 5 = true.
Proof.
  intros Hb. pose proof (sanitized_extrair_beneficiario_de texto) as Hde.
  destruct texto as [|c0 texto].
  - rewrite Hde in Hb. inversion Hb. now left.
  - destruct Hde as (l & Hl & He). rewrite He in Hb. inversion Hb; subst b.
    pose proof (decisao_final_spec l) as Hs. destruct l as [|x l]; [now left|].
    destruct Hs as (m & (Hin & _) & ->). right.
    pose proof (sanitized_candidatos_valid _ _ Hl) as Hall.
    rewrite List.Forall_forall in Hall. apply Hall, Hin.
Qed.

(** *** The v16 script *)

Lemma validado_self n : V16.validar_nome n 5 = true -> validado V16.validar_nome n.
Proof. intros H. exists n. split; [exact H | now left]. Qed.

Lemma v16_um_candidato_valid n min_len sc met :
  5 <= min_len ->
  List.Forall (fun c => validado V16.validar_nome (nome c))
              (V16.um_candidato (V16.validar_nome n min_len) n sc met).
Proof.
  intros Hmin. unfold V16.um_candidato.
  destruct (V16.validar_nome n min_len) eqn:Ev; constructor; [|constructor].
  cbn [nome]. apply validado_self. eapply v16_validar_nome_mono; eassumption.
Qed.

Lemma v16_detector_upper_valid fl pattern text min_len sc met r :
  5 <= min_len ->
  V16.detector_upper fl pattern text min_len sc met = Ok r ->
  List.Forall (fun c => validado V16.validar_nome (nome c)) r.
Proof.
  intros Hmin. unfold V16.detector_upper.
  destruct (re_search fl pattern text) as [m|]; [|intros H; inversion H; constructor].
  destruct (group_str m 1) as [g|e]; [|discriminate].
  cbv beta iota delta [bind]. cbv zeta. intros H. inversion H.
  now apply v16_um_candidato_valid.
Qed.

Lemma v16_detector_raw_valid fl pattern text min_len sc met r :
  5 <= min_len ->
  V16.detector_raw fl pattern text min_len sc met = Ok r ->
  List.Forall (fun c => validado V16.validar_nome (nome c)) r.
Proof.
  intros Hmin. unfold V16.detector_raw.
  destruct (re_search fl pattern text) as [m|]; [|intros H; inversion H; constructor].
  destruct (group_str m 1) as [g|e]; [|discriminate].
  cbv beta iota delta [bind]. cbv zeta. intros H. inversion H.
  now apply v16_um_candidato_valid.
Qed.

Lemma v16_det_bradesco_controle_valid texto_clean r :
  V16.det_bradesco_controle texto_clean = Ok r ->
  List.Forall (fun c => validado V16.validar_nome (nome c)) r.
Proof.
  unfold V16.det_bradesco_controle.
  destruct (re_search _ _ _) as [m|]; [|intros H; inversion H; constructor].
  destruct (group_str m 1) as [g|e]; [|discriminate].
  cbv beta iota delta [bind]. cbv zeta. intros H. inversion H.
  apply v16_um_candidato_valid. lia.
Qed.

Lemma v16_det_pix_valid texto texto_clean r :
  V16.det_pix texto texto_clean = Ok r ->
  List.Forall (fun c => validado V16.validar_nome (nome c)) r.
Proof.
  unfold V16.det_pix. destruct (contains _ _); [|intros H; inversion H; constructor].
  cbv zeta.
  match goal with
  | |- match ?x with Some _ => _ | None => _ end = _ -> _ => destruct x as [m|]
  end; [|intros H; inversion H; constructor].
  destruct (group_str m 1) as [g|e]; [|discriminate].
  cbv beta iota delta [bind]. cbv zeta.
  destruct (_ || _); intros H; inversion H; [constructor|].
  apply v16_um_candidato_valid. lia.
Qed.

Lemma v16_det_sicoob_valid texto r :
  V16.det_sicoob texto = Ok r ->
  List.Forall (fun c => validado V16.validar_nome (nome c)) r.
Proof.
  unfold V16.det_sicoob. destruct (contains _ _); [|intros H; inversion H; constructor].
  destruct (re_search _ _ _) as [m|]; [|intros H; inversion H; constructor].
  destruct (group_str m 1) as [g|e]; [|discriminate].
  cbv beta iota delta [bind]. cbv zeta.
  destruct (_ && _); intros H; inversion H; [constructor|].
  apply v16_um_candidato_valid. lia.
Qed.

Lemma v16_det_imposto_valid texto texto_clean r :
  V16.det_imposto texto texto_clean = Ok r ->
  List.Forall (fun c => validado V16.validar_nome (nome c)) r.
Proof.
  unfold V16.det_imposto. destruct (is_some _); [|intros H; inversion H; constructor].
  intros H. steps H. cbv zeta in H. inversion H.
  apply List.Forall_app. split.
  - eapply v16_detector_raw_valid; [|eassumption]. lia.
  - apply List.Forall_forall. intros c Hc. apply in_flat_map in Hc.
    destruct Hc as (n & _ & Hc). unfold V16.um_candidato in Hc.
    destruct (V16.validar_nome n 5) eqn:Ev; [|destruct Hc].
    destruct Hc as [<-|[]]. cbn [nome]. exists n. split; [exact Ev | now right].
Qed.

Lemma v16_det_boleto_valid texto texto_clean r :
  V16.det_boleto texto texto_clean = Ok r ->
  List.Forall (fun c => validado V16.validar_nome (nome c)) r.
Proof.
  unfold V16.det_boleto. destruct (_ || _); [|intros H; inversion H; constructor].
  intros H. steps H. inversion H.
  repeat (apply List.Forall_app; split);
    first [ eapply v16_detector_upper_valid; [|eassumption]; lia
          | eapply v16_detector_raw_valid; [|eassumption]; lia ].
Qed.

Lemma v16_candidatos_valid texto l :
  V16.candidatos texto = Ok l ->
  List.Forall (fun c => validado V16.validar_nome (nome c)) l.
Proof.
  unfold V16.candidatos. cbv zeta. intros H. steps H.
  injection H as <-.
  repeat (apply List.Forall_app; split);
    try first [ eapply v16_det_bradesco_controle_valid; eassumption
              | eapply v16_det_pix_valid; eassumption
              | eapply v16_det_sicoob_valid; eassumption
              | eapply v16_det_imposto_valid; eassumption
              | eapply v16_det_boleto_valid; eassumption
              | eapply v16_detector_upper_valid; [|eassumption]; lia
              | eapply v16_detector_raw_valid; [|eassumption]; lia ].
  - match goal with
    | E : (if ?b then _ else _) = Ok ?r |- List.Forall _ ?r =>
      destruct b; [eapply v16_detector_upper_valid; [|exact E]; lia | inversion E; constructor]
    end.
  - match goal with
    | E : (if ?b then _ else _) = Ok ?r |- List.Forall _ ?r =>
      destruct b; [eapply v16_detector_raw_valid; [|exact E]; lia | inversion E; constructor]
    end.
Qed.

Lemma v16_extrair_beneficiario_valid texto b :
  V16.extrair_beneficiario texto = Ok b ->
  b = FORNECEDOR_DESCONHECIDO \/ validado V16.validar_nome b.
Proof.
  intros Hb. pose proof (v16_extrair_beneficiario_de texto) as Hde.
  destruct texto as [|c0 texto].
  - rewrite Hde in Hb. inversion Hb. now left.
  - destruct Hde as (l & Hl & He). rewrite He in Hb. inversion Hb; subst b.
    pose proof (decisao_final_spec l) as Hs. destruct l as [|x l]; [now left|].
    destruct Hs as (m & (Hin & _) & ->). right.
    pose proof (v16_candidatos_valid _ _ Hl) as Hall.
    rewrite List.Forall_forall in Hall. apply Hall, Hin.
Qed.

End Validated.

(** ** The fallback for an unknown beneficiary *)

(** [max] returns the first element when the elements after it are smaller. *)
Lemma max_by_first {A} (f : A -> nat) (best : A) (l : list A) :
  List.Forall (fun x => f x <= f best) l -> max_by f best l = best.
Proof.
  revert best. induction l as [|x l IH]; intros best Hall; [reflexivity|].
  simpl. inversion Hall as [|? ? Hx Hl]; subst.
  replace (f best <? f x) with false by (symmetry; apply Nat.ltb_ge; exact Hx).
  apply IH, Hl.
Qed.

(** The candidates of a loop over scored entries, each of which gives at
    most one candidate with its score, come in the order of the entries. *)
Lemma for_each_scored {A B} (sc : A -> nat) (f : A -> result (list (B * nat))) (l : list A) :
  (forall p r, f p = Ok r -> r = [] \/ exists x, r = [(x, sc p)]) ->
  forall cs, for_each f l = Ok cs ->
    StronglySorted gt (map sc l) ->
    StronglySorted gt (map snd cs) /\ List.Forall (fun c => In (snd c) (map sc l)) cs.
Proof.
  intros Hf. induction l as [|p l IH]; intros cs Hcs Hsorted; simpl in Hcs.
  - inversion Hcs. split; constructor.
  - destruct (f p) as [ys|e] eqn:Ep; [|discriminate]. cbv beta iota delta [bind] in Hcs.
    destruct (for_each f l) as [zs|e] eqn:El; [|discriminate]. inversion Hcs; subst cs.
    simpl in Hsorted. inversion Hsorted as [|? ? Hs Hgt]; subst.
    destruct (IH zs eq_refl Hs) as [Hzs Hin].
    assert (Hin' : List.Forall (fun c => In (snd c) (map sc (p :: l))) zs).
    { eapply List.Forall_impl; [|exact Hin]. intros c Hc. now right. }
    destruct (Hf p ys Ep) as [->|[x ->]]; simpl.
    + split; assumption.
    + split.
      * constructor; [exact Hzs|]. apply List.Forall_forall. intros n Hn.
        apply in_map_iff in Hn. destruct Hn as (c & <- & Hc).
        rewrite List.Forall_forall in Hin, Hgt. apply Hgt, Hin, Hc.
      * constructor; [now left | exact Hin'].
Qed.

Lemma padroes_sorted : StronglySorted gt (map snd V16.padroes).
Proof.
  unfold V16.padroes. cbn [map snd].
  repeat (constructor; [|repeat (constructor; [lia|]); constructor]). constructor.
Qed.

Section Unknown.
Context {U : UnicodeData} {F : FloatParse}.

(** One entry of [padroes] gives nothing or one validated, stripped text
    with the score of the entry. *)
Lemma candidato_do_padrao_shape texto_orig texto_upper pat sc r :
  V16.candidato_do_padrao texto_orig texto_upper pat sc = Ok r ->
  r = [] \/ exists n, V16.validar_nome n 5 = true /\ r = [(strip n, sc)].
Proof.
  unfold V16.candidato_do_padrao.
  destruct (re_search _ _ _) as [m|]; [|intros H; inversion H; now left].
  destruct (group_str m 1) as [g|e]; [|discriminate].
  cbv beta iota delta [bind]. cbv zeta.
  match goal with
  | |- (if V16.validar_nome ?n 5 then _ else _) = _ -> _ =>
    destruct (V16.validar_nome n 5) eqn:Ev; intros H; inversion H; [right; exists n | left]
  end.
  - split; [exact Ev | reflexivity].
  - reflexivity.
Qed.

Lemma candidatos_dos_padroes_ok texto : never_raises (candidatos_dos_padroes texto).
Proof.
  unfold candidatos_dos_padroes. cbv zeta.
  apply for_each_never_raises. intros [pat sc] Hin.
  apply v16_candidato_do_padrao_ok.
  assert (Hall : Forall (fun p => always_sets 1 (fst p) = true) V16.padroes).
  { unfold V16.padroes. repeat (constructor; [pattern_sets|]). constructor. }
  rewrite List.Forall_forall in Hall. apply (Hall _ Hin).
Qed.

Lemma candidatos_dos_padroes_spec texto cs :
  candidatos_dos_padroes texto = Ok cs ->
  List.Forall (fun c => exists n, V16.validar_nome n 5 = true /\ fst c = strip n) cs
  /\ match cs with
     | [] => True
     | c :: cs' => List.Forall (fun x => snd x <= snd c) cs'
     end.
Proof.
  unfold candidatos_dos_padroes. cbv zeta. intros Hcs. split.
  - apply List.Forall_forall. intros c Hc.
    destruct (for_each_In _ _ _ _ Hcs Hc) as ([pat sc] & ys & _ & Hys & Hcy).
    destruct (candidato_do_padrao_shape _ _ _ _ _ Hys) as [->|(n & Hn & ->)]; [destruct Hcy|].
    destruct Hcy as [<-|[]]. exists n. split; [exact Hn | reflexivity].
  - eapply (for_each_scored snd) in Hcs.
    + destruct Hcs as [Hs _]. destruct cs as [|c cs']; [exact I|].
      simpl in Hs. inversion Hs as [|? ? _ Hgt]; subst.
      apply List.Forall_forall. intros x Hx. rewrite List.Forall_forall in Hgt.
      specialize (Hgt (snd x) (in_map snd _ _ Hx)). lia.
    + intros [pat sc] r Hr.
      destruct (candidato_do_padrao_shape _ _ _ _ _ Hr) as [->|(n & _ & ->)]; [now left|].
      right. now exists (strip n).
    + apply padroes_sorted.
Qed.

(** The result in terms of the candidates of the patterns and of the
    fallback line. *)
Lemma tratar_fornecedor_desconhecido_first (texto : str) (cs : list (str * nat)) :
  texto <> [] -> candidatos_dos_padroes texto = Ok cs ->
  V16.tratar_fornecedor_desconhecido texto
  = Ok match cs with
       | c :: _ => strip (fst c)
       | [] =>
         match V16.melhor_linha texto with
         | Some best => strip (strip best)
         | None => FORNECEDOR_DESCONHECIDO
         end
       end.
Proof.
  intros Hne Hcs. pose proof (candidatos_dos_padroes_spec texto cs Hcs) as [_ Hmax].
  unfold V16.tratar_fornecedor_desconhecido. destruct texto as [|c0 texto]; [congruence|].
  cbv zeta. unfold candidatos_dos_padroes in Hcs. cbv zeta in Hcs. rewrite Hcs.
  cbv beta iota delta [bind].
  destruct cs as [|c cs'].
  - destruct (V16.melhor_linha (c0 :: texto)); reflexivity.
  - cbn [py_max]. now rewrite (max_by_first snd c cs' Hmax).
Qed.

Lemma tratar_fornecedor_desconhecido_valid (texto b : str) :
  V16.tratar_fornecedor_desconhecido texto = Ok b ->
  (forall best, V16.melhor_linha texto = Some best -> V16.validar_nome best 5 = true) ->
  b = FORNECEDOR_DESCONHECIDO \/ exists n, V16.validar_nome n 5 = true /\ b = strip n.
Proof.
  intros Hb Hbest. destruct texto as [|c0 texto].
  { inversion Hb. now left. }
  destruct (candidatos_dos_padroes_ok (c0 :: texto)) as [cs Hcs].
  rewrite (tratar_fornecedor_desconhecido_first (c0 :: texto) cs) in Hb by (congruence || exact Hcs).
  inversion Hb; subst b. destruct (candidatos_dos_padroes_spec _ _ Hcs) as [Hval _].
  destruct cs as [|c cs'].
  - destruct (V16.melhor_linha (c0 :: texto)) as [best|] eqn:Em; [|now left].
    right. exists best. split; [now apply Hbest|]. unfold strip. apply strip_by_twice.
  - inversion Hval as [|? ? (n & Hn & Hc) _]; subst. right. exists n.
    split; [exact Hn|]. rewrite Hc. unfold strip. apply strip_by_twice.
Qed.

(** *** The longest line *)

(** The scan that keeps the first longest of the lines that pass a test. *)
Lemma longest_scan (ok : str -> bool) (l : list str) :
  forall init : option str,
    let step (best : option str) (ln : str) :=
      if ok ln then
        match best with
        | None => Some ln
        | Some b => if length b <? length ln then Some ln else best
        end
      else best in
    match fold_left step l init with
    | Some best =>
      (init = Some best \/ (In best l /\ ok best = true))
      /\ (forall b0, init = Some b0 -> length b0 <= length best)
      /\ (forall ln, In ln l -> ok ln = true -> length ln <= length best)
    | None => init = None /\ forall ln, In ln l -> ok ln = false
    end.
Proof.
  cbv zeta. induction l as [|x l IH]; intros init; simpl.
  - destruct init as [b|]; [|split; [reflexivity | intros ? []]].
    split; [now left|]. split; [intros b0 Hb; inversion Hb; lia | intros ? []].
  - match goal with |- context [fold_left ?f l ?i] => specialize (IH i) end.
    destruct (fold_left _ l _) as [best|].
    + destruct IH as (Hfrom & Hinit & Hall).
      destruct (ok x) eqn:Ex.
      * destruct init as [b|].
        -- destruct (length b <? length x) eqn:El.
           ++ apply Nat.ltb_lt in El. pose proof (Hinit x eq_refl) as Hx. split; [|split].
              ** right. destruct Hfrom as [Hf|[Hf1 Hf2]].
                 --- inversion Hf; subst best. split; [now left | exact Ex].
                 --- split; [now right | exact Hf2].
              ** intros b0 Hb0. inversion Hb0; subst b0. lia.
              ** intros ln [<-|Hln] Hok; [exact Hx | now apply Hall].
           ++ apply Nat.ltb_ge in El. pose proof (Hinit b eq_refl) as Hb. split; [|split].
              ** destruct Hfrom as [Hf|[Hf1 Hf2]]; [now left|]. right. split; [now right | exact Hf2].
              ** exact Hinit.
              ** intros ln [<-|Hln] Hok; [lia | now apply Hall].
        -- pose proof (Hinit x eq_refl) as Hx. split; [|split].
           ++ right. destruct Hfrom as [Hf|[Hf1 Hf2]].
              ** inversion Hf; subst best. split; [now left | exact Ex].
              ** split; [now right | exact Hf2].
           ++ intros b0 Hb0. discriminate.
           ++ intros ln [<-|Hln] Hok; [exact Hx | now apply Hall].
      * split; [|split].
        -- destruct Hfrom as [Hf|[Hf1 Hf2]]; [now left|]. right. split; [now right | exact Hf2].
        -- exact Hinit.
        -- intros ln [<-|Hln] Hok; [congruence | now apply Hall].
    + destruct IH as [Hinit Hall]. destruct (ok x) eqn:Ex.
      * destruct init as [b|]; [destruct (length b <? length x)|]; discriminate.
      * split; [exact Hinit|]. intros ln [<-|Hln]; [exact Ex | now apply Hall].
Qed.

Lemma melhor_linha_scan (texto : str) :
  V16.melhor_linha texto
  = fold_left (fun best ln =>
                 if linha_valida ln then
                   match best with
                   | None => Some ln
                   | Some b => if length b <? length ln then Some ln else best
                   end
                 else best) (linhas texto) None.
Proof.
  unfold V16.melhor_linha, linhas. cbv zeta.
  generalize (@None str) as init.
  generalize (List.filter (fun ln => negb (match ln with [] => true | _ => false end))
                          (map strip (V16.splitlines texto))) as l.
  induction l as [|x l IH]; intros init; [reflexivity|]. cbn [fold_left]. rewrite IH. f_equal.
  unfold linha_valida. cbv zeta.
  destruct (6 <=? length x); cbn [andb]; [|reflexivity].
  destruct (is_some _); cbn [andb]; [|reflexivity].
  destruct (is_some _); cbn [negb andb]; [reflexivity|].
  destruct (V16.validar_nome x 5); reflexivity.
Qed.

(** The fallback keeps the first of the longest lines that pass the tests. *)
Lemma melhor_linha_spec (texto : str) :
  match V16.melhor_linha texto with
  | Some best =>
    In best (linhas texto) /\ linha_valida best = true
    /\ forall ln, In ln (linhas texto) -> linha_valida ln = true -> length ln <= length best
  | None => forall ln, In ln (linhas texto) -> linha_valida ln = false
  end.
Proof.
  rewrite melhor_linha_scan.
  pose proof (longest_scan linha_valida (linhas texto) None) as Hs. cbv zeta in Hs.
  destruct (fold_left _ (linhas texto) None) as [best|].
  - destruct Hs as ([Hf|[Hin Hok]] & _ & Hall); [discriminate|].
    split; [exact Hin|]. split; [exact Hok | exact Hall].
  - apply Hs.
Qed.

Lemma linha_valida_nome (ln : str) : linha_valida ln = true -> V16.validar_nome ln 5 = true.
Proof. unfold linha_valida. cbv zeta. intros H. apply andb_true_iff in H. apply H. Qed.

Lemma v16_tratar_valid (texto b : str) :
  V16.tratar_fornecedor_desconhecido texto = Ok b ->
  b = FORNECEDOR_DESCONHECIDO \/ validado V16.validar_nome b.
Proof.
  intros Hb. apply tratar_fornecedor_desconhecido_valid in Hb.
  - destruct Hb as [Hb|(n & Hn & Hb)]; [now left|]. right. exists n. split; [exact Hn | now right].
  - intros best Hbest. pose proof (melhor_linha_spec texto) as Hs. rewrite Hbest in Hs.
    apply linha_valida_nome, Hs.
Qed.

(** The beneficiary of a page of the v16 script. *)
Lemma v16_processar_parte_valid pages contador p contador' :
  V16.processar_parte pages contador = Ok (p, contador') ->
  pg_beneficiario p = FORNECEDOR_DESCONHECIDO \/ validado V16.validar_nome (pg_beneficiario p).
Proof.
  unfold V16.processar_parte. cbv zeta.
  destruct (V16.extrair_beneficiario _) as [b0|e] eqn:Eb; [|discriminate].
  cbv beta iota delta [bind].
  match goal with
  | |- context [if ?c then V16.tratar_fornecedor_desconhecido ?t else Ok ?x] =>
    destruct (if c then V16.tratar_fornecedor_desconhecido t else Ok x) as [b|e] eqn:Et;
      [|discriminate]
  end.
  destruct (V16.extrair_valor _) as [v|e]; [|discriminate].
  cbv beta iota delta [bind proxima_ocorrencia].
  destruct (V16.snippet_de _) as [sn|e]; [|discriminate].
  intros Heq. inversion Heq; subst. cbn [pg_beneficiario].
  destruct (str_eqb b0 FORNECEDOR_DESCONHECIDO).
  - eapply v16_tratar_valid, Et.
  - inversion Et; subst b. eapply v16_extrair_beneficiario_valid, Eb.
Qed.

Lemma sanitized_processar_parte_valid pages contador p contador' :
  Sanitized.processar_parte pages contador = Ok (p, contador') ->
  pg_beneficiario p = FORNECEDOR_DESCONHECIDO
  \/ Sanitized.validar_nome (pg_beneficiario p) 5 = true.
Proof.
  unfold Sanitized.processar_parte. cbv zeta.
  destruct (Sanitized.extrair_beneficiario _) as [b|e] eqn:Eb; [|discriminate].
  cbv beta iota delta [bind].
  destruct (Sanitized.extrair_valor _) as [v|e]; [|discriminate].
  cbv beta iota delta [bind proxima_ocorrencia].
  destruct (Sanitized.snippet_de _) as [sn|e]; [|discriminate].
  intros Heq. inversion Heq; subst. cbn [pg_beneficiario].
  eapply sanitized_extrair_beneficiario_valid, Eb.
Qed.

End Unknown.

(** ** The number that an amount denotes *)

Lemma contains_single (c : cp) (s : str) : contains [c] s = true <-> In c s.
Proof.
  induction s as [|d s IH]; simpl.
  - split; [discriminate | intros []].
  - rewrite orb_true_iff, andb_true_r, N.eqb_eq, IH. split.
    + intros [->|H]; [now left | now right].
    + intros [->|H]; [now left | now right].
Qed.

(** Putting commas for the points and then points for the commas is
    putting points for the commas, in a text that does not have both. *)
Lemma replace1_back (val : str) :
  ~ In (ch ".") val \/ ~ In (ch ",") val ->
  replace1 (ch ",") (u ".") (replace1 (ch ".") (u ",") val) = replace1 (ch ",") (u ".") val.
Proof.
  intros [Hp|Hc].
  - now rewrite (replace1_id (ch ".") (u ",") val Hp).
  - rewrite (replace1_id (ch ",") (u ".") val Hc).
    induction val as [|d val IH]; [reflexivity|].
    assert (Hd : d <> ch ",") by (intros ->; apply Hc; now left).
    assert (Hv : ~ In (ch ",") val) by (intros H; apply Hc; now right).
    unfold replace1 in *. cbn [flat_map].
    destruct (N.eqb_spec d (ch ".")) as [->|Hne].
    + rewrite flat_map_app. cbn. f_equal. apply IH, Hv.
    + rewrite flat_map_app. cbn [flat_map]. rewrite (proj2 (N.eqb_neq d (ch ",")) Hd).
      cbn. f_equal. apply IH, Hv.
Qed.

Section Parsed.
Context {U : UnicodeData} {F : FloatParse}.

Lemma val_de_separators (g : str) : ~ In (ch ".") (val_de g) \/ ~ In (ch ",") (val_de g).
Proof.
  unfold val_de. cbv zeta.
  destruct (contains (u ",") (strip g)) eqn:Ec; cbn [andb].
  - destruct (contains (u ".") (strip g)) eqn:Ep.
    + left. apply without_In. apply replace1_without. reflexivity.
    + left. intros H. apply (contains_single (ch ".")) in H.
      change [ch "."] with (u ".") in H. congruence.
  - right. intros H. apply (contains_single (ch ",")) in H.
    change [ch ","] with (u ",") in H. congruence.
Qed.

(** A candidate of the loop over the patterns holds a positive number, and
    its text reads as that number. *)
Lemma valor_do_match_parses prio tp m r c :
  valor_do_match prio tp m = Ok r -> In c r ->
  float_of (leitura (valor c)) = Some (float c) /\ float_pos (float c) = true.
Proof.
  unfold valor_do_match. destruct (group_str m 1) as [g|e]; [|discriminate].
  cbv beta iota delta [bind]. cbv zeta.
  destruct (float_of _) as [x|] eqn:Ef; [destruct (float_pos x) eqn:Ex|];
    intros Hr Hc; inversion Hr; subst r; try destruct Hc as [<-|[]]; try destruct Hc.
  cbn [valor float]. split; [|exact Ex]. unfold leitura.
  rewrite (replace1_id (ch ".") [] (replace1 (ch ".") (u ",") (val_de g))).
  - rewrite (replace1_back _ (val_de_separators g)). exact Ef.
  - apply without_In. apply replace1_without. reflexivity.
Qed.

Lemma valores_dos_padroes_parses patterns texto l c :
  valores_dos_padroes patterns texto = Ok l -> In c l ->
  float_of (leitura (valor c)) = Some (float c) /\ float_pos (float c) = true.
Proof.
  unfold valores_dos_padroes. intros Hl Hc.
  destruct (for_each_In _ _ _ _ Hl Hc) as ([[pattern prio] tp] & ys & Hp & Hys & Hcy).
  destruct (for_each_In _ _ _ _ Hys Hcy) as (m & zs & _ & Hzs & Hcz).
  eapply valor_do_match_parses; eassumption.
Qed.

(** A Bradesco PIX search gives at most one candidate; it holds a positive
    number, and its text reads as that number. *)
Lemma valor_bradesco_shape pattern tp texto r :
  V16.valor_bradesco pattern tp texto = Ok r ->
  r = [] \/ exists c, r = [c] /\ prioridade c = 0
                      /\ float_of (leitura (valor c)) = Some (float c)
                      /\ float_pos (float c) = true.
Proof.
  unfold V16.valor_bradesco. destruct (re_search _ _ _) as [m|].
  - destruct (group_str m 1) as [g|e]; [|discriminate].
    cbv beta iota delta [bind]. cbv zeta.
    destruct (float_of _) as [x|] eqn:Ef; [destruct (float_pos x) eqn:Ex|];
      intros Hr; inversion Hr; [right | now left | now left].
    eexists. split; [reflexivity|]. cbn [prioridade valor float].
    split; [reflexivity|]. split; [exact Ef | exact Ex].
  - intros Hr. inversion Hr. now left.
Qed.

(** The candidates of the v16 script: the Bradesco PIX candidate, if any,
    and the candidates of the patterns. *)
Lemma v16_valores_encontrados_parts texto l :
  V16.valores_encontrados texto = Ok l ->
  exists v0 vs,
    l = v0 ++ vs
    /\ (v0 = [] \/ exists c, v0 = [c] /\ prioridade c = 0
                             /\ float_of (leitura (valor c)) = Some (float c)
                             /\ float_pos (float c) = true)
    /\ valores_dos_padroes V16.patterns texto = Ok vs.
Proof.
  unfold V16.valores_encontrados. intros Hl.
  match type of Hl with
  | bind ?x _ = _ => destruct x as [v0|e] eqn:E0; [|discriminate]
  end.
  cbv beta iota delta [bind] in Hl.
  match type of Hl with
  | context [match v0 with [] => ?a | _ :: _ => ?b end] =>
    destruct (match v0 with [] => a | _ :: _ => b end) as [v1|e] eqn:E1; [|discriminate]
  end.
  destruct (valores_dos_padroes V16.patterns texto) as [vs|e] eqn:E2; [|discriminate].
  inversion Hl; subst l. exists v1, vs. split; [reflexivity|]. split; [|reflexivity].
  destruct v0 as [|x v0].
  - eapply valor_bradesco_shape, E1.
  - inversion E1; subst v1. eapply valor_bradesco_shape, E0.
Qed.

Lemma sanitized_extrair_valor_parses (texto v : str) :
  Sanitized.extrair_valor texto = Ok v ->
  v = VALOR_NAO_ENCONTRADO
  \/ exists x, float_of (leitura v) = Some x /\ float_pos x = true.
Proof.
  intros Hv. pose proof (sanitized_extrair_valor_de texto) as Hde.
  destruct texto as [|c0 texto].
  - rewrite Hde in Hv. inversion Hv. now left.
  - destruct Hde as (l & Hl & He). rewrite He in Hv. inversion Hv; subst v.
    destruct (melhor_valor_In l) as [->|(c & Hc & ->)]; [now left|]. right.
    exists (float c). eapply valores_dos_padroes_parses; eassumption.
Qed.

Lemma v16_extrair_valor_parses (texto v : str) :
  V16.extrair_valor texto = Ok v ->
  v = VALOR_NAO_ENCONTRADO
  \/ exists x, float_of (leitura v) = Some x /\ float_pos x = true.
Proof.
  intros Hv. pose proof (v16_extrair_valor_de texto) as Hde.
  destruct texto as [|c0 texto].
  - rewrite Hde in Hv. inversion Hv. now left.
  - destruct Hde as (l & Hl & He). rewrite He in Hv. inversion Hv; subst v.
    destruct (melhor_valor_In l) as [->|(c & Hc & ->)]; [now left|]. right.
    exists (float c).
    destruct (v16_valores_encontrados_parts _ _ Hl) as (v0 & vs & -> & Hv0 & Hvs).
    apply in_app_or in Hc. destruct Hc as [Hc|Hc].
    + destruct Hv0 as [->|(c' & -> & _ & Hf & Hp)]; [destruct Hc|].
      destruct Hc as [<-|[]]. split; assumption.
    + eapply valores_dos_padroes_parses; eassumption.
Qed.

(** *** The Bradesco PIX amount comes first *)

Lemma v16_patterns_prio p : In p V16.patterns -> 1 <= snd (fst p).
Proof.
  unfold V16.patterns. intros H. cbn [In] in H.
  repeat (destruct H as [<-|H]; [cbn [fst snd]; lia|]). destruct H.
Qed.

Lemma v16_prioridade_zero (texto : str) (l : list valor_cand) (c : valor_cand) :
  texto <> [] -> V16.valores_encontrados texto = Ok l -> In c l -> prioridade c = 0 ->
  V16.extrair_valor texto = Ok (valor c).
Proof.
  intros Hne Hl Hc Hprio.
  pose proof (v16_extrair_valor_de texto) as Hde.
  destruct texto as [|c0 texto]; [congruence|].
  destruct Hde as (l' & Hl' & He). rewrite Hl in Hl'. inversion Hl'; subst l'. rewrite He.
  destruct (v16_valores_encontrados_parts _ _ Hl) as (v0 & vs & -> & Hv0 & Hvs).
  assert (Hvs0 : forall x, In x vs -> 1 <= prioridade x).
  { intros x Hx.
    destruct (valores_dos_padroes_display _ _ _ _ Hvs Hx) as (_ & pattern & tp & Hp).
    apply (v16_patterns_prio _ Hp). }
  assert (Hcv : v0 = [c]).
  { apply in_app_or in Hc. destruct Hc as [Hc|Hc].
    - destruct Hv0 as [->|(c' & -> & _)]; [destruct Hc|]. destruct Hc as [<-|[]]. reflexivity.
    - specialize (Hvs0 c Hc). lia. }
  subst v0. pose proof (melhor_valor_spec ([c] ++ vs)) as Hs. cbn [app] in Hs.
  destruct Hs as (best & (Hin & Hleast) & Hbest). cbn [app]. rewrite Hbest. do 2 f_equal.
  destruct Hin as [<-|Hin]; [reflexivity|].
  specialize (Hleast c (or_introl eq_refl)). specialize (Hvs0 best Hin). lia.
Qed.

End Parsed.

(** ** The detector of the highest score *)

Lemma um_de_scores sc r : um_de sc r -> List.Forall (fun c => score c = sc) r.
Proof. intros [->|(c & -> & Hc)]; repeat constructor. exact Hc. Qed.

Lemma Forall_score_lt (P : benef_cand -> Prop) (r : list benef_cand) (sc n : nat) :
  sc < n -> List.Forall (fun c => score c = sc) r -> List.Forall (fun c => score c < n) r.
Proof. intros Hlt. apply List.Forall_impl. intros c ->. exact Hlt. Qed.

Section Highest.
Context {U : UnicodeData} {F : FloatParse}.

Lemma sanitized_detector_upper_um fl pattern text min_len sc met r :
  Sanitized.detector_upper fl pattern text min_len sc met = Ok r -> um_de sc r.
Proof.
  unfold Sanitized.detector_upper.
  destruct (re_search fl pattern text) as [m|]; [|intros H; inversion H; now left].
  destruct (group_str m 1) as [g|e]; [|discriminate].
  cbv beta iota delta [bind]. cbv zeta.
  destruct (Sanitized.validar_nome _ min_len); intros H; inversion H; [right | now left].
  eexists. split; reflexivity.
Qed.

Lemma sanitized_detector_raw_um fl pattern text min_len sc met r :
  Sanitized.detector_raw fl pattern text min_len sc met = Ok r -> um_de sc r.
Proof.
  unfold Sanitized.detector_raw.
  destruct (re_search fl pattern text) as [m|]; [|intros H; inversion H; now left].
  destruct (group_str m 1) as [g|e]; [|discriminate].
  cbv beta iota delta [bind]. cbv zeta.
  destruct (Sanitized.validar_nome _ min_len); intros H; inversion H; [right | now left].
  eexists. split; reflexivity.
Qed.

(** The decision over a candidate of the highest score that is alone with
    that score. *)
Lemma decisao_final_top (first rest : list benef_cand) (top : nat) (c : benef_cand) :
  um_de top first -> List.Forall (fun x => score x < top) rest ->
  In c (first ++ rest) -> score c = top ->
  decisao_final (first ++ rest) = nome c.
Proof.
  intros Hfirst Hrest Hc Htop.
  assert (Hf : first = [c]).
  { apply in_app_or in Hc. destruct Hc as [Hc|Hc].
    - destruct Hfirst as [->|(c' & -> & _)]; [destruct Hc|]. destruct Hc as [<-|[]]. reflexivity.
    - rewrite List.Forall_forall in Hrest. specialize (Hrest c Hc). lia. }
  subst first. pose proof (decisao_final_spec ([c] ++ rest)) as Hs. cbn [app] in Hs.
  destruct Hs as (m & (Hin & Hmax & _) & Hm). cbn [app]. rewrite Hm. f_equal.
  destruct Hin as [<-|Hin]; [reflexivity|].
  rewrite List.Forall_forall in Hrest. specialize (Hrest m Hin).
  specialize (Hmax c (or_introl eq_refl)). lia.
Qed.

Lemma sanitized_candidatos_top texto l :
  Sanitized.candidatos texto = Ok l ->
  exists first rest, l = first ++ rest /\ um_de 22 first
                     /\ List.Forall (fun x => score x < 22) rest.
Proof.
  unfold Sanitized.candidatos. cbv zeta. intros H. steps H. injection H as <-.
  eexists. eexists. split; [reflexivity|]. split.
  - eapply sanitized_detector_upper_um. eassumption.
  - repeat (apply List.Forall_app; split);
      (eapply (Forall_score_lt (fun _ => True));
       [|apply um_de_scores;
         first [ eapply sanitized_detector_upper_um; eassumption
               | eapply sanitized_detector_raw_um; eassumption ]]; lia).
Qed.

Lemma sanitized_controle_wins (texto : str) (l : list benef_cand) (c : benef_cand) :
  texto <> [] -> Sanitized.candidatos texto = Ok l -> In c l -> score c = 22 ->
  Sanitized.extrair_beneficiario texto = Ok (nome c).
Proof.
  intros Hne Hl Hc Hs. unfold Sanitized.extrair_beneficiario.
  destruct texto as [|c0 texto]; [congruence|]. rewrite Hl. cbv beta iota delta [bind].
  destruct (sanitized_candidatos_top _ _ Hl) as (first & rest & -> & Hf & Hr).
  f_equal. eapply decisao_final_top; eassumption.
Qed.

(** *** The v16 script *)

Lemma v16_um_candidato_um ok n sc met : um_de sc (V16.um_candidato ok n sc met).
Proof. unfold V16.um_candidato. destruct ok; [right | now left]. eexists. split; reflexivity. Qed.

Lemma v16_detector_upper_um fl pattern text min_len sc met r :
  V16.detector_upper fl pattern text min_len sc met = Ok r -> um_de sc r.
Proof.
  unfold V16.detector_upper.
  destruct (re_search fl pattern text) as [m|]; [|intros H; inversion H; now left].
  destruct (group_str m 1) as [g|e]; [|discriminate].
  cbv beta iota delta [bind]. cbv zeta. intros H. inversion H. apply v16_um_candidato_um.
Qed.

Lemma v16_detector_raw_um fl pattern text min_len sc met r :
  V16.detector_raw fl pattern text min_len sc met = Ok r -> um_de sc r.
Proof.
  unfold V16.detector_raw.
  destruct (re_search fl pattern text) as [m|]; [|intros H; inversion H; now left].
  destruct (group_str m 1) as [g|e]; [|discriminate].
  cbv beta iota delta [bind]. cbv zeta. intros H. inversion H. apply v16_um_candidato_um.
Qed.

Lemma v16_det_bradesco_controle_um texto_clean r :
  V16.det_bradesco_controle texto_clean = Ok r -> um_de 22 r.
Proof.
  unfold V16.det_bradesco_controle.
  destruct (re_search _ _ _) as [m|]; [|intros H; inversion H; now left].
  destruct (group_str m 1) as [g|e]; [|discriminate].
  cbv beta iota delta [bind]. cbv zeta. intros H. inversion H. apply v16_um_candidato_um.
Qed.

Lemma v16_det_pix_scores texto texto_clean r :
  V16.det_pix texto texto_clean = Ok r -> List.Forall (fun c => score c < 22) r.
Proof.
  unfold V16.det_pix. destruct (contains _ _); [|intros H; inversion H; constructor].
  cbv zeta.
  match goal with
  | |- match ?x with Some _ => _ | None => _ end = _ -> _ => destruct x as [m|]
  end; [|intros H; inversion H; constructor].
  destruct (group_str m 1) as [g|e]; [|discriminate].
  cbv beta iota delta [bind]. cbv zeta.
  destruct (_ || _); intros H; inversion H; [constructor|].
  unfold V16.um_candidato. destruct (V16.validar_nome _ _); constructor; [|constructor].
  cbn [score]. destruct (contains _ _); lia.
Qed.

Lemma v16_det_sicoob_scores texto r :
  V16.det_sicoob texto = Ok r -> List.Forall (fun c => score c < 22) r.
Proof.
  unfold V16.det_sicoob. destruct (contains _ _); [|intros H; inversion H; constructor].
  destruct (re_search _ _ _) as [m|]; [|intros H; inversion H; constructor].
  destruct (group_str m 1) as [g|e]; [|discriminate].
  cbv beta iota delta [bind]. cbv zeta.
  destruct (_ && _); intros H; inversion H; [constructor|].
  eapply (Forall_score_lt (fun _ => True)); [|apply um_de_scores, v16_um_candidato_um]. lia.
Qed.

Lemma v16_det_imposto_scores texto texto_clean r :
  V16.det_imposto texto texto_clean = Ok r -> List.Forall (fun c => score c < 22) r.
Proof.
  unfold V16.det_imposto. destruct (is_some _); [|intros H; inversion H; constructor].
  intros H. steps H. cbv zeta in H. inversion H.
  apply List.Forall_app. split.
  - eapply (Forall_score_lt (fun _ => True));
      [|apply um_de_scores; eapply v16_detector_raw_um; eassumption]. lia.
  - apply List.Forall_forall. intros c Hc. apply in_flat_map in Hc.
    destruct Hc as (n & _ & Hc). unfold V16.um_candidato in Hc.
    destruct (V16.validar_nome n 5); [|destruct Hc].
    destruct Hc as [<-|[]]. cbn [score]. lia.
Qed.

Lemma v16_det_boleto_scores texto texto_clean r :
  V16.det_boleto texto texto_clean = Ok r -> List.Forall (fun c => score c < 22) r.
Proof.
  unfold V16.det_boleto. destruct (_ || _); [|intros H; inversion H; constructor].
  intros H. steps H. inversion H.
  repeat (apply List.Forall_app; split);
    (eapply (Forall_score_lt (fun _ => True));
     [|apply um_de_scores;
       first [ eapply v16_detector_upper_um; eassumption
             | eapply v16_detector_raw_um; eassumption ]]; lia).
Qed.

Lemma v16_candidatos_top texto l :
  V16.candidatos texto = Ok l ->
  exists first rest, l = first ++ rest /\ um_de 22 first
                     /\ List.Forall (fun x => score x < 22) rest.
Proof.
  unfold V16.candidatos. cbv zeta. intros H. steps H. injection H as <-.
  eexists. eexists. split; [reflexivity|]. split.
  - eapply v16_det_bradesco_controle_um. eassumption.
  - repeat (apply List.Forall_app; split);
      try first
          [ eapply v16_det_pix_scores; eassumption
          | eapply v16_det_sicoob_scores; eassumption
          | eapply v16_det_imposto_scores; eassumption
          | eapply v16_det_boleto_scores; eassumption
          | eapply (Forall_score_lt (fun _ => True));
            [|apply um_de_scores;
              first [ eapply v16_detector_upper_um; eassumption
                    | eapply v16_detector_raw_um; eassumption ]]; lia ].
    + match goal with
      | E : (if ?b then _ else _) = Ok ?r |- List.Forall _ ?r =>
        destruct b; [|inversion E; constructor];
          eapply (Forall_score_lt (fun _ => True));
          [|apply um_de_scores; eapply v16_detector_upper_um; exact E]; lia
      end.
    + match goal with
      | E : (if ?b then _ else _) = Ok ?r |- List.Forall _ ?r =>
        destruct b; [|inversion E; constructor];
          eapply (Forall_score_lt (fun _ => True));
          [|apply um_de_scores; eapply v16_detector_raw_um; exact E]; lia
      end.
Qed.

Lemma v16_controle_wins (texto : str) (l : list benef_cand) (c : benef_cand) :
  texto <> [] -> V16.candidatos texto = Ok l -> In c l -> score c = 22 ->
  V16.extrair_beneficiario texto = Ok (nome c).
Proof.
  intros Hne Hl Hc Hs. unfold V16.extrair_beneficiario.
  destruct texto as [|c0 texto]; [congruence|]. rewrite Hl. cbv beta iota delta [bind].
  destruct (v16_candidatos_top _ _ Hl) as (first & rest & -> & Hf & Hr).
  f_equal. eapply decisao_final_top; eassumption.
Qed.

End Highest.

(** ** The payer *)

Lemma startswith_app (p s : str) : startswith p s = true <-> exists post, s = p ++ post.
Proof.
  revert s. induction p as [|a p IH]; intros s; simpl.
  - split; [intros _; now exists s | reflexivity].
  - destruct s as [|b s].
    + split; [discriminate | intros [post H]; discriminate].
    + rewrite andb_true_iff, N.eqb_eq, IH. split.
      * intros [-> [post ->]]. now exists post.
      * intros [post H]. inversion H. split; [reflexivity | now exists post].
Qed.

Lemma contains_app (n h : str) : contains n h = true <-> exists pre post, h = pre ++ n ++ post.
Proof.
  induction h as [|b h IH].
  - simpl. rewrite orb_false_r, startswith_app. split.
    + intros [post H]. now exists [], post.
    + intros (pre & post & H). destruct pre; [now exists post|discriminate].
  - cbn [contains]. rewrite orb_true_iff, startswith_app, IH. split.
    + intros [[post H]|(pre & post & H)].
      * now exists [], post.
      * exists (b :: pre), post. simpl. now rewrite H.
    + intros (pre & post & H). destruct pre as [|x pre].
      * left. now exists post.
      * right. inversion H. now exists pre, post.
Qed.

(** A text that holds [b] holds every text that [b] holds. *)
Lemma contains_trans (a b t : str) :
  contains a b = true -> contains b t = true -> contains a t = true.
Proof.
  rewrite !contains_app. intros (p1 & q1 & ->) (p2 & q2 & ->).
  exists (p2 ++ p1), (q1 ++ q2). now rewrite <- !List.app_assoc.
Qed.

Section Payer.
Context {U : UnicodeData}.

(** The decision of the v16 script: two of its five aliases hold another
    alias and never decide. *)
Lemma v16_identificar_empresa_table (texto : str) :
  aliases_upper V16.EMPRESAS ->
  V16.identificar_empresa texto
  = if contains (u "LIFE SCIENCE") (str_upper texto) then u "LIFE_SCIENCE"
    else if contains (u "URBANBOX") (str_upper texto) then u "URBANBOX"
    else if contains (u "FARMAUSA PHARMACEUTICAL") (str_upper texto) then u "PHARMACEUTICAL"
    else OUTROS.
Proof.
  unfold aliases_upper, V16.EMPRESAS. cbn [flat_map snd app]. intros Hup.
  repeat match goal with
         | H : List.Forall _ (_ :: _) |- _ =>
           let E := fresh "E" in inversion H as [|? ? E ?]; clear H; subst
         end.
  unfold V16.identificar_empresa, V16.EMPRESAS. cbn [identificar_empresa_em existsb].
  repeat match goal with E : str_upper _ = _ |- _ => rewrite E; clear E end.
  set (T := str_upper texto).
  assert (H1 : contains (u "FARMAUSA LIFE SCIENCE") T = true -> contains (u "LIFE SCIENCE") T = true).
  { apply contains_trans. reflexivity. }
  assert (H2 : contains (u "FARMAUSA PHARMACEUTICAL LTDA") T = true
               -> contains (u "FARMAUSA PHARMACEUTICAL") T = true).
  { apply contains_trans. reflexivity. }
  destruct (contains (u "LIFE SCIENCE") T).
  - now rewrite orb_true_r.
  - destruct (contains (u "FARMAUSA LIFE SCIENCE") T); [now discriminate H1|]. cbn [orb].
    destruct (contains (u "URBANBOX") T); [reflexivity|].
    destruct (contains (u "FARMAUSA PHARMACEUTICAL") T); [reflexivity|].
    destruct (contains (u "FARMAUSA PHARMACEUTICAL LTDA") T); [now discriminate H2|].
    reflexivity.
Qed.

End Payer.

Lemma latin1_aliases_upper : @aliases_upper Latin1.unicode V16.EMPRESAS.
Proof. unfold aliases_upper. repeat constructor. Qed.

(** ** A part without text *)

Lemma sem_texto (n : nat) :
  flat_map (fun t : str => match t with [] => [] | _ => t ++ [10%N] end) (repeat [] n) = [].
Proof. induction n as [|n IH]; [reflexivity | exact IH]. Qed.

Section Vazia.
Context {F : FloatParse}.

Lemma sanitized_parte_vazia (n : nat) (contador : gmap (str * str * str) nat) :
  let cnt := S (default 0 (contador !! chave_vazia)) in
  Sanitized.processar_parte (repeat [] n) contador
  = Ok (pagina_vazia cnt, <[chave_vazia := cnt]> contador).
Proof.
  cbv zeta. unfold Sanitized.processar_parte, extrair_texto_pdf. rewrite sem_texto.
  cbv zeta. cbn [limpar_texto Sanitized.extrair_beneficiario Sanitized.extrair_valor].
  cbv beta iota delta [bind proxima_ocorrencia]. unfold chave_vazia.
  change (Sanitized.identificar_empresa []) with OUTROS.
  change (Sanitized.snippet_de []) with (@Ok str []). cbv beta iota zeta.
  rewrite sanitized_montar_nome_shape.
  assert (Hname : base_de (Sanitized.sanitize_filename FORNECEDOR_DESCONHECIDO)
                          VALOR_NAO_ENCONTRADO [] ++ u ".pdf"
                  = u "FORNECEDOR_DESCONHECIDO - VALOR_NAO_ENCONTRADO.pdf")
    by (vm_compute; reflexivity).
  rewrite Hname. unfold pagina_vazia, chave_vazia. reflexivity.
Qed.

Lemma v16_parte_vazia (n : nat) (contador : gmap (str * str * str) nat) :
  let cnt := S (default 0 (contador !! chave_vazia)) in
  V16.processar_parte (repeat [] n) contador
  = Ok (pagina_vazia cnt, <[chave_vazia := cnt]> contador).
Proof.
  cbv zeta. unfold V16.processar_parte, extrair_texto_pdf. rewrite sem_texto.
  cbv zeta. cbn [limpar_texto V16.extrair_beneficiario V16.extrair_valor].
  cbv beta iota delta [bind proxima_ocorrencia].
  rewrite str_eqb_refl. cbn [V16.tratar_fornecedor_desconhecido]. unfold chave_vazia.
  change (V16.identificar_empresa []) with OUTROS.
  change (V16.snippet_de []) with (@Ok str []). cbv beta iota zeta.
  rewrite v16_montar_nome_shape.
  assert (Hname : base_de (V16.sanitize_filename FORNECEDOR_DESCONHECIDO)
                          VALOR_NAO_ENCONTRADO [] ++ u ".pdf"
                  = u "FORNECEDOR_DESCONHECIDO - VALOR_NAO_ENCONTRADO.pdf")
    by (vm_compute; reflexivity).
  rewrite Hname. unfold pagina_vazia, chave_vazia. reflexivity.
Qed.

End Vazia.

(** ** Numbers in names *)

Lemma bytes_of_string_inj (s t : string) : bytes_of_string s = bytes_of_string t -> s = t.
Proof.
  revert t. induction s as [|a s IH]; intros [|b t] H; simpl in H; try discriminate.
  - reflexivity.
  - injection H as Hab Hst. f_equal; [|now apply IH].
    rewrite <- (ascii_N_embedding a), <- (ascii_N_embedding b). now rewrite Hab.
Qed.

(** [str] gives different texts for different numbers. *)
Lemma str_of_nat_inj (n m : nat) : str_of_nat n = str_of_nat m -> n = m.
Proof.
  unfold str_of_nat. intros H. apply bytes_of_string_inj in H.
  assert (Hu : Some (Nat.to_uint n) = Some (Nat.to_uint m)).
  { rewrite <- !NilEmpty.usu. now rewrite H. }
  injection Hu as Hu. rewrite <- (Unsigned.of_to n), <- (Unsigned.of_to m). now rewrite Hu.
Qed.

Lemma prefixo_inj (n m : nat) : 1 <= n -> 1 <= m -> prefixo n = prefixo m -> n = m.
Proof.
  unfold prefixo. intros Hn Hm.
  destruct (1 <? n) eqn:En; destruct (1 <? m) eqn:Em.
  - intros H. apply List.app_inv_head in H. apply List.app_inv_tail in H.
    now apply str_of_nat_inj.
  - intros H. apply (f_equal (@length _)) in H. rewrite List.length_app in H. discriminate.
  - intros H. apply (f_equal (@length _)) in H. rewrite List.length_app in H. discriminate.
  - intros _. apply Nat.ltb_ge in En, Em. lia.
Qed.

(** ** The destination of a copy *)

Lemma startswith_prefix (c : cp) (x y z : str) :
  x <> [] -> startswith [c] (x ++ y) = startswith [c] (x ++ z).
Proof. destruct x as [|a x]; [congruence|]. intros _. simpl. reflexivity. Qed.

(** The names with a suffix are different for different suffixes. *)
Lemma com_sufixo_inj (pasta base : str) (j k : nat) :
  com_sufixo pasta base j = com_sufixo pasta base k -> j = k.
Proof.
  unfold com_sufixo, path_join.
  assert (Hs : forall i, startswith (u "/") (base ++ u "_" ++ str_of_nat i ++ u ".pdf")
                         = startswith (u "/") ((base ++ u "_") ++ [])).
  { intros i. rewrite (List.app_assoc base). apply startswith_prefix.
    intros H. apply (f_equal (@length _)) in H. rewrite List.length_app in H.
    simpl in H. lia. }
  rewrite !Hs.
  assert (Hinj : forall pre : str,
             pre ++ base ++ u "_" ++ str_of_nat j ++ u ".pdf"
             = pre ++ base ++ u "_" ++ str_of_nat k ++ u ".pdf" -> j = k).
  { intros pre H. do 3 apply List.app_inv_head in H. apply List.app_inv_tail in H.
    now apply str_of_nat_inj. }
  destruct (startswith _ _); [apply (Hinj [])|].
  destruct pasta as [|a pasta]; [apply (Hinj [])|].
  destruct (_ =? _)%N; [apply Hinj|].
  rewrite !(List.app_assoc (a :: pasta) (u "/")). apply Hinj.
Qed.

Section Livre.
Variables (existe : str -> bool) (pasta base : str).

(** If the loop ends on a path that exists, every path that it tested
    exists. *)
Lemma livre_tested (fuel : nat) :
  forall dest k,
    existe (livre fuel existe pasta base dest k) = true ->
    fuel = 0
    \/ (existe dest = true
        /\ forall j, k <= j < k + (fuel - 1) -> existe (com_sufixo pasta base j) = true).
Proof.
  induction fuel as [|fuel IH]; intros dest k Hres; [now left|]. right.
  simpl in Hres. destruct (existe dest) eqn:Ed; [|congruence].
  split; [reflexivity|]. intros j Hj.
  destruct (IH _ _ Hres) as [->|[Hk Hrest]]; [lia|].
  destruct (Nat.eq_dec j k) as [->|Hne]; [exact Hk|]. apply Hrest. lia.
Qed.

(** The loop returns the path it was given when that path is free. *)
Lemma livre_free (fuel : nat) (dest : str) (k : nat) :
  existe dest = false -> livre fuel existe pasta base dest k = dest.
Proof. intros Hd. destruct fuel; [reflexivity|]. simpl. now rewrite Hd. Qed.

End Livre.

(** A set holds fewer different paths than its size plus one. *)
Lemma pigeonhole (fs : gset str) (l : list str) :
  List.NoDup l -> (forall x, In x l -> x ∈ fs) -> length l <= size fs.
Proof.
  intros Hnd Hin.
  assert (Hnd' : base.NoDup l) by (apply NoDup_ListNoDup; exact Hnd).
  rewrite <- (size_list_to_set (C := gset str) l Hnd').
  apply subseteq_size. intros x Hx. apply elem_of_list_to_set in Hx.
  apply Hin. apply list_elem_of_In. exact Hx.
Qed.

(** The destination is a path that does not exist. *)
Lemma destino_free (fs : gset str) (p : pagina) : destino fs p ∉ fs.
Proof.
  unfold destino. cbv zeta.
  set (pasta := path_join PASTA_SAIDA (pg_empresa p)).
  set (base := fst (splitext (pg_nome_arquivo p))).
  set (existe := fun d : str => bool_decide (d ∈ fs)).
  intros Hin.
  assert (Hres : existe (livre (2 + size fs) existe pasta base
                               (path_join pasta (pg_nome_arquivo p)) 1) = true).
  { unfold existe at 1. apply bool_decide_eq_true. exact Hin. }
  apply livre_tested in Hres. destruct Hres as [Hz|[_ Hall]]; [lia|].
  pose (l := map (com_sufixo pasta base) (seq 1 (S (size fs)))).
  assert (Hlen : length l <= size fs).
  { apply pigeonhole.
    - unfold l. apply Finite.Injective_map_NoDup; [|apply List.seq_NoDup].
      intros j k. apply com_sufixo_inj.
    - intros x Hx. unfold l in Hx. apply in_map_iff in Hx. destruct Hx as (j & <- & Hj).
      apply in_seq in Hj. specialize (Hall j). unfold existe in Hall.
      apply bool_decide_eq_true in Hall; [exact Hall|]. simpl. lia. }
  unfold l in Hlen. rewrite List.length_map, List.length_seq in Hlen. lia.
Qed.

Lemma destino_same (fs : gset str) (p : pagina) :
  path_join (path_join PASTA_SAIDA (pg_empresa p)) (pg_nome_arquivo p) ∉ fs ->
  destino fs p = path_join (path_join PASTA_SAIDA (pg_empresa p)) (pg_nome_arquivo p).
Proof.
  intros Hfree. unfold destino. cbv zeta. apply livre_free.
  apply bool_decide_eq_false. exact Hfree.
Qed.

(** The copies of a run go to different paths, none of which existed, and
    no file is lost. *)
Lemma copiar_spec (pgs : list pagina) :
  forall fs : gset str,
    let '(dests, fs') := copiar fs pgs in
    (length dests = length pgs
     /\ List.NoDup dests
     /\ (forall d, In d dests -> (d ∉ fs) /\ (d ∈ fs'))
     /\ (forall d, d ∈ fs -> d ∈ fs')).
Proof.
  induction pgs as [|p rest IH]; intros fs; simpl.
  - split; [reflexivity|]. split; [constructor|]. split; [intros d []|]. intros d Hd. exact Hd.
  - unfold safe_makedirs.
    set (fs1 := {[path_join PASTA_SAIDA (pg_empresa p)]} ∪ fs).
    pose proof (destino_free fs1 p) as Hfree.
    assert (Hfs1 : forall d, d ∈ fs -> d ∈ fs1).
    { intros d Hd. unfold fs1. apply elem_of_union. now right. }
    specialize (IH ({[destino fs1 p]} ∪ fs1)).
    destruct (copiar ({[destino fs1 p]} ∪ fs1) rest) as [dests fs'].
    destruct IH as (Hlen & Hnd & Hnew & Hsub).
    assert (Hdest : destino fs1 p ∈ fs').
    { apply Hsub. apply elem_of_union. left. now apply elem_of_singleton. }
    split; [simpl; now rewrite Hlen|]. split; [|split].
    + constructor; [|exact Hnd]. intros Hin. apply Hnew in Hin. destruct Hin as [Hin _].
      apply Hin. apply elem_of_union. left. now apply elem_of_singleton.
    + intros d [<-|Hd].
      * split; [|exact Hdest]. intros Hd. apply Hfree, Hfs1, Hd.
      * destruct (Hnew d Hd) as [Hn Hy]. split; [|exact Hy].
        intros Hx. apply Hn. apply elem_of_union. right. apply Hfs1, Hx.
    + intros d Hd. apply Hsub. apply elem_of_union. right. apply Hfs1, Hd.
Qed.

Lemma rfind_None (c : cp) (p : str) : ~ In c p -> rfind c p = None.
Proof.
  induction p as [|d p IH]; intros Hn; [reflexivity|]. simpl.
  rewrite IH by (intros H; apply Hn; now right).
  destruct (N.eqb_spec d c) as [->|_]; [|reflexivity]. exfalso. apply Hn. now left.
Qed.

Lemma rfind_last (c : cp) (x y : str) : ~ In c y -> rfind c (x ++ c :: y) = Some (length x).
Proof.
  intros Hn. induction x as [|d x IH]; simpl.
  - now rewrite (rfind_None c y Hn), N.eqb_refl.
  - now rewrite IH.
Qed.

(** The extension of a name that ends in ".pdf", has no folder and does not
    start with a point. *)
Lemma splitext_pdf (c : cp) (x : str) :
  c <> ch "." -> ~ In (ch "/") (c :: x) ->
  splitext ((c :: x) ++ u ".pdf") = (c :: x, u ".pdf").
Proof.
  intros Hc Hsep. unfold splitext.
  change (u ".pdf") with (ch "." :: u "pdf").
  rewrite (rfind_last (ch ".") (c :: x) (u "pdf")) by (vm_compute; intuition discriminate).
  rewrite (rfind_None (ch "/")).
  2:{ intros H. apply in_app_or in H. destruct H as [H|H]; [now apply Hsep|].
      revert H. vm_compute. intuition discriminate. }
  cbv zeta. rewrite Nat.sub_0_r. cbn [Nat.leb andb].
  change (skipn 0 ((c :: x) ++ ch "." :: u "pdf")) with ((c :: x) ++ ch "." :: u "pdf").
  rewrite !firstn_length_app, skipn_length_app.
  cbn [existsb]. apply N.eqb_neq in Hc. rewrite Hc. reflexivity.
Qed.

(** The loop returns the path it was given or a path with a suffix. *)
Lemma livre_form (existe : str -> bool) (pasta base : str) (fuel : nat) :
  forall dest k,
    livre fuel existe pasta base dest k = dest
    \/ exists j, k <= j /\ livre fuel existe pasta base dest k = com_sufixo pasta base j.
Proof.
  induction fuel as [|fuel IH]; intros dest k; [now left|]. simpl.
  destruct (existe dest); [|now left]. right.
  destruct (IH (com_sufixo pasta base k) (S k)) as [H|(j & Hj & H)].
  - exists k. split; [lia | exact H].
  - exists j. split; [lia | exact H].
Qed.

Lemma destino_form (fs : gset str) (p : pagina) :
  let pasta_empresa := path_join PASTA_SAIDA (pg_empresa p) in
  destino fs p = path_join pasta_empresa (pg_nome_arquivo p)
  \/ exists j, 1 <= j
       /\ destino fs p = com_sufixo pasta_empresa (fst (splitext (pg_nome_arquivo p))) j.
Proof. cbv zeta. unfold destino. cbv zeta. apply livre_form. Qed.

(** The first name with a suffix is taken when the name of the page exists
    and that one does not. *)
Lemma destino_sufixo (fs : gset str) (p : pagina) :
  let pasta_empresa := path_join PASTA_SAIDA (pg_empresa p) in
  let base_no_ext := fst (splitext (pg_nome_arquivo p)) in
  path_join pasta_empresa (pg_nome_arquivo p) ∈ fs ->
  com_sufixo pasta_empresa base_no_ext 1 ∉ fs ->
  destino fs p = com_sufixo pasta_empresa base_no_ext 1.
Proof.
  cbv zeta. intros Hin Hout. unfold destino. cbv zeta.
  change (2 + size fs) with (S (S (size fs))). cbn [livre].
  rewrite (bool_decide_eq_true_2 _ Hin), (bool_decide_eq_false_2 _ Hout). reflexivity.
Qed.

Lemma exemplo_destino :
  let p := esperado (u "URBANBOX") in
  destino ∅ p = u "saida/URBANBOX/MARIO_PASTORE - 8000,00.pdf"
  /\ destino {[u "saida/URBANBOX/MARIO_PASTORE - 8000,00.pdf"]} p
     = u "saida/URBANBOX/MARIO_PASTORE - 8000,00_1.pdf".
Proof.
  cbv zeta. split.
  - rewrite destino_same by apply not_elem_of_empty. vm_compute. reflexivity.
  - rewrite destino_sufixo.
    + vm_compute. reflexivity.
    + apply elem_of_singleton. vm_compute. reflexivity.
    + intros H. apply elem_of_singleton in H. revert H. vm_compute. discriminate.
Qed.

(** A scan that keeps a line only when it is longer than the one it has
    keeps the first of the longest lines. *)
Lemma longest_first (ok : str -> bool) (l : list str) :
  forall init : option str,
    match fold_left (manter ok) l init with
    | Some best =>
      (init = Some best /\ forall ln, In ln l -> ok ln = true -> length ln <= length best)
      \/ exists pre post,
           l = pre ++ best :: post /\ ok best = true
           /\ (forall b0, init = Some b0 -> length b0 < length best)
           /\ (forall ln, In ln pre -> ok ln = true -> length ln < length best)
           /\ (forall ln, In ln post -> ok ln = true -> length ln <= length best)
    | None => init = None /\ forall ln, In ln l -> ok ln = false
    end.
Proof.
  induction l as [|x l IH]; intros init.
  - cbn [fold_left]. destruct init as [b|].
    + left. split; [reflexivity|]. intros ln [].
    + split; [reflexivity|]. intros ln [].
  - cbn [fold_left]. set (step := manter ok) in *.
    specialize (IH (step init x)).
    assert (Hx : forall b1, step init x = Some b1 ->
                   (ok x = true -> length x <= length b1)
                   /\ (forall b0, init = Some b0 -> length b0 <= length b1)
                   /\ ((init = Some b1 /\ (ok x = true -> length x <= length b1))
                       \/ (b1 = x /\ ok x = true
                           /\ forall b0, init = Some b0 -> length b0 < length x))).
    { intros b1 Hb1. unfold step, manter in Hb1. destruct (ok x) eqn:Eok.
      - destruct init as [b|].
        + destruct (length b <? length x) eqn:El.
          * injection Hb1 as <-. apply Nat.ltb_lt in El.
            split; [lia|]. split.
            -- intros b0 Hb0. injection Hb0 as <-. lia.
            -- right. split; [reflexivity|]. split; [reflexivity|].
               intros b0 Hb0. injection Hb0 as <-. exact El.
          * injection Hb1 as <-. apply Nat.ltb_ge in El.
            split; [intros _; exact El|]. split.
            -- intros b0 Hb0. injection Hb0 as <-. lia.
            -- left. split; [reflexivity|]. intros _. exact El.
        + injection Hb1 as <-. split; [lia|]. split; [intros b0 Hb0; discriminate|].
          right. split; [reflexivity|]. split; [reflexivity|]. intros b0 Hb0. discriminate.
      - split; [intros Hf; discriminate|]. split.
        + intros b0 Hb0. rewrite Hb0 in Hb1. injection Hb1 as <-. lia.
        + left. split; [exact Hb1|]. intros Hf. discriminate. }
    destruct (fold_left step l (step init x)) as [best|].
    + destruct IH as [[Hi Hall]|(pre & post & Hl & Hok & Hinit & Hpre & Hpost)].
      * destruct (Hx best Hi) as (_ & _ & [[Hinit Hlx]|(Hbx & Hokx & Hlt)]).
        -- left. split; [exact Hinit|]. intros ln [<-|Hin] Hln; [now apply Hlx | now apply Hall].
        -- right. exists [], l. subst best. split; [reflexivity|]. split; [exact Hokx|].
           split; [exact Hlt|]. split; [intros ln []|exact Hall].
      * right. exists (x :: pre), post. split; [rewrite Hl; reflexivity|]. split; [exact Hok|].
        destruct (step init x) as [b1|] eqn:Es.
        -- destruct (Hx b1 eq_refl) as (Hlx & Hle & _).
           pose proof (Hinit b1 eq_refl) as Hb1.
           split; [intros b0 Hb0; specialize (Hle b0 Hb0); lia|].
           split; [|exact Hpost].
           intros ln [<-|Hin] Hln; [specialize (Hlx Hln); lia | now apply Hpre].
        -- assert (Hn : init = None /\ ok x = false).
           { unfold step, manter in Es. destruct (ok x); [destruct init as [b|]; [destruct (_ <? _)|]; discriminate|].
             split; [exact Es | reflexivity]. }
           destruct Hn as [Hn Hokx].
           split; [intros b0 Hb0; rewrite Hn in Hb0; discriminate|].
           split; [|exact Hpost].
           intros ln [<-|Hin] Hln; [rewrite Hokx in Hln; discriminate | now apply Hpre].
    + destruct IH as [Hs Hall].
      assert (Hn : init = None /\ ok x = false).
      { unfold step, manter in Hs. destruct (ok x); [destruct init as [b|]; [destruct (_ <? _)|]; discriminate|].
        split; [exact Hs | reflexivity]. }
      destruct Hn as [Hn Hokx]. split; [exact Hn|].
      intros ln [<-|Hin]; [exact Hokx | now apply Hall].
Qed.

Section First.
Context {U : UnicodeData}.

(** The fallback keeps the first of the longest lines that pass the tests. *)
Lemma melhor_linha_first (texto : str) :
  match V16.melhor_linha texto with
  | Some best =>
    exists pre post,
      linhas texto = pre ++ best :: post /\ linha_valida best = true
      /\ (forall ln, In ln pre -> linha_valida ln = true -> length ln < length best)
      /\ (forall ln, In ln post -> linha_valida ln = true -> length ln <= length best)
  | None => forall ln, In ln (linhas texto) -> linha_valida ln = false
  end.
Proof.
  rewrite melhor_linha_scan.
  pose proof (longest_first linha_valida (linhas texto) None) as Hs.
  change (manter linha_valida) with (fun (best : option str) (ln : str) =>
                 if linha_valida ln then
                   match best with
                   | None => Some ln
                   | Some b => if length b <? length ln then Some ln else best
                   end
                 else best) in Hs.
  destruct (fold_left _ (linhas texto) None) as [best|].
  - destruct Hs as [[Hf _]|(pre & post & Hl & Hok & _ & Hpre & Hpost)]; [discriminate|].
    exists pre, post. split; [exact Hl|]. split; [exact Hok|]. split; [exact Hpre | exact Hpost].
  - apply Hs.
Qed.

End First.


(** ** Summary theorems *)

(** X1: in both scripts the name that [sanitize_filename] returns is made
    of ASCII letters, ASCII digits and the signs "_", "-", "(", ")", "[" and
    "]" only; it holds no space, no slash, no backslash and no point. *)
Theorem X1_sanitize_filename_chars :
  forall (U : UnicodeData) (name : str),
    forallb safe_char (V16.sanitize_filename name) = true
    /\ forallb safe_char (Sanitized.sanitize_filename name) = true
    /\ Forall (fun c => ~ In c (V16.sanitize_filename name)
                        /\ ~ In c (Sanitized.sanitize_filename name))
              (u " /\.").
Proof.
  intros U name.
  pose proof (v16_sanitize_filename_safe name) as H16.
  pose proof (sanitized_sanitize_filename_safe name) as Hs.
  split; [exact H16|]. split; [exact Hs|].
  rewrite forallb_forall in H16, Hs.
  assert (Hout : forall c, safe_char c = false ->
                   ~ In c (V16.sanitize_filename name)
                   /\ ~ In c (Sanitized.sanitize_filename name)).
  { intros c Hc. split; intros Hin.
    - apply H16 in Hin. congruence.
    - apply Hs in Hin. congruence. }
  repeat (constructor; [apply Hout; reflexivity|]). constructor.
Qed.

(** X2: the two scripts write the set of characters of the first
    substitution of [sanitize_filename] differently and delete the same
    characters: their [sanitize_filename] and their [montar_nome] are the
    same functions. *)
Theorem X2_sanitize_filename_same :
  forall (U : UnicodeData),
    (forall name : str, V16.sanitize_filename name = Sanitized.sanitize_filename name)
    /\ (forall (benef valor : str) (contador : nat) (snippet : str),
          V16.montar_nome benef valor contador snippet
          = Sanitized.montar_nome benef valor contador snippet).
Proof.
  intros U. split.
  - apply sanitize_filename_same.
  - intros benef valor contador snippet.
    rewrite v16_montar_nome_shape, sanitized_montar_nome_shape.
    now rewrite sanitize_filename_same.
Qed.

(** X3: for a runtime in which the safe characters are neither whitespace
    nor combining marks and NFKD leaves them as they are, [sanitize_filename]
    returns a text of 1 to 60 safe characters as it is, and is therefore
    idempotent, in both scripts. *)
Theorem X3_sanitize_filename_idempotent :
  forall (U : UnicodeData),
    safe_plain ->
    (forall y : str,
       forallb safe_char y = true -> 1 <= length y <= MAX_NAME_LEN ->
       Sanitized.sanitize_filename y = y /\ V16.sanitize_filename y = y)
    /\ (forall name : str,
          Sanitized.sanitize_filename (Sanitized.sanitize_filename name)
          = Sanitized.sanitize_filename name
          /\ V16.sanitize_filename (V16.sanitize_filename name) = V16.sanitize_filename name).
Proof.
  intros U Hplain. split.
  - intros y Hy Hlen. rewrite sanitize_filename_same.
    split; apply sanitize_filename_fixed; assumption.
  - intros name. rewrite !sanitize_filename_same.
    split; apply sanitize_filename_twice; exact Hplain.
Qed.

(** X3 on the Latin-1 runtime, at a name with an accent, a slash and spaces. *)
Lemma X3_witness :
  let name := u "  José da Silva / ME  " in
  Sanitized.sanitize_filename name = u "Jose_da_Silva_ME"
  /\ Sanitized.sanitize_filename (Sanitized.sanitize_filename name)
     = Sanitized.sanitize_filename name
  /\ V16.sanitize_filename (u "Jose_da_Silva_ME") = u "Jose_da_Silva_ME".
Proof.
  cbv zeta. destruct (X3_sanitize_filename_idempotent Latin1.unicode latin1_safe_plain)
    as [Hfix Htwice].
  split; [vm_compute; reflexivity|]. split.
  - exact (proj1 (Htwice _)).
  - refine (proj2 (Hfix (u "Jose_da_Silva_ME") _ _)); [vm_compute; reflexivity | vm_compute; lia].
Defined.

(** X4: [extrair_linha_digitavel] returns the empty text or a run of 20 to
    60 ASCII digits, so that the snippet that [main] puts in a file name is
    empty or made of exactly [BARCODE_TAIL_LEN] (6) ASCII digits: the branch
    for a shorter run is never taken. *)
Theorem X4_linha_digitavel :
  forall (U : UnicodeData) (texto : str),
    (exists seq, extrair_linha_digitavel texto = Ok seq
       /\ (seq = [] \/ (20 <= length seq <= 60 /\ forallb Parse.is_ascii_digit seq = true)))
    /\ (exists sn, V16.snippet_de texto = Ok sn
          /\ (sn = [] \/ (length sn = BARCODE_TAIL_LEN
                          /\ forallb Parse.is_ascii_digit sn = true)))
    /\ (exists sn, Sanitized.snippet_de texto = Ok sn
          /\ (sn = [] \/ (length sn = BARCODE_TAIL_LEN
                          /\ forallb Parse.is_ascii_digit sn = true))).
Proof.
  intros U texto. split; [|split].
  - destruct (extrair_linha_digitavel_ok texto) as [seq Hseq].
    exists seq. split; [exact Hseq|]. now apply extrair_linha_digitavel_digits with (texto := texto).
  - destruct (v16_snippet_de_ok texto) as [sn Hsn].
    exists sn. split; [exact Hsn|]. now apply v16_snippet_de_digits with (texto := texto).
  - destruct (sanitized_snippet_de_ok texto) as [sn Hsn].
    exists sn. split; [exact Hsn|]. now apply sanitized_snippet_de_digits with (texto := texto).
Qed.

(** X5: for a runtime in which digits, points and commas have no case, the
    amount that the sanitized script returns is "VALOR_NAO_ENCONTRADO" or a
    text of digits and commas, and the amount that the v16 script returns
    is "VALOR_NAO_ENCONTRADO" or a text of digits, commas and points. *)
Theorem X5_extrair_valor_chars :
  forall (U : UnicodeData) (F : FloatParse),
    amounts_caseless ->
    forall texto : str,
      (exists v, Sanitized.extrair_valor texto = Ok v
         /\ (v = VALOR_NAO_ENCONTRADO \/ forallb display_char v = true))
      /\ (exists v, V16.extrair_valor texto = Ok v
            /\ (v = VALOR_NAO_ENCONTRADO \/ forallb amount_char v = true)).
Proof.
  intros U F Hcase texto. split.
  - destruct (sanitized_extrair_valor_ok texto) as [v Hv].
    exists v. split; [exact Hv|]. now apply sanitized_extrair_valor_chars with (texto := texto).
  - destruct (v16_extrair_valor_ok texto) as [v Hv].
    exists v. split; [exact Hv|]. now apply v16_extrair_valor_chars with (texto := texto).
Qed.

(** X5 on the Latin-1 runtime, at a receipt with a labelled amount and at a
    Bradesco PIX amount. *)
Lemma X5_witness :
  (exists v, Sanitized.extrair_valor (u "Valor total: R$ 1.250,90") = Ok v
     /\ (v = VALOR_NAO_ENCONTRADO \/ forallb display_char v = true))
  /\ Sanitized.extrair_valor (u "Valor total: R$ 1.250,90") = Ok (u "1250,90")
  /\ V16.extrair_valor (u "12.345.678/0001-99 1.250,90 R$0,00") = Ok (u "1.250,90").
Proof.
  split; [|split; vm_compute; reflexivity].
  exact (proj1 (X5_extrair_valor_chars Latin1.unicode Decimal.decimal_float
                  latin1_amounts_caseless (u "Valor total: R$ 1.250,90"))).
Defined.

(** X6: for a runtime in which digits, points and commas have no case,
    every file name of a run of either script is made of safe characters,
    digits, spaces, commas and points only; when the slash is no digit, no
    file name holds a slash, so that the copy stays in the folder of the
    payer. *)
Theorem X6_nome_arquivo_chars :
  forall (U : UnicodeData) (F : FloatParse),
    amounts_caseless ->
    forall partes : list (list str),
      (exists pgs, V16.main partes = Ok pgs
         /\ Forall (fun p => forallb nome_char (pg_nome_arquivo p) = true
                             /\ (is_digit (ch "/") = false -> ~ In (ch "/") (pg_nome_arquivo p)))
                   pgs)
      /\ (exists pgs, Sanitized.main partes = Ok pgs
            /\ Forall (fun p => forallb nome_char (pg_nome_arquivo p) = true
                                /\ (is_digit (ch "/") = false
                                    -> ~ In (ch "/") (pg_nome_arquivo p)))
                      pgs).
Proof.
  intros U F Hcase partes.
  assert (Hsep : forall s : str, forallb nome_char s = true ->
                   forallb nome_char s = true
                   /\ (is_digit (ch "/") = false -> ~ In (ch "/") s)).
  { intros s Hs. split; [exact Hs|]. intros Hd.
    apply nome_char_absent; [reflexivity | exact Hd | exact Hs]. }
  split.
  - destruct (v16_main_ok partes) as [pgs Hp]. exists pgs. split; [exact Hp|].
    eapply List.Forall_impl; [|apply (v16_processar_chars Hcase partes ∅ pgs Hp)].
    intros p. apply Hsep.
  - destruct (sanitized_processar_numbers partes ∅ [] conta_empty) as (pgs & Hp & _).
    exists pgs. split; [exact Hp|].
    eapply List.Forall_impl; [|apply (sanitized_processar_chars Hcase partes ∅ pgs Hp)].
    intros p. apply Hsep.
Qed.

(** X6 on the Latin-1 runtime, at a receipt whose beneficiary is written
    with a slash. *)
Lemma X6_witness :
  let texto := u "Favorecido: ACME S/A LTDA CNPJ 1 Valor: R$ 10,00" in
  exists p, Sanitized.main [[texto]] = Ok [p]
    /\ forallb nome_char (pg_nome_arquivo p) = true
    /\ ~ In (ch "/") (pg_nome_arquivo p).
Proof.
  cbv zeta.
  destruct (proj2 (X6_nome_arquivo_chars Latin1.unicode Decimal.decimal_float
                     latin1_amounts_caseless
                     [[u "Favorecido: ACME S/A LTDA CNPJ 1 Valor: R$ 10,00"]]))
    as (pgs & Hp & Hall).
  assert (Hrun : exists p, Sanitized.main [[u "Favorecido: ACME S/A LTDA CNPJ 1 Valor: R$ 10,00"]]
                           = Ok [p]).
  { eexists. vm_compute. reflexivity. }
  destruct Hrun as [p Hrun]. exists p. split; [exact Hrun|].
  rewrite Hrun in Hp. injection Hp as <-.
  apply List.Forall_inv in Hall. destruct Hall as [Hc Hs].
  split; [exact Hc | apply Hs; reflexivity].
Defined.

(** X7: an amount that either script returns denotes a positive number:
    without its points and with a point for its comma, [float] parses it to
    a value greater than zero.  An amount of zero, such as the fee "R$0,00",
    is never returned. *)
Theorem X7_extrair_valor_positive :
  forall (U : UnicodeData) (F : FloatParse) (texto : str),
    (exists v, Sanitized.extrair_valor texto = Ok v
       /\ (v = VALOR_NAO_ENCONTRADO
           \/ exists x, float_of (leitura v) = Some x /\ float_pos x = true))
    /\ (exists v, V16.extrair_valor texto = Ok v
          /\ (v = VALOR_NAO_ENCONTRADO
              \/ exists x, float_of (leitura v) = Some x /\ float_pos x = true)).
Proof.
  intros U F texto. split.
  - destruct (sanitized_extrair_valor_ok texto) as [v Hv].
    exists v. split; [exact Hv|]. now apply sanitized_extrair_valor_parses with (texto := texto).
  - destruct (v16_extrair_valor_ok texto) as [v Hv].
    exists v. split; [exact Hv|]. now apply v16_extrair_valor_parses with (texto := texto).
Qed.

(** X8: in the v16 script a Bradesco PIX amount, the only candidate of
    priority 0, is returned as it was captured whenever there is one,
    whatever labelled amounts the text has. *)
Theorem X8_bradesco_pix_first :
  forall (U : UnicodeData) (F : FloatParse) (texto : str),
    exists l, V16.valores_encontrados texto = Ok l
      /\ forall c, In c l -> prioridade c = 0 -> texto <> [] ->
           V16.extrair_valor texto = Ok (valor c).
Proof.
  intros U F texto. destruct (v16_valores_encontrados_ok texto) as [l Hl].
  exists l. split; [exact Hl|]. intros c Hc Hprio Hne.
  now apply v16_prioridade_zero with (l := l).
Qed.

(** X8 on the Latin-1 runtime: the amount before "R$0,00" wins over the
    labelled amount. *)
Lemma X8_witness :
  let texto := u "Valor principal: R$ 5,00 12.345.678/0001-99 1.250,90 R$0,00" in
  V16.extrair_valor texto = Ok (u "1.250,90").
Proof.
  cbv zeta.
  destruct (X8_bradesco_pix_first Latin1.unicode Decimal.decimal_float
              (u "Valor principal: R$ 5,00 12.345.678/0001-99 1.250,90 R$0,00"))
    as (l & Hl & Hfirst).
  assert (Hc : exists c rest, l = c :: rest /\ prioridade c = 0 /\ valor c = u "1.250,90").
  { assert (Hex : exists c rest,
               V16.valores_encontrados
                 (u "Valor principal: R$ 5,00 12.345.678/0001-99 1.250,90 R$0,00")
               = Ok (c :: rest) /\ prioridade c = 0 /\ valor c = u "1.250,90").
    { do 2 eexists. split; [vm_compute; reflexivity|]. split; reflexivity. }
    destruct Hex as (c & rest & Hv & Hp & Hval). rewrite Hv in Hl. injection Hl as <-.
    exists c, rest. split; [reflexivity|]. split; assumption. }
  destruct Hc as (c & rest & -> & Hp & Hval). rewrite <- Hval.
  apply Hfirst; [left; reflexivity | exact Hp | discriminate].
Defined.

(** X9: in both scripts the candidate of the "Controle de Pagamento"
    pattern, the only one with the score 22, is the beneficiary whenever
    there is one, whatever the other patterns find. *)
Theorem X9_controle_first :
  forall (U : UnicodeData) (F : FloatParse) (texto : str),
    (exists l, V16.candidatos texto = Ok l
       /\ forall c, In c l -> score c = 22 -> texto <> [] ->
            V16.extrair_beneficiario texto = Ok (nome c))
    /\ (exists l, Sanitized.candidatos texto = Ok l
          /\ forall c, In c l -> score c = 22 -> texto <> [] ->
               Sanitized.extrair_beneficiario texto = Ok (nome c)).
Proof.
  intros U F texto. split.
  - destruct (v16_candidatos_ok texto) as [l Hl]. exists l. split; [exact Hl|].
    intros c Hc Hs Hne. now apply v16_controle_wins with (l := l).
  - destruct (sanitized_candidatos_ok texto) as [l Hl]. exists l. split; [exact Hl|].
    intros c Hc Hs Hne. now apply sanitized_controle_wins with (l := l).
Qed.

(** X9 on the Latin-1 runtime: the name of "Controle de Pagamento" wins
    over the name after "Favorecido". *)
Lemma X9_witness :
  let texto :=
    u "Favorecido: OUTRA EMPRESA LTDA CNPJ 1 Controle de Pagamento Beneficiário: MARIO PASTORE CPF/CNPJ: 1" in
  Sanitized.extrair_beneficiario texto = Ok (u "MARIO PASTORE").
Proof.
  cbv zeta.
  destruct (proj2 (X9_controle_first Latin1.unicode Decimal.decimal_float
    (u "Favorecido: OUTRA EMPRESA LTDA CNPJ 1 Controle de Pagamento Beneficiário: MARIO PASTORE CPF/CNPJ: 1")))
    as (l & Hl & Hfirst).
  assert (Hex : exists c rest,
             Sanitized.candidatos
               (u "Favorecido: OUTRA EMPRESA LTDA CNPJ 1 Controle de Pagamento Beneficiário: MARIO PASTORE CPF/CNPJ: 1")
             = Ok (c :: rest) /\ score c = 22 /\ nome c = u "MARIO PASTORE").
  { do 2 eexists. split; [vm_compute; reflexivity|]. split; reflexivity. }
  destruct Hex as (c & rest & Hv & Hs & Hn). rewrite Hv in Hl. injection Hl as <-.
  rewrite <- Hn. apply Hfirst; [left; reflexivity | exact Hs | discriminate].
Defined.

Section Runs.
Context {U : UnicodeData} {F : FloatParse}.

(** What holds of the page of every part holds of the pages of a run. *)
Lemma sanitized_processar_all (P : pagina -> Prop) :
  (forall pages contador p contador',
     Sanitized.processar_parte pages contador = Ok (p, contador') -> P p) ->
  forall partes contador pgs,
    Sanitized.processar partes contador = Ok pgs -> List.Forall P pgs.
Proof.
  intros HP. induction partes as [|pages rest IH]; intros contador pgs Hp; simpl in Hp.
  - inversion Hp. constructor.
  - destruct (Sanitized.processar_parte pages contador) as [[p c']|e] eqn:E1; [|discriminate].
    cbv beta iota delta [bind] in Hp. cbn [fst snd] in Hp.
    destruct (Sanitized.processar rest c') as [rs|e] eqn:E2; [|discriminate].
    inversion Hp; subst pgs. constructor; [eapply HP, E1 | eapply IH, E2].
Qed.

Lemma v16_processar_all (P : pagina -> Prop) :
  (forall pages contador p contador',
     V16.processar_parte pages contador = Ok (p, contador') -> P p) ->
  forall partes contador pgs,
    V16.processar partes contador = Ok pgs -> List.Forall P pgs.
Proof.
  intros HP. induction partes as [|pages rest IH]; intros contador pgs Hp; simpl in Hp.
  - inversion Hp. constructor.
  - destruct (V16.processar_parte pages contador) as [[p c']|e] eqn:E1; [|discriminate].
    cbv beta iota delta [bind] in Hp. cbn [fst snd] in Hp.
    destruct (V16.processar rest c') as [rs|e] eqn:E2; [|discriminate].
    inversion Hp; subst pgs. constructor; [eapply HP, E1 | eapply IH, E2].
Qed.

Lemma sanitized_main_ok partes : never_raises (Sanitized.main partes).
Proof.
  destruct (sanitized_processar_numbers partes ∅ [] conta_empty) as (pgs & Hp & _).
  exists pgs. exact Hp.
Qed.

End Runs.

(** X10: the beneficiary of every page of a run is "FORNECEDOR_DESCONHECIDO"
    or a text that the validator accepted at [min_len] 5 (in the v16 script,
    as it is or before its surrounding whitespace was stripped); in the
    sanitized script it has therefore at least 5 characters and its
    upper-case form holds none of the in-house names. *)
Theorem X10_beneficiario_validado :
  forall (U : UnicodeData) (F : FloatParse) (partes : list (list str)),
    (exists pgs, V16.main partes = Ok pgs
       /\ Forall (fun p => pg_beneficiario p = FORNECEDOR_DESCONHECIDO
                           \/ validado V16.validar_nome (pg_beneficiario p)) pgs)
    /\ (exists pgs, Sanitized.main partes = Ok pgs
          /\ Forall (fun p =>
                       pg_beneficiario p = FORNECEDOR_DESCONHECIDO
                       \/ (Sanitized.validar_nome (pg_beneficiario p) 5 = true
                           /\ 5 <= length (pg_beneficiario p)
                           /\ forall emp, In emp Sanitized.empresas_sistema ->
                                contains emp (str_upper (pg_beneficiario p)) = false))
                    pgs).
Proof.
  intros U F partes. split.
  - destruct (v16_main_ok partes) as [pgs Hp]. exists pgs. split; [exact Hp|].
    apply (v16_processar_all _ (@v16_processar_parte_valid U F) partes ∅ pgs Hp).
  - destruct (sanitized_main_ok partes) as [pgs Hp]. exists pgs. split; [exact Hp|].
    refine (sanitized_processar_all _ _ partes ∅ pgs Hp).
    intros pages contador p contador' Hpp.
    destruct (sanitized_processar_parte_valid _ _ _ _ Hpp) as [Hs|Hv]; [now left|].
    right. split; [exact Hv|]. apply sanitized_validar_nome_true, Hv.
Qed.

(** X11: [tratar_fornecedor_desconhecido] returns the candidate of the first
    entry of [padroes] that gives one (the scores of [padroes] decrease, so
    the sort changes nothing), each candidate being a validated text,
    stripped; the longest line is used only when no entry gives a candidate,
    and "FORNECEDOR_DESCONHECIDO" is returned when there is none either. *)
Theorem X11_tratar_first :
  forall (U : UnicodeData) (texto : str),
    exists cs, candidatos_dos_padroes texto = Ok cs
      /\ Forall (fun c => exists n, V16.validar_nome n 5 = true /\ fst c = strip n) cs
      /\ (texto <> [] ->
          V16.tratar_fornecedor_desconhecido texto
          = Ok match cs with
               | c :: _ => strip (fst c)
               | [] =>
                 match V16.melhor_linha texto with
                 | Some best => strip (strip best)
                 | None => FORNECEDOR_DESCONHECIDO
                 end
               end)
      /\ V16.tratar_fornecedor_desconhecido [] = Ok FORNECEDOR_DESCONHECIDO.
Proof.
  intros U texto. destruct (candidatos_dos_padroes_ok texto) as [cs Hcs].
  exists cs. split; [exact Hcs|]. split; [apply (candidatos_dos_padroes_spec texto cs Hcs)|].
  split; [|reflexivity]. intros Hne. now apply tratar_fornecedor_desconhecido_first.
Qed.

(** X11 on the Latin-1 runtime: the name after "Favorecido" (score 90) comes
    before the name after "Para" (score 80). *)
Lemma X11_witness :
  let texto := u "Para: JOAO DA SILVA. Favorecido: MARIA SOUZA" in
  V16.tratar_fornecedor_desconhecido texto = Ok (u "MARIA SOUZA").
Proof.
  cbv zeta.
  destruct (X11_tratar_first Latin1.unicode (u "Para: JOAO DA SILVA. Favorecido: MARIA SOUZA"))
    as (cs & Hcs & _ & Hfirst & _).
  assert (Hex : exists c rest,
             candidatos_dos_padroes (u "Para: JOAO DA SILVA. Favorecido: MARIA SOUZA")
             = Ok (c :: rest) /\ strip (fst c) = u "MARIA SOUZA").
  { do 2 eexists. split; [vm_compute; reflexivity|]. vm_compute. reflexivity. }
  destruct Hex as (c & rest & Hv & Hc). rewrite Hv in Hcs. injection Hcs as <-.
  rewrite <- Hc. apply Hfirst. discriminate.
Defined.

(** X12: the fallback of [tratar_fornecedor_desconhecido] keeps, of the
    stripped non-empty lines of the text that pass its tests (at least 6
    characters, a letter, no technical word, a valid name), the first of the
    longest ones, and nothing when no line passes them. *)
Theorem X12_melhor_linha :
  forall (U : UnicodeData) (texto : str),
    match V16.melhor_linha texto with
    | Some best =>
      exists pre post,
        linhas texto = pre ++ best :: post
        /\ linha_valida best = true /\ V16.validar_nome best 5 = true /\ 6 <= length best
        /\ (forall ln, In ln pre -> linha_valida ln = true -> length ln < length best)
        /\ (forall ln, In ln post -> linha_valida ln = true -> length ln <= length best)
    | None => forall ln, In ln (linhas texto) -> linha_valida ln = false
    end.
Proof.
  intros U texto. pose proof (melhor_linha_first texto) as Hs.
  destruct (V16.melhor_linha texto) as [best|]; [|exact Hs].
  destruct Hs as (pre & post & Hl & Hok & Hpre & Hpost). exists pre, post.
  split; [exact Hl|]. split; [exact Hok|].
  split; [apply linha_valida_nome, Hok|]. split; [|split; [exact Hpre | exact Hpost]].
  unfold linha_valida in Hok. cbv zeta in Hok.
  rewrite !andb_true_iff in Hok. destruct Hok as [[[Hlen _] _] _].
  apply Nat.leb_le, Hlen.
Qed.

(** On the Latin-1 runtime: of two lines of the same length the first
    is kept, and a line with a technical word is passed over. *)
Lemma melhor_linha_exemplo :
  V16.melhor_linha (u "CONTA CORRENTE DO CLIENTE" ++ [10%N] ++ u "PADARIA SOL" ++ [10%N] ++ u "PADARIA LUA")
  = Some (u "PADARIA SOL").
Proof. vm_compute. reflexivity. Qed.

(** X13: when the aliases are written in upper case, the payer of the v16
    script is LIFE_SCIENCE if the upper-case text holds "LIFE SCIENCE",
    else URBANBOX if it holds "URBANBOX", else PHARMACEUTICAL if it holds
    "FARMAUSA PHARMACEUTICAL", else OUTROS: the aliases "FARMAUSA LIFE
    SCIENCE" and "FARMAUSA PHARMACEUTICAL LTDA" never decide. *)
Theorem X13_identificar_empresa :
  forall (U : UnicodeData),
    aliases_upper V16.EMPRESAS ->
    forall texto : str,
      V16.identificar_empresa texto
      = if contains (u "LIFE SCIENCE") (str_upper texto) then u "LIFE_SCIENCE"
        else if contains (u "URBANBOX") (str_upper texto) then u "URBANBOX"
        else if contains (u "FARMAUSA PHARMACEUTICAL") (str_upper texto)
             then u "PHARMACEUTICAL"
        else OUTROS.
Proof.
  intros U Hup texto. apply v16_identificar_empresa_table. exact Hup.
Qed.

(** X13 on the Latin-1 runtime: a text that names two payers. *)
Lemma X13_witness :
  V16.identificar_empresa (u "De: Urbanbox Ltda. Para: Farmausa Life Science") = u "LIFE_SCIENCE".
Proof.
  rewrite (X13_identificar_empresa Latin1.unicode latin1_aliases_upper).
  vm_compute. reflexivity.
Defined.

(** X14: on the Latin-1 runtime, a part from which no text is extracted
    (no page, or pages without text) is reported by both scripts under the
    payer OUTROS with the beneficiary "FORNECEDOR_DESCONHECIDO" and the
    amount "VALOR_NAO_ENCONTRADO"; its file name is
    "FORNECEDOR_DESCONHECIDO - VALOR_NAO_ENCONTRADO.pdf", with the prefix of
    its occurrence number from the second such part on. *)
Theorem X14_parte_sem_texto :
  forall (F : FloatParse) (n : nat) (contador : gmap (str * str * str) nat),
    let cnt := S (default 0 (contador !! chave_vazia)) in
    V16.processar_parte (repeat [] n) contador
    = Ok (pagina_vazia cnt, <[chave_vazia := cnt]> contador)
    /\ Sanitized.processar_parte (repeat [] n) contador
       = Ok (pagina_vazia cnt, <[chave_vazia := cnt]> contador)
    /\ chave (pagina_vazia cnt) = chave_vazia.
Proof.
  intros F n contador. cbv zeta. split; [|split].
  - apply v16_parte_vazia.
  - apply sanitized_parte_vazia.
  - reflexivity.
Qed.

(** X15: the destination of a copy is a path that does not exist: the name
    of the page in the folder of the payer when that path is free, and
    otherwise the name with a suffix "_1", "_2", ... before ".pdf".  In a
    run no copy takes the place of a file that existed or of an earlier
    copy: the destinations are as many as the pages, different from each
    other and new, and every file that existed is still there. *)
Theorem X15_destino :
  (forall (fs : gset str) (p : pagina),
     let pasta_empresa := path_join PASTA_SAIDA (pg_empresa p) in
     let dest := path_join pasta_empresa (pg_nome_arquivo p) in
     (destino fs p ∉ fs)
     /\ (dest ∉ fs -> destino fs p = dest)
     /\ (destino fs p = dest
         \/ exists j, 1 <= j
              /\ destino fs p
                 = com_sufixo pasta_empresa (fst (splitext (pg_nome_arquivo p))) j))
  /\ (forall (fs : gset str) (pgs : list pagina),
        length (fst (copiar fs pgs)) = length pgs
        /\ List.NoDup (fst (copiar fs pgs))
        /\ (forall d, In d (fst (copiar fs pgs)) -> (d ∉ fs) /\ (d ∈ snd (copiar fs pgs)))
        /\ (forall d, d ∈ fs -> d ∈ snd (copiar fs pgs)))
  /\ (forall (c : cp) (x : str),
        c <> ch "." -> ~ In (ch "/") (c :: x) ->
        splitext ((c :: x) ++ u ".pdf") = (c :: x, u ".pdf"))
  /\ (let p := esperado (u "URBANBOX") in
      destino ∅ p = u "saida/URBANBOX/MARIO_PASTORE - 8000,00.pdf"
      /\ destino {[u "saida/URBANBOX/MARIO_PASTORE - 8000,00.pdf"]} p
         = u "saida/URBANBOX/MARIO_PASTORE - 8000,00_1.pdf").
Proof.
  split; [|split; [|split]].
  - intros fs p. cbv zeta. split; [apply destino_free|].
    split; [apply destino_same | apply destino_form].
  - intros fs pgs. pose proof (copiar_spec pgs fs) as Hs.
    destruct (copiar fs pgs) as [dests fs']. exact Hs.
  - apply splitext_pdf.
  - apply exemplo_destino.
Qed.

(** X16: for the same beneficiary, amount and snippet, different occurrence
    numbers give different file names, in both scripts. *)
Theorem X16_montar_nome_numbers :
  forall (U : UnicodeData) (benef valor snippet : str) (n m : nat),
    1 <= n -> 1 <= m -> n <> m ->
    Sanitized.montar_nome benef valor n snippet <> Sanitized.montar_nome benef valor m snippet
    /\ V16.montar_nome benef valor n snippet <> V16.montar_nome benef valor m snippet.
Proof.
  intros U benef valor snippet n m Hn Hm Hne.
  split; intros Heq; apply Hne.
  - rewrite !sanitized_montar_nome_shape in Heq. apply List.app_inv_tail in Heq.
    now apply prefixo_inj.
  - rewrite !v16_montar_nome_shape in Heq. apply List.app_inv_tail in Heq.
    now apply prefixo_inj.
Qed.

(** X16 on the Latin-1 runtime: the first and the second occurrence. *)
Lemma X16_witness :
  Sanitized.montar_nome (u "MARIO PASTORE") (u "8000,00") 1 []
  <> Sanitized.montar_nome (u "MARIO PASTORE") (u "8000,00") 2 [].
Proof.
  apply (X16_montar_nome_numbers Latin1.unicode (u "MARIO PASTORE") (u "8000,00") [] 1 2); lia.
Defined.

(** * The first-registered candidate of the highest score

    The decision of [extrair_beneficiario] over the candidates that the
    detectors register for a text. *)

(** ** The texts that an expression can consume *)

Section Shapes.
Context {U : UnicodeData}.
Variables (fl : flags) (Q : str -> Prop) (i : nat).

Lemma estrela_concat (P : str -> Prop) a b : estrela P a -> estrela P b -> estrela P (a ++ b).
Proof.
  induction 1 as [|x y Hx Hy IH]; intros Hb; [exact Hb|].
  rewrite <- List.app_assoc. constructor; [exact Hx | apply IH, Hb].
Qed.

Lemma andou_refl (P : str -> Prop) s : P [] -> andou P s s.
Proof. intros HP. exists []. simpl. repeat split; [lia | exact HP]. Qed.

Lemma andou_step (P : str -> Prop) s c rest :
  m_rest s = c :: rest -> P [c] -> andou P s (step s c rest).
Proof. intros Hr Hc. exists [c]. simpl. repeat split; [exact Hr | lia | exact Hc]. Qed.

Lemma andou_trans (P1 P2 P : str -> Prop) s1 s2 s3 :
  (forall a b, P1 a -> P2 b -> P (a ++ b)) ->
  andou P1 s1 s2 -> andou P2 s2 s3 -> andou P s1 s3.
Proof.
  intros HP (c1 & Hr1 & Hp1 & Hc1) (c2 & Hr2 & Hp2 & Hc2). exists (c1 ++ c2).
  repeat split.
  - rewrite Hr1, Hr2. now rewrite List.app_assoc.
  - rewrite Hp2, Hp1, List.length_app. lia.
  - apply HP; assumption.
Qed.

(** A successful run reaches its continuation after a text of the shape of
    the expression, in a state where group [i] holds a text that satisfies
    [Q] when it did before. *)
Lemma run_forma (r : regex) :
  grupos_forma fl Q i r ->
  forall k s res,
    run fl r k s = Some res ->
    exists s', k s' = Some res
               /\ (grupo_em Q i s -> grupo_em Q i s')
               /\ andou (forma fl r) s s'.
Proof.
  induction r as [| |c| |neg items|r1 IH1 r2 IH2|r1 IH1 r2 IH2|lo hi greedy r IH
                  |j r IH| | | |r IH];
    intros Hcap k s res Hrun; simpl in Hrun.
  - exists s. repeat split; [exact Hrun | tauto | now apply andou_refl].
  - discriminate.
  - apply take_step in Hrun. destruct Hrun as (x & rest & Hr & Hx & Hk).
    exists (step s x rest). repeat split; [exact Hk | tauto |].
    apply andou_step; [exact Hr|]. exists x. split; [reflexivity | exact Hx].
  - apply take_step in Hrun. destruct Hrun as (x & rest & Hr & Hx & Hk).
    exists (step s x rest). repeat split; [exact Hk | tauto |].
    apply andou_step; [exact Hr|]. exists x. reflexivity.
  - apply take_step in Hrun. destruct Hrun as (x & rest & Hr & Hx & Hk).
    exists (step s x rest). repeat split; [exact Hk | tauto |].
    apply andou_step; [exact Hr|]. exists x. split; [reflexivity | exact Hx].
  - destruct Hcap as [Hcap1 Hcap2].
    apply (IH1 Hcap1) in Hrun. destruct Hrun as (s1 & Hrun2 & Hc1 & Hm1).
    apply (IH2 Hcap2) in Hrun2. destruct Hrun2 as (s2 & Hk & Hc2 & Hm2).
    exists s2. repeat split; [exact Hk | tauto |].
    eapply andou_trans; [|exact Hm1|exact Hm2].
    intros a b Ha Hb. exists a, b. repeat split; assumption.
  - destruct Hcap as [Hcap1 Hcap2].
    destruct (run fl r1 k s) as [res1|] eqn:E1.
    + inversion Hrun; subst res1.
      apply (IH1 Hcap1) in E1. destruct E1 as (s' & Hk & Hc & Hm).
      exists s'. repeat split; [exact Hk | exact Hc |].
      destruct Hm as (w & Hw1 & Hw2 & Hw3). exists w. repeat split; try assumption.
      left. exact Hw3.
    + apply (IH2 Hcap2) in Hrun. destruct Hrun as (s' & Hk & Hc & Hm).
      exists s'. repeat split; [exact Hk | exact Hc |].
      destruct Hm as (w & Hw1 & Hw2 & Hw3). exists w. repeat split; try assumption.
      right. exact Hw3.
  - simpl in Hcap.
    apply (rep_loop_rel
             (fun s s' => (grupo_em Q i s -> grupo_em Q i s')
                          /\ andou (estrela (forma fl r)) s s'))
      in Hrun.
    + destruct Hrun as (s' & Hk & Hc & Hm). exists s'. repeat split; assumption.
    + intros s0. split; [tauto | apply andou_refl; constructor].
    + intros s1 s2 s3 [Hc1 Hm1] [Hc2 Hm2]. split; [tauto|].
      eapply andou_trans; [|exact Hm1|exact Hm2]. apply estrela_concat.
    + intros k' s0 res0 Hb. apply (IH Hcap) in Hb. destruct Hb as (s' & Hk & Hc & Hm).
      exists s'. repeat split; [exact Hk | exact Hc |].
      destruct Hm as (w & Hw1 & Hw2 & Hw3). exists w. repeat split; try assumption.
      rewrite <- (List.app_nil_r w). constructor; [exact Hw3 | constructor].
  - destruct Hcap as [Hji Hcap].
    apply (IH Hcap) in Hrun. destruct Hrun as (s1 & Hk & Hc & Hm).
    exists (set_group j s s1). repeat split; [exact Hk | |].
    + intros Hs g. unfold set_group. cbn [m_caps assoc].
      destruct (i =? j) eqn:Eij.
      * apply Nat.eqb_eq in Eij. intros Hg. inversion Hg; subst g.
        destruct Hm as (consumed & Hr & Hp & Hall).
        rewrite Hp, Hr. replace (m_pos s + length consumed - m_pos s) with (length consumed) by lia.
        rewrite firstn_length_app. apply (Hji (eq_sym Eij)), Hall.
      * apply Hc, Hs.
    + destruct Hm as (consumed & Hr & Hp & Hall).
      exists consumed. repeat split; assumption.
  - destruct (m_prev s); [discriminate|].
    exists s. repeat split; [exact Hrun | tauto | now apply andou_refl].
  - exists s. repeat split; [| tauto | now apply andou_refl].
    destruct (m_rest s) as [|c [|d rest]]; [exact Hrun | | discriminate].
    destruct (c =? 10)%N; [exact Hrun | discriminate].
  - destruct (xorb (word_before s) (word_after s)); [|discriminate].
    exists s. repeat split; [exact Hrun | tauto | now apply andou_refl].
  - destruct (run fl r Some s); [discriminate|].
    exists s. repeat split; [exact Hrun | tauto | now apply andou_refl].
Qed.

Lemma match_here_forma r prev rest pos m g :
  grupos_forma fl Q i r ->
  match_here fl r prev rest pos = Some m -> group m i = Some g -> Q g.
Proof.
  intros Hcap Hm Hg. unfold match_here in Hm.
  destruct (run fl r Some _) as [res|] eqn:Erun; [|discriminate].
  simpl in Hm. inversion Hm; subst m.
  apply (run_forma r Hcap) in Erun. destruct Erun as (s' & Hs' & Hc & _).
  inversion Hs'; subst s'. apply Hc; [|exact Hg].
  intros g0 Hg0. discriminate.
Qed.

Lemma search_from_forma r rest :
  grupos_forma fl Q i r ->
  forall prev pos m g,
    search_from fl r prev rest pos = Some m -> group m i = Some g -> Q g.
Proof.
  intros Hcap. induction rest as [|c rest IH]; intros prev pos m g Hs Hg; simpl in Hs.
  - destruct (match_here fl r prev [] pos) as [m'|] eqn:E; [|discriminate].
    inversion Hs; subst m'. eapply match_here_forma; eassumption.
  - destruct (match_here fl r prev (c :: rest) pos) as [m'|] eqn:E.
    + inversion Hs; subst m'. eapply match_here_forma; eassumption.
    + eapply IH; eassumption.
Qed.

Lemma finditer_from_forma r :
  grupos_forma fl Q i r ->
  forall fuel prev rest pos m g,
    In m (finditer_from fuel fl r prev rest pos) -> group m i = Some g -> Q g.
Proof.
  intros Hcap. induction fuel as [|fuel IH]; intros prev rest pos m g Hin Hg; simpl in Hin.
  - contradiction.
  - destruct (search_from fl r prev rest pos) as [m0|] eqn:E; [|contradiction].
    destruct (forward _ prev rest) as [prev' rest'].
    destruct Hin as [Heq|Hin].
    + subst m0. eapply search_from_forma; eassumption.
    + destruct (length rest <? _); [contradiction|].
      eapply IH; eassumption.
Qed.

(** The text of group [i] of the matches that [re.finditer] returns. *)
Lemma re_finditer_forma r text m g :
  grupos_forma fl Q i r ->
  In m (re_finditer fl r text) -> group m i = Some g -> Q g.
Proof. intros Hcap Hin Hg. eapply finditer_from_forma; eassumption. Qed.

End Shapes.

(** ** The candidates in the order of their detectors *)

Lemma StronglySorted_concat {A} (R : A -> A -> Prop) (a b : list A) :
  StronglySorted R a -> StronglySorted R b ->
  (forall x y, In x a -> In y b -> R x y) -> StronglySorted R (a ++ b).
Proof.
  intros Ha Hb Hab. induction a as [|x a IH]; [exact Hb|].
  apply StronglySorted_inv in Ha. destruct Ha as [Ha Hx]. cbn [app]. constructor.
  - apply IH; [exact Ha|]. intros x' y Hx' Hy. apply Hab; [now right | exact Hy].
  - apply List.Forall_app. split; [exact Hx|].
    apply List.Forall_forall. intros y Hy. apply Hab; [now left | exact Hy].
Qed.

Lemma StronglySorted_pair {A} (R : A -> A -> Prop) (l1 : list A) x l2 y l3 :
  StronglySorted R (l1 ++ x :: l2 ++ y :: l3) -> R x y.
Proof.
  induction l1 as [|z l1 IH]; cbn [app]; intros H; apply StronglySorted_inv in H.
  - destruct H as [_ H]. rewrite List.Forall_forall in H. apply H.
    apply in_or_app. right. now left.
  - apply IH, H.
Qed.

Section Blocos.
Context {U : UnicodeData}.
Variables (tab : list (str * nat)) (varios : str) (boa : benef_cand -> Prop).

Lemma bloco_nil i j : bloco tab varios boa i j [].
Proof. split; constructor. Qed.

Lemma bloco_um i c :
  lugar (metodo c) tab = i -> entrada tab c -> boa c -> bloco tab varios boa i (S i) [c].
Proof.
  intros Hi He Hb. split; [repeat constructor|].
  constructor; [|constructor]. split; [lia|]. split; assumption.
Qed.

Lemma bloco_le i j i' j' r :
  i' <= i -> j <= j' -> bloco tab varios boa i j r -> bloco tab varios boa i' j' r.
Proof.
  intros Hi Hj [Hs Hall]. split; [exact Hs|].
  eapply List.Forall_impl; [|exact Hall]. intros c (Hr & He & Hb).
  split; [lia|]. split; assumption.
Qed.

Lemma bloco_app i j k a b :
  i <= j -> j <= k ->
  bloco tab varios boa i j a -> bloco tab varios boa j k b ->
  bloco tab varios boa i k (a ++ b).
Proof.
  intros Hij Hjk [Hsa Ha] [Hsb Hb]. split.
  - apply StronglySorted_concat; [exact Hsa | exact Hsb|].
    intros x y Hx Hy. rewrite List.Forall_forall in Ha, Hb.
    destruct (Ha x Hx) as (Hrx & _). destruct (Hb y Hy) as (Hry & _). left. lia.
  - apply List.Forall_app. split.
    + eapply List.Forall_impl; [|exact Ha]. intros c (Hr & He & Hc).
      split; [lia|]. split; assumption.
    + eapply List.Forall_impl; [|exact Hb]. intros c (Hr & He & Hc).
      split; [lia|]. split; assumption.
Qed.

(** The detector that registers several candidates. *)
Lemma bloco_varios i r :
  lugar varios tab = i ->
  List.Forall (fun c => metodo c = varios /\ entrada tab c /\ boa c) r ->
  bloco tab varios boa i (S i) r.
Proof.
  intros Hi Hall. split.
  - induction Hall as [|c r (Hm & _) Hr IH]; constructor; [exact IH|].
    eapply List.Forall_impl; [|exact Hr]. intros d (Hd & _). right. split; assumption.
  - eapply List.Forall_impl; [|exact Hall]. intros c (Hm & He & Hb).
    rewrite Hm, Hi. split; [lia|]. split; assumption.
Qed.

Lemma retornos_In (i j k : nat) (mi mj mk : str) (si sj sk : nat) :
  nth_error tab i = Some (mi, si) -> nth_error tab j = Some (mj, sj) ->
  nth_error tab k = Some (mk, sk) ->
  (i < j \/ (i = j /\ mi = varios)) -> (j < k \/ (j = k /\ mj = varios)) ->
  si < sj -> sj = sk ->
  In (i, k) (retornos tab varios).
Proof.
  intros Hi Hj Hk Hij Hjk Hs1 Hs2. unfold retornos. cbv zeta.
  assert (Hlen : forall n m s, nth_error tab n = Some (m, s) -> In n (seq 0 (length tab))).
  { intros n m s Hn. apply in_seq. split; [lia|]. cbn [plus].
    apply List.nth_error_Some. rewrite Hn. discriminate. }
  apply in_flat_map. exists i. split; [eapply Hlen, Hi|].
  apply in_flat_map. exists j. split; [eapply Hlen, Hj|].
  apply in_flat_map. exists k. split; [eapply Hlen, Hk|].
  rewrite Hi, Hj, Hk.
  assert (E1 : (i <? j) || ((i =? j) && str_eqb mi varios) = true).
  { destruct Hij as [Hlt|[-> ->]].
    - apply Nat.ltb_lt in Hlt. now rewrite Hlt.
    - rewrite Nat.eqb_refl, str_eqb_refl. apply orb_true_r. }
  assert (E2 : (j <? k) || ((j =? k) && str_eqb mj varios) = true).
  { destruct Hjk as [Hlt|[-> ->]].
    - apply Nat.ltb_lt in Hlt. now rewrite Hlt.
    - rewrite Nat.eqb_refl, str_eqb_refl. apply orb_true_r. }
  rewrite E1, E2. apply Nat.ltb_lt in Hs1. rewrite Hs1.
  apply Nat.eqb_eq in Hs2. rewrite Hs2. now left.
Qed.

(** In a list of registered candidates a text comes back with the score of
    a candidate that came between only at the places that the table allows;
    when the texts of these places are different, none comes back. *)
Lemma bloco_sem_retorno i j l :
  bloco tab varios boa i j l ->
  (forall e d, entrada tab e -> entrada tab d -> boa e -> boa d ->
     In (lugar (metodo e) tab, lugar (metodo d) tab) (retornos tab varios) ->
     grupo e <> grupo d) ->
  sem_retorno l.
Proof.
  intros [Hs Hall] Hret l1 e l2 c l3 d l4 Hl Hec Hcd. subst l.
  rewrite List.Forall_forall in Hall.
  destruct (Hall e) as (_ & He & Hbe); [apply in_or_app; right; now left|].
  destruct (Hall c) as (_ & Hc & _).
  { apply in_or_app. right. right. apply in_or_app. right. now left. }
  destruct (Hall d) as (_ & Hd & Hbd).
  { apply in_or_app. right. right. apply in_or_app. right. right.
    apply in_or_app. right. now left. }
  pose proof (StronglySorted_pair _ _ _ _ _ _ Hs) as Hec'.
  assert (Hcd' : antes tab varios c d).
  { replace (l1 ++ e :: l2 ++ c :: l3 ++ d :: l4)
      with ((l1 ++ e :: l2) ++ c :: l3 ++ d :: l4) in Hs
      by (rewrite <- List.app_assoc; reflexivity).
    apply (StronglySorted_pair _ _ _ _ _ _ Hs). }
  apply (Hret e d He Hd Hbe Hbd).
  eapply (retornos_In _ (lugar (metodo c) tab)); try eassumption.
  - destruct Hec' as [Hlt|[Hm1 Hm2]]; [now left|]. right.
    split; [now rewrite Hm1, Hm2 | exact Hm1].
  - destruct Hcd' as [Hlt|[Hm1 Hm2]]; [now left|]. right.
    split; [now rewrite Hm1, Hm2 | exact Hm1].
Qed.

End Blocos.

(** ** The hyphen of the names *)

Lemma drop_while_keeps (p : cp -> bool) (x : cp) (s : str) :
  In x s -> p x = false -> In x (drop_while p s).
Proof.
  intros Hin Hp. induction s as [|c s IH]; [destruct Hin|]. cbn [drop_while].
  destruct (p c) eqn:Ec; [|exact Hin].
  destruct Hin as [->|Hin]; [congruence | apply IH, Hin].
Qed.

Lemma strip_by_keeps (p : cp -> bool) (x : cp) (s : str) :
  In x s -> p x = false -> In x (strip_by p s).
Proof.
  intros Hin Hp. unfold strip_by. apply -> List.in_rev.
  apply drop_while_keeps; [|exact Hp]. apply -> List.in_rev.
  apply drop_while_keeps; assumption.
Qed.

Section Hifen.
Context {U : UnicodeData}.
Hypothesis Hh : hifen_sem_caixa.

Lemma grupo_com_hifen (c : benef_cand) (g : str) :
  nome c = strip g -> In (ch "-") g -> In (ch "-") (grupo c).
Proof.
  destruct Hh as (_ & _ & Hup & Hsp). intros Hn Hg. unfold grupo, strip.
  apply strip_by_keeps; [|exact Hsp]. apply (proj2 (Hup _)). rewrite Hn.
  apply strip_by_keeps; assumption.
Qed.

Lemma grupo_sem_hifen (c : benef_cand) (g : str) :
  nome c = strip g -> ~ In (ch "-") g -> ~ In (ch "-") (grupo c).
Proof.
  destruct Hh as (_ & _ & Hup & _). intros Hn Hg Hin. apply Hg.
  unfold grupo, strip in Hin. apply strip_by_In in Hin. apply (proj1 (Hup _)) in Hin.
  rewrite Hn in Hin. eapply strip_by_In, Hin.
Qed.

(** Under [re.IGNORECASE] the literal hyphen matches the hyphen only, and a
    set without the hyphen does not match it. *)
Lemma lit_hifen (x : cp) : in_set IGNORECASE [CChar 45] x = true -> x = ch "-".
Proof.
  destruct Hh as (H1 & _). unfold in_set. cbn [icase IGNORECASE]. intros Hx.
  apply existsb_exists in Hx. destruct Hx as (v & Hv & Hin). apply H1.
  unfold in_items in Hin. cbn [existsb item_matches] in Hin.
  rewrite orb_false_r in Hin. apply N.eqb_eq in Hin. now subst v.
Qed.

Lemma in_set_sem_hifen (items : list citem) (x : cp) :
  in_items items (ch "-") = false -> in_set IGNORECASE items x = true -> x <> ch "-".
Proof.
  destruct Hh as (_ & H2 & _). intros Hitems Hx ->. unfold in_set in Hx.
  cbn [icase IGNORECASE] in Hx. apply existsb_exists in Hx. destruct Hx as (v & Hv & Hin).
  apply H2 in Hv. subst v. congruence.
Qed.

Lemma sem_hifen_letras : in_items [CRange 65 90] (ch "-") = false.
Proof. reflexivity. Qed.

Lemma sem_hifen_letras_espaco : in_items [CRange 65 90; CSpace] (ch "-") = false.
Proof.
  destruct Hh as (_ & _ & _ & Hsp). unfold in_items. cbn [existsb item_matches].
  rewrite Hsp. reflexivity.
Qed.

Lemma sem_hifen_lit (c : cp) : (c =? ch "-")%N = false -> in_items [CChar c] (ch "-") = false.
Proof.
  intros Hc. unfold in_items. cbn [existsb item_matches]. rewrite N.eqb_sym, Hc. reflexivity.
Qed.

End Hifen.

(** [parse_pattern] puts the expression that a pattern denotes in its place. *)
Ltac parse_pattern :=
  match goal with
  | |- context [re_compile ?p] =>
    let r := eval vm_compute in (re_compile p) in change (re_compile p) with r
  end.

(** [sem_hifen Hh] proves that group 1 of a pattern consumes no hyphen. *)
Ltac sem_hifen Hh :=
  parse_pattern; cbn [captures_within within];
  repeat match goal with
         | |- _ /\ _ => split
         | |- True => exact I
         | |- _ = _ -> _ => intros _
         | |- forall x, xorb false (in_set IGNORECASE [CRange 65 90] x) = true -> _ =>
           let x := fresh "x" in let Hx := fresh "Hx" in
           intros x Hx; cbn [xorb] in Hx; revert Hx;
           apply (in_set_sem_hifen Hh); exact sem_hifen_letras
         | |- forall x, xorb false (in_set IGNORECASE [CRange 65 90; CSpace] x) = true -> _ =>
           let x := fresh "x" in let Hx := fresh "Hx" in
           intros x Hx; cbn [xorb] in Hx; revert Hx;
           apply (in_set_sem_hifen Hh); exact (sem_hifen_letras_espaco Hh)
         | |- forall x, in_set IGNORECASE [CChar _] x = true -> _ =>
           intros ?; apply (in_set_sem_hifen Hh); apply sem_hifen_lit; reflexivity
         end.

Section Hifens.
Context {U : UnicodeData}.
Hypothesis Hh : hifen_sem_caixa.

Lemma forward_sem_hifen :
  captures_within IGNORECASE (fun x => x <> ch "-") 1
    (re_compile "Raz[aã]o\s+Social\s+Benefici[aá]rio[:\s]+([A-Z][A-Z\s]+LTDA|[A-Z][A-Z\s]+S\.?A\.?|[A-Z][A-Z\s]{10,60}?)(?:\s*(?:013|037|CPF|CNPJ|Nome|Banco|\d{3}\.\d{3}))").
Proof. sem_hifen Hh. Qed.

Lemma favorecido_sem_hifen :
  captures_within IGNORECASE (fun x => x <> ch "-") 1
    (re_compile "Favorecido[:\s]+([A-Z][A-Z\s]+?)(?:\s+Valor|\s+CNPJ|\s+CPF)").
Proof. sem_hifen Hh. Qed.

(** Every text that the RJ pattern captures has a hyphen. *)
Lemma rj_com_hifen :
  grupos_forma IGNORECASE (fun g => In (ch "-") g) 1
    (re_compile "\b(RJ-[A-Z\s]+(?:ELETRONICA|DIGITAL)?)\b").
Proof.
  parse_pattern. cbn [grupos_forma]. repeat split; try exact I.
  intros _ w Hw. cbn [forma] in Hw.
  destruct Hw as (a1 & b1 & -> & (x1 & -> & _) & a2 & b2 & -> & (x2 & -> & _)
                  & a3 & b3 & -> & (h & -> & Hhx) & _).
  apply lit_hifen in Hhx; [|exact Hh]. subst h. cbn [app]. right. right. now left.
Qed.

Lemma rj_nomes (texto n : str) :
  In n (re_findall1 IGNORECASE (re_compile "\b(RJ-[A-Z\s]+(?:ELETRONICA|DIGITAL)?)\b") texto) ->
  n = [] \/ In (ch "-") n.
Proof.
  unfold re_findall1. intros Hin. apply in_map_iff in Hin. destruct Hin as (m & Hn & Hm).
  destruct (group m 1) as [g|] eqn:Eg; [|now left]. subst n. right.
  exact (re_finditer_forma IGNORECASE _ 1 _ texto m g rj_com_hifen Hm Eg).
Qed.

End Hifens.

(** ** The candidates of a text *)

Lemma str_eqb_neq (a b : str) : str_eqb a b = false -> a <> b.
Proof. intros H Heq. apply str_eqb_eq in Heq. congruence. Qed.

(** [lugar_de] settles the place and the entry of a method in a table. *)
Ltac lugar_de := vm_compute; reflexivity.

Section SanitizedBlocks.
Context {U : UnicodeData} {F : FloatParse}.

Lemma sanitized_detector_upper_bloco fl pattern text min_len sc met r i :
  Sanitized.detector_upper fl pattern text min_len sc met = Ok r ->
  lugar met detectores_sanitized = i ->
  nth_error detectores_sanitized i = Some (met, sc) ->
  bloco detectores_sanitized [] (fun _ => True) i (S i) r.
Proof.
  unfold Sanitized.detector_upper. intros H Hi Hn.
  destruct (re_search fl pattern text) as [m|]; [|inversion H; apply bloco_nil].
  destruct (group_str m 1) as [g|e]; [|discriminate].
  cbv beta iota delta [bind] in H. cbv zeta in H.
  destruct (Sanitized.validar_nome _ min_len); inversion H; [|apply bloco_nil].
  apply bloco_um; [exact Hi | | exact I].
  unfold entrada. cbn [metodo score]. rewrite Hi. exact Hn.
Qed.

Lemma sanitized_detector_raw_bloco fl pattern text min_len sc met r i :
  Sanitized.detector_raw fl pattern text min_len sc met = Ok r ->
  lugar met detectores_sanitized = i ->
  nth_error detectores_sanitized i = Some (met, sc) ->
  bloco detectores_sanitized [] (fun _ => True) i (S i) r.
Proof.
  unfold Sanitized.detector_raw. intros H Hi Hn.
  destruct (re_search fl pattern text) as [m|]; [|inversion H; apply bloco_nil].
  destruct (group_str m 1) as [g|e]; [|discriminate].
  cbv beta iota delta [bind] in H. cbv zeta in H.
  destruct (Sanitized.validar_nome _ min_len); inversion H; [|apply bloco_nil].
  apply bloco_um; [exact Hi | | exact I].
  unfold entrada. cbn [metodo score]. rewrite Hi. exact Hn.
Qed.

(** The candidates of the sanitized script are those of its five detectors,
    in their order. *)
Lemma sanitized_candidatos_bloco (texto : str) (l : list benef_cand) :
  Sanitized.candidatos texto = Ok l ->
  bloco detectores_sanitized [] (fun _ => True) 0 5 l.
Proof.
  unfold Sanitized.candidatos. cbv zeta. intros H. steps H. injection H as <-.
  apply (bloco_app _ _ _ 0 1 5); [lia | lia | |].
  { eapply sanitized_detector_upper_bloco; [eassumption | lugar_de | lugar_de]. }
  apply (bloco_app _ _ _ 1 2 5); [lia | lia | |].
  { eapply sanitized_detector_upper_bloco; [eassumption | lugar_de | lugar_de]. }
  apply (bloco_app _ _ _ 2 3 5); [lia | lia | |].
  { eapply sanitized_detector_upper_bloco; [eassumption | lugar_de | lugar_de]. }
  apply (bloco_app _ _ _ 3 4 5); [lia | lia | |].
  { eapply sanitized_detector_raw_bloco; [eassumption | lugar_de | lugar_de]. }
  eapply sanitized_detector_raw_bloco; [eassumption | lugar_de | lugar_de].
Qed.

(** In the sanitized script no text comes back with the score of a
    candidate that came between: the scores 22, 15, 19, 10, 10 of the
    detectors leave no place for it. *)
Lemma sanitized_sem_retorno (texto : str) (l : list benef_cand) :
  Sanitized.candidatos texto = Ok l -> sem_retorno l.
Proof.
  intros Hl. apply sanitized_candidatos_bloco in Hl.
  eapply bloco_sem_retorno; [exact Hl|].
  intros e d _ _ _ _ Hin. exfalso.
  assert (Hr : retornos detectores_sanitized [] = []) by (vm_compute; reflexivity).
  rewrite Hr in Hin. destruct Hin.
Qed.

End SanitizedBlocks.

Section V16Blocks.
Context {U : UnicodeData} {F : FloatParse}.
Hypothesis Hh : hifen_sem_caixa.

(** The candidates of the other detectors say nothing of the hyphen. *)
Lemma hifens_outro (n : str) (sc : nat) (met : str) :
  str_eqb met (u "IMPOSTO-padrao-RJ") = false ->
  str_eqb met (u "BOLETO-razao-social-forward") = false ->
  str_eqb met (u "Santander-favorecido") = false ->
  hifens {| nome := n; score := sc; metodo := met |}.
Proof.
  intros H1 H2 H3. apply str_eqb_neq in H1, H2, H3. split; cbn [metodo].
  - intros H. destruct (H1 H).
  - intros [H|H]; [destruct (H2 H) | destruct (H3 H)].
Qed.

Lemma v16_um_candidato_bloco ok n sc met i :
  lugar met detectores_v16 = i ->
  nth_error detectores_v16 i = Some (met, sc) ->
  (ok = true -> hifens {| nome := n; score := sc; metodo := met |}) ->
  bloco detectores_v16 (u "IMPOSTO-padrao-RJ") hifens i (S i) (V16.um_candidato ok n sc met).
Proof.
  intros Hi Hn Hb. unfold V16.um_candidato. destruct ok; [|apply bloco_nil].
  apply bloco_um; [exact Hi | | now apply Hb].
  unfold entrada. cbn [metodo score]. rewrite Hi. exact Hn.
Qed.

Lemma v16_detector_upper_bloco fl pattern text min_len sc met r i :
  V16.detector_upper fl pattern text min_len sc met = Ok r ->
  lugar met detectores_v16 = i ->
  nth_error detectores_v16 i = Some (met, sc) ->
  str_eqb met (u "IMPOSTO-padrao-RJ") = false ->
  str_eqb met (u "BOLETO-razao-social-forward") = false ->
  str_eqb met (u "Santander-favorecido") = false ->
  bloco detectores_v16 (u "IMPOSTO-padrao-RJ") hifens i (S i) r.
Proof.
  unfold V16.detector_upper. intros H Hi Hn H1 H2 H3.
  destruct (re_search fl pattern text) as [m|]; [|inversion H; apply bloco_nil].
  destruct (group_str m 1) as [g|e]; [|discriminate].
  cbv beta iota delta [bind] in H. cbv zeta in H. inversion H.
  apply v16_um_candidato_bloco; [exact Hi | exact Hn|]. intros _. now apply hifens_outro.
Qed.

Lemma v16_detector_raw_bloco fl pattern text min_len sc met r i :
  V16.detector_raw fl pattern text min_len sc met = Ok r ->
  lugar met detectores_v16 = i ->
  nth_error detectores_v16 i = Some (met, sc) ->
  str_eqb met (u "IMPOSTO-padrao-RJ") = false ->
  str_eqb met (u "BOLETO-razao-social-forward") = false ->
  str_eqb met (u "Santander-favorecido") = false ->
  bloco detectores_v16 (u "IMPOSTO-padrao-RJ") hifens i (S i) r.
Proof.
  unfold V16.detector_raw. intros H Hi Hn H1 H2 H3.
  destruct (re_search fl pattern text) as [m|]; [|inversion H; apply bloco_nil].
  destruct (group_str m 1) as [g|e]; [|discriminate].
  cbv beta iota delta [bind] in H. cbv zeta in H. inversion H.
  apply v16_um_candidato_bloco; [exact Hi | exact Hn|]. intros _. now apply hifens_outro.
Qed.

(** A detector that keeps a capture without hyphen gives a name without
    hyphen. *)
Lemma v16_detector_raw_sem_hifen pattern text min_len sc met r i :
  captures_within IGNORECASE (fun x => x <> ch "-") 1 pattern ->
  V16.detector_raw IGNORECASE pattern text min_len sc met = Ok r ->
  lugar met detectores_v16 = i ->
  nth_error detectores_v16 i = Some (met, sc) ->
  str_eqb met (u "IMPOSTO-padrao-RJ") = false ->
  bloco detectores_v16 (u "IMPOSTO-padrao-RJ") hifens i (S i) r.
Proof.
  unfold V16.detector_raw. intros Hcap H Hi Hn H1.
  destruct (re_search IGNORECASE pattern text) as [m|] eqn:Es; [|inversion H; apply bloco_nil].
  unfold group_str in H. destruct (group m 1) as [g|] eqn:Eg; [|discriminate].
  cbv beta iota delta [bind] in H. cbv zeta in H. inversion H.
  apply v16_um_candidato_bloco; [exact Hi | exact Hn|]. intros _.
  apply str_eqb_neq in H1. split; cbn [metodo]; [intros Hm; contradiction|]. intros _.
  apply (grupo_sem_hifen Hh _ g); [reflexivity|].
  pose proof (re_search_captures IGNORECASE _ 1 pattern text m g Hcap Es Eg) as Hall.
  intros Hin. rewrite List.Forall_forall in Hall. now apply (Hall _ Hin).
Qed.

Lemma v16_det_bradesco_controle_bloco texto_clean r :
  V16.det_bradesco_controle texto_clean = Ok r ->
  bloco detectores_v16 (u "IMPOSTO-padrao-RJ") hifens 0 1 r.
Proof.
  unfold V16.det_bradesco_controle. intros H.
  destruct (re_search _ _ _) as [m|]; [|inversion H; apply bloco_nil].
  destruct (group_str m 1) as [g|e]; [|discriminate].
  cbv beta iota delta [bind] in H. cbv zeta in H. inversion H.
  apply v16_um_candidato_bloco; [lugar_de | lugar_de|]. intros _.
  apply hifens_outro; lugar_de.
Qed.

Lemma v16_det_pix_bloco texto texto_clean r :
  V16.det_pix texto texto_clean = Ok r ->
  bloco detectores_v16 (u "IMPOSTO-padrao-RJ") hifens 4 6 r.
Proof.
  unfold V16.det_pix. intros H.
  destruct (contains _ _); [|inversion H; apply bloco_nil].
  cbv zeta in H.
  match type of H with
  | match ?x with Some _ => _ | None => _ end = _ => destruct x as [m|]
  end; [|inversion H; apply bloco_nil].
  destruct (group_str m 1) as [g|e]; [|discriminate].
  cbv beta iota delta [bind] in H. cbv zeta in H.
  destruct (_ || _); [inversion H; apply bloco_nil|].
  destruct (contains _ texto); inversion H.
  - apply (bloco_le _ _ _ 4 5); [lia | lia|].
    apply v16_um_candidato_bloco; [lugar_de | lugar_de|]. intros _.
    apply hifens_outro; lugar_de.
  - apply (bloco_le _ _ _ 5 6); [lia | lia|].
    apply v16_um_candidato_bloco; [lugar_de | lugar_de|]. intros _.
    apply hifens_outro; lugar_de.
Qed.

Lemma v16_det_sicoob_bloco texto r :
  V16.det_sicoob texto = Ok r ->
  bloco detectores_v16 (u "IMPOSTO-padrao-RJ") hifens 8 9 r.
Proof.
  unfold V16.det_sicoob. intros H.
  destruct (contains _ _); [|inversion H; apply bloco_nil].
  destruct (re_search _ _ _) as [m|]; [|inversion H; apply bloco_nil].
  destruct (group_str m 1) as [g|e]; [|discriminate].
  cbv beta iota delta [bind] in H. cbv zeta in H.
  destruct (_ && _); inversion H; [apply bloco_nil|].
  apply v16_um_candidato_bloco; [lugar_de | lugar_de|]. intros _.
  apply hifens_outro; lugar_de.
Qed.

Lemma v16_det_imposto_bloco texto texto_clean r :
  V16.det_imposto texto texto_clean = Ok r ->
  bloco detectores_v16 (u "IMPOSTO-padrao-RJ") hifens 10 12 r.
Proof.
  unfold V16.det_imposto. intros H.
  destruct (is_some _); [|inversion H; apply bloco_nil].
  steps H. cbv zeta in H. inversion H.
  apply (bloco_app _ _ _ 10 11 12); [lia | lia | |].
  { eapply v16_detector_raw_bloco; [eassumption | lugar_de ..]. }
  apply bloco_varios; [lugar_de|].
  apply List.Forall_forall. intros c Hc. apply in_flat_map in Hc.
  destruct Hc as (n & Hn & Hc). unfold V16.um_candidato in Hc.
  destruct (V16.validar_nome n 5) eqn:Ev; [|destruct Hc].
  destruct Hc as [<-|[]]. split; [reflexivity|]. split; [lugar_de|].
  split; cbn [metodo].
  - intros _. apply (grupo_com_hifen Hh _ n); [reflexivity|].
    destruct (rj_nomes Hh _ _ Hn) as [->|Hin]; [|exact Hin].
    unfold V16.validar_nome in Ev. rewrite v16_rejects_short in Ev; [discriminate|].
    cbn [length]. lia.
  - intros [Hm|Hm]; apply str_eqb_eq in Hm; vm_compute in Hm; discriminate Hm.
Qed.

Lemma v16_det_boleto_bloco texto texto_clean r :
  V16.det_boleto texto texto_clean = Ok r ->
  bloco detectores_v16 (u "IMPOSTO-padrao-RJ") hifens 12 15 r.
Proof.
  unfold V16.det_boleto. intros H.
  destruct (_ || _); [|inversion H; apply bloco_nil].
  steps H. inversion H.
  apply (bloco_app _ _ _ 12 13 15); [lia | lia | |].
  { eapply v16_detector_upper_bloco; [eassumption | lugar_de ..]. }
  apply (bloco_app _ _ _ 13 14 15); [lia | lia | |].
  { eapply v16_detector_raw_sem_hifen; [apply (forward_sem_hifen Hh) | eassumption | lugar_de ..]. }
  eapply v16_detector_raw_bloco; [eassumption | lugar_de ..].
Qed.

(** The candidates of the v16 script are those of its sixteen detectors, in
    their order; only the RJ pattern registers several. *)
Lemma v16_candidatos_bloco (texto : str) (l : list benef_cand) :
  V16.candidatos texto = Ok l ->
  bloco detectores_v16 (u "IMPOSTO-padrao-RJ") hifens 0 16 l.
Proof.
  unfold V16.candidatos. cbv zeta. intros H. steps H. injection H as <-.
  apply (bloco_app _ _ _ 0 1 16); [lia | lia | |].
  { eapply v16_det_bradesco_controle_bloco. eassumption. }
  apply (bloco_app _ _ _ 1 2 16); [lia | lia | |].
  { eapply v16_detector_upper_bloco; [eassumption | lugar_de ..]. }
  apply (bloco_app _ _ _ 2 3 16); [lia | lia | |].
  { match goal with
    | E : (if ?b then _ else _) = Ok ?r |- bloco _ _ _ _ _ ?r =>
      destruct b; [|inversion E; apply bloco_nil];
        eapply v16_detector_upper_bloco; [exact E | lugar_de ..]
    end. }
  apply (bloco_app _ _ _ 3 4 16); [lia | lia | |].
  { eapply v16_detector_upper_bloco; [eassumption | lugar_de ..]. }
  apply (bloco_app _ _ _ 4 6 16); [lia | lia | |].
  { eapply v16_det_pix_bloco. eassumption. }
  apply (bloco_app _ _ _ 6 7 16); [lia | lia | |].
  { eapply v16_detector_upper_bloco; [eassumption | lugar_de ..]. }
  apply (bloco_app _ _ _ 7 8 16); [lia | lia | |].
  { eapply v16_detector_upper_bloco; [eassumption | lugar_de ..]. }
  apply (bloco_app _ _ _ 8 9 16); [lia | lia | |].
  { eapply v16_det_sicoob_bloco. eassumption. }
  apply (bloco_app _ _ _ 9 10 16); [lia | lia | |].
  { match goal with
    | E : (if ?b then _ else _) = Ok ?r |- bloco _ _ _ _ _ ?r =>
      destruct b; [|inversion E; apply bloco_nil];
        eapply v16_detector_raw_bloco; [exact E | lugar_de ..]
    end. }
  apply (bloco_app _ _ _ 10 12 16); [lia | lia | |].
  { eapply v16_det_imposto_bloco. eassumption. }
  apply (bloco_app _ _ _ 12 15 16); [lia | lia | |].
  { eapply v16_det_boleto_bloco. eassumption. }
  eapply v16_detector_raw_sem_hifen;
    [apply (favorecido_sem_hifen Hh) | eassumption | lugar_de ..].
Qed.

(** In the v16 script a text comes back with the score of a candidate that
    came between only if a name of the RJ pattern (score 9) is found again
    by the forward or the Favorecido pattern (score 10) after another
    candidate of score 10; the first has a hyphen and the others have none. *)
Lemma v16_sem_retorno (texto : str) (l : list benef_cand) :
  V16.candidatos texto = Ok l -> sem_retorno l.
Proof.
  intros Hl. apply v16_candidatos_bloco in Hl.
  eapply bloco_sem_retorno; [exact Hl|].
  intros e d He Hd [Hrj _] [_ Hfw] Hin Heq.
  assert (Hr : retornos detectores_v16 (u "IMPOSTO-padrao-RJ") = [(11, 13); (11, 15); (11, 15)])
    by (vm_compute; reflexivity).
  rewrite Hr in Hin. clear Hr. unfold entrada in He, Hd.
  remember (lugar (metodo e) detectores_v16) as ie eqn:Eie.
  remember (lugar (metodo d) detectores_v16) as id eqn:Eid.
  assert (Hed : ie = 11 /\ (id = 13 \/ id = 15)).
  { destruct Hin as [Hp|[Hp|[Hp|[]]]]; inversion Hp; split; [reflexivity | | reflexivity | | reflexivity |];
      [left | right | right]; reflexivity. }
  destruct Hed as [Ie Id]. clear Hin Eie Eid. subst ie.
  assert (Hme : metodo e = u "IMPOSTO-padrao-RJ").
  { change (nth_error detectores_v16 11) with (Some (u "IMPOSTO-padrao-RJ", 9)) in He.
    injection He as Hm _. symmetry. exact Hm. }
  assert (Hmd : metodo d = u "BOLETO-razao-social-forward"
                \/ metodo d = u "Santander-favorecido").
  { destruct Id as [Id|Id]; subst id.
    - change (nth_error detectores_v16 13) with (Some (u "BOLETO-razao-social-forward", 10)) in Hd.
      injection Hd as Hm _. left. symmetry. exact Hm.
    - change (nth_error detectores_v16 15) with (Some (u "Santander-favorecido", 10)) in Hd.
      injection Hd as Hm _. right. symmetry. exact Hm. }
  apply (Hfw Hmd). rewrite <- Heq. apply Hrj, Hme.
Qed.

End V16Blocks.

(** ** The decision *)

(** The Latin-1 runtime gives no case to the hyphen. *)
Lemma latin1_upper_hifen (s : str) : In (ch "-") (Latin1.upper s) <-> In (ch "-") s.
Proof.
  unfold Latin1.upper. rewrite in_flat_map. split.
  - intros (c & Hc & Hin). change (ch "-") with 45%N in *.
    assert (Hc45 : c = 45%N); [|now subst c].
    repeat match type of Hin with
           | In _ (if ?b then _ else _) => destruct b
           end;
      cbn [In] in Hin;
      repeat match type of Hin with
             | _ \/ _ => destruct Hin as [Hin|Hin]
             end;
      try contradiction; try discriminate Hin.
    assert (Hs : (Latin1.upper1 c < 58)%N) by (rewrite Hin; reflexivity).
    now rewrite (upper1_small c Hs) in Hin.
  - intros Hin. exists (ch "-"). split; [exact Hin|]. vm_compute. now left.
Qed.

Lemma latin1_hifen_sem_caixa : @hifen_sem_caixa Latin1.unicode.
Proof.
  split; [|split; [|split]].
  - intros x Hv. cbn [case_variants Latin1.unicode] in Hv.
    unfold Latin1.variants in Hv. cbv zeta in Hv.
    destruct Hv as [Hv|[Hv|[Hv|Hv]]].
    + exact Hv.
    + assert (Hs : (Latin1.lower1 x < 58)%N) by (rewrite Hv; reflexivity).
      now rewrite (lower1_small x Hs) in Hv.
    + assert (Hs : (Latin1.upper1 (Latin1.lower1 x) < 58)%N) by (rewrite Hv; reflexivity).
      rewrite (upper1_small _ Hs) in Hv.
      assert (Hs' : (Latin1.lower1 x < 58)%N) by (rewrite Hv; reflexivity).
      now rewrite (lower1_small x Hs') in Hv.
    + exfalso. unfold Latin1.equivalents in Hv.
      repeat match type of Hv with
             | context [if ?b then _ else _] => destruct b
             end;
        simpl in Hv; repeat (destruct Hv as [Hv|Hv]; [vm_compute in Hv; discriminate Hv|]);
        destruct Hv.
  - intros v Hv. vm_compute in Hv.
    repeat (destruct Hv as [Hv|Hv]; [now symmetry|]). destruct Hv.
  - exact latin1_upper_hifen.
  - reflexivity.
Qed.

(** C4: the decision groups the candidates by their upper-cased, stripped
    text and keeps in each group a candidate of the highest score of the
    group; it returns the text of a candidate of the highest score overall,
    and "FORNECEDOR_DESCONHECIDO" without candidates.  Over the candidates
    that the extractors register for a text, the candidate returned is the
    first-registered one of the highest score: in the sanitized script for
    every runtime, in the v16 script for every runtime in which the hyphen
    has no case.  Both extractors return the sentinel on the empty text and
    this decision over their candidates otherwise. *)
Theorem C4_decisao_final :
  forall (U : UnicodeData) (F : FloatParse),
    (forall l : list benef_cand,
       grupos_ok l (unicos_benef l)
       /\ match l with
          | [] => decisao_final l = FORNECEDOR_DESCONHECIDO
          | _ => exists m, vencedor l m /\ decisao_final l = nome m
          end)
    /\ V16.extrair_beneficiario [] = Ok FORNECEDOR_DESCONHECIDO
    /\ Sanitized.extrair_beneficiario [] = Ok FORNECEDOR_DESCONHECIDO
    /\ (forall texto : str,
          texto <> [] ->
          exists l, Sanitized.candidatos texto = Ok l
            /\ Sanitized.extrair_beneficiario texto = Ok (decisao_final l)
            /\ match l with
               | [] => decisao_final l = FORNECEDOR_DESCONHECIDO
               | _ => exists m, primeiro_do_topo l m /\ decisao_final l = nome m
               end)
    /\ (hifen_sem_caixa ->
        forall texto : str,
          texto <> [] ->
          exists l, V16.candidatos texto = Ok l
            /\ V16.extrair_beneficiario texto = Ok (decisao_final l)
            /\ match l with
               | [] => decisao_final l = FORNECEDOR_DESCONHECIDO
               | _ => exists m, primeiro_do_topo l m /\ decisao_final l = nome m
               end).
Proof.
  intros U F.
  assert (Hfirst : forall l : list benef_cand,
             sem_retorno l ->
             match l with
             | [] => decisao_final l = FORNECEDOR_DESCONHECIDO
             | _ => exists m, primeiro_do_topo l m /\ decisao_final l = nome m
             end).
  { intros l Hsem. pose proof (melhor_benef_sem_retorno l Hsem) as Hm.
    pose proof (py_max_primeiro l) as Hp. unfold decisao_final. rewrite Hm.
    destruct l as [|c0 l0]; [reflexivity|].
    destruct (py_max score (c0 :: l0)) as [m|]; [|discriminate Hp].
    exists m. split; [exact Hp | reflexivity]. }
  split; [|split; [reflexivity|split; [reflexivity|split]]].
  - intros l. split; [apply unicos_benef_ok | apply decisao_final_spec].
  - intros texto Hne. pose proof (sanitized_extrair_beneficiario_de texto) as Hde.
    destruct texto as [|c0 t0]; [congruence|].
    destruct Hde as (l & Hl & He). exists l. split; [exact Hl|]. split; [exact He|].
    apply Hfirst. eapply sanitized_sem_retorno, Hl.
  - intros Hh texto Hne. pose proof (v16_extrair_beneficiario_de texto) as Hde.
    destruct texto as [|c0 t0]; [congruence|].
    destruct Hde as (l & Hl & He). exists l. split; [exact Hl|]. split; [exact He|].
    apply Hfirst. eapply (v16_sem_retorno Hh), Hl.
Qed.

(** C4 on the Latin-1 runtime: a name of the RJ pattern (score 9) comes
    before two candidates of score 10, of which the first-registered is
    returned. *)
Lemma C4_witness :
  let texto :=
    u "TAXA RJ-ALFA DIGITAL Beneficiário: Nome/Razão Social: BETA COMERCIO LTDA CPF/CNPJ 1 Favorecido: ALFA LTDA CNPJ 2" in
  (exists l m, V16.candidatos texto = Ok l /\ primeiro_do_topo l m
               /\ V16.extrair_beneficiario texto = Ok (nome m))
  /\ V16.candidatos texto
     = Ok [ {| nome := u "RJ-ALFA DIGITAL"; score := 9; metodo := u "IMPOSTO-padrao-RJ" |};
            {| nome := u "BETA COMERCIO LTDA"; score := 10; metodo := u "SICOOB-BOLETO-V19" |};
            {| nome := u "ALFA LTDA"; score := 10; metodo := u "Santander-favorecido" |} ]
  /\ V16.extrair_beneficiario texto = Ok (u "BETA COMERCIO LTDA").
Proof.
  cbv zeta. split; [|split; vm_compute; reflexivity].
  destruct (C4_decisao_final Latin1.unicode Decimal.decimal_float) as (_ & _ & _ & _ & Hv16).
  destruct (Hv16 latin1_hifen_sem_caixa
              (u "TAXA RJ-ALFA DIGITAL Beneficiário: Nome/Razão Social: BETA COMERCIO LTDA CPF/CNPJ 1 Favorecido: ALFA LTDA CNPJ 2"))
    as (l & Hl & He & Hm); [vm_compute; discriminate|].
  destruct l as [|c0 l0].
  - exfalso. vm_compute in Hl. discriminate Hl.
  - destruct Hm as (m & Hp & Hn). exists (c0 :: l0), m.
    split; [exact Hl|]. split; [exact Hp|]. rewrite He, Hn. reflexivity.
Defined.
